(* ===== verification/_CoqProject ===== *)
-Q . S2P
Prelude.v
GoSem.v
GoStrings.v
GoFloat.v
CdcDecimal.v
KafkaTracker.v
Delivery.v
KafkaConsumer.v
KafkaVariants.v
KafkaChans.v
KafkaBench.v
KafkaAdmin.v
Performance.v
PerfShutdown.v
Transactions.v
KafkaEvents.v
Outbox.v
EndToEnd.v
KafkaDelivery.v
OutboxDelivery.v
OutboxPipeline.v
Cdc.v
CdcDelivery.v
CdcPayment.v
CdcInfra.v
Servers.v
CdcWiring.v
ChatWorkers.v
ChatRooms.v
ChatClientLoop.v
ChatFlow.v
ChatConn.v
ChatHandlers.v
ChatHub.v
Playground.v
Aggregator.v
AggregatorFlow.v
SensorPipeline.v
PlaygroundWiring.v
RateLimiter.v
Boids.v
BoidsView.v
Metrics.v
