(* ===== verification/Prelude.v ===== *)
(** * go-api-practice: a verification development (root file)

    The repository holds several Go programs that share a theme: consumers of
    Kafka that track which messages are processed and commit offsets for them,
    services with an outbox, an inbox or change data capture around a Postgres
    database, three versions of a chat server with a rate limiter, a benchmark
    of trackers, a playground of protocols, and a simulation of boids.  This
    library models their state and operations as executable functions and proves
    what makes them correct, or, where the code does not do what it means to,
    what it does instead.

    ** Conventions

    - An operation of the code is a [Definition] (or a [Fixpoint]) of the same
      name.  It yields an [outcome] (GoSem.v): it returns, panics, or blocks
      (waits for something that the current state does not provide).  Code
      that threads a state is written in the monad [GO].
    - Go's errors are values of [error]; pairs of a value and an error of which
      the value is used only without an error are a [result].
    - Integers are [Z]; the wrap-around of [int64], [int32] and [uint32] is
      written where the code computes (Prelude.v).  Maps are [gmap]s, sets of
      identifiers are [gset]s, and the loops over Go maps use the order of
      [elements], on which no theorem depends.
    - A mutex that some path leaves held is part of the state ([RWMutex]); one
      that every path releases makes its critical section one step.
      Goroutines are state machines over the points between their critical
      sections, and their interleavings are step relations closed by [rtc].
    - A [float64] is a value of SpecFloat with each operation rounded on its
      own, as on amd64 (no fused operations); a conversion to [int] of a value
      out of range is an argument.  Clock readings are arguments.
    - Code outside the repository (the Kafka client and broker, the database
      and its driver, schema decoders, gRPC streams, random numbers and the
      clock) is an argument of the definitions that use it: a function giving
      its answers, with what is relied on stated as a hypothesis.  The class
      [KafkaLib] holds the one fact used of the client's constants.
    - Loops that are not structural run on fuel, and running out of it is
      [Block], which the theorems exclude: [find_fuel] allows one iteration per
      offset of the scanned range, [send_fuel] one per byte of the file.  The
      waits that may last forever (for a topic, for a message) consume the list
      of the environment's answers instead.

    ** Files

    - Prelude.v: machine integers, tactics ([case_go], [zbool]), invariants and
      simulations over [rtc], emptiness of maps.
    - GoSem.v: outcomes, the state monad, errors, [sync.RWMutex].
    - GoStrings.v: [strings.Split], [strings.Join], [strings.Contains], [filepath.Ext],
      [filepath.Clean] and [filepath.Join].
    - KafkaTracker.v: kafka/internal/consumer/partition-state.go, the tracker
      of one partition; [FindLatestToCommit] computes the reference answer of
      the scan ([scan_result]), and one processed message it does not commit.
    - Delivery.v: the tracker with its environment (messages arrive, handlers
      report, the goroutine commits, the partition is revoked) as a step
      relation: at-least-once delivery, its refinement of an abstract machine,
      and progress once everything is processed.
    - KafkaConsumer.v: kafka/internal/consumer/consumer.go, the rebalance
      callbacks, the consume loop and the two deadlocks of its mutex.
    - KafkaVariants.v: the copies of that consumer in kafka-outbox and
      kafka-cdc, where they differ, and what two topics and undecodable
      messages do to the first.
    - KafkaChans.v: kafka-chans, the tracker driven by channels.
    - KafkaAdmin.v: creation of the topic and the wait for it, in the six
      consumers that have it.
    - Performance.v: performance/, the three benchmarked trackers (they agree)
      and the server that runs the benchmarks.
    - PerfShutdown.v: how these trackers start and stop, with the goroutines
      that [init] starts ([TickLoops], [Chans]).
    - Transactions.v: the [TxClosure]s and the test for duplicate keys.
    - KafkaEvents.v: the random keys of all services, and the events of kafka
      and kafka-chans with the handlers that store them.
    - Outbox.v: kafka-outbox, payments with their events, the outbox run and the
      inbox.
    - KafkaBench.v: the benchmark servers of kafka and kafka-chans.
    - CdcDecimal.v: kafka-cdc, the decoding of Debezium's decimals (base64,
      [big.Int], [big.Float]).
    - CdcPayment.v: kafka-cdc, the payment service with its repositories, and
      the Avro mapping.
    - CdcInfra.v: kafka-cdc, the migration tool, the registration of connectors
      and the encoders.
    - EndToEnd.v: the tracker of Delivery.v in front of a service that keeps
      the interface [MessageStore], and a proof of it for the services that tell
      the tracker before they commit ([OpensOne]): KafkaDelivery.v for the events
      of kafka, OutboxDelivery.v for the inbox of kafka-outbox.  CdcDelivery.v
      discharges [MessageStore] for the inventory of kafka-cdc.
    - OutboxPipeline.v: payments, the outbox, the broker and the inbox together,
      and the channel they implement ([Exactly]).
    - Cdc.v: kafka-cdc, error codes, the payment router, and the inventory
      service from the message to the tables and the tracker.
    - CdcWiring.v: kafka-cdc, the connection strings, the texts of errors, and the
      start of its two servers over CdcInfra.v and Servers.v.
    - Servers.v: the commands of the Kafka services (flags, tickers, message
      handlers, HTTP routes) and the producers.
    - ChatWorkers.v: chat/with-workers, the accept loop over workers and rooms.
    - ChatRooms.v: chat/with-loop-per-client, the server over Kafka with its
      ring buffers, backpressure and throttler.
    - ChatFlow.v: the throttler of that server with its goroutines, and its
      broadcast under backpressure.
    - ChatClientLoop.v: chat/client-loop, membership and the leaked lock.
    - ChatConn.v: the goroutines of one connection in each chat server, pings,
      the broadcast hub's requests, and how the servers shut down.
    - ChatHandlers.v: the HTTP handlers and the reading goroutines of the chat
      servers, as the source of the accept loops' events.
    - ChatHub.v: the broadcast hub of chat/client-loop, with its goroutines and
      channels: who receives what, and that it comes to rest.
    - Playground.v: protocol-playground, file upload and the event bus.
    - Aggregator.v: protocol-playground, the aggregator, the invoice service,
      their gRPC and HTTP transports and the reading loops.
    - AggregatorFlow.v: the aggregator's process, from the messages of Kafka over
      the event bus to the service and its invoices.
    - SensorPipeline.v: protocol-playground, the readings of the sensors from the
      websockets through the gRPC stream to the invoicer and back.
    - PlaygroundWiring.v: protocol-playground, the simulated sensors, the receiver
      of their readings, the aggregator's readiness and the streams' metadata.
    - GoFloat.v: float64 as Go computes it, on the Standard Library's SpecFloat,
      with exact values ([fval], in units of [fone]) and rounding bounds.
    - RateLimiter.v: chat/ratelimiter, token buckets per client, one after the
      other ([Seq]) and with concurrent requests ([step]).
    - Boids.v: boids/, the spiral grid, the workers of a frame, and the forces.
    - BoidsView.v: boids/, the fish that are loaded and the animated background.
    - Metrics.v: the sampler of memory statistics of boids/ and the middleware of
      chat/with-workers, as far as they count.

    Each file that needs another one requires it; the consumers' files build on
    the tracker, the services' files on the consumers and the transactions, the
    files that compute with floats on GoFloat.v.

    ** Theorems

    - What a tracker commits: [find_latest_correct], [commits_are_covered],
      [delivery_refines], [drained_tracker_commits_all],
      [chans_find_latest_correct], [perf_trackers_agree].
    - From the partition to the database, over the tracker, its environment and
      the handlers at once: [committed_is_in_events], [committed_is_in_inbox],
      [committed_is_reserved];
      from the payment to the inbox, [pipeline_exactly_once].
    - What the callbacks and loops of the consumers do on every branch:
      [assignPrntCB_correct], [revokePrtnCB_correct], [waitForTopicReady_correct].
    - Transactions and services: [TxClosure_atomic], [PaymentService_Save_atomic],
      [handlePending_correct], [InboxService_Save_correct], [Confirm_correct],
      [inventory_message_correct], [debezium_decimal_decoded],
      [RegisterConnector_correct] and [payment_server_has_connector] (against
      the interface [ConnectServer]), [conn_string_round_trip].
    - The commands: [payment_route_never_runs], [producer_follows_environment],
      [event_goroutines_accumulate], [saveToDB_correct],
      [keys_collide_with_their_draws].
    - The chat servers: [accept_loop_invariant], [workers_deliver_exactly_once],
      [ring_buffer_keeps_latest], [membership_consistent], [connection_correct],
      [accept_loop_in_order], [shutdown_drains],
      [broadcast_reaches_each_once], [hub_comes_to_rest],
      [connections_are_served], [throttler_paces],
      [broadcast_waits_for_the_slowest].
    - The rate limiter: [grants_are_bounded], [cleanup_is_unobservable],
      [burst_is_granted].
    - Boids: [rebuild_grid_correct], [frame_is_sequential],
      [neighbours_are_complete], [animation_follows_delays].
    - The benchmarked trackers shut down ([runners_can_exit]), but the one with
      channels need not ([chan_runner_hangs]).
    - Metrics: [counters_follow_the_runtime], [middleware_counts].
    - The playground: [upload_session_correct], [upload_path_stays_inside],
      [event_bus_in_order], [aggregation_pipeline_correct],
      [readings_in_order], [readings_aggregated_once] (and [order_is_lost]),
      [fleet_sends_each_truck_once], [receiver_produces_each_once].
    - Defects, each as a theorem about the code as it is: lost commits
      ([message_at_committed_position_not_committed],
      [chans_newest_never_committed], [undecodable_message_stops_commits],
      [kafka_sim_never_commits]), lost messages ([failed_commit_loses_message],
      [topics_share_a_tracker], [KafkaTx_loses_commit_error],
      [GetFromOffset_returns_newest_only], [read_message_lost]), limits not
      kept ([concurrent_first_requests_unlimited]), locks never released
      ([late_completion_blocks_assignment], [ResetPartitionState_deadlocks],
      [missing_room_blocks_the_server]), waits that never end
      ([rejected_topic], [replay_requests_block], [chan_runner_hangs],
      [bad_request_blocks_the_server], [few_processors_hang],
      [ping_goroutine_leaks], [chans_benchmark_never_starts]), wrong data
      ([bad_payloads_are_invoiced], [exact_separation_loses_boid]) and crashes
      ([chans_first_message_panics], [join_room_after_leave_panics],
      [join_of_unknown_client_breaks_broadcast], [zero_update_range_panics],
      [closing_the_bus_panics], [late_unregister_panics],
      [benchmark_main_crashes]).

    ** Not modelled

    Logging, the registration of metrics, the drawing calls, the web pages, the
    loading of .env files, dialling and listening; what the health pages report;
    generated code and tests.
    [strconv.ParseFloat], JSON and the schema decoders are arguments.
    Writer preference of [sync.RWMutex] and the Go memory model are not
    modelled: a step of a goroutine is atomic. *)

From stdpp Require Export prelude gmap strings list fin_maps pretty.
From Stdlib Require Export ZArith Lia.

#[global] Set Default Goal Selector "!".
#[global] Set Warnings "-clear-no-such-hyp,-register-all,-level-tolerance".

Declare Scope go_scope.
Delimit Scope go_scope with go.
Open Scope Z_scope.

(** ** Machine integers *)

(** Two's complement wrap-around of Go's [int64] (and of [int] on the 64-bit
    platforms the services run on). *)
Definition int64 (z : Z) : Z := (z + 2 ^ 63) mod 2 ^ 64 - 2 ^ 63.

(** Wrap-around of Go's [int32]. *)
Definition int32 (z : Z) : Z := (z + 2 ^ 31) mod 2 ^ 32 - 2 ^ 31.

(** Wrap-around of Go's [uint32]. *)
Definition uint32 (z : Z) : Z := z mod 2 ^ 32.

Definition min_int64 : Z := - 2 ^ 63.
Definition max_int64 : Z := 2 ^ 63 - 1.

Lemma int64_id z : min_int64 ≤ z ≤ max_int64 → int64 z = z.
Proof.
  unfold int64, min_int64, max_int64. intros H.
  rewrite Z.mod_small; lia.
Qed.

Lemma int64_range z : min_int64 ≤ int64 z ≤ max_int64.
Proof.
  unfold int64, min_int64, max_int64.
  pose proof (Z.mod_pos_bound (z + 2 ^ 63) (2 ^ 64) ltac:(lia)). lia.
Qed.

Lemma uint32_range z : 0 ≤ uint32 z < 2 ^ 32.
Proof. unfold uint32. apply Z.mod_pos_bound. lia. Qed.

(** [float64(z)] of an [int64], as an integer: round to nearest, ties to even,
    on 53 bits. *)
Definition float64_int (z : Z) : Z :=
  let a := Z.abs z in
  if a <=? 2 ^ 53 then z
  else
    let e := Z.log2 a - 52 in
    let q := a / 2 ^ e in
    let r := a mod 2 ^ e in
    let half := 2 ^ (e - 1) in
    let q := if (half <? r) || ((r =? half) && Z.odd q) then q + 1 else q in
    Z.sgn z * (q * 2 ^ e).

Lemma float64_int_small z : Z.abs z ≤ 2 ^ 53 → float64_int z = z.
Proof. intros H. unfold float64_int. cbv zeta. by rewrite (proj2 (Z.leb_le _ _) H). Qed.

Create HintDb go discriminated.
#[export] Hint Resolve int64_range uint32_range : go.

(** ** Tactics *)

(** Destruct the innermost match of the goal or of a hypothesis, keeping the
    equation. *)
Ltac case_go :=
  match goal with
  | |- context [ match ?x with _ => _ end ] =>
      lazymatch x with
      | context [ match _ with _ => _ end ] => fail
      | _ => destruct x eqn:?
      end
  | H : context [ match ?x with _ => _ end ] |- _ =>
      lazymatch x with
      | context [ match _ with _ => _ end ] => fail
      | _ => destruct x eqn:?
      end
  end.

(** Turn boolean integer tests into propositions. *)
Ltac zbool :=
  repeat match goal with
  | H : (_ <=? _) = true |- _ => apply Z.leb_le in H
  | H : (_ <=? _) = false |- _ => apply Z.leb_gt in H
  | H : (_ <? _) = true |- _ => apply Z.ltb_lt in H
  | H : (_ <? _) = false |- _ => apply Z.ltb_ge in H
  | H : (_ =? _) = true |- _ => apply Z.eqb_eq in H
  | H : (_ =? _) = false |- _ => apply Z.eqb_neq in H
  | H : (_ >? _) = true |- _ => rewrite Z.gtb_ltb in H
  | H : (_ >? _) = false |- _ => rewrite Z.gtb_ltb in H
  | H : (_ >=? _) = true |- _ => rewrite Z.geb_leb in H
  | H : (_ >=? _) = false |- _ => rewrite Z.geb_leb in H
  | H : negb _ = true |- _ => apply negb_true_iff in H
  | H : negb _ = false |- _ => apply negb_false_iff in H
  | H : (_ && _) = true |- _ => apply andb_true_iff in H as [? ?]
  | H : (_ || _) = false |- _ => apply orb_false_iff in H as [? ?]
  end.

(** ** Reflexive-transitive closure *)

(** Executions are sequences of steps; [rtc] is stdpp's closure.  An invariant
    that holds initially and is preserved by each step holds in every reachable
    state. *)
Lemma rtc_invariant {A} (R : relation A) (P : A → Prop) (x y : A) :
  (∀ a b, P a → R a b → P b) → rtc R x y → P x → P y.
Proof. intros Hstep. induction 1; eauto. Qed.

(** A step-by-step simulation lifts to executions. *)
Lemma rtc_simulation {A B} (R : relation A) (Q : relation B)
    (rel : A → B → Prop) :
  (∀ a a' b, rel a b → R a a' → ∃ b', rtc Q b b' ∧ rel a' b') →
  ∀ a a', rtc R a a' → ∀ b, rel a b → ∃ b', rtc Q b b' ∧ rel a' b'.
Proof.
  intros Hsim a a' Hrtc. induction Hrtc as [a|a a1 a2 Hs _ IH]; intros b Hb.
  - exists b. split; [constructor | done].
  - destruct (Hsim _ _ _ Hb Hs) as (b1 & Hb1 & Hrel1).
    destruct (IH _ Hrel1) as (b2 & Hb2 & Hrel2).
    exists b2. split; [by etrans | done].
Qed.

(** ** Lists *)

Lemma filter_all {A} (P : A → Prop) `{!∀ x, Decision (P x)} l : Forall P l → filter P l = l.
Proof. induction 1 as [|x l Hx _ IH]; [done|]. by rewrite filter_cons, decide_True, IH. Qed.

Lemma filter_none {A} (P : A → Prop) `{!∀ x, Decision (P x)} l :
  Forall (λ x, ¬ P x) l → filter P l = [].
Proof. induction 1 as [|x l Hx _ IH]; [done|]. by rewrite filter_cons, decide_False, IH. Qed.

(** ** Maps *)

(** [len(m) == 0] on a Go map. *)
Definition map_is_empty {K V} `{Countable K} (m : gmap K V) : bool :=
  bool_decide (m = ∅).

Lemma map_is_empty_spec {K V} `{Countable K} (m : gmap K V) :
  map_is_empty m = true ↔ ∀ k, m !! k = None.
Proof.
  unfold map_is_empty. rewrite bool_decide_eq_true. split.
  - intros ->. intros k. apply lookup_empty.
  - intros Hm. apply map_eq. intros k. by rewrite Hm, lookup_empty.
Qed.

Lemma map_is_empty_false {K V} `{Countable K} (m : gmap K V) :
  map_is_empty m = false ↔ ∃ k v, m !! k = Some v.
Proof.
  unfold map_is_empty. rewrite bool_decide_eq_false. split.
  - intros Hm. apply map_choose in Hm as (k & v & Hk). eauto.
  - intros (k & v & Hk) ->. by rewrite lookup_empty in Hk.
Qed.
