(* ===== verification/GoSem.v ===== *)
(** * The fragment of Go the models share

    Outcomes of a computation (a result, a run-time panic, or a goroutine that
    blocks), results with errors, a state monad over outcomes with its
    notation, and [sync.RWMutex]. *)

From S2P Require Import Prelude.

(** ** Outcomes *)

(** A call either returns, panics, or blocks: [Block] is a call that cannot
    proceed in the current state (a lock held by somebody else, a channel
    operation with no partner, a loop that never exits). *)
Inductive outcome (A : Type) : Type :=
| Ret (a : A)
| Panic (msg : string)
| Block.
Arguments Ret {A} a.
Arguments Panic {A} msg.
Arguments Block {A}.

#[global] Instance outcome_ret : MRet outcome := @Ret.
#[global] Instance outcome_bind : MBind outcome :=
  λ A B f m, match m with Ret a => f a | Panic e => Panic e | Block => Block end.

(** ** State over outcomes *)

(** [GO S A]: code that reads and writes a state [S] and yields an [A]. *)
Definition GO (S A : Type) : Type := S → outcome (A * S).

Definition go_ret {S A} (a : A) : GO S A := λ s, Ret (a, s).
Definition go_bind {S A B} (m : GO S A) (f : A → GO S B) : GO S B :=
  λ s, match m s with
       | Ret (a, s') => f a s'
       | Panic e => Panic e
       | Block => Block
       end.
Definition go_get {S} : GO S S := λ s, Ret (s, s).
Definition go_put {S} (s : S) : GO S unit := λ _, Ret (tt, s).
Definition go_modify {S} (f : S → S) : GO S unit := λ s, Ret (tt, f s).
Definition go_panic {S A} (e : string) : GO S A := λ _, Panic e.
Definition go_block {S A} : GO S A := λ _, Block.

Notation "x ←' m ;; k" := (go_bind m (λ x, k))
  (at level 100, m at level 98, k at level 200, right associativity,
   format "x  ←'  m ;;  '//' k") : go_scope.
Notation "m ;;' k" := (go_bind m (λ _, k))
  (at level 100, k at level 200, right associativity,
   format "m  ;;'  '//' k") : go_scope.
Open Scope go_scope.

(** [for _, x := range l { body }], the body updating the state. *)
Fixpoint go_for {S A} (l : list A) (body : A → GO S unit) : GO S unit :=
  match l with
  | [] => go_ret tt
  | x :: l => body x ;;' go_for l body
  end.

(** A call on the second part of the state. *)
Definition go_snd {D S A} (m : GO S A) : GO (D * S) A := λ '(d, s),
  match m s with
  | Ret (a, s) => Ret (a, (d, s))
  | Panic e => Panic e
  | Block => Block
  end.

Lemma go_bind_ret {S A B} (m : GO S A) (f : A → GO S B) s a s' :
  m s = Ret (a, s') → go_bind m f s = f a s'.
Proof. unfold go_bind. by intros ->. Qed.

Lemma go_bind_inv {S A B} (m : GO S A) (f : A → GO S B) s b s'' :
  go_bind m f s = Ret (b, s'') → ∃ a s', m s = Ret (a, s') ∧ f a s' = Ret (b, s'').
Proof. unfold go_bind. destruct (m s) as [[a s']| |] eqn:E; naive_solver. Qed.

(** An invariant kept by each iteration is kept by the loop. *)
Lemma go_for_invariant {S A} (P : S → Prop) (l : list A) (body : A → GO S unit) :
  (∀ x s s', x ∈ l → P s → body x s = Ret (tt, s') → P s') →
  ∀ s s', P s → go_for l body s = Ret (tt, s') → P s'.
Proof.
  induction l as [|x l IH]; intros Hbody s s' Hs Hrun; simpl in Hrun.
  - unfold go_ret in Hrun. by simplify_eq.
  - apply go_bind_inv in Hrun as ([] & s1 & H1 & H2).
    eapply IH; [|eapply Hbody; [| |exact H1]|exact H2]; [|by left|done].
    intros y ?? Hy. apply Hbody. by right.
Qed.

(** ** Errors *)

(** Go's [error] values as the code builds and inspects them: [errors.New] and
    [fmt.Errorf] without [%w] ([ErrNew]), [fmt.Errorf] with one [%w] operand
    ([ErrWrap]), the repository's [*AppError] ([ErrApp], whose [Unwrap] gives
    the wrapped error), [*pq.Error] of the Postgres driver with its SQLSTATE
    ([ErrPq]), and any other error of a library ([ErrExt]). *)
Inductive error : Type :=
| ErrNew (msg : string)
| ErrWrap (msg : string) (inner : error)
| ErrApp (code : Z) (msg : string) (inner : option error)
| ErrPq (code : string)
| ErrExt (msg : string).

(** A pair [(T, error)] of which the code uses the value only when the error is
    nil. *)
Inductive result (A : Type) : Type :=
| Ok (a : A)
| Err (e : error).
Arguments Ok {A} a.
Arguments Err {A} e.

Definition is_ok {A} (r : result A) : bool :=
  match r with Ok _ => true | Err _ => false end.

(** ** Times *)

(** A time is its nanoseconds since 1970; the zero [Time] is the year 1. *)
Definition zero_time : Z := -62135596800 * 1000000000.

(** ** sync.RWMutex *)

(** A writer, or a number of readers.  Writer preference is not modelled: a
    reader that the model lets through may wait in Go for a pending writer. *)
Record RWMutex := mkMutex { writer : bool; readers : nat }.

Definition unlocked : RWMutex := mkMutex false 0.

Definition RLock (m : RWMutex) : outcome RWMutex :=
  if writer m then Block else Ret (mkMutex false (S (readers m))).
Definition RUnlock (m : RWMutex) : outcome RWMutex :=
  match readers m with
  | O => Panic "sync: RUnlock of unlocked RWMutex"
  | S n => Ret (mkMutex (writer m) n)
  end.
Definition Lock (m : RWMutex) : outcome RWMutex :=
  if writer m then Block
  else match readers m with O => Ret (mkMutex true 0) | S _ => Block end.
Definition Unlock (m : RWMutex) : outcome RWMutex :=
  if writer m then Ret (mkMutex false (readers m))
  else Panic "sync: Unlock of unlocked RWMutex".

Lemma Lock_unlocked : Lock unlocked = Ret (mkMutex true 0).
Proof. reflexivity. Qed.

Lemma Lock_reader_blocks m : (0 < readers m)%nat → Lock m = Block.
Proof. unfold Lock. destruct (writer m), (readers m); [done..|lia|done]. Qed.
