(* ===== verification/GoStrings.v ===== *)
(** * Go's strings and path/filepath functions the code uses

    [strings.Split] with a one-byte separator, [strings.Join], [HasPrefix],
    [HasSuffix], [Contains], [filepath.Ext],
    [filepath.Clean] and [filepath.Join] (Unix), with their lemmas. *)

From S2P Require Import Prelude.
From Stdlib Require Import Ascii.

(** ** Splitting and joining *)

Fixpoint Split (sep : ascii) (s : string) : list string :=
  match s with
  | EmptyString => [EmptyString]
  | String c s =>
      if decide (c = sep) then EmptyString :: Split sep s
      else match Split sep s with
           | [] => [String c EmptyString]
           | p :: ps => String c p :: ps
           end
  end.

Fixpoint Join (sep : string) (l : list string) : string :=
  match l with
  | [] => EmptyString
  | [s] => s
  | s :: l => s +:+ sep +:+ Join sep l
  end.

(** [strings.HasPrefix], [strings.Contains] and [strings.HasSuffix]. *)
Fixpoint HasPrefix (s prefix : string) : bool :=
  match prefix, s with
  | EmptyString, _ => true
  | String a prefix, String b s => bool_decide (a = b) && HasPrefix s prefix
  | _, EmptyString => false
  end.
Fixpoint Contains (s sub : string) : bool :=
  HasPrefix s sub || match s with EmptyString => false | String _ s => Contains s sub end.
Fixpoint HasSuffix (s suffix : string) : bool :=
  bool_decide (s = suffix) || match s with EmptyString => false | String _ s => HasSuffix s suffix end.

Lemma HasPrefix_app s prefix : HasPrefix s prefix = true ↔ ∃ rest, s = prefix +:+ rest.
Proof.
  revert s. induction prefix as [|a prefix IH]; intros s.
  - destruct s; (split; [by eexists|done]).
  - destruct s as [|b s]; simpl.
    + split; [done|]. by intros [rest ?].
    + rewrite andb_true_iff, bool_decide_eq_true, IH. split.
      * intros [-> [rest ->]]. by exists rest.
      * intros [rest Hr]. injection Hr as -> ->. split; [done|by eexists].
Qed.

Lemma HasSuffix_app s suffix : HasSuffix s suffix = true ↔ ∃ rest, s = rest +:+ suffix.
Proof.
  induction s as [|b s IH]; simpl; rewrite orb_true_iff, bool_decide_eq_true.
  - split; [|intros [[|? ?] Hr]; [by left|done]]. intros [->|?]; [by exists ""%string|done].
  - rewrite IH. split.
    + intros [->|[rest ->]]; [by exists ""%string|by exists (String b rest)].
    + intros [[|c rest] Hr]; [by left|]. injection Hr as -> ->. right. by eexists.
Qed.

Lemma Contains_app s sub : Contains s sub = true ↔ ∃ l r, s = l +:+ sub +:+ r.
Proof.
  induction s as [|b s IH]; cbn [Contains]; rewrite orb_true_iff, HasPrefix_app.
  - split; [intros [[rest Hr]|?]; [by exists ""%string, rest|done]|].
    intros ([|? ?] & r & Hr); [left; by exists r|done].
  - rewrite IH. split.
    + intros [[rest Hr]|(l & r & ->)]; [by exists ""%string, rest|by exists (String b l), r].
    + intros ([|c l] & r & Hr); [left; by exists r|]. injection Hr as -> ->. right. by exists l, r.
Qed.

(** How often a byte occurs. *)
Fixpoint count_byte (c : ascii) (s : string) : nat :=
  match s with
  | EmptyString => 0
  | String d s => (if decide (d = c) then 1 else 0) + count_byte c s
  end.

Lemma count_byte_app c s1 s2 :
  count_byte c (s1 +:+ s2) = (count_byte c s1 + count_byte c s2)%nat.
Proof.
  induction s1 as [|d s1 IH]; [done|].
  change (String d s1 +:+ s2) with (String d (s1 +:+ s2)). cbn [count_byte]. lia.
Qed.

Lemma Split_cons_inv sep s : ∃ p ps, Split sep s = p :: ps.
Proof.
  destruct s as [|c s]; simpl; [eauto|].
  destruct (decide (c = sep)); [eauto|]. destruct (Split sep s); eauto.
Qed.

Lemma Join_cons_String sep c p ps : Join sep (String c p :: ps) = String c (Join sep (p :: ps)).
Proof. destruct ps; reflexivity. Qed.

Lemma Join_Split sep s : Join (String sep EmptyString) (Split sep s) = s.
Proof.
  induction s as [|c s IH]; [done|].
  destruct (Split_cons_inv sep s) as (p & ps & Hs). cbn [Split].
  destruct (decide (c = sep)) as [->|]; rewrite Hs in IH |- *.
  - change (String sep (Join (String sep "") (p :: ps)) = String sep s). by rewrite IH.
  - by rewrite Join_cons_String, IH.
Qed.

(** The pieces hold no separator, and the other bytes of the string. *)
Lemma Split_count_sep sep s : Forall (λ p, count_byte sep p = 0%nat) (Split sep s).
Proof.
  induction s as [|c s IH]; [by repeat constructor|]. cbn [Split].
  destruct (decide (c = sep)); [by constructor|].
  destruct (Split sep s); inversion IH; subst; constructor; simpl; try done.
  - by rewrite decide_False.
  - rewrite decide_False by done. lia.
Qed.

Lemma Split_count sep c s :
  c ≠ sep → count_byte c s = sum_list (count_byte c <$> Split sep s).
Proof.
  intros Hc. induction s as [|d s IH]; [done|]. cbn [Split].
  destruct (Split_cons_inv sep s) as (p & ps & Hs). rewrite Hs in IH |- *.
  cbn [count_byte]. rewrite IH. destruct (decide (d = sep)) as [->|].
  - rewrite decide_False by done. done.
  - simpl. lia.
Qed.

Lemma Split_count_head sep s p : Split sep s !! 0%nat = Some p → count_byte sep p = 0%nat.
Proof. intros Hp. eapply (Forall_lookup_1 _ _ _ _ (Split_count_sep sep s) Hp). Qed.

Lemma sum_list_elem n l : n ∈ l → (n ≤ sum_list l)%nat.
Proof. induction 1; simpl; lia. Qed.

Lemma sum_list_pos l : (0 < sum_list l)%nat → ∃ n, n ∈ l ∧ (0 < n)%nat.
Proof.
  induction l as [|n l IH]; simpl; [lia|]. intros H.
  destruct (decide (0 < n)%nat) as [Hn|Hn].
  - exists n. split; [by left|done].
  - destruct IH as (m & Hm & ?); [lia|]. exists m. split; [by right|done].
Qed.

(** ** Paths *)

(** [filepath.Ext]: from the last dot of the last element. *)
Fixpoint Ext (path : string) : string :=
  match path with
  | EmptyString => EmptyString
  | String c rest =>
      if decide (count_byte "." rest + count_byte "/" rest = 0)%nat
      then if decide (c = "."%char) then path else EmptyString
      else Ext rest
  end.

Lemma Ext_dots path : (count_byte "." (Ext path) ≤ 1)%nat.
Proof.
  induction path as [|c rest IH]; cbn [Ext]; [simpl; lia|].
  destruct (decide _) as [H|]; [|done].
  destruct (decide (c = _)) as [->|]; simpl; lia.
Qed.

(** [filepath.Clean]; [out] holds the elements kept so far, last first. *)
Definition clean_step (rooted : bool) (out : list string) (p : string) : list string :=
  if decide (p = "" ∨ p = ".")%string then out
  else if decide (p = "..")%string then
    match out with
    | [] => if rooted then [] else [".."]
    | q :: rest => if decide (q = "..")%string then ".." :: out else rest
    end%string
  else p :: out.

Definition Clean (path : string) : string :=
  match path with
  | EmptyString => "."
  | String c _ =>
      let rooted := bool_decide (c = "/"%char) in
      let body := Join "/" (reverse (foldl (clean_step rooted) [] (Split "/" path))) in
      if rooted then "/" +:+ body
      else if decide (body = "")%string then "." else body
  end%string.

(** [filepath.Join]. *)
Fixpoint JoinPath (elems : list string) : string :=
  match elems with
  | [] => EmptyString
  | e :: rest => if decide (e = "")%string then JoinPath rest else Clean (Join "/" elems)
  end.

Lemma foldl_clean_step ps out :
  Forall (λ p, p ≠ "..")%string ps →
  foldl (clean_step false) out ps =
    reverse (filter (λ p, p ≠ "" ∧ p ≠ ".")%string ps) ++ out.
Proof.
  intros H. revert out. induction H as [|p ps Hp _ IH]; intros out; [done|].
  cbn [foldl]. rewrite IH. unfold clean_step at 1. destruct (decide _) as [Hd|Hd].
  - rewrite filter_cons_False by naive_solver. done.
  - rewrite filter_cons_True by naive_solver. rewrite (decide_False (P := p = _)) by done.
    by rewrite reverse_cons, <- (assoc_L (++)).
Qed.

Lemma Join_not_empty p ps : p ≠ ""%string → Join "/" (p :: ps) ≠ ""%string.
Proof. destruct p; [done|]. intros _. by rewrite Join_cons_String. Qed.

(** A relative path without [..] elements below "./" keeps its elements but the
    empty and the "." ones. *)
Lemma JoinPath_dot_slash f :
  f ≠ ""%string → Forall (λ p, p ≠ "..")%string (Split "/" f) →
  filter (λ p, p ≠ "" ∧ p ≠ ".")%string (Split "/" f) ≠ [] →
  JoinPath ["./"; f] = Join "/" (filter (λ p, p ≠ "" ∧ p ≠ ".")%string (Split "/" f)).
Proof.
  intros Hf Hps Hne. cbn [JoinPath]. rewrite decide_False by done.
  change (Clean (".//" +:+ f) = Join "/" (filter (λ p, p ≠ "" ∧ p ≠ ".")%string (Split "/" f))).
  change (let body := Join "/" (reverse (foldl (clean_step false) [] (Split "/" f))) in
    (if decide (body = "") then "." else body)%string =
    Join "/" (filter (λ p, p ≠ "" ∧ p ≠ ".")%string (Split "/" f))).
  rewrite foldl_clean_step by done. rewrite app_nil_r, reverse_involutive. cbv zeta.
  destruct (filter _ _) as [|p ps] eqn:E; [done|].
  rewrite decide_False; [done|]. apply Join_not_empty.
  assert (p ∈ filter (λ p, p ≠ "" ∧ p ≠ ".")%string (Split "/" f)) as Hin
    by (rewrite E; by left).
  apply list_elem_of_filter in Hin. naive_solver.
Qed.

Example Split_ex : Split "/" "/join-room/r1" = [""; "join-room"; "r1"]%string.
Proof. reflexivity. Qed.
Example Ext_ex : Ext "a.b/c.tar.gz" = ".gz"%string ∧ Ext "a.b/c" = ""%string.
Proof. split; reflexivity. Qed.
Example Clean_ex : Clean "a//./b/../../../c" = "../c"%string ∧ Clean "/../x" = "/x"%string.
Proof. split; reflexivity. Qed.
