(* ===== verification/GoFloat.v ===== *)
(** * Go's float64

    IEEE 754 binary64 as the Standard Library's [spec_float] with 53 bits of
    precision, the operations the code uses, and what rounding to nearest gives:
    the result of an operation is the exact one up to half a unit in the last
    place, and lies on the same side of every float64 as the exact result.
    Every finite float64 is an integer multiple of 2^-1074 ([fval]), so that
    these facts are statements about integers. *)

From S2P Require Import Prelude.
From Stdlib Require Import SpecFloat.

Abbreviation float64 := spec_float (only parsing).

(** ** Operations *)

Definition prec : Z := 53.
Definition emax : Z := 1024.

Definition fadd : float64 → float64 → float64 := SFadd prec emax.
Definition fsub : float64 → float64 → float64 := SFsub prec emax.
Definition fmul : float64 → float64 → float64 := SFmul prec emax.
Definition fdiv : float64 → float64 → float64 := SFdiv prec emax.
Definition fsqrt : float64 → float64 := SFsqrt prec emax.
Definition fneg : float64 → float64 := SFopp.

(** [float64(z)] of an integer, and a constant [m * 2^e]. *)
Definition float_of_Z (z : Z) : float64 := binary_normalize prec emax z 0 false.
Definition float_of_dyadic (m e : Z) : float64 := binary_normalize prec emax m e false.

(** The comparisons [x < y], [x <= y] and [x == y]; false on a NaN. *)
Definition fltb : float64 → float64 → bool := SFltb.
Definition fleb : float64 → float64 → bool := SFleb.
Definition feqb : float64 → float64 → bool := SFeqb.

Definition is_nan (x : float64) : bool := match x with S754_nan => true | _ => false end.
Definition is_finite (x : float64) : bool :=
  match x with S754_finite _ _ _ | S754_zero _ => true | _ => false end.
Definition is_neg (x : float64) : bool :=
  match x with
  | S754_finite s _ _ | S754_zero s | S754_infinity s => s
  | S754_nan => false
  end.

(** [math.Min] and [math.Max]. *)
Definition fmin (x y : float64) : float64 :=
  match x, y with
  | S754_infinity true, _ | _, S754_infinity true => S754_infinity true
  | S754_nan, _ | _, S754_nan => S754_nan
  | S754_zero sx, S754_zero _ => if sx then x else y
  | _, _ => if fltb x y then x else y
  end.
Definition fmax (x y : float64) : float64 :=
  match x, y with
  | S754_infinity false, _ | _, S754_infinity false => S754_infinity false
  | S754_nan, _ | _, S754_nan => S754_nan
  | S754_zero sx, S754_zero _ => if sx then y else x
  | _, _ => if fltb y x then x else y
  end.

(** The integer part of a finite float64, towards zero. *)
Definition ftrunc (x : float64) : Z :=
  match x with
  | S754_finite s m e =>
      let a := if 0 <=? e then Zpos m * 2 ^ e else Zpos m / 2 ^ (- e) in
      if s then - a else a
  | _ => 0
  end.

(** Well-formed float64: [valid_binary] of the Standard Library. *)
Definition fvalid (x : float64) : bool := valid_binary prec emax x.

(** The value of a finite float64 in units of 2^-1074. *)
Definition fval (x : float64) : Z :=
  match x with
  | S754_finite s m e => cond_Zopp s (Zpos m * 2 ^ (e + 1074))
  | _ => 0
  end.

(** One, in these units. *)
Definition fone : Z := 2 ^ 1074.

Lemma fone_pos : 0 < fone.
Proof. done. Qed.
Lemma fone_big : 2 ^ 200 ≤ fone.
Proof. done. Qed.

(** ** Digits and canonical mantissas *)

Lemma digits2_pos_log2 p : Zpos (digits2_pos p) = Z.log2 (Zpos p) + 1.
Proof.
  induction p as [p IH|p IH|]; [..|done]; cbn [digits2_pos].
  - rewrite Pos2Z.inj_succ, IH, (Pos2Z.inj_xI p), Z.log2_succ_double by lia. lia.
  - rewrite Pos2Z.inj_succ, IH, (Pos2Z.inj_xO p), Z.log2_double by lia. lia.
Qed.

Lemma digits_bounds p d : Zpos (digits2_pos p) = d → 2 ^ (d - 1) ≤ Zpos p < 2 ^ d.
Proof.
  rewrite digits2_pos_log2. intros <-.
  replace (Z.log2 (Z.pos p) + 1 - 1) with (Z.log2 (Z.pos p)) by lia.
  rewrite Z.add_1_r. apply Z.log2_spec. lia.
Qed.

Lemma digits_unique p d : 2 ^ (d - 1) ≤ Zpos p < 2 ^ d → 0 < d → Zpos (digits2_pos p) = d.
Proof.
  intros H Hd. rewrite digits2_pos_log2.
  rewrite (Z.log2_unique (Zpos p) (d - 1)); [lia..|].
  replace (Z.succ (d - 1)) with d by lia. done.
Qed.

Lemma digits_le p d : Zpos p < 2 ^ d → Zpos (digits2_pos p) ≤ d.
Proof.
  intros H. pose proof (digits_bounds p _ eq_refl) as [Hl _].
  assert (0 ≤ d).
  { destruct (Z.le_gt_cases 0 d) as [|Hd]; [done|]. rewrite Z.pow_neg_r in H by done. lia. }
  destruct (Z.le_gt_cases (Zpos (digits2_pos p)) d) as [|Hgt]; [done|].
  pose proof (Z.pow_le_mono_r 2 d (Zpos (digits2_pos p) - 1)). lia.
Qed.

Lemma fexp_eq e : fexp prec emax e = Z.max (e - 53) (-1074).
Proof. reflexivity. Qed.

(** A valid mantissa has 53 digits, or fewer at the least exponent. *)
Lemma bounded_spec m e :
  bounded prec emax m e = true ↔
    -1074 ≤ e ≤ 971 ∧ Zpos m < 2 ^ 53 ∧ (2 ^ 52 ≤ Zpos m ∨ e = -1074).
Proof.
  unfold bounded, canonical_mantissa. rewrite andb_true_iff, Z.eqb_eq, Z.leb_le, fexp_eq.
  change (emax - prec) with 971.
  pose proof (digits_bounds m _ eq_refl) as [Hl Hu].
  set (d := Zpos (digits2_pos m)) in *. assert (0 < d) by (unfold d; lia).
  split.
  - intros [He Hb]. assert (d ≤ 53) by lia.
    pose proof (Z.pow_le_mono_r 2 d 53 ltac:(lia) ltac:(lia)).
    split; [lia|]. split; [lia|].
    destruct (decide (e = -1074)); [by right|left].
    assert (d = 53) as Hd by lia. rewrite Hd in Hl. done.
  - intros (He & Hm & Hor). pose proof (digits_le m 53 Hm). fold d in H0.
    split; [|lia]. destruct Hor as [Hge|]; [|lia].
    assert (d = 53) by (apply digits_unique; lia). lia.
Qed.

(** ** Rounding *)

(** [loc_ok rem tot r s]: the bits [r] (half) and [s] (sticky) tell where
    [rem / tot] lies in [0, 1). *)
Definition loc_ok (rem tot : Z) (r s : bool) : Prop :=
  0 ≤ rem < tot ∧
  match r, s with
  | false, false => rem = 0
  | false, true => 0 < 2 * rem < tot
  | true, false => 2 * rem = tot
  | true, true => tot < 2 * rem
  end.

(** After [k] shifts the record holds the quotient of [m] by [2^k] and the
    location of the rest. *)
Definition shr_inv (m rem den k : Z) (mrs : shr_record) : Prop :=
  shr_m mrs = m / 2 ^ k ∧
  loc_ok ((m mod 2 ^ k) * den + rem) (2 ^ k * den) (shr_r mrs) (shr_s mrs).

Lemma div2_even p : Zpos p~0 / 2 = Zpos p ∧ Zpos p~0 mod 2 = 0.
Proof.
  rewrite (Pos2Z.inj_xO p), Z.mul_comm. split; [apply Z.div_mul|apply Z.mod_mul]; lia.
Qed.

Lemma div2_odd p : Zpos p~1 / 2 = Zpos p ∧ Zpos p~1 mod 2 = 1.
Proof.
  rewrite (Pos2Z.inj_xI p), Z.mul_comm.
  split; [rewrite Z.div_add_l by lia|rewrite Z.add_comm, Z.mod_add by lia]; done.
Qed.

Lemma shr_1_inv m rem den k mrs :
  0 ≤ m → 0 < den → 0 ≤ k → shr_inv m rem den k mrs → shr_inv m rem den (k + 1) (shr_1 mrs).
Proof.
  intros Hm Hden Hk [Hq Hloc]. destruct mrs as [q r s]. simpl in Hq, Hloc.
  assert (0 < 2 ^ k) as Hpk by lia. set (P := 2 ^ k) in *.
  assert (2 ^ (k + 1) = P * 2) as HP by (rewrite Z.pow_add_r by lia; done).
  assert (0 ≤ q) by (rewrite Hq; apply Z.div_pos; lia).
  assert (m mod (P * 2) = P * (q mod 2) + m mod P) as Hmod
    by (rewrite Z.rem_mul_r, <- Hq by lia; lia).
  pose proof (Z.mod_pos_bound m P Hpk).
  unfold shr_inv. rewrite HP, <- Z.div_div, <- Hq, Hmod by lia.
  destruct Hloc as [Hr Hloc]. unfold loc_ok.
  destruct q as [|[p|p|]|]; [..|lia]; cbn [shr_1 shr_m shr_r shr_s].
  - change (0 mod 2) with 0. split; [done|]. destruct r, s; simpl; nia.
  - destruct (div2_odd p) as [-> ->]. split; [done|]. destruct r, s; simpl; nia.
  - destruct (div2_even p) as [-> ->]. split; [done|]. destruct r, s; simpl; nia.
  - change (1 mod 2) with 1. split; [done|]. destruct r, s; simpl; nia.
Qed.

Lemma iter_pos_inv {A} (f : A → A) (P : Z → A → Prop) n :
  (∀ k a, 0 ≤ k → P k a → P (k + 1) (f a)) →
  ∀ k a, 0 ≤ k → P k a → P (k + Zpos n) (iter_pos f n a).
Proof.
  intros Hf. induction n as [n IH|n IH|]; intros k a Hk Ha; cbn [iter_pos]; [..|by apply Hf].
  - replace (k + Zpos n~1) with (k + 1 + Zpos n + Zpos n) by lia.
    apply IH; [lia|]. apply IH; [lia|]. by apply Hf.
  - replace (k + Zpos n~0) with (k + Zpos n + Zpos n) by lia.
    apply IH; [lia|]. by apply IH.
Qed.

Lemma shr_spec m rem den mrs e n :
  0 ≤ m → 0 < den → 0 ≤ n → shr_inv m rem den 0 mrs →
  shr_inv m rem den n (shr mrs e n).1 ∧ (shr mrs e n).2 = e + n.
Proof.
  intros Hm Hden Hn Hinv. destruct n as [|n|n]; [|simpl|lia].
  - split; [done|]. simpl. lia.
  - split; [|done]. apply (iter_pos_inv _ (shr_inv m rem den) n) with (k := 0); [|lia|done].
    intros k a Hk. by apply shr_1_inv.
Qed.

(** A rounded mantissa and its exponent as a float64. *)
Definition mkfloat (s : bool) (q e : Z) : float64 :=
  match q with
  | Zpos p =>
      if q =? 2 ^ 53
      then if e + 1 <=? 971 then S754_finite s (2 ^ 52)%positive (e + 1) else S754_infinity s
      else if e <=? 971 then S754_finite s p e else S754_infinity s
  | _ => S754_zero s
  end.

Lemma round_nearest_even_spec m rem tot r s :
  0 < tot → loc_ok rem tot r s →
  let q := round_nearest_even m (loc_of_shr_record (Build_shr_record m r s)) in
  m ≤ q ≤ m + 1 ∧ 2 * Z.abs (q * tot - (m * tot + rem)) ≤ tot.
Proof.
  intros Htot [Hr Hloc]. destruct r, s; cbn [loc_of_shr_record round_nearest_even].
  - split; [lia|]. nia.
  - destruct (Z.even m); split; try lia; nia.
  - split; [lia|]. nia.
  - split; [lia|]. nia.
Qed.

Lemma Zdigits2_bound m : 0 ≤ m → m < 2 ^ Zdigits2 m ∧ (0 < m → 2 ^ (Zdigits2 m - 1) ≤ m).
Proof.
  intros Hm. destruct m as [|p|]; [done| |lia]. cbn [Zdigits2].
  pose proof (digits_bounds p _ eq_refl). lia.
Qed.

(** The second normalisation: nothing to do, or one exact shift of [2^53]. *)
Lemma mkfloat_norm s q E mrs' e' :
  0 ≤ q ≤ 2 ^ 53 → -1074 ≤ E → (E = -1074 ∨ 2 ^ 52 ≤ q) →
  shr_fexp prec emax q E loc_Exact = (mrs', e') →
  match shr_m mrs' with
  | Z0 => S754_zero s
  | Zpos m => if e' <=? emax - prec then S754_finite s m e' else S754_infinity s
  | _ => S754_nan
  end = mkfloat s q E.
Proof.
  intros Hq HE Hor. unfold shr_fexp. rewrite fexp_eq. change (emax - prec) with 971.
  destruct (decide (q = 2 ^ 53)) as [->|Hne].
  - change (Zdigits2 (2 ^ 53)) with 54. replace (_ - E) with 1 by lia.
    cbn [shr iter_pos]. intros [= <- <-]. reflexivity.
  - destruct q as [|p|]; [|cbn [Zdigits2]|lia].
    + destruct Hor as [->|]; [|lia]. intros [= <- <-]. reflexivity.
    + pose proof (digits_le p 53 ltac:(lia)). set (d := Zpos (digits2_pos p)) in *.
      assert (Z.max (d + E - 53) (-1074) - E ≤ 0) by lia.
      unfold shr. destruct (_ - E) eqn:En; [..|lia|]; intros [= <- <-]; cbn [shr_m];
        unfold mkfloat; by rewrite (proj2 (Z.eqb_neq _ _) Hne).
Qed.

Lemma binary_round_aux_core s mx ex lx rem den n :
  0 ≤ mx → 0 < den → shr_inv mx rem den 0 (shr_record_of_loc mx lx) →
  n = Z.max (Zdigits2 mx + ex - 53) (-1074) - ex → 0 ≤ n →
  ∃ q, binary_round_aux prec emax s mx ex lx = mkfloat s q (ex + n) ∧ 0 ≤ q ≤ 2 ^ 53 ∧
    2 * Z.abs (q * (2 ^ n * den) - (mx * den + rem)) ≤ 2 ^ n * den ∧
    (ex + n = -1074 ∨ 2 ^ 52 ≤ q ∧ 2 ^ 52 * 2 ^ n ≤ mx).
Proof.
  intros Hmx Hden Hinv Hn Hn0.
  destruct (shr_spec mx rem den (shr_record_of_loc mx lx) ex n Hmx Hden Hn0 Hinv)
    as [[Hq Hloc] He].
  unfold binary_round_aux. unfold shr_fexp at 1. rewrite fexp_eq, <- Hn.
  destruct (shr _ ex n) as [[m r st] E]. cbn [fst snd shr_m shr_r shr_s] in *. subst E.
  assert (0 < 2 ^ n) as Hpn by (apply Z.pow_pos_nonneg; lia).
  destruct (round_nearest_even_spec m _ _ r st (Z.mul_pos_pos _ _ Hpn Hden) Hloc) as [Hrange Herr].
  set (q := round_nearest_even _ _) in *.
  assert (0 ≤ m) by (rewrite Hq; apply Z.div_pos; lia).
  assert (m < 2 ^ 53) as Hm53.
  { rewrite Hq. apply Z.div_lt_upper_bound; [done|]. rewrite <- Z.pow_add_r by lia.
    pose proof (proj1 (Zdigits2_bound mx Hmx)).
    destruct (Z.le_gt_cases 0 (Zdigits2 mx)) as [Hd|Hd];
      [|rewrite Z.pow_neg_r in H0 by done; lia].
    pose proof (Z.pow_le_mono_r 2 (Zdigits2 mx) (n + 53)). lia. }
  assert (ex + n = -1074 ∨ 2 ^ 52 ≤ m ∧ 2 ^ 52 * 2 ^ n ≤ mx) as Hor.
  { destruct (decide (ex + n = -1074)) as [|Hne]; [by left|right].
    assert (n = Zdigits2 mx - 53) as Hn' by lia.
    assert (0 < mx) as Hpos.
    { destruct mx; [simpl in Hn'; lia|lia|lia]. }
    assert (2 ^ 52 * 2 ^ n ≤ mx) as Hle.
    { rewrite <- Z.pow_add_r by lia. replace (52 + n) with (Zdigits2 mx - 1) by lia.
      by apply Zdigits2_bound. }
    split; [|done]. rewrite Hq. apply Z.div_le_lower_bound; lia. }
  destruct (shr_fexp prec emax q (ex + n) loc_Exact) as [mrs' e'] eqn:E2.
  exists q. split_and!; [|lia..| |].
  - apply mkfloat_norm; [lia..|done].
  - assert (mx * den + rem = m * (2 ^ n * den) + (mx mod 2 ^ n * den + rem)) as ->; [|done].
    pose proof (Z.div_mod mx (2 ^ n) ltac:(lia)). rewrite <- Hq in *. nia.
  - destruct Hor as [|[]]; [by left|right]. split; [lia|done].
Qed.

(** [rounded N D s r]: the float64 [r] of sign [s] is the rational [N / D] (in
    units of 2^-1074) rounded to nearest, to the grid of step [2^(E + 1074)]. *)
Definition rounded (N D : Z) (s : bool) (r : float64) : Prop :=
  ∃ q E, r = mkfloat s q E ∧ 0 ≤ q ≤ 2 ^ 53 ∧ -1074 ≤ E ∧
    2 * Z.abs (q * 2 ^ (E + 1074) * D - N) ≤ 2 ^ (E + 1074) * D ∧
    (E = -1074 ∨ 2 ^ 52 ≤ q ∧ 2 ^ 52 * 2 ^ (E + 1074) * D ≤ N).

Lemma abs_scale a b c : 0 ≤ c → Z.abs (a * c - b * c) = Z.abs (a - b) * c.
Proof. intros Hc. rewrite <- Z.mul_sub_distr_r, Z.abs_mul, (Z.abs_eq c) by done. done. Qed.

Lemma round_aux_rounded s mx ex lx rem den N D K :
  0 ≤ mx → 0 < den → shr_inv mx rem den 0 (shr_record_of_loc mx lx) →
  ex ≤ Z.max (Zdigits2 mx + ex - 53) (-1074) → 0 < D → 0 ≤ K → 0 ≤ ex + 1074 + K → 0 ≤ rem →
  N * den * 2 ^ K = (mx * den + rem) * D * 2 ^ (ex + 1074 + K) →
  rounded N D s (binary_round_aux prec emax s mx ex lx).
Proof.
  intros Hmx Hden Hinv Hn HD HK HeK Hrem HN.
  destruct (binary_round_aux_core s mx ex lx rem den _ Hmx Hden Hinv eq_refl ltac:(lia))
    as (q & -> & Hq & Herr & Hor).
  set (n := Z.max _ _ - ex) in *. exists q, (ex + n).
  assert (0 < 2 ^ K) by (apply Z.pow_pos_nonneg; lia).
  assert (0 < 2 ^ (ex + 1074 + K)) by (apply Z.pow_pos_nonneg; lia).
  assert (0 < 2 ^ n) by (apply Z.pow_pos_nonneg; lia).
  assert (0 < 2 ^ (ex + n + 1074)) by (apply Z.pow_pos_nonneg; lia).
  assert (2 ^ n * 2 ^ (ex + 1074 + K) = 2 ^ (ex + n + 1074) * 2 ^ K) as Hpow
    by (rewrite <- !Z.pow_add_r by lia; f_equal; lia).
  set (A := 2 ^ (ex + 1074 + K)) in *. set (B := 2 ^ K) in *. set (C := 2 ^ n) in *.
  set (P := 2 ^ (ex + n + 1074)) in *.
  split_and!; [done|lia..| |].
  - apply (Z.mul_le_mono_pos_r _ _ (den * B)); [nia|].
    replace (2 * Z.abs (q * P * D - N) * (den * B))
      with (2 * (Z.abs (q * P * D - N) * (den * B))) by ring.
    rewrite <- abs_scale by nia.
    replace (q * P * D * (den * B) - N * (den * B)) with
      (q * (C * den) * (D * A) - (mx * den + rem) * (D * A)); cycle 1.
    { replace (N * (den * B)) with (N * den * B) by ring. rewrite HN.
      replace (q * P * D * (den * B)) with (q * D * den * (P * B)) by ring.
      rewrite <- Hpow. ring. }
    rewrite abs_scale by nia.
    replace (P * D * (den * B)) with (P * B * (D * den)) by ring. rewrite <- Hpow. nia.
  - destruct Hor as [|[Hq52 Hle]]; [by left|right]. split; [done|].
    apply (Z.mul_le_mono_pos_r _ _ (den * B)); [nia|].
    replace (N * (den * B)) with (N * den * B) by ring. rewrite HN.
    replace (2 ^ 52 * P * D * (den * B)) with (2 ^ 52 * (P * B) * (D * den)) by ring.
    rewrite <- Hpow. assert (2 ^ 52 * C * den ≤ mx * den + rem) by nia. nia.
Qed.

(** *** What rounding gives *)

(** Above every finite float64. *)
Definition fover : Z := 2 ^ 2098.

Lemma mkfloat_value s q E :
  0 ≤ q ≤ 2 ^ 53 → -1074 ≤ E → (E = -1074 ∨ 2 ^ 52 ≤ q) →
  fvalid (mkfloat s q E) = true ∧
  (mkfloat s q E = S754_infinity s ∧ fover ≤ q * 2 ^ (E + 1074) ∨
   is_finite (mkfloat s q E) = true ∧ is_neg (mkfloat s q E) = s ∧
   fval (mkfloat s q E) = cond_Zopp s (q * 2 ^ (E + 1074))).
Proof.
  intros Hq HE Hor. unfold mkfloat. destruct q as [|p|]; [|..|lia].
  { split; [done|right]. destruct s; done. }
  destruct (Z.eqb_spec (Zpos p) (2 ^ 53)) as [Heq|Hne].
  - rewrite Heq. assert (2 ^ 53 * 2 ^ (E + 1074) = 2 ^ 52 * 2 ^ (E + 1 + 1074)) as ->
      by (rewrite <- !Z.pow_add_r by lia; f_equal; lia).
    destruct (Z.leb_spec (E + 1) 971).
    + split; [|by right]. apply bounded_spec. lia.
    + split; [done|left]. split; [done|]. unfold fover. rewrite <- Z.pow_add_r by lia.
      apply Z.pow_le_mono_r; lia.
  - destruct (Z.leb_spec E 971).
    + split; [|by right]. apply bounded_spec. lia.
    + split; [done|left]. split; [done|]. destruct Hor as [|Hge]; [lia|]. unfold fover.
      transitivity (2 ^ 52 * 2 ^ (E + 1074)); [|nia]. rewrite <- Z.pow_add_r by lia.
      apply Z.pow_le_mono_r; lia.
Qed.

(** A valid float64 lies on the grid of step [2^(E + 1074)] or below its
    normalised part. *)
Lemma fval_grid g E :
  fvalid g = true → -1074 ≤ E →
  (∃ v, Z.abs (fval g) = v * 2 ^ (E + 1074)) ∨
  E ≠ -1074 ∧ Z.abs (fval g) < 2 ^ 52 * 2 ^ (E + 1074).
Proof.
  destruct g as [| | |s m e]; intros Hg HE; try (left; exists 0; done).
  apply bounded_spec in Hg as (He & Hm & _). cbn [fval].
  replace (Z.abs (cond_Zopp s _)) with (Zpos m * 2 ^ (e + 1074))
    by (destruct s; cbn [cond_Zopp]; lia).
  destruct (Z.le_gt_cases E e).
  - left. exists (Zpos m * 2 ^ (e - E)). rewrite <- Z.mul_assoc, <- Z.pow_add_r by lia.
    do 2 f_equal. lia.
  - right. split; [lia|]. assert (2 ^ (E + 1074) = 2 * 2 ^ (E - 1 + 1074)) as ->
      by (rewrite <- Z.pow_succ_r by lia; f_equal; lia).
    pose proof (Z.pow_le_mono_r 2 (e + 1074) (E - 1 + 1074) ltac:(lia) ltac:(lia)).
    pose proof (Z.pow_pos_nonneg 2 (e + 1074) ltac:(lia) ltac:(lia)). nia.
Qed.

Lemma fval_lt_over g : fvalid g = true → Z.abs (fval g) < fover.
Proof.
  unfold fover. destruct g as [| | |s m e]; intros Hg; try done.
  apply bounded_spec in Hg as (He & Hm & _). cbn [fval].
  replace (Z.abs (cond_Zopp s _)) with (Zpos m * 2 ^ (e + 1074))
    by (destruct s; cbn [cond_Zopp]; lia).
  change 2098 with (53 + (971 + 1074)). rewrite (Z.pow_add_r 2 53) by lia.
  pose proof (Z.pow_le_mono_r 2 (e + 1074) (971 + 1074) ltac:(lia) ltac:(lia)).
  pose proof (Z.pow_pos_nonneg 2 (e + 1074) ltac:(lia) ltac:(lia)).
  apply (Z.lt_le_trans _ (2 ^ 53 * 2 ^ (e + 1074))).
  - by apply Z.mul_lt_mono_pos_r.
  - apply Z.mul_le_mono_nonneg_l; [done|]. done.
Qed.

(** ** Comparisons *)

Lemma fval_finite s m e : fval (S754_finite s m e) = cond_Zopp s (Zpos m * 2 ^ (e + 1074)).
Proof. reflexivity. Qed.

Lemma pow_exp_pos e : -1074 ≤ e → 0 < 2 ^ (e + 1074).
Proof. intros He. apply Z.pow_pos_nonneg; lia. Qed.

(** Canonical mantissas compare as the values do. *)
Lemma canonical_compare m1 e1 m2 e2 :
  bounded prec emax m1 e1 = true → bounded prec emax m2 e2 = true →
  match e1 ?= e2 with Lt => Lt | Gt => Gt | Eq => Pos.compare_cont Eq m1 m2 end =
  (Zpos m1 * 2 ^ (e1 + 1074) ?= Zpos m2 * 2 ^ (e2 + 1074)).
Proof.
  intros H1%bounded_spec H2%bounded_spec.
  assert (Hlt : ∀ m1 e1 m2 e2, -1074 ≤ e1 < e2 → Zpos m1 < 2 ^ 53 → 2 ^ 52 ≤ Zpos m2 →
    Zpos m1 * 2 ^ (e1 + 1074) < Zpos m2 * 2 ^ (e2 + 1074)).
  { intros n1 f1 n2 f2 Hf Hn1 Hn2.
    replace (f2 + 1074) with (f1 + 1074 + (f2 - f1)) by lia. rewrite (Z.pow_add_r 2 (f1 + 1074)) by lia.
    pose proof (pow_exp_pos f1 ltac:(lia)). rewrite (Z.mul_comm (2 ^ _)), Z.mul_assoc.
    apply Z.mul_lt_mono_pos_r; [done|].
    pose proof (Z.pow_le_mono_r 2 1 (f2 - f1) ltac:(lia) ltac:(lia)). nia. }
  destruct (Z.compare_spec e1 e2) as [->|Hlt'|Hgt].
  - change (Pos.compare_cont Eq m1 m2) with (Zpos m1 ?= Zpos m2).
    apply Zmult_compare_compat_r. pose proof (pow_exp_pos e2). lia.
  - symmetry. apply Z.compare_lt_iff, Hlt; lia.
  - symmetry. apply Z.compare_gt_iff, Hlt; lia.
Qed.

Lemma SFcompare_fval x y :
  fvalid x = true → fvalid y = true → is_finite x = true → is_finite y = true →
  SFcompare x y = Some (fval x ?= fval y).
Proof.
  intros Hx Hy Hfx Hfy.
  destruct x as [| | |sx mx ex], y as [| | |sy my ey]; try discriminate; cbn [SFcompare].
  - done.
  - pose proof (proj1 (bounded_spec _ _) Hy). pose proof (pow_exp_pos ey ltac:(lia)).
    f_equal. symmetry. rewrite fval_finite. cbn [fval].
    destruct sy; cbn [cond_Zopp]; [apply Z.compare_gt_iff|apply Z.compare_lt_iff]; lia.
  - pose proof (proj1 (bounded_spec _ _) Hx). pose proof (pow_exp_pos ex ltac:(lia)).
    f_equal. symmetry. rewrite fval_finite. cbn [fval].
    destruct sx; cbn [cond_Zopp]; [apply Z.compare_lt_iff|apply Z.compare_gt_iff]; lia.
  - pose proof (canonical_compare mx ex my ey Hx Hy) as Hc.
    pose proof (proj1 (bounded_spec _ _) Hx). pose proof (pow_exp_pos ex ltac:(lia)).
    pose proof (proj1 (bounded_spec _ _) Hy). pose proof (pow_exp_pos ey ltac:(lia)).
    f_equal. rewrite !fval_finite. destruct sx, sy; cbn [cond_Zopp].
    + rewrite Z.compare_opp, (Z.compare_antisym (Zpos mx * _)), <- Hc.
      by destruct (ex ?= ey).
    + symmetry. apply Z.compare_lt_iff. lia.
    + symmetry. apply Z.compare_gt_iff. lia.
    + by rewrite <- Hc.
Qed.

Lemma fleb_fval x y :
  fvalid x = true → fvalid y = true → is_finite x = true → is_finite y = true →
  fleb x y = (fval x <=? fval y).
Proof.
  intros. unfold fleb, SFleb. rewrite SFcompare_fval by done. unfold Z.leb.
  by destruct (fval x ?= fval y).
Qed.

Lemma fltb_fval x y :
  fvalid x = true → fvalid y = true → is_finite x = true → is_finite y = true →
  fltb x y = (fval x <? fval y).
Proof.
  intros. unfold fltb, SFltb. rewrite SFcompare_fval by done. unfold Z.ltb.
  by destruct (fval x ?= fval y).
Qed.

Lemma fleb_finite_PInf x : is_finite x = true → fleb x (S754_infinity false) = true.
Proof. by destruct x. Qed.

Lemma fleb_NInf_finite x : is_finite x = true → fleb (S754_infinity true) x = true.
Proof. by destruct x. Qed.

(** ** Rounding to nearest, signed *)

(** [nearest N D r]: [r] is the rational [N / D] (units of 2^-1074) rounded to
    nearest: on the same side of every float64 as [N / D], and within half a
    unit in the last place. *)
Record nearest (N D : Z) (r : float64) : Prop := mkNearest {
  near_valid : fvalid r = true;
  near_num : is_nan r = false;
  near_ge : ∀ g, fvalid g = true → is_finite g = true → fval g * D ≤ N → fleb g r = true;
  near_le : ∀ g, fvalid g = true → is_finite g = true → N ≤ fval g * D → fleb r g = true;
  near_err : is_finite r = true →
    2 ^ 53 * Z.abs (fval r * D - N) ≤ Z.max (2 ^ 52 * D) (Z.abs N);
}.

Lemma cond_Zopp_abs s z : 0 ≤ z → Z.abs (cond_Zopp s z) = z.
Proof. intros Hz. destruct s; cbn [cond_Zopp]; lia. Qed.

Section RoundedFacts.
Context (N D q E : Z).
Hypothesis HN : 0 ≤ N.
Hypothesis HD : 0 < D.
Hypothesis Hq : 0 ≤ q ≤ 2 ^ 53.
Hypothesis HE : -1074 ≤ E.
Hypothesis Herr : 2 * Z.abs (q * 2 ^ (E + 1074) * D - N) ≤ 2 ^ (E + 1074) * D.
Hypothesis Hor : E = -1074 ∨ 2 ^ 52 ≤ q ∧ 2 ^ 52 * 2 ^ (E + 1074) * D ≤ N.

Lemma grid_below V :
  0 ≤ V → (∃ v, V = v * 2 ^ (E + 1074)) ∨ E ≠ -1074 ∧ V < 2 ^ 52 * 2 ^ (E + 1074) →
  V * D ≤ N → V ≤ q * 2 ^ (E + 1074).
Proof using All.
  pose proof (pow_exp_pos E HE). set (P := 2 ^ (E + 1074)) in *.
  intros HV [[v ->]|[? ?]] Hle; [|nia].
  apply Z.mul_le_mono_nonneg_r; [lia|].
  destruct (Z.le_gt_cases v q) as [|Hgt]; [done|exfalso].
  assert (q * P * D + P * D ≤ v * P * D) by nia. nia.
Qed.

Lemma grid_above V :
  0 ≤ V → (∃ v, V = v * 2 ^ (E + 1074)) ∨ E ≠ -1074 ∧ V < 2 ^ 52 * 2 ^ (E + 1074) →
  N ≤ V * D → q * 2 ^ (E + 1074) ≤ V.
Proof using All.
  pose proof (pow_exp_pos E HE). set (P := 2 ^ (E + 1074)) in *.
  intros HV [[v ->]|[? ?]] Hle.
  - apply Z.mul_le_mono_nonneg_r; [lia|].
    destruct (Z.le_gt_cases q v) as [|Hgt]; [done|exfalso].
    assert (v * P * D + P * D ≤ q * P * D) by nia. nia.
  - exfalso. destruct Hor as [|[_ Hge]]; [done|]. nia.
Qed.

Lemma grid_error :
  2 ^ 53 * Z.abs (q * 2 ^ (E + 1074) * D - N) ≤ Z.max (2 ^ 52 * D) N.
Proof using All.
  destruct Hor as [Hsub|[_ Hge]].
  - rewrite Hsub in *. change (2 ^ (-1074 + 1074)) with 1 in *. lia.
  - lia.
Qed.

End RoundedFacts.

(** The magnitude of a rounded rational. *)
Lemma rounded_magnitude N D s r :
  0 ≤ N → 0 < D → rounded N D s r →
  fvalid r = true ∧ ∃ a, 0 ≤ a ∧
    (r = S754_infinity s ∧ fover ≤ a ∨
     is_finite r = true ∧ is_neg r = s ∧ fval r = cond_Zopp s a) ∧
    (∀ g, fvalid g = true → Z.abs (fval g) * D ≤ N → Z.abs (fval g) ≤ a) ∧
    (∀ g, fvalid g = true → N ≤ Z.abs (fval g) * D → a ≤ Z.abs (fval g)) ∧
    2 ^ 53 * Z.abs (a * D - N) ≤ Z.max (2 ^ 52 * D) N.
Proof.
  intros HN HD (q & E & -> & Hq & HE & Herr & Hor).
  destruct (mkfloat_value s q E Hq HE ltac:(tauto)) as [Hv Hval]. split; [done|].
  exists (q * 2 ^ (E + 1074)). pose proof (pow_exp_pos E HE).
  split_and!; [nia|done| | |].
  - intros g Hg Hle. apply (grid_below N D q E); try done; [lia|]. by apply fval_grid.
  - intros g Hg Hle. apply (grid_above N D q E); try done; [lia|]. by apply fval_grid.
  - by apply grid_error.
Qed.

Lemma rounded_nearest N D s r :
  0 ≤ N → 0 < D → rounded N D s r → nearest (cond_Zopp s N) D r.
Proof.
  intros HN HD Hr.
  destruct (rounded_magnitude N D s r HN HD Hr) as (Hv & a & Ha & Hcase & Hbelow & Habove & Herr).
  split; [done|by destruct Hcase as [[-> _]|[? _]]; [|destruct r]|..].
  - intros g Hg Hgf Hle. destruct Hcase as [[-> Hover]|(Hrf & _ & Hval)].
    + destruct s; [|by apply fleb_finite_PInf]. exfalso. cbn [cond_Zopp] in Hle.
      pose proof (fval_lt_over g Hg). pose proof (Habove g Hg ltac:(nia)). lia.
    + rewrite fleb_fval, Hval by done. apply Z.leb_le.
      destruct s; cbn [cond_Zopp] in *.
      * pose proof (Habove g Hg ltac:(nia)). nia.
      * destruct (Z.le_gt_cases 0 (fval g)); [|lia]. pose proof (Hbelow g Hg ltac:(nia)). lia.
  - intros g Hg Hgf Hle. destruct Hcase as [[-> Hover]|(Hrf & _ & Hval)].
    + destruct s; [by apply fleb_NInf_finite|]. exfalso. cbn [cond_Zopp] in Hle.
      pose proof (fval_lt_over g Hg). pose proof (Habove g Hg ltac:(nia)). lia.
    + rewrite fleb_fval, Hval by done. apply Z.leb_le.
      destruct s; cbn [cond_Zopp] in *.
      * destruct (Z.le_gt_cases (fval g) 0); [|lia]. pose proof (Hbelow g Hg ltac:(nia)). lia.
      * pose proof (Habove g Hg ltac:(nia)). nia.
  - intros Hf. destruct Hcase as [[-> _]|(_ & _ & ->)]; [done|].
    rewrite cond_Zopp_abs by done. destruct s; cbn [cond_Zopp]; [|done].
    replace (- a * D - - N) with (- (a * D - N)) by ring. by rewrite Z.abs_opp.
Qed.

(** ** The operations round to nearest *)

Lemma shr_inv_exact mx : shr_inv mx 0 1 0 (shr_record_of_loc mx loc_Exact).
Proof. split; cbn; [by rewrite Z.div_1_r|]. rewrite Z.mod_1_r. repeat split; lia. Qed.

Lemma rounded_zero D s : 0 < D → rounded 0 D s (S754_zero s).
Proof.
  intros HD. exists 0, (-1074). split_and!; [done|lia..| |by left].
  change (2 ^ (-1074 + 1074)) with 1. lia.
Qed.

Lemma shl_align_spec m e e' :
  e' ≤ e → shl_align m e e' = (fst (shl_align m e e'), e') ∧
    Zpos (fst (shl_align m e e')) = Zpos m * 2 ^ (e - e').
Proof.
  intros He. unfold shl_align. destruct (e' - e) eqn:Ed; [| lia|].
  - replace e' with e by lia. rewrite Z.sub_diag. simpl. split; [done|lia].
  - split; [done|]. cbn [fst]. replace (e - e') with (Zpos p) by lia.
    rewrite <- Z.shiftl_mul_pow2 by lia. cbn [Z.shiftl].
    by apply (Pos.iter_swap_gen _ _ Zpos xO (Z.mul 2)).
Qed.

(** Rounding of an integer times a power of two. *)
Lemma binary_round_rounded s m e :
  rounded (Zpos m * 2 ^ (Z.max 0 (e + 1074))) (2 ^ (Z.max 0 (- (e + 1074)))) s
    (binary_round prec emax s m e).
Proof.
  unfold binary_round. rewrite fexp_eq.
  set (f := Z.max (Zpos (digits2_pos m) + e - 53) (-1074)).
  assert (0 < 2 ^ Z.max 0 (- (e + 1074))) by (apply Z.pow_pos_nonneg; lia).
  destruct (Z.le_gt_cases f e) as [Hle|Hgt].
  - destruct (shl_align_spec m e f Hle) as [-> Hm]. set (mz := fst _) in *.
    apply (round_aux_rounded _ _ _ _ 0 1 _ _ 0); try lia; try apply shr_inv_exact.
    + cbn [Zdigits2]. assert (Zpos (digits2_pos mz) = Zpos (digits2_pos m) + (e - f)) as ->;
        [|lia].
      rewrite !digits2_pos_log2, Hm, Z.log2_mul_pow2 by lia. lia.
    + rewrite Hm. rewrite (Z.max_l 0 (- _)), (Z.max_r 0 (e + 1074)) by lia.
      change (2 ^ 0) with 1. rewrite !Z.add_0_r, !Z.mul_1_r.
      rewrite <- Z.mul_assoc, <- Z.pow_add_r by lia. do 2 f_equal. lia.
  - assert (shl_align m e f = (m, e)) as ->.
    { unfold shl_align. destruct (f - e) eqn:Ed; [done..|lia]. }
    apply (round_aux_rounded _ _ _ _ 0 1 _ _ (Z.max 0 (- (e + 1074))));
      try lia; try apply shr_inv_exact.
    + cbn [Zdigits2]. lia.
    + rewrite Z.add_0_r, !Z.mul_1_r, <- !Z.mul_assoc, <- !Z.pow_add_r by lia.
      do 2 f_equal. lia.
Qed.

Lemma nearest_exact x : fvalid x = true → is_finite x = true → nearest (fval x) 1 x.
Proof.
  intros Hx Hf. split; [done|by destruct x|..].
  - intros g Hg Hgf Hle. rewrite fleb_fval by done. apply Z.leb_le. lia.
  - intros g Hg Hgf Hle. rewrite fleb_fval by done. apply Z.leb_le. lia.
  - intros _. lia.
Qed.

Lemma nearest_scale N D k r : 0 < k → 0 < D → nearest (N * k) (D * k) r → nearest N D r.
Proof.
  intros Hk HD [Hv Hn Hge Hle Herr]. split; [done|done|..].
  - intros g Hg Hgf H. apply Hge; [done..|]. nia.
  - intros g Hg Hgf H. apply Hle; [done..|]. nia.
  - intros Hf. specialize (Herr Hf). apply (Z.mul_le_mono_pos_r _ _ k); [done|].
    rewrite <- Z.mul_max_distr_nonneg_r, <- Z.mul_assoc, <- abs_scale by lia.
    replace (Z.abs N * k) with (Z.abs (N * k)) by (rewrite Z.abs_mul; lia).
    replace (fval r * D * k) with (fval r * (D * k)) by ring.
    replace (2 ^ 52 * D * k) with (2 ^ 52 * (D * k)) by ring. done.
Qed.

Lemma nearest_normalize m e b :
  -1074 ≤ e → nearest (m * 2 ^ (e + 1074)) 1 (binary_normalize prec emax m e b).
Proof.
  intros He. pose proof (pow_exp_pos e He).
  assert (Hr : ∀ s p, nearest (cond_Zopp s (Zpos p * 2 ^ (e + 1074))) 1
                        (binary_round prec emax s p e)).
  { intros s p. apply rounded_nearest; [lia..|]. pose proof (binary_round_rounded s p e) as Hr.
    rewrite (Z.max_r 0 (e + 1074)), (Z.max_l 0 (- _)) in Hr by lia. done. }
  destruct m as [|p|p]; cbn [binary_normalize].
  - apply (nearest_exact (S754_zero b)); done.
  - apply (Hr false).
  - replace (Zneg p * 2 ^ (e + 1074)) with (cond_Zopp true (Zpos p * 2 ^ (e + 1074)))
      by (cbn [cond_Zopp]; lia). apply (Hr true).
Qed.

Lemma nearest_add x y :
  fvalid x = true → is_finite x = true → fvalid y = true → is_finite y = true →
  nearest (fval x + fval y) 1 (fadd x y).
Proof.
  intros Hx Hfx Hy Hfy. destruct x as [sx| | |sx mx ex], y as [sy| | |sy my ey]; try done.
  - destruct sx, sy; by apply (nearest_normalize 0 0).
  - by apply (nearest_exact (S754_finite sy my ey)).
  - change (fval (S754_zero sy)) with 0. rewrite Z.add_0_r. by apply nearest_exact.
  - cbn [fadd SFadd]. apply bounded_spec in Hx. apply bounded_spec in Hy.
    destruct (shl_align_spec mx ex (Z.min ex ey) ltac:(lia)) as [_ Hmx].
    destruct (shl_align_spec my ey (Z.min ex ey) ltac:(lia)) as [_ Hmy].
    set (ax := fst (shl_align mx _ _)) in *. set (ay := fst (shl_align my _ _)) in *.
    change (fadd _ _) with (binary_normalize prec emax
      (cond_Zopp sx (Zpos ax) + cond_Zopp sy (Zpos ay)) (Z.min ex ey) false).
    assert (Hsc : ∀ s a m e, Zpos a = Zpos m * 2 ^ (e - Z.min ex ey) → Z.min ex ey ≤ e →
      cond_Zopp s (Zpos m * 2 ^ (e + 1074)) =
      cond_Zopp s (Zpos a) * 2 ^ (Z.min ex ey + 1074)).
    { intros s a m e -> Hle. assert (2 ^ (e + 1074) =
        2 ^ (e - Z.min ex ey) * 2 ^ (Z.min ex ey + 1074)) as ->
        by (rewrite <- Z.pow_add_r by lia; f_equal; lia).
      destruct s; cbn [cond_Zopp]; ring. }
    rewrite !fval_finite, (Hsc sx ax), (Hsc sy ay) by (done || lia).
    rewrite <- Z.mul_add_distr_r. apply nearest_normalize. lia.
Qed.

Lemma fsub_fadd x y : fsub x y = fadd x (fneg y).
Proof.
  destruct x as [[]|[]| |sx mx ex], y as [[]|[]| |sy my ey]; try done.
  unfold fsub, fadd, fneg, SFsub, SFadd, SFopp. cbv zeta. f_equal.
  destruct sy; cbn [negb cond_Zopp]; lia.
Qed.

Lemma fneg_props x :
  fvalid (fneg x) = fvalid x ∧ is_finite (fneg x) = is_finite x ∧ fval (fneg x) = - fval x.
Proof.
  destruct x as [| | |s m e]; try done. split_and!; [done..|].
  cbn [fneg SFopp]. rewrite !fval_finite. destruct s; cbn [negb cond_Zopp]; lia.
Qed.

Lemma nearest_sub x y :
  fvalid x = true → is_finite x = true → fvalid y = true → is_finite y = true →
  nearest (fval x - fval y) 1 (fsub x y).
Proof.
  intros Hx Hfx Hy Hfy. rewrite fsub_fadd. destruct (fneg_props y) as (Hv & Hf & Hval).
  rewrite <- Z.add_opp_r, <- Hval. apply nearest_add; congruence.
Qed.

Lemma nearest_mul x y :
  fvalid x = true → is_finite x = true → fvalid y = true → is_finite y = true →
  nearest (fval x * fval y) fone (fmul x y).
Proof.
  intros Hx Hfx Hy Hfy. assert (0 < fone) by done.
  assert (Hz : ∀ s, nearest 0 fone (S754_zero s)).
  { intros s. pose proof (rounded_nearest 0 fone s _ ltac:(lia) ltac:(done)
      (rounded_zero fone s ltac:(done))) as Hn. by destruct s. }
  destruct x as [sx| | |sx mx ex], y as [sy| | |sy my ey]; try done;
    cbn [fval]; rewrite ?Z.mul_0_r, ?Z.mul_0_l; try apply Hz.
  apply bounded_spec in Hx. apply bounded_spec in Hy.
  set (X := Zpos mx * 2 ^ (ex + 1074)). set (Y := Zpos my * 2 ^ (ey + 1074)).
  assert (cond_Zopp sx X * cond_Zopp sy Y = cond_Zopp (xorb sx sy) (X * Y)) as ->
    by (destruct sx, sy; cbn [cond_Zopp xorb]; ring).
  pose proof (pow_exp_pos ex ltac:(lia)). pose proof (pow_exp_pos ey ltac:(lia)).
  apply rounded_nearest; [nia|done|].
  apply (round_aux_rounded _ _ _ _ 0 1 _ _ 1074); try lia; try apply shr_inv_exact.
  - assert (ex + ey ≤ -1074 ∨ 52 ≤ Z.log2 (Zpos (mx * my))) as Hor.
    { destruct Hx as (? & ? & [Hmx|]), Hy as (? & ? & [Hmy|]); try (left; lia);
        right; apply Z.log2_le_pow2; lia. }
    cbn [Zdigits2]. rewrite digits2_pos_log2. lia.
  - unfold X, Y, fone. rewrite Z.add_0_r, !Z.mul_1_r.
    replace (ex + ey + 1074 + 1074) with (ex + 1074 + (ey + 1074)) by lia.
    rewrite (Z.pow_add_r 2 (ex + 1074)) by lia. rewrite Pos2Z.inj_mul. ring.
Qed.

(** The location of a remainder of a division. *)
Lemma new_location_inv q r den :
  0 ≤ r < den → shr_inv q r den 0 (shr_record_of_loc q (new_location den r)).
Proof.
  intros Hr. unfold shr_inv. rewrite Z.pow_0_r, Z.div_1_r, Z.mod_1_r, Z.mul_0_l, Z.add_0_l, Z.mul_1_l.
  assert (Hcmp : ∀ c, (c = Lt → 0 < 2 * r < den) → (c = Eq → 2 * r = den) →
    (c = Gt → den < 2 * r) →
    shr_m (shr_record_of_loc q (loc_Inexact c)) = q ∧
    loc_ok r den (shr_r (shr_record_of_loc q (loc_Inexact c)))
      (shr_s (shr_record_of_loc q (loc_Inexact c)))).
  { intros [| |] HLt HEq HGt; (split; [done|]); (split; [lia|]); cbn; auto. }
  unfold new_location, new_location_even, new_location_odd.
  destruct (Z.even den) eqn:Hev; destruct (Z.eqb_spec r 0) as [->|Hne];
    try ((split; [done|]); (split; [lia|]); done); apply Hcmp.
  - intros Hc. rewrite Z.compare_lt_iff in Hc. lia.
  - intros Hc. rewrite Z.compare_eq_iff in Hc. lia.
  - intros Hc. rewrite Z.compare_gt_iff in Hc. lia.
  - destruct (Z.compare_spec (2 * r + 1) den); intros ?; try done; lia.
  - by destruct (2 * r + 1 ?= den).
  - destruct (Z.compare_spec (2 * r + 1) den) as [| |Hgt]; intros ?; try done.
    assert (den ≠ 2 * r) as Hd; [|lia]. intros ->. by rewrite Z.even_mul in Hev.
Qed.

Lemma log2_div_bound a b : 0 < b → 0 < a → Z.log2 a - Z.log2 b - 1 ≤ Z.log2 (a / b).
Proof.
  intros Hb Ha. destruct (Z.le_gt_cases (Z.log2 a - Z.log2 b - 1) 0) as [|Hpos].
  { pose proof (Z.log2_nonneg (a / b)). lia. }
  apply Z.log2_le_pow2.
  - apply Z.div_str_pos. split; [done|].
    apply Z.log2_spec in Ha as [Ha _]. apply Z.log2_spec in Hb as [_ Hb].
    pose proof (Z.pow_le_mono_r 2 (Z.succ (Z.log2 b)) (Z.log2 a)). lia.
  - apply Z.div_le_lower_bound; [done|].
    pose proof (Z.log2_spec a Ha) as [Hla _]. pose proof (Z.log2_spec b Hb) as [_ Hlb].
    transitivity (2 ^ Z.succ (Z.log2 b) * 2 ^ (Z.log2 a - Z.log2 b - 1)).
    + apply Z.mul_le_mono_nonneg_r; [apply Z.pow_nonneg; lia|lia].
    + rewrite <- Z.pow_add_r by (pose proof (Z.log2_nonneg b); lia).
      replace (Z.succ (Z.log2 b) + (Z.log2 a - Z.log2 b - 1)) with (Z.log2 a) by lia. done.
Qed.

Lemma Zdigits2_log2 m : 0 < m → Zdigits2 m = Z.log2 m + 1.
Proof. intros Hm. destruct m as [|p|p]; [lia| |lia]. cbn [Zdigits2]. apply digits2_pos_log2. Qed.

(** Rounding of a quotient. *)
Lemma div_core_rounded s m1 e1 m2 e2 :
  -1074 ≤ e1 → -1074 ≤ e2 →
  rounded (Zpos m1 * 2 ^ (e1 + 1074) * fone) (Zpos m2 * 2 ^ (e2 + 1074)) s
    (let '(mz, ez, lz) := SFdiv_core_binary prec emax (Zpos m1) e1 (Zpos m2) e2 in
     binary_round_aux prec emax s mz ez lz).
Proof.
  intros He1 He2. unfold SFdiv_core_binary. rewrite fexp_eq. cbv zeta.
  set (e' := Z.min _ (e1 - e2)).
  set (m' := match e1 - e2 - e' with 0 => _ | _ => _ end).
  assert (m' = Zpos m1 * 2 ^ (e1 - e2 - e')) as Hm'.
  { unfold m'. destruct (e1 - e2 - e') eqn:Es; [simpl; lia| |lia].
    by rewrite Z.shiftl_mul_pow2 by lia. }
  assert (e' = Z.min (Z.max (Z.log2 (Zpos m1) + e1 - (Z.log2 (Zpos m2) + e2) - 53) (-1074))
                     (e1 - e2)) as He'.
  { unfold e'. rewrite !Zdigits2_log2 by lia. lia. }
  clearbody m'. clearbody e'.
  assert (0 < 2 ^ (e1 - e2 - e')) by (apply Z.pow_pos_nonneg; lia).
  pose proof (Z_div_mod m' (Zpos m2) ltac:(lia)) as Hdm.
  destruct (Z.div_eucl m' (Zpos m2)) as [q r] eqn:Eqr. destruct Hdm as [Hqr Hr].
  assert (q = m' / Zpos m2) as Hq by (unfold Z.div; by rewrite Eqr).
  assert (0 ≤ q) by (rewrite Hq; apply Z.div_pos; lia).
  pose proof (pow_exp_pos e2 He2).
  apply (round_aux_rounded _ _ _ _ r (Zpos m2) _ _ (Z.max 0 (- (e' + 1074)))); try lia.
  - by apply new_location_inv.
  - pose proof (log2_div_bound m' (Zpos m2) ltac:(lia) ltac:(lia)) as Hlog.
    rewrite <- Hq, Hm', Z.log2_mul_pow2 in Hlog by lia.
    destruct (decide (q = 0)) as [->|]; [|rewrite (Zdigits2_log2 q) by lia].
    + change (Z.log2 0) with 0 in Hlog. change (Zdigits2 0) with 0.
      pose proof (Z.log2_le_mono m' (Zpos m2) ltac:(lia)) as Hlm.
      rewrite Hm', Z.log2_mul_pow2 in Hlm by lia. lia.
    + lia.
  - rewrite (Z.mul_comm q), <- Hqr, Hm'. set (K := Z.max _ _).
    assert (2 ^ (e1 + 1074) * fone * 2 ^ K =
      2 ^ (e1 - e2 - e') * 2 ^ (e2 + 1074) * 2 ^ (e' + 1074 + K)) as Hpow.
    { unfold fone. rewrite <- !Z.pow_add_r by lia. f_equal. lia. }
    transitivity (Zpos m1 * Zpos m2 * (2 ^ (e1 + 1074) * fone * 2 ^ K)); [ring|].
    rewrite Hpow. ring.
Qed.

Lemma nearest_div x y :
  fvalid x = true → is_finite x = true → fvalid y = true → is_finite y = true → 0 < fval y →
  nearest (fval x * fone) (fval y) (fdiv x y).
Proof.
  intros Hx Hfx Hy Hfy Hpos.
  destruct y as [sy| | |sy my ey]; try done. rewrite fval_finite in *.
  apply bounded_spec in Hy. pose proof (pow_exp_pos ey ltac:(lia)).
  destruct sy; cbn [cond_Zopp] in *; [lia|].
  destruct x as [sx| | |sx mx ex]; try done.
  - cbn [fval]. rewrite Z.mul_0_l.
    pose proof (rounded_nearest 0 _ sx _ ltac:(lia) Hpos (rounded_zero _ sx Hpos)) as Hn.
    by destruct sx.
  - rewrite fval_finite. apply bounded_spec in Hx. pose proof (pow_exp_pos ex ltac:(lia)).
    assert (0 < fone) by done.
    replace (cond_Zopp sx (Zpos mx * 2 ^ (ex + 1074)) * fone)
      with (cond_Zopp sx (Zpos mx * 2 ^ (ex + 1074) * fone))
      by (destruct sx; cbn [cond_Zopp]; ring).
    apply rounded_nearest; [nia|done|].
    replace (fdiv (S754_finite sx mx ex) (S754_finite false my ey)) with
      (let '(mz, ez, lz) := SFdiv_core_binary prec emax (Zpos mx) ex (Zpos my) ey in
       binary_round_aux prec emax sx mz ez lz)
      by (cbn [fdiv SFdiv]; by rewrite xorb_false_r).
    apply div_core_rounded; lia.
Qed.

Lemma nearest_of_Z z : nearest (z * fone) 1 (float_of_Z z).
Proof. apply (nearest_normalize z 0). lia. Qed.

(** ** Consequences *)

(** Valid finite float64 with the same non-zero value are equal. *)
Lemma fval_inj x y :
  fvalid x = true → fvalid y = true → fval x = fval y → fval x ≠ 0 → x = y.
Proof.
  intros Hx Hy Heq Hne.
  destruct x as [| | |sx mx ex]; try done. destruct y as [| | |sy my ey]; try (by rewrite Heq in Hne).
  pose proof (canonical_compare mx ex my ey Hx Hy) as Hc.
  pose proof (proj1 (bounded_spec _ _) Hx). pose proof (pow_exp_pos ex ltac:(lia)).
  pose proof (proj1 (bounded_spec _ _) Hy). pose proof (pow_exp_pos ey ltac:(lia)).
  rewrite !fval_finite in Heq.
  assert (sx = sy ∧ Zpos mx * 2 ^ (ex + 1074) = Zpos my * 2 ^ (ey + 1074)) as [-> Hv]
    by (destruct sx, sy; cbn [cond_Zopp] in Heq; split; done || lia).
  rewrite Hv, Z.compare_refl in Hc. destruct (Z.compare_spec ex ey) as [->| |]; try done.
  apply Pos.compare_eq in Hc. by subst.
Qed.

Lemma nearest_between N D r lo hi :
  nearest N D r → fvalid lo = true → is_finite lo = true → fvalid hi = true → is_finite hi = true →
  fval lo * D ≤ N ≤ fval hi * D →
  fvalid r = true ∧ is_finite r = true ∧ fval lo ≤ fval r ≤ fval hi.
Proof.
  intros [Hv Hn Hge Hle _] Hlo Hflo Hhi Hfhi [H1 H2].
  specialize (Hge lo Hlo Hflo H1). specialize (Hle hi Hhi Hfhi H2).
  assert (is_finite r = true) as Hf.
  { destruct r as [|[]| |]; try done; [by destruct lo|by destruct hi]. }
  rewrite fleb_fval in Hge, Hle by done. zbool. done.
Qed.

Lemma nearest_exactly N D r g :
  nearest N D r → fvalid g = true → is_finite g = true → 0 < D → fval g * D = N →
  fvalid r = true ∧ is_finite r = true ∧ fval r = fval g.
Proof.
  intros Hn Hg Hfg HD Heq.
  destruct (nearest_between N D r g g Hn Hg Hfg Hg Hfg ltac:(lia)) as (? & ? & ?).
  split_and!; [done..|lia].
Qed.

(** At least a bound that is a float64; the result may be infinite. *)
Lemma nearest_at_least N D r lo :
  nearest N D r → fvalid lo = true → is_finite lo = true → fval lo * D ≤ N →
  fvalid r = true ∧ (r = S754_infinity false ∨ is_finite r = true ∧ fval lo ≤ fval r).
Proof.
  intros [Hv Hn Hge _ _] Hlo Hflo H1. split; [done|].
  specialize (Hge lo Hlo Hflo H1). destruct (is_finite r) eqn:Hf.
  - right. rewrite fleb_fval in Hge by done. zbool. done.
  - left. destruct r as [|[]| |]; try done. by destruct lo.
Qed.

(** Integers up to 2^53 are exact. *)
Lemma Z_float z : Z.abs z ≤ 2 ^ 53 →
  ∃ g, fvalid g = true ∧ is_finite g = true ∧ fval g = z * fone.
Proof.
  intros Hz. destruct (decide (z = 0)) as [->|Hne]; [by exists (S754_zero false)|].
  assert (Hpos : ∀ s p, Zpos p ≤ 2 ^ 53 →
    ∃ g, fvalid g = true ∧ is_finite g = true ∧ fval g = cond_Zopp s (Zpos p) * fone).
  { intros s p Hp. destruct (decide (Zpos p = 2 ^ 53)) as [->|].
    { exists (S754_finite s (2 ^ 52)%positive 1). split_and!; [done..|by destruct s]. }
    set (l := Z.log2 (Zpos p)). pose proof (Z.log2_spec (Zpos p) ltac:(lia)) as Hl. fold l in Hl.
    pose proof (Z.log2_nonneg (Zpos p)). fold l in H.
    assert (l < 53) by (apply Z.log2_lt_pow2; lia).
    assert (0 < 2 ^ (52 - l)) by (apply Z.pow_pos_nonneg; lia).
    assert (2 ^ 52 = 2 ^ l * 2 ^ (52 - l)) as H52 by (rewrite <- Z.pow_add_r by lia; f_equal; lia).
    assert (2 ^ 53 = 2 ^ Z.succ l * 2 ^ (52 - l)) as H53
      by (rewrite <- Z.pow_add_r by lia; f_equal; lia).
    exists (S754_finite s (Z.to_pos (Zpos p * 2 ^ (52 - l))) (l - 52)). split_and!; [|done|].
    - apply bounded_spec. rewrite Z2Pos.id by nia. nia.
    - rewrite fval_finite, Z2Pos.id by nia.
      assert (Zpos p * 2 ^ (52 - l) * 2 ^ (l - 52 + 1074) = Zpos p * fone) as ->
        by (unfold fone; rewrite <- Z.mul_assoc, <- Z.pow_add_r by lia; do 2 f_equal; lia).
      destruct s; cbn [cond_Zopp]; ring. }
  destruct z as [|p|p]; [done|by apply (Hpos false p)|by apply (Hpos true p)].
Qed.

Lemma float_of_Z_exact z : Z.abs z ≤ 2 ^ 53 →
  fvalid (float_of_Z z) = true ∧ is_finite (float_of_Z z) = true ∧
  fval (float_of_Z z) = z * fone.
Proof.
  intros Hz. destruct (Z_float z Hz) as (g & Hg & Hf & Hval).
  rewrite <- Hval. eapply nearest_exactly; [apply nearest_of_Z|done|done|lia|lia].
Qed.

(** *** The minimum with a bound *)

Lemma fmin_spec x y :
  fvalid x = true → is_finite x = true → fvalid y = true →
  (y = S754_infinity false ∨ is_finite y = true) →
  fvalid (fmin x y) = true ∧ is_finite (fmin x y) = true ∧
  fval (fmin x y) = (if is_finite y then Z.min (fval x) (fval y) else fval x).
Proof.
  intros Hx Hfx Hy [->|Hfy].
  { destruct x as [[]| | |[] ? ?]; done. }
  rewrite Hfy.
  assert (fmin x y = (if fltb x y then x else y) ∨ fval x = 0 ∧ fval y = 0 ∧ (fmin x y = x ∨ fmin x y = y))
    as [->|(Hx0 & Hy0 & [->| ->])]; [|destruct (fltb x y) eqn:Hlt|..].
  - destruct x as [[]| | |], y as [[]| | |]; try done; auto 10.
  - rewrite fltb_fval in Hlt by done. zbool. split_and!; [done..|lia].
  - rewrite fltb_fval in Hlt by done. zbool. split_and!; [done..|lia].
  - split_and!; [done..|lia].
  - split_and!; [done..|lia].
Qed.

(** *** Gaps, integer parts, square roots *)

(** The next float64 above [x] is at least [x / 2^53] away. *)
Lemma float_gap x g :
  fvalid x = true → fvalid g = true → Z.abs (fval x) < Z.abs (fval g) →
  Z.abs (fval x) < 2 ^ 53 * (Z.abs (fval g) - Z.abs (fval x)).
Proof.
  intros Hx Hg Hlt. destruct x as [| | |s m e]; try (cbn [fval] in *; lia).
  pose proof (proj1 (bounded_spec _ _) Hx) as (He & Hm & Hor).
  pose proof (pow_exp_pos e ltac:(lia)). rewrite fval_finite in *.
  rewrite cond_Zopp_abs in * by lia. set (P := 2 ^ (e + 1074)) in *.
  destruct (fval_grid g e Hg ltac:(lia)) as [[v Hv]|[Hne Hsmall]].
  - fold P in Hv. rewrite Hv in *. assert (Zpos m + 1 ≤ v) by nia. nia.
  - fold P in Hsmall. destruct Hor; [nia|done].
Qed.

Lemma ftrunc_fval x : fvalid x = true → is_finite x = true → ftrunc x = Z.quot (fval x) fone.
Proof.
  intros Hx Hf. destruct x as [| | |s m e]; try done.
  apply bounded_spec in Hx as (He & _). rewrite fval_finite. cbn [ftrunc].
  assert ((if 0 <=? e then Zpos m * 2 ^ e else Zpos m / 2 ^ (- e)) =
    Zpos m * 2 ^ (e + 1074) / fone) as ->.
  { unfold fone. destruct (Z.leb_spec 0 e).
    - rewrite Z.pow_add_r, Z.mul_assoc, Z.div_mul by lia. done.
    - assert (2 ^ 1074 = 2 ^ (- e) * 2 ^ (e + 1074)) as ->
        by (rewrite <- Z.pow_add_r by lia; f_equal; lia).
      pose proof (pow_exp_pos e ltac:(lia)).
      rewrite Z.div_mul_cancel_r; [done| |lia]. apply Z.pow_nonzero; lia. }
  pose proof (pow_exp_pos e ltac:(lia)). assert (0 < fone) by done.
  destruct s; cbn [cond_Zopp].
  - rewrite Z.quot_opp_l, Z.quot_div_nonneg by lia. done.
  - by rewrite Z.quot_div_nonneg by lia.
Qed.

Lemma sqrt_pow_le t a : 0 ≤ t → 2 ^ (2 * t) ≤ a → 2 ^ t ≤ Z.sqrt a.
Proof.
  intros Ht Ha. rewrite Z.mul_comm, Z.pow_mul_r, Z.pow_2_r in Ha by lia.
  pose proof (Z.pow_nonneg 2 t ltac:(lia)). apply Z.sqrt_le_square; nia.
Qed.

(** The rounding of a square root: the integer root [q] of the scaled mantissa,
    with a fraction [rem / 4] on the right side of one half. *)
Lemma fsqrt_rounded m e :
  bounded prec emax m e = true →
  ∃ q rem e', rounded ((q * 4 + rem) * 2 ^ (e' + 1074)) 4 false (fsqrt (S754_finite false m e)) ∧
    0 ≤ rem ∧ q = Z.sqrt (Zpos m * 2 ^ (e - 2 * e')) ∧ -1074 ≤ e' ∧ 2 * e' ≤ e ∧
    e' ≤ Z.max ((Zpos (digits2_pos m) + e + 1) / 2 - 53) (-1074).
Proof.
  intros Hb. apply bounded_spec in Hb as (He & Hm & _).
  unfold fsqrt, SFsqrt, SFsqrt_core_binary. rewrite fexp_eq. cbv zeta. cbn [Zdigits2].
  set (d := Zpos (digits2_pos m)). set (e' := Z.min _ (Z.div2 e)).
  set (m' := match _ with 0 => _ | _ => _ end).
  assert (e' = Z.min (Z.max ((d + e + 1) / 2 - 53) (-1074)) (e / 2)) as He'
    by (unfold e'; by rewrite !Z.div2_div).
  assert (0 ≤ e - 2 * e') as Hge by (rewrite He'; Z.to_euclidean_division_equations; lia).
  assert (m' = Zpos m * 2 ^ (e - 2 * e')) as Hm'.
  { unfold m'. destruct (e - 2 * e') eqn:Es; [simpl; lia|by rewrite Z.shiftl_mul_pow2 by lia|done]. }
  clearbody e' m'. pose proof (Z.pow_pos_nonneg 2 (e - 2 * e') ltac:(lia) ltac:(lia)).
  pose proof (Z.sqrtrem_sqrt m') as Hsq. destruct (Z.sqrtrem m') as [q r]. simpl in Hsq.
  set (l := if r =? 0 then _ else _).
  assert (∃ rem, 0 ≤ rem ∧ shr_inv q rem 4 0 (shr_record_of_loc q l)) as (rem & Hrem & Hinv).
  { unfold shr_inv, loc_ok. rewrite Z.pow_0_r, Z.div_1_r, Z.mod_1_r.
    unfold l. destruct (r =? 0); [|destruct (r <=? q)]; [exists 0|exists 1|exists 3]; simpl; repeat split; lia. }
  assert (0 ≤ q) by (rewrite Hsq; apply Z.sqrt_nonneg).
  exists q, rem, e'. split_and!; [|done|congruence|(Z.to_euclidean_division_equations; lia)..].
  assert (-1074 ≤ e') by (Z.to_euclidean_division_equations; lia).
  apply (round_aux_rounded _ _ _ _ rem 4 _ _ 0); try lia; try done; [|rewrite Z.add_0_r; ring].
  destruct (Z.le_gt_cases ((d + e + 1) / 2 - 53) (-1074)); [lia|].
  set (t := (d + (e - 2 * e') - 1) / 2).
  assert (52 ≤ t ∧ 2 * t ≤ d + (e - 2 * e') - 1) as [Ht Htle]
    by (unfold t; Z.to_euclidean_division_equations; lia).
  assert (2 ^ t ≤ q) as Hq.
  { rewrite Hsq. apply sqrt_pow_le; [lia|]. rewrite Hm'.
    pose proof (digits_bounds m _ eq_refl) as [Hd _]. fold d in Hd.
    transitivity (2 ^ (d - 1) * 2 ^ (e - 2 * e')); [|nia].
    assert (0 < d) by (unfold d; lia).
    rewrite <- Z.pow_add_r by lia. apply Z.pow_le_mono_r; lia. }
  pose proof (Z.pow_pos_nonneg 2 t ltac:(lia) ltac:(lia)).
  rewrite Zdigits2_log2 by lia. pose proof (Z.log2_le_mono _ _ Hq) as Hlog.
  rewrite Z.log2_pow2 in Hlog; lia.
Qed.

(** The square root of a number that is at least a square. *)
Lemma fsqrt_at_least x k :
  fvalid x = true → is_finite x = true → 1 ≤ k ≤ 2 ^ 53 →
  k * k * fone ≤ fval x ≤ 2 ^ 60 * fone →
  fvalid (fsqrt x) = true ∧
  (fsqrt x = S754_infinity false ∨ is_finite (fsqrt x) = true ∧ k * fone ≤ fval (fsqrt x)).
Proof.
  intros Hx Hf Hk [Hlo Hhi]. assert (0 < fone) as Hu by done.
  destruct x as [| | |[] m e]; try done; try (cbn [fval] in Hlo; nia).
  { rewrite fval_finite in Hlo. cbn [cond_Zopp] in Hlo. nia. }
  rewrite fval_finite in *. cbn [cond_Zopp] in *. pose proof (proj1 (bounded_spec _ _) Hx) as (He & _).
  pose proof (pow_exp_pos e ltac:(lia)) as HP.
  destruct (fsqrt_rounded m e Hx) as (q & rem & e' & Hr & Hrem & Hq & He' & He2 & Hemax).
  assert (0 ≤ q) by (rewrite Hq; apply Z.sqrt_nonneg).
  assert (e' < 0) as Hneg.
  { pose proof (digits_bounds m _ eq_refl) as [Hd _]. set (d := Zpos (digits2_pos m)) in *.
    assert (2 ^ (d - 1 + (e + 1074)) ≤ 2 ^ (60 + 1074)) as Hpow.
    { rewrite (Z.pow_add_r 2 60), Z.pow_add_r by lia. fold fone. nia. }
    apply Z.pow_le_mono_r_iff in Hpow; Z.to_euclidean_division_equations; lia. }
  pose proof (pow_exp_pos e' He') as HP'.
  assert (2 ^ (- e') * 2 ^ (e' + 1074) = fone) as Hfe
    by (unfold fone; rewrite <- Z.pow_add_r by lia; f_equal; lia).
  apply rounded_nearest in Hr; [|nia|done]. cbn [cond_Zopp] in Hr.
  destruct (Z_float k) as (g & Hg1 & Hg2 & Hg3); [lia|].
  rewrite <- Hg3. apply (nearest_at_least _ _ _ g Hr Hg1 Hg2). rewrite Hg3.
  assert (k * 2 ^ (- e') ≤ q) as Hkq.
  { rewrite Hq. pose proof (Z.pow_pos_nonneg 2 (- e') ltac:(lia) ltac:(lia)).
    pose proof (Z.pow_pos_nonneg 2 (e - 2 * e') ltac:(lia) ltac:(lia)).
    apply Z.sqrt_le_square; [nia..|].
    apply (Z.mul_le_mono_pos_r _ _ (2 ^ (e' + 1074) * 2 ^ (e' + 1074))); [nia|].
    assert (2 ^ (e - 2 * e') * (2 ^ (e' + 1074) * 2 ^ (e' + 1074)) = 2 ^ (e + 1074) * fone) as Hee
      by (unfold fone; rewrite <- !Z.pow_add_r by lia; f_equal; lia).
    replace (k * 2 ^ (- e') * (k * 2 ^ (- e')) * (2 ^ (e' + 1074) * 2 ^ (e' + 1074)))
      with (k * k * (2 ^ (- e') * 2 ^ (e' + 1074)) * (2 ^ (- e') * 2 ^ (e' + 1074))) by ring.
    rewrite Hfe, <- (Z.mul_assoc (Zpos m)), Hee. nia. }
  assert (k * fone ≤ q * 2 ^ (e' + 1074)); [|nia]. rewrite <- Hfe, Z.mul_assoc. nia.
Qed.
