(* ===== verification/CdcDecimal.v ===== *)
(** * Decimals of change events (kafka-cdc/pkg/debezium/message.go)

    Debezium writes a decimal as the base64 of its unscaled value, a big-endian
    two's complement integer.  [DecodeDebeziumDecimal] reads it with Go's
    [encoding/base64] and [math/big]; both are written out here as far as the
    code uses them. *)

From S2P Require Import Prelude GoSem GoFloat.
From Stdlib Require Import SpecFloat Ascii.

(** ** base64.StdEncoding.DecodeString *)

Definition char_code (c : ascii) : Z := Z.of_nat (nat_of_ascii c).

Definition b64_value (c : ascii) : option Z :=
  let n := char_code c in
  if (65 <=? n) && (n <=? 90) then Some (n - 65)
  else if (97 <=? n) && (n <=? 122) then Some (n - 71)
  else if (48 <=? n) && (n <=? 57) then Some (n + 4)
  else if n =? 43 then Some 62
  else if n =? 47 then Some 63
  else None.

(** Line breaks are skipped; groups of four characters give three bytes, the
    last one may be padded; the bits left over by the padding are not looked
    at.  The position in the error is left out. *)
Definition is_newline (c : ascii) : bool := (char_code c =? 10) || (char_code c =? 13).
Definition pad : ascii := "="%char.
Definition corrupt : error := ErrExt "illegal base64 data".
Fixpoint decode_quanta (cs : list ascii) : result (list Z) :=
  match cs with
  | [] => Ok []
  | a :: b :: c :: d :: rest =>
      match b64_value a, b64_value b with
      | Some a, Some b =>
          let b1 := a * 4 + b / 16 in
          if decide (c = pad) then
            if decide (d = pad ∧ rest = []) then Ok [b1] else Err corrupt
          else match b64_value c with
          | None => Err corrupt
          | Some c =>
              let b2 := b mod 16 * 16 + c / 4 in
              if decide (d = pad) then
                if decide (rest = []) then Ok [b1; b2] else Err corrupt
              else match b64_value d, decode_quanta rest with
              | Some d, Ok bs => Ok (b1 :: b2 :: c mod 4 * 64 + d :: bs)
              | _, _ => Err corrupt
              end
          end
      | _, _ => Err corrupt
      end
  | _ => Err corrupt
  end.
Definition DecodeString (s : string) : result (list Z) :=
  decode_quanta (filter (λ c, is_newline c = false) (String.list_ascii_of_string s)).

(** ** math/big *)

(** [big.Int.SetBytes]: an unsigned big-endian integer. *)
Definition SetBytes (bs : list Z) : Z := foldl (λ n b, n * 256 + b) 0 bs.

(** [big.Int.Exp(10, y, nil)]: one for a negative exponent. *)
Definition Exp (x y : Z) : Z := if y <=? 0 then 1 else x ^ y.

(** A [big.Float] has the precision of the integer it is set to, at least 64
    bits, and exponents of 32 bits; [Quo] rounds to the larger precision, and
    [Float64] rounds again. *)
Definition big_emax : Z := 2 ^ 31 - 1.
Definition big_prec (z : Z) : Z := Z.max 64 (Z.log2 (Z.abs z) + 1).
Definition big_of_Z (z : Z) : spec_float := binary_normalize (big_prec z) big_emax z 0 false.
Definition Float64 (x : spec_float) : float64 :=
  match x with
  | S754_finite s m e => binary_round prec emax s m e
  | x => x
  end.
Definition Quo (x y : Z) : spec_float :=
  SFdiv (Z.max (big_prec x) (big_prec y)) big_emax (big_of_Z x) (big_of_Z y).

(** ** DecodeDebeziumDecimal *)

Definition decimal_value (unscaled scale : Z) : float64 := Float64 (Quo unscaled (Exp 10 scale)).

Definition DecodeDebeziumDecimal (encoded : string) (scale : Z) : result float64 :=
  match DecodeString encoded with
  | Err err => Err err
  | Ok decoded =>
      let bigInt := SetBytes decoded in
      Ok (decimal_value bigInt scale)
  end.

(** ** What the connector writes *)

Definition b64_char (v : Z) : ascii :=
  ascii_of_nat (Z.to_nat (if v <? 26 then v + 65 else if v <? 52 then v + 71
    else if v <? 62 then v - 4 else if v =? 62 then 43 else 47)).
Fixpoint encode_quanta (bs : list Z) : list ascii :=
  match bs with
  | [] => []
  | [x] => [b64_char (x / 4); b64_char (x mod 4 * 16); pad; pad]
  | [x; y] => [b64_char (x / 4); b64_char (x mod 4 * 16 + y / 16); b64_char (y mod 16 * 4); pad]
  | x :: y :: z :: bs =>
      b64_char (x / 4) :: b64_char (x mod 4 * 16 + y / 16) :: b64_char (y mod 16 * 4 + z / 64)
        :: b64_char (z mod 64) :: encode_quanta bs
  end.
Definition EncodeToString (bs : list Z) : string := String.string_of_list_ascii (encode_quanta bs).

(** The [n] bytes of a two's complement integer, the highest first. *)
Fixpoint to_bytes (n : nat) (z : Z) : list Z :=
  match n with
  | O => []
  | S n => to_bytes n (z / 256) ++ [z mod 256]
  end.
Definition debezium_decimal (n : nat) (unscaled : Z) : string := EncodeToString (to_bytes n unscaled).

Example decimal_ok : DecodeDebeziumDecimal "E4g=" 2 = Ok (float_of_Z 50).
Proof. vm_compute. reflexivity. Qed.
Example encoding_ok : debezium_decimal 2 5000 = "E4g="%string.
Proof. vm_compute. reflexivity. Qed.
Example minus_one_cent : DecodeDebeziumDecimal (debezium_decimal 1 (-1)) 2 = Ok (decimal_value 255 2).
Proof. vm_compute. reflexivity. Qed.

(** ** Base64 round trip *)

Definition b64_ok (v : Z) : bool :=
  bool_decide (b64_value (b64_char v) = Some v) && bool_decide (b64_char v ≠ pad)
  && negb (is_newline (b64_char v)).

Lemma b64_all : forallb b64_ok (seqZ 0 64) = true.
Proof. vm_compute. reflexivity. Qed.

Lemma b64_char_ok v : 0 ≤ v < 64 →
  b64_value (b64_char v) = Some v ∧ b64_char v ≠ pad ∧ is_newline (b64_char v) = false.
Proof.
  intros Hv. pose proof b64_all as H. rewrite forallb_forall in H.
  specialize (H v ltac:(apply list_elem_of_In, elem_of_seqZ; lia)). unfold b64_ok in H.
  rewrite !andb_true_iff, !bool_decide_eq_true, negb_true_iff in H. tauto.
Qed.

Definition is_byte (b : Z) : Prop := 0 ≤ b < 256.

Ltac b64 :=
  repeat match goal with
  | |- context [b64_value (b64_char ?v)] =>
      rewrite (proj1 (b64_char_ok v ltac:(Z.to_euclidean_division_equations; lia)))
  | |- context [decide (b64_char ?v = pad)] =>
      rewrite (decide_False (P := b64_char v = pad))
        by (apply b64_char_ok; Z.to_euclidean_division_equations; lia)
  end.

Lemma decode_encode_quanta bs : Forall is_byte bs → decode_quanta (encode_quanta bs) = Ok bs.
Proof.
  revert bs. fix IH 1. intros [|x [|y [|z bs]]] H; [done|..]; unfold is_byte in H;
    repeat match goal with H : Forall _ (_ :: _) |- _ => apply Forall_cons in H as [? H] end;
    cbn [encode_quanta decode_quanta]; b64.
  - rewrite !decide_True by done. repeat f_equal. Z.to_euclidean_division_equations. lia.
  - rewrite !decide_True by done. repeat f_equal; Z.to_euclidean_division_equations; lia.
  - rewrite IH by done. repeat f_equal; Z.to_euclidean_division_equations; lia.
Qed.

Lemma encode_no_newline bs :
  Forall is_byte bs → Forall (λ c, is_newline c = false) (encode_quanta bs).
Proof.
  revert bs. fix IH 1. intros [|x [|y [|z bs]]] H; [constructor|..]; unfold is_byte in H;
    repeat match goal with H : Forall _ (_ :: _) |- _ => apply Forall_cons in H as [? H] end;
    cbn [encode_quanta]; repeat (apply Forall_cons; split);
    try (apply b64_char_ok; Z.to_euclidean_division_equations; lia); try constructor; by try apply IH.
Qed.

Lemma DecodeString_EncodeToString bs : Forall is_byte bs → DecodeString (EncodeToString bs) = Ok bs.
Proof.
  intros H. unfold DecodeString, EncodeToString. rewrite String.list_ascii_of_string_of_list_ascii.
  rewrite filter_all by by apply encode_no_newline. by apply decode_encode_quanta.
Qed.

(** ** Bytes of an integer *)

Lemma to_bytes_bytes n z : Forall is_byte (to_bytes n z).
Proof.
  revert z. induction n as [|n IH]; intros z; simpl; [constructor|].
  apply Forall_app. split; [apply IH|]. constructor; [|constructor].
  unfold is_byte. apply Z.mod_pos_bound. lia.
Qed.

Lemma SetBytes_to_bytes n z : SetBytes (to_bytes n z) = z mod 256 ^ Z.of_nat n.
Proof.
  unfold SetBytes. revert z. induction n as [|n IH]; intros z; [by rewrite Z.mod_1_r|].
  simpl to_bytes. rewrite foldl_app, IH. simpl.
  rewrite Nat2Z.inj_succ, Z.pow_succ_r by lia.
  rewrite Z.rem_mul_r by lia. lia.
Qed.

Lemma SetBytes_nonneg bs : Forall is_byte bs → 0 ≤ SetBytes bs.
Proof.
  unfold SetBytes. intros H. assert (∀ n, 0 ≤ n → 0 ≤ foldl (λ n b, n * 256 + b) n bs); [|by apply H0].
  induction H as [|b bs Hb _ IH]; intros n Hn; simpl; [done|]. apply IH. unfold is_byte in Hb. lia.
Qed.

(** ** No sign *)

Lemma binary_round_aux_sign p em m e l : is_neg (binary_round_aux p em false m e l) = false.
Proof. unfold binary_round_aux. repeat case_match; simplify_eq; done. Qed.

Lemma binary_round_sign p em m e : is_neg (binary_round p em false m e) = false.
Proof. unfold binary_round. case_match. apply binary_round_aux_sign. Qed.

Lemma big_of_Z_sign z : 0 ≤ z → is_neg (big_of_Z z) = false.
Proof. destruct z as [|p|p]; [done| |lia]. intros _. apply binary_round_sign. Qed.

Lemma SFdiv_sign p em x y : is_neg x = false → is_neg y = false → is_neg (SFdiv p em x y) = false.
Proof.
  destruct x as [[]|[]| |[] mx ex], y as [[]|[]| |[] my ey]; simpl; try done. intros _ _.
  case_match. case_match. apply binary_round_aux_sign.
Qed.

Lemma decimal_value_sign unscaled scale : 0 ≤ unscaled → is_neg (decimal_value unscaled scale) = false.
Proof.
  intros H. unfold decimal_value, Quo.
  assert (is_neg (big_of_Z (Exp 10 scale)) = false) as Hs.
  { apply big_of_Z_sign. unfold Exp. case_match; lia. }
  pose proof (SFdiv_sign (big_prec unscaled `max` big_prec (Exp 10 scale)) big_emax _ _
    (big_of_Z_sign _ H) Hs) as Hd.
  destruct (SFdiv _ _ _ _) as [s|s| |s m e]; [done..|]. simpl in *. rewrite Hd. apply binary_round_sign.
Qed.

(** ** Properties *)



(** An unpadded or cut string is refused. *)
Lemma decode_quanta_length cs bs : decode_quanta cs = Ok bs → (4 | Z.of_nat (length cs)).
Proof.
  revert cs bs. fix IH 1. intros [|a [|b [|c [|d cs]]]] bs; try done; [by exists 0|].
  assert (∀ z, (4 | z) → (4 | z + 4)) as H4 by (intros z [k ->]; exists (k + 1); lia).
  intros H. cbn [length]. replace (Z.of_nat (S (S (S (S (length cs)))))) with (Z.of_nat (length cs) + 4) by lia.
  apply H4. cbn [decode_quanta] in H. repeat case_match; simplify_eq; try (by exists 0).
  - destruct_and!. subst. by exists 0.
  - by eapply IH.
Qed.
