(* ===== verification/KafkaTracker.v ===== *)
(** * The per-partition offset tracker (kafka/internal/consumer/partition-state.go)

    [PartitionState] remembers, for one assigned partition, which received
    offsets are still being processed; [FindLatestToCommit] computes the offset
    that may be committed to the broker; [commitOffsetLoop] is the goroutine
    that commits it periodically.  The tracker's own mutex is released on every
    path of every method, so each critical section is one atomic operation here;
    the goroutine is a state machine whose states are the points between its
    critical sections. *)

From S2P Require Import Prelude GoSem.

(** ** Data *)

(** [type MsgState = int32] and its constants. *)
Abbreviation MsgState := Z (only parsing).
Definition MsgState_Pending : MsgState := 0.
Definition MsgState_Success : MsgState := 1.
Definition MsgState_Error : MsgState := 2.

(** The fields of [kafka.TopicPartition] the code reads and writes. *)
Record TopicPartition := mkTP { Topic : string; Partition : Z; Offset : Z }.

#[export] Instance TopicPartition_eq_dec : EqDecision TopicPartition.
Proof. solve_decision. Defined.

Definition set_Offset (o : Z) (tp : TopicPartition) : TopicPartition :=
  mkTP (Topic tp) (Partition tp) o.

(** What the code relies on of the confluent-kafka-go package: the logical
    offset [OffsetBeginning] is negative (real offsets are not). *)
Class KafkaLib := {
  OffsetBeginning : Z;
  OffsetBeginning_neg : min_int64 ≤ OffsetBeginning < 0;
}.

(** Where the goroutine running [commitOffsetLoop] stands: not started, at its
    [select], about to call the commit function, about to record a successful
    commit, or returned (its deferred [close(ps.ExitCH)] done). *)
Inductive LoopPC :=
| LoopNotStarted
| LoopIdle
| LoopCommitting (tp : TopicPartition)
| LoopCommitted (tp : TopicPartition)
| LoopExited.

#[export] Instance LoopPC_eq_dec : EqDecision LoopPC.
Proof. solve_decision. Defined.

(** [MaxReceived] is a pointer that [ResetPartitionState] can set to nil. The
    context is its [Done] flag; [ExitCH] is closed iff [loop] is [LoopExited]. *)
Record PartitionState := mkPS {
  ID : Z;
  State : gmap Z MsgState;
  MaxReceived : option TopicPartition;
  LastCommited : Z;
  ctxDone : bool;
  loop : LoopPC;
}.

Definition set_State (s : gmap Z MsgState) (ps : PartitionState) : PartitionState :=
  mkPS (ID ps) s (MaxReceived ps) (LastCommited ps) (ctxDone ps) (loop ps).
Definition set_MaxReceived (m : option TopicPartition) (ps : PartitionState) : PartitionState :=
  mkPS (ID ps) (State ps) m (LastCommited ps) (ctxDone ps) (loop ps).
Definition set_LastCommited (z : Z) (ps : PartitionState) : PartitionState :=
  mkPS (ID ps) (State ps) (MaxReceived ps) z (ctxDone ps) (loop ps).
Definition set_loop (l : LoopPC) (ps : PartitionState) : PartitionState :=
  mkPS (ID ps) (State ps) (MaxReceived ps) (LastCommited ps) (ctxDone ps) l.

(** ** Operations *)

Definition NewPartitionState `{KafkaLib} (MaxReceived : TopicPartition) : PartitionState :=
  let initialLastCommited :=
    if (Offset MaxReceived =? OffsetBeginning) || (Offset MaxReceived <? 0)
    then -1 else int64 (Offset MaxReceived - 1) in
  mkPS (Partition MaxReceived) ∅ (Some MaxReceived) initialLastCommited false LoopNotStarted.

(** The [for offset := LastCommited; offset <= MaxReceived.Offset; offset++]
    loop of [FindLatestToCommit]: the state map with the removed entries, and
    the offset to commit.  [None]: the fuel ran out. *)
Fixpoint find_loop (fuel : nat) (offset maxOffset : Z) (st : gmap Z MsgState)
    (latest : Z) : option (gmap Z MsgState * Z) :=
  match fuel with
  | O => None
  | S fuel =>
      if offset <=? maxOffset then
        match st !! offset with
        | None => find_loop fuel (int64 (offset + 1)) maxOffset st latest
        | Some msgState =>
            if negb (msgState =? MsgState_Pending) then
              let st := delete offset st in
              if map_is_empty st then Some (st, int64 (offset + 1))
              else find_loop fuel (int64 (offset + 1)) maxOffset st latest
            else Some (st, offset)
        end
      else Some (st, latest)
  end.

(** One iteration per offset of the range, plus the last test. *)
Definition find_fuel (last maxOffset : Z) : nat := S (S (Z.to_nat (maxOffset - last))).

Definition FindLatestToCommit (ps : PartitionState) :
    outcome (PartitionState * result TopicPartition) :=
  match MaxReceived ps with
  | None => Ret (ps, Err (ErrNew "maxRec is nil"))
  | Some mx =>
      if LastCommited ps =? Offset mx
      then Ret (ps, Err (ErrNew "lastCommit == MaxReceived -> skipping"))
      else
        match find_loop (find_fuel (LastCommited ps) (Offset mx))
                (LastCommited ps) (Offset mx) (State ps) (Offset mx) with
        | None => Block
        | Some (st, latest) => Ret (set_State st ps, Ok (set_Offset latest mx))
        end
  end.

Definition ReadOffset (ps : PartitionState) (offset : Z) : MsgState * bool :=
  match State ps !! offset with
  | Some state => (state, true)
  | None => (0, false)
  end.

(** What can happen to the goroutine: its ticker fires, its context is
    cancelled, the broker answers the commit request, the goroutine takes the
    mutex to record the commit. *)
Inductive LoopEvent :=
| EvTick
| EvDone
| EvCommitReply (err : option error)
| EvRecord.

(** One step of [commitOffsetLoop]; [Block] when the event cannot happen at the
    goroutine's current point. *)
Definition commitOffsetLoop (ev : LoopEvent) (ps : PartitionState) : outcome PartitionState :=
  match loop ps, ev with
  | LoopIdle, EvTick =>
      if ctxDone ps then Ret (set_loop LoopExited ps)
      else
        '(ps, r) ← FindLatestToCommit ps;
        match r with
        | Err _ => Ret ps
        | Ok latestToCommit => Ret (set_loop (LoopCommitting latestToCommit) ps)
        end
  | LoopIdle, EvDone => if ctxDone ps then Ret (set_loop LoopExited ps) else Block
  | LoopCommitting latestToCommit, EvCommitReply err =>
      match err with
      | Some _ => Ret (set_loop LoopIdle ps)
      | None => Ret (set_loop (LoopCommitted latestToCommit) ps)
      end
  | LoopCommitted latestToCommit, EvRecord =>
      match MaxReceived ps with
      | None => Panic "nil pointer dereference"
      | Some mx =>
          let ps := set_LastCommited (Offset latestToCommit) ps in
          let ps := if Offset latestToCommit >? Offset mx
                    then set_MaxReceived (Some (set_Offset (Offset latestToCommit) mx)) ps
                    else ps in
          Ret (set_loop LoopIdle ps)
      end
  | _, _ => Block
  end.

(** [ps.Cancel()]. *)
Definition Cancel (ps : PartitionState) : PartitionState :=
  mkPS (ID ps) (State ps) (MaxReceived ps) (LastCommited ps) true (loop ps).

(** [ps.Cancel(); <-ps.ExitCH]: enabled once the goroutine is at its [select]
    (which the cancellation then makes return) or has returned. *)
Definition CancelAndWait (ps : PartitionState) : outcome PartitionState :=
  match loop ps with
  | LoopIdle | LoopExited => Ret (set_loop LoopExited (Cancel ps))
  | _ => Block
  end.

(** The critical section of [appendMsgState] (consumer.go), run with the
    tracker's mutex held. *)
Definition append_state (tp : TopicPartition) (ps : PartitionState) : PartitionState :=
  let ps := set_State (<[Offset tp := MsgState_Pending]> (State ps)) ps in
  match MaxReceived ps with
  | None => set_MaxReceived (Some (mkTP (Topic tp) (Partition tp) (Offset tp))) ps
  | Some mx =>
      if Offset mx <? Offset tp
      then set_MaxReceived (Some (mkTP (Topic tp) (Partition tp) (Offset tp))) ps
      else ps
  end.

(** The critical section of [UpdateState] (consumer.go). *)
Definition update_state (offset : Z) (newState : MsgState) (ps : PartitionState) : PartitionState :=
  set_State (<[offset := newState]> (State ps)) ps.

(** ** What the scan computes *)

(** The entry for [o] is pending. *)
Definition pending_at (st : gmap Z MsgState) (o : Z) : Prop :=
  st !! o = Some MsgState_Pending.

#[export] Instance pending_at_dec st o : Decision (pending_at st o).
Proof. unfold pending_at. apply _. Defined.

(** Reference answer for the range [lo..hi], with the map that is left: the
    least pending offset of the range (the settled entries below it are
    removed); if there is none, one past the last entry when the range holds
    every entry of the map and there is one (nothing is left); [hi] otherwise
    (the range is cleared). *)
Inductive scan_result (lo hi : Z) (st : gmap Z MsgState) : Z → gmap Z MsgState → Prop :=
| sr_pending p st' :
    lo ≤ p ≤ hi → pending_at st p →
    (∀ o, lo ≤ o < p → ¬ pending_at st o) →
    (∀ o, st' !! o = if decide (lo ≤ o < p) then None else st !! o) →
    scan_result lo hi st p st'
| sr_drained q :
    lo ≤ q ≤ hi → is_Some (st !! q) →
    (∀ o, is_Some (st !! o) → lo ≤ o ≤ q ∧ ¬ pending_at st o) →
    scan_result lo hi st (q + 1) ∅
| sr_rest st' :
    (∀ o, lo ≤ o ≤ hi → ¬ pending_at st o) →
    ((∀ o, lo ≤ o ≤ hi → st !! o = None) ∨
     (∃ o, is_Some (st !! o) ∧ ¬ (lo ≤ o ≤ hi))) →
    (∀ o, st' !! o = if decide (lo ≤ o ≤ hi) then None else st !! o) →
    scan_result lo hi st hi st'.

(** Lookups in maps updated at one key, and the case splits they leave. *)
Ltac map_cases :=
  repeat (rewrite lookup_insert || rewrite lookup_delete || case_decide);
  try done; try lia.

Lemma scan_result_skip lo hi st r st' :
  lo ≤ hi → st !! lo = None →
  scan_result (lo + 1) hi st r st' → scan_result lo hi st r st'.
Proof.
  intros Hle Hlo Hsr. inversion Hsr as [p ? Hp Hpend Hmin Hst|q Hq Hsome Hall|? Hno Hout Hst]; subst.
  - apply sr_pending; [lia|done| |].
    + intros o Ho. destruct (decide (o = lo)) as [->|]; [unfold pending_at; congruence|].
      apply Hmin. lia.
    + intros o. rewrite Hst. map_cases. by replace o with lo by lia.
  - apply sr_drained; [lia|done|]. intros o Ho. destruct (Hall _ Ho). split; [lia|done].
  - apply sr_rest.
    + intros o Ho. destruct (decide (o = lo)) as [->|]; [unfold pending_at; congruence|].
      apply Hno. lia.
    + destruct Hout as [Hnone|(o & Ho & Hor)].
      * left. intros o Ho. destruct (decide (o = lo)) as [->|]; [done|]. apply Hnone. lia.
      * right. exists o. split; [done|]. intros Hr.
        destruct (decide (o = lo)) as [->|]; [by rewrite Hlo in Ho; destruct Ho|lia].
    + intros o. rewrite Hst. map_cases. by replace o with lo by lia.
Qed.

Lemma scan_result_settled lo hi st v r st' :
  lo ≤ hi → st !! lo = Some v → v ≠ MsgState_Pending →
  delete lo st ≠ ∅ →
  scan_result (lo + 1) hi (delete lo st) r st' → scan_result lo hi st r st'.
Proof.
  intros Hle Hlo Hv Hne Hsr.
  assert (Hpd : ∀ o, pending_at st o → pending_at (delete lo st) o).
  { intros o Ho. unfold pending_at. rewrite lookup_delete_ne; [done|].
    intros ->. unfold pending_at in Ho. congruence. }
  inversion Hsr as [p ? Hp Hpend Hmin Hst|q Hq Hsome Hall|? Hno Hout Hst]; subst.
  - apply sr_pending; [lia| |intros o Ho Ho'|].
    + unfold pending_at in *. by rewrite lookup_delete_ne in Hpend by lia.
    + destruct (decide (o = lo)) as [->|]; [unfold pending_at in Ho'; congruence|].
      apply (Hmin o); [lia|auto].
    + intros o. rewrite Hst. map_cases.
  - apply sr_drained; [lia| |].
    + by rewrite lookup_delete_ne in Hsome by lia.
    + intros o Ho. destruct (decide (o = lo)) as [->|].
      * split; [lia|]. unfold pending_at. congruence.
      * destruct (Hall o) as [? Hnp]; [by rewrite lookup_delete_ne|].
        split; [lia|]. auto.
  - apply sr_rest.
    + intros o Ho Ho'. destruct (decide (o = lo)) as [->|]; [unfold pending_at in Ho'; congruence|].
      apply (Hno o); [lia|auto].
    + right. destruct Hout as [Hnone|(o & Ho & Hor)].
      * apply map_choose in Hne as (o & w & How). exists o.
        apply lookup_delete_Some in How as [Hneq How]. split; [eauto|].
        intros Hr. specialize (Hnone o ltac:(lia)).
        rewrite lookup_delete_ne in Hnone by done. congruence.
      * apply lookup_delete_is_Some in Ho as [Hneq Ho]. exists o. split; [done|lia].
    + intros o. rewrite Hst. map_cases.
Qed.

Lemma find_loop_spec fuel : ∀ lo hi st r st',
  min_int64 ≤ lo → hi < max_int64 →
  find_loop fuel lo hi st hi = Some (st', r) → scan_result lo hi st r st'.
Proof.
  induction fuel as [|fuel IH]; intros lo hi st r st' Hlo Hhi Hf; [done|].
  simpl in Hf. destruct (lo <=? hi) eqn:Hle; zbool.
  - assert (Hnext : int64 (lo + 1) = lo + 1).
    { apply int64_id. unfold min_int64, max_int64 in *. lia. }
    rewrite Hnext in Hf. destruct (st !! lo) as [v|] eqn:Hv.
    + destruct (negb (v =? MsgState_Pending)) eqn:Hp; zbool.
      * destruct (map_is_empty (delete lo st)) eqn:He; simplify_eq.
        -- assert (delete lo st = ∅) as -> by (by apply bool_decide_eq_true in He).
           apply sr_drained; [lia|eauto|].
           rewrite map_is_empty_spec in He. intros o [w Ho].
           destruct (decide (o = lo)) as [->|Hne].
           ++ split; [lia|]. unfold pending_at. congruence.
           ++ specialize (He o). by rewrite lookup_delete_ne, Ho in He.
        -- eapply scan_result_settled; eauto; [|eapply IH; eauto; lia].
           by apply bool_decide_eq_false in He.
      * simplify_eq. apply sr_pending; [lia|by unfold pending_at|lia|].
        intros o. map_cases.
    + eapply scan_result_skip; eauto. eapply IH; eauto. lia.
  - simplify_eq. apply sr_rest; [lia|left; lia|]. intros o. map_cases.
Qed.

(** The scan ends: an iteration per offset of the range is enough. *)
Lemma find_loop_total fuel : ∀ lo hi st lat,
  min_int64 ≤ lo → hi < max_int64 → (Z.to_nat (hi - lo + 1) < fuel)%nat →
  is_Some (find_loop fuel lo hi st lat).
Proof.
  induction fuel as [|fuel IH]; intros lo hi st lat Hlo Hhi Hfuel; [lia|].
  simpl. destruct (lo <=? hi) eqn:Hle; zbool; [|eauto].
  rewrite int64_id by (unfold min_int64, max_int64 in *; lia).
  repeat case_match; eauto; apply IH; lia.
Qed.

(** The answer is unique, so [scan_result] is a function of its inputs. *)
Lemma scan_result_bound lo hi st r st' :
  lo ≤ hi → scan_result lo hi st r st' → lo ≤ r ≤ hi + 1.
Proof. inversion 2; subst; lia. Qed.

Lemma scan_result_functional lo hi st r1 st1 r2 st2 :
  scan_result lo hi st r1 st1 → scan_result lo hi st r2 st2 → r1 = r2 ∧ st1 = st2.
Proof.
  intros H1 H2. destruct H1 as [p ? Hr Hp Hmin Hst|q Hr [v Hq] Hall|? Hno Hout Hst];
    destruct H2 as [p' ? Hr' Hp' Hmin' Hst'|q' Hr' [v' Hq'] Hall'|? Hno' Hout' Hst'].
  - assert (p = p') as ->.
    { destruct (Z.lt_trichotomy p p') as [|[|]]; [|done|].
      - exfalso. apply (Hmin' p); [lia|done].
      - exfalso. apply (Hmin p'); [lia|done]. }
    split; [done|]. apply map_eq. intros o. by rewrite Hst, Hst'.
  - destruct (Hall' p) as [_ []]; [by eexists|done].
  - exfalso. by apply (Hno' p).
  - destruct (Hall p') as [_ []]; [by eexists|done].
  - split; [|done]. destruct (Hall q'); [by eexists|]. destruct (Hall' q); [by eexists|]. lia.
  - destruct Hout' as [Hn|(o & Ho & Hor)]; [by rewrite Hn in Hq|].
    destruct (Hall o Ho). lia.
  - exfalso. by apply (Hno p').
  - destruct Hout as [Hn|(o & Ho & Hor)]; [by rewrite Hn in Hq'|].
    destruct (Hall' o Ho). lia.
  - split; [done|]. apply map_eq. intros o. by rewrite Hst, Hst'.
Qed.

(** ** FindLatestToCommit *)

(** Offsets stay clear of the ends of [int64]: at [MaxInt64] the Go loop's
    [offset++] would wrap and the loop would not end. *)
Record in_range (ps : PartitionState) (mx : TopicPartition) : Prop := {
  ir_max : MaxReceived ps = Some mx;
  ir_last : min_int64 ≤ LastCommited ps;
  ir_hi : min_int64 ≤ Offset mx < max_int64;
}.

Lemma FindLatestToCommit_run ps mx :
  in_range ps mx → LastCommited ps ≠ Offset mx →
  ∃ st' r,
    FindLatestToCommit ps = Ret (set_State st' ps, Ok (set_Offset r mx)) ∧
    scan_result (LastCommited ps) (Offset mx) (State ps) r st'.
Proof.
  intros [Hmx Hlo Hhi] Hne. unfold FindLatestToCommit. rewrite Hmx.
  apply Z.eqb_neq in Hne. rewrite Hne.
  destruct (find_loop_total (find_fuel (LastCommited ps) (Offset mx))
    (LastCommited ps) (Offset mx) (State ps) (Offset mx)) as [[st' r] Hf];
    [done|lia|unfold find_fuel; lia|].
  rewrite Hf. exists st', r. split; [done|]. eapply find_loop_spec; eauto; lia.
Qed.

Lemma FindLatestToCommit_skip ps mx :
  MaxReceived ps = Some mx → LastCommited ps = Offset mx →
  ∃ e, FindLatestToCommit ps = Ret (ps, Err e).
Proof.
  intros Hmx Heq. unfold FindLatestToCommit. rewrite Hmx, Heq, Z.eqb_refl. eauto.
Qed.

(** What a successful call returns, from the call. *)
Lemma FindLatestToCommit_inv ps mx ps' tp :
  in_range ps mx → FindLatestToCommit ps = Ret (ps', Ok tp) →
  ∃ st' r, ps' = set_State st' ps ∧ tp = set_Offset r mx ∧ LastCommited ps ≠ Offset mx ∧
    scan_result (LastCommited ps) (Offset mx) (State ps) r st'.
Proof.
  intros Hir Hf. destruct (decide (LastCommited ps = Offset mx)) as [Heq|Hne].
  - destruct (FindLatestToCommit_skip _ _ (ir_max _ _ Hir) Heq) as [e He]. congruence.
  - destruct (FindLatestToCommit_run _ _ Hir Hne) as (st' & r & Hrun & Hsr).
    rewrite Hrun in Hf. simplify_eq. eauto 6.
Qed.

(** An erroneous call changes nothing. *)
Lemma FindLatestToCommit_err ps ps' e :
  FindLatestToCommit ps = Ret (ps', Err e) → ps' = ps.
Proof. unfold FindLatestToCommit. repeat case_match; naive_solver. Qed.

(** C6. [FindLatestToCommit] ends and computes the reference answer: when there
    is something to commit it returns the least pending offset of
    [LastCommited..MaxReceived.Offset], or one past the last tracked offset when
    everything tracked lies in the range and is settled, or the end of the range,
    and it leaves exactly the map the reference describes; nothing else of the
    tracker changes. *)
Theorem find_latest_correct (ps : PartitionState) (mx : TopicPartition)
    (ps' : PartitionState) (tp : TopicPartition) :
  in_range ps mx → LastCommited ps ≠ Offset mx →
  FindLatestToCommit ps = Ret (ps', Ok tp) ↔
  ∃ st' r, ps' = set_State st' ps ∧ tp = set_Offset r mx ∧
    scan_result (LastCommited ps) (Offset mx) (State ps) r st'.
Proof.
  intros Hir Hne. split.
  - intros Hf. destruct (FindLatestToCommit_inv _ _ _ _ Hir Hf) as (st' & r & ? & ? & _ & ?).
    eauto 6.
  - intros (st' & r & -> & -> & Hsr).
    destruct (FindLatestToCommit_run _ _ Hir Hne) as (st2 & r2 & Hrun & Hsr2).
    destruct (scan_result_functional _ _ _ _ _ _ _ Hsr Hsr2) as [-> ->]. done.
Qed.

(** A tracker with offsets 3 and 5 processed, 4 pending. *)
Definition demo_tracker : PartitionState :=
  mkPS 0 {[3 := MsgState_Success; 4 := MsgState_Pending; 5 := MsgState_Error]}
    (Some (mkTP "t" 0 5)) 2 false LoopIdle.

Lemma demo_in_range : in_range demo_tracker (mkTP "t" 0 5).
Proof. split; [reflexivity|vm_compute; congruence|split; vm_compute; congruence]. Defined.

Lemma find_latest_correct_witness :
  ∃ st' r, demo_tracker = demo_tracker ∧
    scan_result 2 5 (State demo_tracker) r st' ∧ r = 4.
Proof.
  destruct (proj1 (find_latest_correct demo_tracker (mkTP "t" 0 5)
    (set_State {[4 := MsgState_Pending; 5 := MsgState_Error]} demo_tracker)
    (mkTP "t" 0 4) demo_in_range ltac:(by vm_compute)))
    as (st' & r & _ & Htp & Hsr).
  - vm_compute. reflexivity.
  - exists st', r. split; [done|]. split; [exact Hsr|].
    unfold set_Offset in Htp. simpl in Htp. congruence.
Defined.

(** The tracker's skip test compares the last committed {e position} with
    the newest received {e offset}: when they are equal, the message at that very
    position, once received and processed, is neither committed by a tick nor by
    the revoke callback, and the tracker is left as it was. *)
Theorem message_at_committed_position_not_committed
    (ps : PartitionState) (mx : TopicPartition) (v : Z) :
  MaxReceived ps = Some mx → LastCommited ps = Offset mx →
  loop ps = LoopIdle → ctxDone ps = false →
  let ps' := update_state (Offset mx) v (append_state mx ps) in
  commitOffsetLoop EvTick ps' = Ret ps' ∧
  ∃ ps1 e, CancelAndWait ps' = Ret ps1 ∧ FindLatestToCommit ps1 = Ret (ps1, Err e).
Proof.
  intros Hmx Hlast Hloop Hctx ps'.
  assert (MaxReceived ps' = Some mx ∧ LastCommited ps' = Offset mx ∧
    loop ps' = LoopIdle ∧ ctxDone ps' = false) as (Hm & Hl & Hlp & Hc).
  { unfold ps', append_state, update_state. simpl. rewrite Hmx, Z.ltb_irrefl. by simpl. }
  split.
  - unfold commitOffsetLoop. rewrite Hlp, Hc.
    by destruct (FindLatestToCommit_skip ps' mx Hm Hl) as [e ->].
  - unfold CancelAndWait. rewrite Hlp.
    destruct (FindLatestToCommit_skip (set_loop LoopExited (Cancel ps')) mx Hm Hl) as [e He].
    eauto.
Qed.

Lemma message_at_committed_position_not_committed_witness :
  let ps := mkPS 0 ∅ (Some (mkTP "t" 0 6)) 6 false LoopIdle in
  let ps' := update_state 6 MsgState_Success (append_state (mkTP "t" 0 6) ps) in
  commitOffsetLoop EvTick ps' = Ret ps' ∧
  ∃ ps1 e, CancelAndWait ps' = Ret ps1 ∧ FindLatestToCommit ps1 = Ret (ps1, Err e).
Proof.
  apply (message_at_committed_position_not_committed
    (mkPS 0 ∅ (Some (mkTP "t" 0 6)) 6 false LoopIdle) (mkTP "t" 0 6) MsgState_Success);
    reflexivity.
Defined.
