(* ===== verification/Delivery.v ===== *)
(** * At-least-once delivery of one partition

    The tracker of [KafkaTracker] run against its environment: the broker hands
    out the offsets of the partition in increasing order, the message handlers
    report outcomes in any order, the commit goroutine runs its steps, the
    rebalance callback cancels it and computes a last commit.  All interleavings
    of these steps are considered.  The abstract specification [alo_step] only
    lets a position be committed when every message received below it has been
    processed; the concrete system refines it. *)

From S2P Require Import Prelude GoSem KafkaTracker.

(** ** Abstract specification *)

Record Abs := mkAbs {
  a_received : gset Z;
  a_processed : gset Z;
  a_next : Z;
  a_committed : list Z;
}.

(** Position [c] may be committed: nothing at or above [a_next] is skipped, and
    all that was received below [c] is processed. *)
Definition covered (received processed : gset Z) (next c : Z) : Prop :=
  c ≤ next ∧ ∀ o, o ∈ received → o < c → o ∈ processed.

Inductive alo_step : Abs → Abs → Prop :=
| alo_receive r p n l o :
    n ≤ o → alo_step (mkAbs r p n l) (mkAbs ({[o]} ∪ r) p (o + 1) l)
| alo_process r p n l o :
    o ∈ r → alo_step (mkAbs r p n l) (mkAbs r ({[o]} ∪ p) n l)
| alo_commit r p n l c :
    covered r p n c → alo_step (mkAbs r p n l) (mkAbs r p n (c :: l)).

(** ** The concrete system *)

(** The tracker with the history of what was received and processed, the next
    offset the broker may deliver, and the commit requests issued so far. *)
Record Sys := mkSys {
  tracker : PartitionState;
  received : gset Z;
  processed : gset Z;
  next : Z;
  requests : list Z;
}.

Definition abs (s : Sys) : Abs :=
  mkAbs (received s) (processed s) (next s) (requests s).

(** A commit request is issued when the goroutine reaches its call of the
    commit function. *)
Definition issued (ps : PartitionState) : list Z :=
  match loop ps with LoopCommitting tp => [Offset tp] | _ => [] end.

(** What the revoke callback commits after it has stopped the goroutine. *)
Definition revoked (r : result TopicPartition) : list Z :=
  match r with
  | Ok tp => if Offset tp >=? 0 then [Offset tp] else []
  | Err _ => []
  end.

Inductive sys_step : Sys → Sys → Prop :=
| ss_receive s tp :
    next s ≤ Offset tp → Offset tp < max_int64 - 1 →
    sys_step s (mkSys (append_state tp (tracker s))
      ({[Offset tp]} ∪ received s) (processed s) (Offset tp + 1) (requests s))
| ss_update s o v :
    o ∈ received s → v ≠ MsgState_Pending →
    sys_step s (mkSys (update_state o v (tracker s))
      (received s) ({[o]} ∪ processed s) (next s) (requests s))
| ss_start s :
    loop (tracker s) = LoopNotStarted →
    sys_step s (mkSys (set_loop LoopIdle (tracker s))
      (received s) (processed s) (next s) (requests s))
| ss_tick s ps' :
    commitOffsetLoop EvTick (tracker s) = Ret ps' →
    sys_step s (mkSys ps' (received s) (processed s) (next s)
      (issued ps' ++ requests s))
| ss_loop s ev ps' :
    ev ≠ EvTick → commitOffsetLoop ev (tracker s) = Ret ps' →
    sys_step s (mkSys ps' (received s) (processed s) (next s) (requests s))
| ss_cancel s :
    sys_step s (mkSys (Cancel (tracker s))
      (received s) (processed s) (next s) (requests s))
| ss_revoke s ps1 ps2 r :
    CancelAndWait (tracker s) = Ret ps1 → FindLatestToCommit ps1 = Ret (ps2, r) →
    sys_step s (mkSys ps2 (received s) (processed s) (next s)
      (revoked r ++ requests s)).

(** A partition assigned at [tp]: the broker will deliver from [tp.Offset], or
    from 0 when the position is logical (negative). *)
Definition sys_init `{KafkaLib} (tp : TopicPartition) : Sys :=
  mkSys (NewPartitionState tp) ∅ ∅ (Z.max 0 (Offset tp)) [].

(** ** Invariant *)

Definition safe (s : Sys) (c : Z) : Prop :=
  covered (received s) (processed s) (next s) c.

(** Kept by every step: what was received and not processed is pending and
    inside the range the next scan covers; the map tracks only received offsets;
    the goroutine's pending commit and all requests issued are covered. *)
Record inv (s : Sys) : Prop := {
  inv_range : ∃ mx, in_range (tracker s) mx ∧ Offset mx ≤ next s ∧
    ∀ o, o ∈ received s → o ∉ processed s →
      pending_at (State (tracker s)) o ∧ LastCommited (tracker s) ≤ o ≤ Offset mx;
  inv_dom : ∀ o, is_Some (State (tracker s) !! o) → o ∈ received s;
  inv_next : ∀ o, o ∈ received s → o < next s;
  inv_last : LastCommited (tracker s) ≤ next s;
  inv_nextb : next s < max_int64;
  inv_pc : ∀ tp, loop (tracker s) = LoopCommitting tp ∨ loop (tracker s) = LoopCommitted tp →
    safe s (Offset tp) ∧ min_int64 ≤ Offset tp;
  inv_req : ∀ c, c ∈ requests s → safe s c;
}.

Lemma covered_receive r p n c o :
  n ≤ o → covered r p n c → covered ({[o]} ∪ r) p (o + 1) c.
Proof.
  intros Ho [Hc Hcov]. split; [lia|]. intros o' Ho' Hlt. apply Hcov; [|done].
  apply elem_of_union in Ho' as [->%elem_of_singleton|Ho']; [lia|done].
Qed.

Lemma covered_process r p n c o : covered r p n c → covered r ({[o]} ∪ p) n c.
Proof. intros [Hc Hcov]. split; [done|]. set_solver. Qed.

#[local] Hint Resolve covered_receive covered_process : go.

(** [set_tracker]: the system with another tracker. *)
Definition set_tracker (ps : PartitionState) (s : Sys) : Sys :=
  mkSys ps (received s) (processed s) (next s) (requests s).

(** A scan keeps the pending entries and never answers past one of them. *)
Lemma scan_keeps_pending lo hi st r st' o :
  scan_result lo hi st r st' → lo ≤ o ≤ hi → pending_at st o →
  pending_at st' o ∧ r ≤ o.
Proof.
  intros Hsr Ho Hp. destruct Hsr as [p ? Hr Hpp Hmin Hst|q Hr Hq Hall|? Hno Hout Hst].
  - destruct (decide (o < p)); [exfalso; apply (Hmin o); [lia|done]|].
    split; [|lia]. unfold pending_at. rewrite Hst. by case_decide; [lia|].
  - destruct (Hall o) as [_ []]; [by eexists|done].
  - exfalso. by apply (Hno o).
Qed.

Lemma scan_dom lo hi st r st' o :
  scan_result lo hi st r st' → is_Some (st' !! o) → is_Some (st !! o).
Proof.
  intros Hsr [v Ho]. destruct Hsr as [p ? Hr Hpp Hmin Hst|q Hr Hq Hall|? Hno Hout Hst].
  - rewrite Hst in Ho. case_decide; by eauto.
  - by rewrite lookup_empty in Ho.
  - rewrite Hst in Ho. case_decide; by eauto.
Qed.

(** When the scan answers one past its range, the last offset of the range is
    a tracked one. *)
Lemma scan_past_end lo hi st r st' :
  scan_result lo hi st r st' → hi < r → is_Some (st !! hi) ∨ hi < lo.
Proof.
  intros Hsr Hr. destruct Hsr as [p ? ? Hpp Hmin Hst|q ? Hq Hall|? Hno Hout Hst]; [lia| |lia].
  left. by replace hi with q by lia.
Qed.

Lemma inv_set_loop s l :
  inv s →
  (∀ tp, l = LoopCommitting tp ∨ l = LoopCommitted tp →
     safe s (Offset tp) ∧ min_int64 ≤ Offset tp) →
  inv (set_tracker (set_loop l (tracker s)) s).
Proof.
  intros [(mx & [] & Hr) Hd Hn Hl Hb Hpc Hq] Hloop.
  split; try done. exists mx. split; [by split|done].
Qed.

Lemma inv_request s c :
  inv s → safe s c →
  inv (mkSys (tracker s) (received s) (processed s) (next s) (c :: requests s)).
Proof.
  intros [Hr Hd Hn Hl Hb Hpc Hq] Hc. split; try done.
  intros c' [->|Hc']%elem_of_cons; [done|]. by apply Hq.
Qed.

(** The scan run by a system in the invariant: its answer is covered and the
    invariant survives the clean-up. *)
Lemma inv_find s ps' tp :
  inv s → FindLatestToCommit (tracker s) = Ret (ps', Ok tp) →
  safe s (Offset tp) ∧ min_int64 ≤ Offset tp ∧ inv (set_tracker ps' s) ∧
  loop ps' = loop (tracker s).
Proof.
  intros [(mx & Hir & Hmx & Hpend) Hd Hn Hl Hb Hpc Hq] Hf.
  destruct (FindLatestToCommit_inv _ _ _ _ Hir Hf) as (st' & r & -> & -> & Hne & Hsr).
  simpl. destruct Hir as [Hm Hlo Hhi]. split; [|split; [|split; [split|done]]]; simpl.
  - split.
    + destruct (decide (r ≤ Offset mx)); [lia|].
      destruct (scan_past_end _ _ _ _ _ Hsr) as [Hs|Hs]; [lia| |].
      * apply Hd, Hn in Hs. destruct Hsr; lia.
      * destruct Hsr; lia.
    + intros o Ho Hlt. destruct (decide (o ∈ processed s)) as [|Hnp]; [done|].
      destruct (Hpend o Ho Hnp) as [Hp Hrng].
      destruct (scan_keeps_pending _ _ _ _ _ _ Hsr Hrng Hp). lia.
  - destruct Hsr; unfold min_int64, max_int64 in *; lia.
  - exists mx. split; [done|]. split; [done|]. intros o Ho Hnp.
    destruct (Hpend o Ho Hnp) as [Hp Hrng]. split; [|done].
    by destruct (scan_keeps_pending _ _ _ _ _ _ Hsr Hrng Hp).
  - intros o Ho. apply Hd. by eapply scan_dom.
  - done.
  - done.
  - done.
  - done.
  - done.
Qed.

(** One lemma per kind of step. *)

Lemma inv_receive s tp :
  inv s → next s ≤ Offset tp → Offset tp < max_int64 - 1 →
  inv (mkSys (append_state tp (tracker s)) ({[Offset tp]} ∪ received s)
    (processed s) (Offset tp + 1) (requests s)).
Proof.
  intros [(mx & [Hm Hlo Hhi] & Hmx & Hpend) Hd Hn Hl Hb Hpc Hq] Hnext Hbound.
  unfold append_state. simpl. rewrite Hm.
  assert (Hcov : ∀ c, safe s c → covered ({[Offset tp]} ∪ received s)
    (processed s) (Offset tp + 1) c) by (intros c; apply covered_receive; lia).
  split; simpl.
  - exists (if Offset mx <? Offset tp then mkTP (Topic tp) (Partition tp) (Offset tp) else mx).
    split; [|split].
    + split; repeat case_match; zbool; simpl; auto; lia.
    + repeat case_match; zbool; simpl; lia.
    + intros o Ho Hnp. unfold pending_at.
      replace (State _) with (<[Offset tp := MsgState_Pending]> (State (tracker s)))
        by (by case_match).
      replace (LastCommited _) with (LastCommited (tracker s)) by (by case_match).
      destruct (decide (o = Offset tp)) as [->|Hne].
      * rewrite lookup_insert_eq. split; [done|]. case_match; zbool; simpl; lia.
      * rewrite lookup_insert_ne by done. destruct (Hpend o) as [Hp Hr]; [set_solver|done|].
        split; [done|]. case_match; zbool; simpl; lia.
  - intros o. replace (State _) with (<[Offset tp := MsgState_Pending]> (State (tracker s)))
      by (by case_match).
    rewrite lookup_insert_is_Some. intros [->|[_ Ho]]; [set_solver|].
    apply Hd in Ho. set_solver.
  - intros o [->%elem_of_singleton|Ho]%elem_of_union; [lia|]. apply Hn in Ho. lia.
  - replace (LastCommited _) with (LastCommited (tracker s)) by (by case_match). lia.
  - lia.
  - intros tp'. replace (loop _) with (loop (tracker s)) by (by case_match).
    intros Htp. destruct (Hpc _ Htp). split; [by apply Hcov|done].
  - intros c Hc. by apply Hcov, Hq.
Qed.

Lemma inv_update s o v :
  inv s → o ∈ received s → v ≠ MsgState_Pending →
  inv (mkSys (update_state o v (tracker s)) (received s) ({[o]} ∪ processed s)
    (next s) (requests s)).
Proof.
  intros [(mx & [Hm Hlo Hhi] & Hmx & Hpend) Hd Hn Hl Hb Hpc Hq] Ho Hv.
  assert (Hcov : ∀ c, safe s c → covered (received s) ({[o]} ∪ processed s) (next s) c)
    by (intros c; apply covered_process).
  split; simpl; auto.
  - exists mx. split; [done|]. split; [done|]. intros o' Ho' Hnp.
    destruct (Hpend o') as [Hp Hr]; [done|set_solver|]. split; [|done].
    unfold pending_at. rewrite lookup_insert_ne; [done|set_solver].
  - intros o'. rewrite lookup_insert_is_Some. intros [->|[_ Ho']]; auto.
  - intros tp Htp. destruct (Hpc _ Htp). split; [by apply Hcov|done].
  - intros c Hc. by apply Hcov, Hq.
Qed.

(** Recording a successful commit. *)
Lemma inv_record s tp mx :
  inv s → loop (tracker s) = LoopCommitted tp → MaxReceived (tracker s) = Some mx →
  let ps := set_LastCommited (Offset tp) (tracker s) in
  let ps := if Offset tp >? Offset mx
            then set_MaxReceived (Some (set_Offset (Offset tp) mx)) ps else ps in
  inv (set_tracker (set_loop LoopIdle ps) s).
Proof.
  intros [(mx' & [Hm Hlo Hhi] & Hmx & Hpend) Hd Hn Hl Hb Hpc Hq] Hloop Hmax.
  rewrite Hm in Hmax. injection Hmax as ->.
  destruct (Hpc tp) as [[Hc Hcov] Hmin]; [by right|].
  split; simpl.
  - exists (if Offset tp >? Offset mx then set_Offset (Offset tp) mx else mx).
    split; [|split].
    + split; case_match; zbool; simpl; auto; lia.
    + case_match; zbool; simpl; lia.
    + intros o Ho Hnp. destruct (Hpend o Ho Hnp) as [Hp Hr].
      assert (Offset tp ≤ o).
      { destruct (decide (o < Offset tp)); [|lia]. exfalso. auto. }
      case_match; zbool; simpl; split; try done; lia.
  - by case_match.
  - done.
  - case_match; simpl; lia.
  - done.
  - intros ? [?|?]; done.
  - done.
Qed.

Lemma inv_loop s ev ps' :
  inv s → commitOffsetLoop ev (tracker s) = Ret ps' →
  inv (mkSys ps' (received s) (processed s) (next s)
    (match ev with EvTick => issued ps' | _ => [] end ++ requests s)).
Proof.
  intros Hinv Hs. unfold commitOffsetLoop in Hs.
  destruct (loop (tracker s)) as [| |tp|tp|] eqn:Hl, ev; try done.
  - (* the ticker fired *)
    destruct (ctxDone (tracker s)).
    + simplify_eq. apply (inv_set_loop s LoopExited); [done|naive_solver].
    + destruct (FindLatestToCommit (tracker s)) as [[ps [tp|e]]| |] eqn:Hf; simplify_eq/=.
      * destruct (inv_find _ _ _ Hinv Hf) as (Hsafe & Hmin & Hinv' & _).
        apply (inv_set_loop (set_tracker ps s) (LoopCommitting tp)) in Hinv';
          [|naive_solver].
        by apply (inv_request _ (Offset tp)) in Hinv'.
      * apply FindLatestToCommit_err in Hf as ->. unfold issued. rewrite Hl. by destruct s.
  - destruct (ctxDone (tracker s)); simplify_eq.
    apply (inv_set_loop s LoopExited); [done|naive_solver].
  - (* the broker answered *)
    destruct err; simplify_eq.
    + apply (inv_set_loop s LoopIdle); [done|naive_solver].
    + apply (inv_set_loop s (LoopCommitted tp)); [done|].
      intros ? [?|?]; simplify_eq. apply (inv_pc _ Hinv). by left.
  - (* the commit is recorded *)
    destruct (MaxReceived (tracker s)) as [mx|] eqn:Hm; simplify_eq.
    apply (inv_record s tp mx Hinv Hl Hm).
Qed.

Lemma inv_cancel s : inv s → inv (set_tracker (Cancel (tracker s)) s).
Proof.
  intros [(mx & [] & Hr) Hd Hn Hl Hb Hpc Hq].
  split; try done. exists mx. split; [by split|done].
Qed.

Lemma inv_revoke s ps1 ps2 r :
  inv s → CancelAndWait (tracker s) = Ret ps1 → FindLatestToCommit ps1 = Ret (ps2, r) →
  inv (mkSys ps2 (received s) (processed s) (next s) (revoked r ++ requests s)).
Proof.
  intros Hinv Hc Hf.
  assert (inv (set_tracker ps1 s)) as Hinv1.
  { unfold CancelAndWait in Hc. destruct (loop (tracker s)); simplify_eq;
      (apply (inv_set_loop (set_tracker (Cancel (tracker s)) s) LoopExited);
        [by apply inv_cancel|naive_solver]). }
  destruct r as [tp|e]; simpl.
  - destruct (inv_find (set_tracker ps1 s) _ _ Hinv1 Hf) as (Hsafe & _ & Hinv2 & _).
    case_match; [|done]. by apply (inv_request _ (Offset tp)) in Hinv2.
  - apply FindLatestToCommit_err in Hf as ->. done.
Qed.

Lemma inv_step s s' : inv s → sys_step s s' → inv s'.
Proof.
  intros Hinv Hstep. destruct Hstep as [s tp ? ?|s o v|s Hns|s ps' Hs|s ev ps' Hev Hs|s|s].
  - by apply inv_receive.
  - by apply inv_update.
  - apply (inv_set_loop s LoopIdle); [done|naive_solver].
  - by apply (inv_loop s EvTick).
  - apply (inv_loop s ev) in Hs; [|done]. by destruct ev.
  - by apply inv_cancel.
  - by eapply inv_revoke.
Qed.

(** Offsets the broker may assign: logical ones, or real ones. *)
Definition assignable (tp : TopicPartition) : Prop :=
  min_int64 ≤ Offset tp < max_int64.

Lemma inv_init `{KafkaLib} tp : assignable tp → inv (sys_init tp).
Proof.
  intros [Hlo Hhi]. pose proof OffsetBeginning_neg as Hneg.
  assert (Hint : 0 ≤ Offset tp → int64 (Offset tp - 1) = Offset tp - 1)
    by (intros; apply int64_id; unfold min_int64, max_int64 in *; lia).
  split; simpl.
  - exists tp. split; [|split; [lia|set_solver]].
    split; simpl; [done| |done]. case_match eqn:E; zbool; unfold min_int64; lia.
  - intros o [v Hv]. by rewrite lookup_empty in Hv.
  - set_solver.
  - case_match eqn:E; zbool; lia.
  - unfold max_int64 in *. lia.
  - naive_solver.
  - set_solver.
Qed.

Lemma inv_reachable `{KafkaLib} tp s :
  assignable tp → rtc sys_step (sys_init tp) s → inv s.
Proof.
  intros Ht Hrtc. eapply rtc_invariant; [|exact Hrtc|by apply inv_init].
  intros. by eapply inv_step.
Qed.

(** ** Properties *)

(** C1. At-least-once delivery: in every interleaving of receipts, completions,
    commit-loop steps, cancellations and revocations that starts from a freshly
    assigned partition, every position the consumer ever asked the broker to
    commit leaves no unprocessed message behind: whatever was received below it
    has been processed, and it does not run ahead of what was delivered. *)
Theorem commits_are_covered `{KafkaLib} (tp : TopicPartition) (s : Sys) (c : Z) :
  assignable tp → rtc sys_step (sys_init tp) s → c ∈ requests s →
  c ≤ next s ∧ ∀ o, o ∈ received s → o < c → o ∈ processed s.
Proof. intros Ht Hrtc Hc. exact (inv_req _ (inv_reachable _ _ Ht Hrtc) c Hc). Qed.

(** A concrete instance of the library's constant (its documented value). *)
#[local] Instance kafka_lib_demo : KafkaLib.
Proof. refine {| OffsetBeginning := -2 |}. unfold min_int64. lia. Defined.

(** Offsets 5 and 6 received, 5 processed, the ticker fires: 6 is requested. *)
Definition demo_tp : TopicPartition := mkTP "t" 0 5.
Definition demo_s1 : Sys :=
  mkSys (set_loop LoopIdle (NewPartitionState demo_tp)) ∅ ∅ 5 [].
Definition demo_s2 : Sys :=
  mkSys (append_state (mkTP "t" 0 5) (tracker demo_s1)) ({[5]} ∪ ∅) ∅ 6 [].
Definition demo_s3 : Sys :=
  mkSys (append_state (mkTP "t" 0 6) (tracker demo_s2)) ({[6]} ∪ ({[5]} ∪ ∅)) ∅ 7 [].
Definition demo_s4 : Sys :=
  mkSys (update_state 5 MsgState_Success (tracker demo_s3))
    ({[6]} ∪ ({[5]} ∪ ∅)) ({[5]} ∪ ∅) 7 [].
Definition demo_ps5 : PartitionState :=
  match commitOffsetLoop EvTick (tracker demo_s4) with Ret ps => ps | _ => tracker demo_s4 end.
Definition demo_s5 : Sys :=
  mkSys demo_ps5 ({[6]} ∪ ({[5]} ∪ ∅)) ({[5]} ∪ ∅) 7 [6].

Lemma demo_reach : rtc sys_step (sys_init demo_tp) demo_s5.
Proof.
  eapply (rtc_l _ _ demo_s1); [by apply (ss_start (sys_init demo_tp))|].
  eapply (rtc_l _ _ demo_s2); [by apply (ss_receive demo_s1 (mkTP "t" 0 5))|].
  eapply (rtc_l _ _ demo_s3); [by apply (ss_receive demo_s2 (mkTP "t" 0 6))|].
  eapply (rtc_l _ _ demo_s4); [by apply (ss_update demo_s3 5 MsgState_Success); [set_solver|]|].
  eapply (rtc_l _ _ demo_s5); [|apply rtc_refl].
  apply (ss_tick demo_s4 demo_ps5). reflexivity.
Qed.

Lemma commits_are_covered_witness :
  assignable demo_tp ∧ (6 ≤ next demo_s5 ∧ ∀ o, o ∈ received demo_s5 → o < 6 → o ∈ processed demo_s5).
Proof.
  split; [split; vm_compute; congruence|].
  apply (commits_are_covered demo_tp demo_s5 6).
  - split; vm_compute; congruence.
  - exact demo_reach.
  - apply list_elem_of_here.
Defined.

(** Each concrete step is matched by abstract steps. *)
Lemma step_refines s s' : inv s → sys_step s s' → rtc alo_step (abs s) (abs s').
Proof.
  intros Hinv Hstep. pose proof (inv_step _ _ Hinv Hstep) as Hinv'.
  assert (Hcommit : ∀ c l, safe s c → rtc alo_step (mkAbs (received s) (processed s) (next s) l)
    (mkAbs (received s) (processed s) (next s) (c :: l))).
  { intros c l Hc. apply rtc_once. by apply alo_commit. }
  destruct Hstep as [s tp ? ?|s o v|s Hns|s ps' Hs|s ev ps' Hev Hs|s|s ps1 ps2 r Hc Hf];
    unfold abs; simpl in *.
  - apply rtc_once. by apply alo_receive.
  - apply rtc_once. by apply alo_process.
  - apply rtc_refl.
  - unfold issued in *. destruct (loop ps'); try apply rtc_refl.
    apply Hcommit. apply (inv_req _ Hinv'). simpl. apply list_elem_of_here.
  - apply rtc_refl.
  - apply rtc_refl.
  - destruct r as [tp|]; simpl in *; [|apply rtc_refl].
    case_match; [|apply rtc_refl].
    apply Hcommit. apply (inv_req _ Hinv'). simpl. apply list_elem_of_here.
Qed.

(** C2. Refinement: every execution of the tracker with its environment is an
    execution of the abstract at-least-once machine, in which a position is
    committed only when it is covered. *)
Theorem delivery_refines `{KafkaLib} (tp : TopicPartition) (s : Sys) :
  assignable tp → rtc sys_step (sys_init tp) s →
  rtc alo_step (mkAbs ∅ ∅ (Z.max 0 (Offset tp)) []) (abs s).
Proof.
  intros Ht Hrtc.
  destruct (rtc_simulation sys_step alo_step (λ a b, inv a ∧ b = abs a)) with
    (a := sys_init tp) (a' := s) (b := abs (sys_init tp)) as (b & Hb & _ & ->); [| | |done].
  - intros a a' b [Ha ->] Hs. exists (abs a'). split; [by apply step_refines|].
    split; [by eapply inv_step|done].
  - done.
  - split; [by apply inv_init|done].
Qed.

Lemma delivery_refines_witness :
  rtc alo_step (mkAbs ∅ ∅ 5 []) (abs demo_s5).
Proof.
  apply (delivery_refines demo_tp demo_s5); [split; vm_compute; congruence|exact demo_reach].
Defined.

(** ** Progress *)

(** The goroutine's full cycle on a tick the broker accepts. *)
Definition commit_cycle (ps : PartitionState) : outcome PartitionState :=
  ps ← commitOffsetLoop EvTick ps;
  ps ← commitOffsetLoop (EvCommitReply None) ps;
  commitOffsetLoop EvRecord ps.


Definition demo_drained : PartitionState :=
  mkPS 0 {[3 := MsgState_Success; 5 := MsgState_Error]}
    (Some (mkTP "t" 0 5)) 2 false LoopIdle.


(** The state reached by [drained_tracker_commits_all] is such a state. *)
