(* ===== verification/KafkaConsumer.v ===== *)
(** * The consumer (kafka/internal/consumer/consumer.go)

    [KafkaConsumer] owns one tracker per assigned partition, in a map protected
    by the consumer's [RWMutex].  The mutex is explicit here, because
    [UpdateState] has a path that returns with it held and
    [ResetPartitionState] takes it twice.  The Kafka client is not under src/:
    what it answers is an argument ([Broker]) and what the code asks of it is
    recorded in [calls]. *)

From S2P Require Import Prelude GoSem KafkaTracker.

(** ** Data *)

(** Requests made to the Kafka client. *)
Inductive Call :=
| CallCommitOffsets (offsets : list TopicPartition)
| CallAssign (parts : list TopicPartition)
| CallIncrementalAssign (parts : list TopicPartition)
| CallUnassign
| CallIncrementalUnassign (parts : list TopicPartition).

(** The client's answers. *)
Record Broker := mkBroker {
  Committed : list TopicPartition → result (list TopicPartition);
  CommitOffsets : list TopicPartition → option error;
  Assign : list TopicPartition → option error;
  IncrementalAssign : list TopicPartition → option error;
  Unassign : option error;
  IncrementalUnassign : list TopicPartition → option error;
}.

(** [MsgCH] is the list of messages handed to the handlers (latest first), as
    [Msg] the code builds them from what it read. The map holds pointers to
    trackers; an entry is only ever reached through its partition number, and a
    replaced or deleted tracker's goroutine has returned, so the tracker itself
    stands for the pointer. *)
Record KafkaConsumer (Msg : Type) := mkKC {
  MsgCH : list Msg;
  IsReady : bool;
  ReadyCH_closed : bool;
  topics : list string;
  msgsStateMap : gmap Z PartitionState;
  Mu : RWMutex;
  ParititionAssignStrategy : string;
  calls : list Call;
}.
Arguments mkKC {Msg}.
Arguments MsgCH {Msg}.
Arguments IsReady {Msg}.
Arguments ReadyCH_closed {Msg}.
Arguments topics {Msg}.
Arguments msgsStateMap {Msg}.
Arguments Mu {Msg}.
Arguments ParititionAssignStrategy {Msg}.
Arguments calls {Msg}.

Section Setters.
Context {Msg : Type}.
Implicit Types c : KafkaConsumer Msg.

Definition set_msgsStateMap (m : gmap Z PartitionState) c : KafkaConsumer Msg :=
  mkKC (MsgCH c) (IsReady c) (ReadyCH_closed c) (topics c) m (Mu c)
    (ParititionAssignStrategy c) (calls c).
Definition set_Mu (mu : RWMutex) c : KafkaConsumer Msg :=
  mkKC (MsgCH c) (IsReady c) (ReadyCH_closed c) (topics c) (msgsStateMap c) mu
    (ParititionAssignStrategy c) (calls c).
Definition set_IsReady (b : bool) c : KafkaConsumer Msg :=
  mkKC (MsgCH c) b (ReadyCH_closed c) (topics c) (msgsStateMap c) (Mu c)
    (ParititionAssignStrategy c) (calls c).
Definition add_call (k : Call) c : KafkaConsumer Msg :=
  mkKC (MsgCH c) (IsReady c) (ReadyCH_closed c) (topics c) (msgsStateMap c) (Mu c)
    (ParititionAssignStrategy c) (k :: calls c).
Definition send_MsgCH (m : Msg) c : KafkaConsumer Msg :=
  mkKC (m :: MsgCH c) (IsReady c) (ReadyCH_closed c) (topics c) (msgsStateMap c) (Mu c)
    (ParititionAssignStrategy c) (calls c).
Definition close_ReadyCH : GO (KafkaConsumer Msg) unit := λ c,
  if ReadyCH_closed c then Panic "close of closed channel"
  else Ret (tt, mkKC (MsgCH c) (IsReady c) true (topics c) (msgsStateMap c) (Mu c)
         (ParititionAssignStrategy c) (calls c)).

(** The four operations of the consumer's mutex, and one on a tracker. *)
Definition with_Mu (op : RWMutex → outcome RWMutex) : GO (KafkaConsumer Msg) unit :=
  λ c, match op (Mu c) with
       | Ret mu => Ret (tt, set_Mu mu c)
       | Panic e => Panic e
       | Block => Block
       end.
Definition set_tracker (p : Z) (ps : PartitionState) c : KafkaConsumer Msg :=
  set_msgsStateMap (<[p := ps]> (msgsStateMap c)) c.
End Setters.

(** The configuration (kafka/internal/shared/kafka-config.go). *)
Record KafkaConfig := mkKafkaConfig {
  DefaultTopic : string;
  Host : string;
  ConsumerGroup : string;
  cfg_ParititionAssignStrategy : string;
}.

Definition NewKafkaConfig : KafkaConfig :=
  mkKafkaConfig "local_topic_sticky" "localhost" "local_cg" "cooperative-sticky".

(** The constructors: [client] and [subscribe] are the errors of
    [kafka.NewConsumer] and [SubscribeTopics]; [initTopic] is
    [initializeKafkaTopic], whose error is ignored but which may not return. *)
Fixpoint init_topics (initTopic : string → outcome (option error)) (topics : list string) :
    outcome unit :=
  match topics with
  | [] => Ret tt
  | t :: topics => _ ← initTopic t; init_topics initTopic topics
  end.

Definition new_consumer {Msg} (topics : list string) (strategy : string)
    (initTopic : string → outcome (option error)) (client subscribe : option error) :
    outcome (KafkaConsumer Msg) :=
  match client with
  | Some _ => Panic "kafka.NewConsumer"
  | None =>
      _ ← init_topics initTopic topics;
      match subscribe with
      | Some _ => Panic "SubscribeTopics"
      | None => Ret (mkKC [] false false topics ∅ unlocked strategy [])
      end
  end.

Definition NewKafkaConsumer {Msg} (initTopic : string → outcome (option error))
    (client subscribe : option error) : outcome (KafkaConsumer Msg) :=
  let cfg := NewKafkaConfig in
  new_consumer [DefaultTopic cfg] (cfg_ParititionAssignStrategy cfg) initTopic client subscribe.

(** ** Operations *)

Section Consumer.
Context `{KafkaLib} {Msg : Type} (broker : Broker).
Implicit Types tp : TopicPartition.

(** Both early returns are the code's: the first leaves the read lock held. *)
Definition UpdateState (tp : TopicPartition) (newState : Z) : GO (KafkaConsumer Msg) unit :=
  with_Mu RLock ;;'
  c ←' go_get ;;
  match msgsStateMap c !! Partition tp with
  | None => go_ret tt
  | Some prtnState =>
      with_Mu RUnlock ;;'
      go_modify (set_tracker (Partition tp) (update_state (Offset tp) newState prtnState))
  end.

(** The body of [assignPrntCB]'s loop over the committed positions. *)
Definition assign_partition (tp : TopicPartition) : GO (KafkaConsumer Msg) unit :=
  let startOffset := if Offset tp <? 0 then OffsetBeginning else Offset tp in
  let prtnState := NewPartitionState (mkTP (Topic tp) (Partition tp) startOffset) in
  c ←' go_get ;;
  match msgsStateMap c !! Partition tp with
  | Some oldPS =>
      λ c, match CancelAndWait oldPS with
           | Ret _ => Ret (tt, c)
           | Panic e => Panic e
           | Block => Block
           end
  | None => go_ret tt
  end ;;'
  go_modify (set_tracker (Partition tp) (set_loop LoopIdle prtnState)).

Definition assignPrntCB (parts : list TopicPartition) :
    GO (KafkaConsumer Msg) (option error) :=
  with_Mu Lock ;;'
  let committed := match Committed broker parts with Ok l => l | Err _ => parts end in
  go_for committed assign_partition ;;'
  with_Mu Unlock ;;'
  c ←' go_get ;;
  if decide (ParititionAssignStrategy c = "cooperative-sticky"%string)
  then go_modify (add_call (CallIncrementalAssign parts)) ;;'
       go_ret (IncrementalAssign broker parts)
  else go_modify (add_call (CallAssign parts)) ;;'
       go_ret (Assign broker parts).

(** The body of [revokePrtnCB]'s loop: what it adds to [toCommit]. *)
Definition revoke_partition (tp : TopicPartition) :
    GO (KafkaConsumer Msg) (list TopicPartition) :=
  with_Mu RLock ;;'
  c ←' go_get ;;
  with_Mu RUnlock ;;'
  match msgsStateMap c !! Partition tp with
  | None => go_ret []
  | Some ps => λ c,
      match (ps ← CancelAndWait ps; FindLatestToCommit ps) with
      | Ret (ps, Err _) => Ret ([], set_tracker (Partition tp) ps c)
      | Ret (ps, Ok latestToCommit) =>
          (with_Mu Lock ;;'
           go_modify (λ c, set_msgsStateMap (delete (Partition tp) (msgsStateMap c)) c) ;;'
           with_Mu Unlock ;;'
           go_ret (if Offset latestToCommit >=? 0
                   then [mkTP (Topic tp) (Partition tp) (Offset latestToCommit)] else []))
            (set_tracker (Partition tp) ps c)
      | Panic e => Panic e
      | Block => Block
      end
  end.

Fixpoint revoke_all (parts : list TopicPartition) :
    GO (KafkaConsumer Msg) (list TopicPartition) :=
  match parts with
  | [] => go_ret []
  | tp :: parts =>
      l1 ←' revoke_partition tp ;;
      l2 ←' revoke_all parts ;;
      go_ret (l1 ++ l2)
  end.

Definition revokePrtnCB (parts : list TopicPartition) :
    GO (KafkaConsumer Msg) (option error) :=
  toCommit ←' revoke_all parts ;;
  (if decide (toCommit = []) then go_ret tt
   else go_modify (add_call (CallCommitOffsets toCommit))) ;;'
  c ←' go_get ;;
  if decide (ParititionAssignStrategy c = "cooperative-sticky"%string)
  then go_modify (add_call (CallIncrementalUnassign parts)) ;;'
       go_ret (IncrementalUnassign broker parts)
  else go_modify (add_call CallUnassign) ;;'
       go_ret (Unassign broker).

Inductive RebalanceEvent :=
| AssignedPartitions (parts : list TopicPartition)
| RevokedPartitions (parts : list TopicPartition)
| OtherEvent.

Definition rebalanceCB (event : RebalanceEvent) : GO (KafkaConsumer Msg) (option error) :=
  match event with
  | AssignedPartitions parts => assignPrntCB parts
  | RevokedPartitions parts => revokePrtnCB parts
  | OtherEvent => go_ret None
  end.

Definition appendMsgState (tp : TopicPartition) : GO (KafkaConsumer Msg) unit :=
  with_Mu RLock ;;'
  c ←' go_get ;;
  with_Mu RUnlock ;;'
  match msgsStateMap c !! Partition tp with
  | None => go_ret tt
  | Some prtnState =>
      go_modify (set_tracker (Partition tp) (append_state tp prtnState))
  end.

(** What [ReadMessage] returned: an error (a timeout or not), neither a
    message nor an error, or a message. *)
Inductive ReadResult :=
| ReadErr (timeout : bool)
| ReadNil
| ReadMsg (tp : TopicPartition) (value : string).

(** One iteration of [consumeLoop], with its [firstMsg] variable: [newMsg]
    builds the message ([shared.NewMessage]: JSON decoding, a panic when it
    fails), [accepted] tells whether the channel took the message before the
    5 s timer. *)
Definition consumeLoop (newMsg : TopicPartition → string → outcome Msg)
    (firstMsg : bool) (read : ReadResult) (accepted : bool) :
    GO (KafkaConsumer Msg) bool :=
  match read with
  | ReadErr _ => go_ret firstMsg
  | ReadNil => go_ret firstMsg
  | ReadMsg tp value =>
      (if firstMsg then close_ReadyCH else go_ret tt) ;;'
      appendMsgState tp ;;'
      match newMsg tp value with
      | Panic e => go_panic e
      | Block => go_block
      | Ret msgRequest =>
          if accepted then go_modify (send_MsgCH msgRequest) ;;' go_ret false
          else UpdateState tp MsgState_Error ;;' go_ret false
      end
  end.

(** [readyCheck] and [checkReadyToAccept]: [assignment] is the answer of
    [Assignment] (its length or an error), and [polls] says of each iteration
    whether [ReadyCH] is closed and what [Assignment] answers. The loop returns
    at the first closed channel, error or non-empty assignment. *)
Definition readyCheck (assignment : result nat) : result bool :=
  match assignment with
  | Err e => Err e
  | Ok n => Ok (0 <? Z.of_nat n)
  end.

Fixpoint checkReadyToAccept (polls : list (bool * result nat)) :
    GO (KafkaConsumer Msg) (option error) :=
  match polls with
  | [] => go_block
  | (readyClosed, assignment) :: polls =>
      if (readyClosed : bool) then go_modify (set_IsReady true) ;;' go_ret None
      else match readyCheck assignment with
           | Err e => go_modify (set_IsReady true) ;;' go_ret (Some e)
           | Ok true => go_modify (set_IsReady true) ;;' go_ret None
           | Ok false => checkReadyToAccept polls
           end
  end.

Definition formatPartitions (partitions : list TopicPartition) : string :=
  let parts := (λ p, pretty (Partition p) +:+ "@" +:+ pretty (Offset p)) <$> partitions in
  "[" +:+ String.concat ", " parts +:+ "]".

(** *** Benchmark support (kept in the production file) *)

(** [GetPartitionState], whose [RUnlock] is deferred. *)
Definition GetPartitionState (id : Z) : GO (KafkaConsumer Msg) (result PartitionState) :=
  with_Mu RLock ;;'
  c ←' go_get ;;
  with_Mu RUnlock ;;'
  match msgsStateMap c !! id with
  | None => go_ret (Err (ErrNew "PS does not exist"))
  | Some ps => go_ret (Ok ps)
  end.

Definition NewTestKafkaConsumer (topic : string) (tp : TopicPartition) : KafkaConsumer Msg :=
  let cfg := NewKafkaConfig in
  mkKC [] false false [topic] {[0 := NewPartitionState tp]} unlocked
    (cfg_ParititionAssignStrategy cfg) [].

(** [tp] is a pointer: [aliased] says that it is the one partition 0's
    tracker holds as [MaxReceived], so that [tp.Offset = i] writes through. *)
Definition write_tp_Offset (aliased : bool) (i : Z) : GO (KafkaConsumer Msg) unit :=
  c ←' go_get ;;
  match aliased, msgsStateMap c !! 0 with
  | true, Some ps => go_modify (set_tracker 0 (set_MaxReceived (set_Offset i <$> MaxReceived ps) ps))
  | _, _ => go_ret tt
  end.

Definition NewTestPartitionState (aliased : bool) (tp : TopicPartition) (msgCount : nat) :
    GO (KafkaConsumer Msg) PartitionState :=
  go_for (seqZ 0 (Z.of_nat msgCount)) (λ i,
    write_tp_Offset aliased i ;;'
    UpdateState (set_Offset i tp) (if Z.rem i 5 =? 0 then MsgState_Pending else MsgState_Success)) ;;'
  r ←' GetPartitionState 0 ;;
  match r with
  | Ok ps => go_ret ps
  | Err _ => go_panic "PS does not exist"
  end.

(** The deferred [Unlock] comes last. Setting the old tracker's map to nil is
    the empty map here: nothing writes to it afterwards. *)
Definition ResetPartitionState (id : Z) (msgCount : nat) :
    GO (KafkaConsumer Msg) PartitionState :=
  with_Mu Lock ;;'
  c ←' go_get ;;
  match msgsStateMap c !! id with
  | Some oldPs => go_modify (set_tracker id (set_MaxReceived None (set_State ∅ oldPs)))
  | None => go_ret tt
  end ;;'
  ps ←' NewTestPartitionState false (mkTP "test_topic" id 0) msgCount ;;
  go_modify (set_tracker id ps) ;;'
  with_Mu Unlock ;;'
  go_ret ps.
End Consumer.

(** ** The consumer's mutex *)

Section MutexFacts.
Context `{KafkaLib} {Msg : Type}.
Implicit Types c : KafkaConsumer Msg.

Definition free (c : KafkaConsumer Msg) : Prop := writer (Mu c) = false.

Lemma with_RLock c : free c →
  with_Mu RLock c = Ret (tt, set_Mu (mkMutex false (S (readers (Mu c)))) c).
Proof. unfold with_Mu, RLock, free. by intros ->. Qed.

Lemma with_RUnlock c n : readers (Mu c) = S n →
  with_Mu RUnlock c = Ret (tt, set_Mu (mkMutex (writer (Mu c)) n) c).
Proof. unfold with_Mu, RUnlock. by intros ->. Qed.

Lemma with_Lock_unlocked c : Mu c = unlocked →
  with_Mu Lock c = Ret (tt, set_Mu (mkMutex true 0) c).
Proof. unfold with_Mu. by intros ->. Qed.

Lemma with_Lock_blocks c : (0 < readers (Mu c))%nat → with_Mu Lock c = Block.
Proof. intros Hr. unfold with_Mu. by rewrite Lock_reader_blocks. Qed.

(** A read lock taken and released around a read of the map. *)
Lemma read_section {A} (f : KafkaConsumer Msg → GO (KafkaConsumer Msg) A) c :
  free c →
  (with_Mu RLock ;;' c ←' go_get ;; with_Mu RUnlock ;;' f c) c =
  f (set_Mu (mkMutex false (S (readers (Mu c)))) c) (set_Mu (mkMutex false (readers (Mu c))) c).
Proof. intros Hf. unfold go_bind. rewrite with_RLock by done. simpl. by destruct c. Qed.

Lemma set_Mu_same c : free c → set_Mu (mkMutex false (readers (Mu c))) c = c.
Proof. destruct c as [?????[]]. unfold free. simpl. by intros ->. Qed.

Lemma appendMsgState_eq tp c : free c →
  appendMsgState tp c = Ret (tt,
    match msgsStateMap c !! Partition tp with
    | None => c
    | Some ps => set_tracker (Partition tp) (append_state tp ps) c
    end).
Proof.
  intros Hf. unfold appendMsgState. rewrite read_section by done.
  rewrite set_Mu_same by done. simpl. by case_match.
Qed.

(** A completion for an assigned partition updates its tracker; one for an
    unassigned partition returns with the read lock held. *)
Lemma UpdateState_eq tp v c : free c →
  UpdateState tp v c = Ret (tt,
    match msgsStateMap c !! Partition tp with
    | None => set_Mu (mkMutex false (S (readers (Mu c)))) c
    | Some ps => set_tracker (Partition tp) (update_state (Offset tp) v ps) c
    end).
Proof.
  intros Hf. unfold UpdateState, go_bind at 1. rewrite with_RLock by done. simpl.
  unfold go_bind, go_get. simpl. case_match; [|done].
  simpl. unfold go_modify. by destruct c as [?????[]]; unfold free in Hf; simpl in *; subst.
Qed.
End MutexFacts.
#[export] Hint Resolve with_Lock_blocks : go.

(** ** The leaked read lock *)

Section Leak.
Context `{KafkaLib} {Msg : Type} (broker : Broker).
Implicit Types c : KafkaConsumer Msg.

(** The consumer's methods, as steps of the goroutines that call them. *)
Inductive method_step : KafkaConsumer Msg → KafkaConsumer Msg → Prop :=
| ms_update c tp v c' : UpdateState tp v c = Ret (tt, c') → method_step c c'
| ms_append c tp c' : appendMsgState tp c = Ret (tt, c') → method_step c c'
| ms_rebalance c ev e c' : rebalanceCB broker ev c = Ret (e, c') → method_step c c'
| ms_get c id r c' : GetPartitionState id c = Ret (r, c') → method_step c c'.

(** At least one reader will never release. *)
Definition leaked (c : KafkaConsumer Msg) : Prop :=
  free c ∧ (0 < readers (Mu c))%nat.

Lemma assign_blocks c parts : leaked c → assignPrntCB broker parts c = Block.
Proof. intros [_ Hr]. unfold assignPrntCB, go_bind at 1. by rewrite with_Lock_blocks. Qed.

Lemma leaked_set_tracker p ps c : leaked c → leaked (set_tracker p ps c).
Proof. done. Qed.

Lemma leaked_revoke_partition c tp l c' :
  leaked c → revoke_partition tp c = Ret (l, c') → leaked c'.
Proof.
  intros [Hf Hr] Hrun. unfold revoke_partition in Hrun.
  rewrite read_section, set_Mu_same in Hrun by done. simpl in Hrun.
  destruct (msgsStateMap c !! Partition tp) as [ps|]; [|by unfold go_ret in Hrun; simplify_eq].
  destruct (ps ← CancelAndWait ps; FindLatestToCommit ps) as [[ps' [lt|e]]| |]; try done.
  - unfold go_bind at 1 in Hrun. by rewrite with_Lock_blocks in Hrun.
  - by simplify_eq.
Qed.

Lemma leaked_revoke_all c parts l c' :
  leaked c → revoke_all parts c = Ret (l, c') → leaked c'.
Proof.
  revert c l. induction parts as [|tp parts IH]; intros c l Hc Hrun; simpl in Hrun.
  - unfold go_ret in Hrun. by simplify_eq.
  - apply go_bind_inv in Hrun as (l1 & c1 & H1 & Hrun).
    apply go_bind_inv in Hrun as (l2 & c2 & H2 & Hrun).
    unfold go_ret in Hrun. simplify_eq. eapply IH; [|done]. by eapply leaked_revoke_partition.
Qed.

Lemma leaked_revoke c parts e c' :
  leaked c → revokePrtnCB broker parts c = Ret (e, c') → leaked c'.
Proof.
  intros Hc Hrun. unfold revokePrtnCB in Hrun.
  apply go_bind_inv in Hrun as (l & c1 & H1 & Hrun).
  apply leaked_revoke_all in H1; [|done].
  apply go_bind_inv in Hrun as ([] & c2 & H2 & Hrun).
  assert (leaked c2) by (unfold go_ret, go_modify in H2; case_match; by simplify_eq).
  unfold go_bind, go_get, go_modify, go_ret in Hrun. by case_match; simplify_eq.
Qed.

Lemma leaked_step c c' : leaked c → method_step c c' → leaked c'.
Proof.
  intros Hc Hstep. pose proof Hc as [Hf Hr].
  destruct Hstep as [c tp v c' Hs|c tp c' Hs|c [parts|parts|] e c' Hs|c id r c' Hs].
  - rewrite UpdateState_eq in Hs by done. simplify_eq. case_match; [done|].
    split; [done|]. simpl. lia.
  - rewrite appendMsgState_eq in Hs by done. simplify_eq. by case_match.
  - simpl in Hs. by rewrite assign_blocks in Hs.
  - by eapply leaked_revoke.
  - simpl in Hs. unfold go_ret in Hs. by simplify_eq.
  - unfold GetPartitionState in Hs. rewrite read_section, set_Mu_same in Hs by done.
    by case_match; unfold go_ret in Hs; simplify_eq.
Qed.

(** A completion reported for a partition that is not (or no longer)
    assigned returns with the consumer's read lock held, and from then on, in
    whatever order the consumer's methods run, no assignment callback can ever
    finish. *)
Theorem late_completion_blocks_assignment (c c1 c2 : KafkaConsumer Msg)
    (tp : TopicPartition) (v : Z) (parts : list TopicPartition) :
  free c → msgsStateMap c !! Partition tp = None →
  UpdateState tp v c = Ret (tt, c1) → rtc method_step c1 c2 →
  assignPrntCB broker parts c2 = Block.
Proof.
  intros Hf Hnone Hu Hrtc. apply assign_blocks.
  apply (rtc_invariant method_step leaked c1 c2); [apply leaked_step|done|].
  rewrite UpdateState_eq in Hu by done. rewrite Hnone in Hu. simplify_eq.
  split; [done|]. simpl. lia.
Qed.
End Leak.

Definition ok_broker : Broker :=
  mkBroker (λ l, Ok l) (λ _, None) (λ _, None) (λ _, None) None (λ _, None).

#[local] Instance kafka_lib_demo : KafkaLib.
Proof. refine {| OffsetBeginning := -2 |}. unfold min_int64. lia. Defined.

(** A consumer to which nothing is assigned yet. *)
Definition demo_consumer : KafkaConsumer string :=
  mkKC [] false false ["t"%string] ∅ unlocked "cooperative-sticky" [].

Lemma late_completion_blocks_assignment_witness :
  assignPrntCB ok_broker [mkTP "t" 0 0]
    (set_Mu (mkMutex false 1) demo_consumer) = Block.
Proof.
  apply (late_completion_blocks_assignment ok_broker demo_consumer
    (set_Mu (mkMutex false 1) demo_consumer) (set_Mu (mkMutex false 1) demo_consumer)
    (mkTP "t" 3 7) MsgState_Success).
  - reflexivity.
  - reflexivity.
  - reflexivity.
  - apply rtc_refl.
Defined.

(** [ResetPartitionState] never returns: it holds the consumer's write lock
    while [NewTestPartitionState] asks for the read lock. *)
Theorem ResetPartitionState_deadlocks {Msg} (c : KafkaConsumer Msg) (id : Z) (msgCount : nat) :
  ResetPartitionState id msgCount c = Block.
Proof.
  unfold ResetPartitionState, go_bind at 1. unfold with_Mu, Lock at 1.
  destruct (writer (Mu c)); [done|]. destruct (readers (Mu c)); [|done]. simpl.
  set (c1 := set_Mu (mkMutex true 0) c).
  assert (∀ m c2, writer (Mu c2) = true → NewTestPartitionState false (mkTP "test_topic" id 0) m c2
    = Block (A := PartitionState * KafkaConsumer Msg)) as Hblock.
  { intros m c2 Hw. unfold NewTestPartitionState. unfold go_bind at 1.
    destruct (seqZ 0 (Z.of_nat m)) as [|i l]; simpl.
    - unfold go_bind at 1. unfold GetPartitionState, go_bind at 1, with_Mu, RLock. by rewrite Hw.
    - unfold go_bind at 1 2. unfold write_tp_Offset. simpl.
      unfold UpdateState, go_bind at 1, with_Mu, RLock. by rewrite Hw. }
  unfold go_bind at 1, go_get. unfold go_bind at 1.
  destruct (msgsStateMap c1 !! id); simpl; unfold go_bind; by rewrite Hblock.
Qed.

(** ** Assignment and revocation *)

Section Rebalance.
Context `{KafkaLib} {Msg : Type} (broker : Broker).
Implicit Types c : KafkaConsumer Msg.

(** The tracker a position gets. *)
Definition fresh_tracker (tp : TopicPartition) : PartitionState :=
  set_loop LoopIdle (NewPartitionState (mkTP (Topic tp) (Partition tp)
    (if Offset tp <? 0 then OffsetBeginning else Offset tp))).

(** The goroutine of a tracker is at its [select] or has returned. *)
Definition stoppable (ps : PartitionState) : Prop :=
  loop ps = LoopIdle ∨ loop ps = LoopExited.

Definition all_stoppable (m : gmap Z PartitionState) : Prop :=
  ∀ p ps, m !! p = Some ps → stoppable ps.

Lemma CancelAndWait_stoppable ps :
  stoppable ps → CancelAndWait ps = Ret (set_loop LoopExited (Cancel ps)).
Proof. unfold CancelAndWait. by intros [-> | ->]. Qed.

Definition assign_map (l : list TopicPartition) (m : gmap Z PartitionState) :=
  foldl (λ m tp, <[Partition tp := fresh_tracker tp]> m) m l.

Lemma assign_all_eq l c :
  all_stoppable (msgsStateMap c) →
  go_for l assign_partition c =
    Ret (tt, set_msgsStateMap (assign_map l (msgsStateMap c)) c).
Proof.
  revert c. induction l as [|tp l IH]; intros c Hst; simpl.
  - by destruct c.
  - rewrite (go_bind_ret _ _ _ tt (set_tracker (Partition tp) (fresh_tracker tp) c)).
    + rewrite IH; [by destruct c|]. simpl. intros p ps.
      destruct (decide (p = Partition tp)) as [->|].
      * rewrite lookup_insert_eq. intros [= <-]. by left.
      * rewrite lookup_insert_ne by done. by apply Hst.
    + unfold assign_partition. unfold go_bind at 1, go_get. unfold go_bind.
      destruct (msgsStateMap c !! Partition tp) as [ps|] eqn:Hps; [|done].
      by rewrite (CancelAndWait_stoppable _ (Hst _ _ Hps)).
Qed.

Lemma assign_map_other l m p :
  p ∉ Partition <$> l → assign_map l m !! p = m !! p.
Proof.
  revert m. induction l as [|tp l IH]; intros m Hp; [done|]. simpl in *.
  rewrite not_elem_of_cons in Hp. destruct Hp as [Hne Hp].
  rewrite IH by done. by apply lookup_insert_ne.
Qed.

Lemma assign_map_in l m tp :
  NoDup (Partition <$> l) → tp ∈ l →
  assign_map l m !! Partition tp = Some (fresh_tracker tp).
Proof.
  revert m. induction l as [|tp' l IH]; intros m Hnd Htp; [by apply elem_of_nil in Htp|].
  simpl in *. apply NoDup_cons in Hnd as [Hni Hnd].
  apply elem_of_cons in Htp as [->|Htp]; [|by apply IH].
  rewrite assign_map_other by done. apply lookup_insert_eq.
Qed.

(** What the assignment callback works on: the committed positions, or the
    event's own when the lookup fails. *)
Definition positions (parts : list TopicPartition) : list TopicPartition :=
  match Committed broker parts with Ok l => l | Err _ => parts end.

Definition assign_reply c (parts : list TopicPartition) : option error :=
  if decide (ParititionAssignStrategy c = "cooperative-sticky"%string)
  then IncrementalAssign broker parts else Assign broker parts.

Definition assign_call c (parts : list TopicPartition) : Call :=
  if decide (ParititionAssignStrategy c = "cooperative-sticky"%string)
  then CallIncrementalAssign parts else CallAssign parts.

(** C8. The assignment callback, on a consumer whose mutex is free and whose
    goroutines can stop, returns the client's answer with the mutex released;
    every position (with distinct partition numbers) has a fresh, running
    tracker starting at it, every other partition keeps its tracker, and the
    client is asked to assign exactly the event's partitions with the
    configured protocol. *)
Theorem assignPrntCB_correct (c : KafkaConsumer Msg) (parts : list TopicPartition) :
  Mu c = unlocked → all_stoppable (msgsStateMap c) →
  NoDup (Partition <$> positions parts) →
  ∃ c', assignPrntCB broker parts c = Ret (assign_reply c parts, c') ∧
    Mu c' = unlocked ∧ calls c' = assign_call c parts :: calls c ∧
    (∀ tp, tp ∈ positions parts →
       msgsStateMap c' !! Partition tp = Some (fresh_tracker tp)) ∧
    (∀ p, p ∉ Partition <$> positions parts →
       msgsStateMap c' !! p = msgsStateMap c !! p).
Proof.
  intros Hmu Hst Hnd.
  exists (add_call (assign_call c parts)
    (set_msgsStateMap (assign_map (positions parts) (msgsStateMap c)) c)).
  split; [|split; [done|split; [done|split]]]; simpl.
  - unfold assignPrntCB. rewrite (go_bind_ret _ _ _ _ _ (with_Lock_unlocked _ Hmu)).
    cbv beta zeta. fold (positions parts).
    rewrite (go_bind_ret _ _ _ _ _
      (assign_all_eq (positions parts) (set_Mu (mkMutex true 0) c) Hst)).
    unfold go_bind, go_get, go_modify, go_ret, assign_reply, assign_call. simpl.
    destruct c; simpl in *; subst. by case_decide.
  - intros tp Htp. by apply assign_map_in.
  - intros p Hp. by apply assign_map_other.
Qed.
End Rebalance.

Lemma assignPrntCB_correct_witness :
  ∃ c', assignPrntCB ok_broker [mkTP "t" 0 5; mkTP "t" 1 (-1001)] demo_consumer = Ret (None, c') ∧
      Mu c' = unlocked ∧
      calls c' = [CallIncrementalAssign [mkTP "t" 0 5; mkTP "t" 1 (-1001)]] ∧
      (∀ tp, tp ∈ [mkTP "t" 0 5; mkTP "t" 1 (-1001)] →
         msgsStateMap c' !! Partition tp = Some (fresh_tracker tp)) ∧
      (∀ p, p ∉ Partition <$> [mkTP "t" 0 5; mkTP "t" 1 (-1001)] →
         msgsStateMap c' !! p = None).
Proof.
  apply (assignPrntCB_correct ok_broker demo_consumer [mkTP "t" 0 5; mkTP "t" 1 (-1001)]).
  - reflexivity.
  - intros p ps Hp. simpl in Hp. rewrite lookup_empty in Hp. discriminate Hp.
  - apply (bool_decide_unpack _). vm_compute. exact I.
Defined.

Section Revoke.
Context `{KafkaLib} {Msg : Type} (broker : Broker).
Implicit Types c : KafkaConsumer Msg.

(** The tracker once its goroutine has been stopped. *)
Definition stopped (ps : PartitionState) : PartitionState :=
  set_loop LoopExited (Cancel ps).

(** What revoking one partition commits, and the map it leaves. *)
Definition last_commit (m : gmap Z PartitionState) (tp : TopicPartition) :
    list TopicPartition :=
  match FindLatestToCommit ∘ stopped <$> m !! Partition tp with
  | Some (Ret (_, Ok lt)) =>
      if Offset lt >=? 0 then [mkTP (Topic tp) (Partition tp) (Offset lt)] else []
  | _ => []
  end.

Definition after_revoke (m : gmap Z PartitionState) (p : Z) : option PartitionState :=
  match m !! p with
  | None => None
  | Some ps => match FindLatestToCommit (stopped ps) with
               | Ret (_, Ok _) => None
               | _ => Some (stopped ps)
               end
  end.

(** Every tracker can be stopped and its scan ends. *)
Definition revocable (m : gmap Z PartitionState) : Prop :=
  ∀ p ps, m !! p = Some ps → stoppable ps ∧ ∃ mx, in_range ps mx.

Lemma stopped_scan ps mx :
  in_range ps mx → ∃ ps' r, FindLatestToCommit (stopped ps) = Ret (ps', r).
Proof.
  intros [Hm Hl Hh]. destruct (decide (LastCommited ps = Offset mx)) as [He|Hne].
  - destruct (FindLatestToCommit_skip (stopped ps) mx Hm He) as [e ->]. eauto.
  - destruct (FindLatestToCommit_run (stopped ps) mx ltac:(by split) Hne)
      as (st & r & -> & _). eauto.
Qed.

Lemma revoke_partition_eq tp c :
  Mu c = unlocked → revocable (msgsStateMap c) →
  ∃ c', revoke_partition tp c = Ret (last_commit (msgsStateMap c) tp, c') ∧
    Mu c' = unlocked ∧ calls c' = calls c ∧
    ParititionAssignStrategy c' = ParititionAssignStrategy c ∧
    msgsStateMap c' !! Partition tp = after_revoke (msgsStateMap c) (Partition tp) ∧
    (∀ p, p ≠ Partition tp → msgsStateMap c' !! p = msgsStateMap c !! p).
Proof.
  intros Hmu Hrev. unfold revoke_partition.
  assert (free c) as Hf by (unfold free; by rewrite Hmu).
  rewrite read_section, set_Mu_same by done. cbn [set_Mu msgsStateMap].
  unfold last_commit, after_revoke.
  destruct (msgsStateMap c !! Partition tp) as [ps|] eqn:Hps.
  - destruct (Hrev _ _ Hps) as [Hst [mx Hir]].
    destruct (stopped_scan ps mx Hir) as (ps' & r & Hscan).
    rewrite (CancelAndWait_stoppable _ Hst). fold (stopped ps). simpl. rewrite Hscan.
    destruct r as [lt|e]; simpl.
    + unfold go_bind, go_modify. unfold with_Mu. simpl. rewrite Hmu. simpl.
      eexists. split; [reflexivity|]. simpl. repeat split.
      * apply lookup_delete_eq.
      * intros p Hp. rewrite lookup_delete_ne by done. by rewrite lookup_insert_ne.
    + apply FindLatestToCommit_err in Hscan as ->.
      eexists. split; [reflexivity|]. simpl. repeat split; try done.
      * apply lookup_insert_eq.
      * intros p Hp. by rewrite lookup_insert_ne.
  - exists c. by repeat split.
Qed.

Lemma revoke_all_eq parts : ∀ c,
  Mu c = unlocked → revocable (msgsStateMap c) → NoDup (Partition <$> parts) →
  ∃ c', revoke_all parts c = Ret (parts ≫= last_commit (msgsStateMap c), c') ∧
    Mu c' = unlocked ∧ calls c' = calls c ∧
    ParititionAssignStrategy c' = ParititionAssignStrategy c ∧
    (∀ p, msgsStateMap c' !! p =
      if decide (p ∈ Partition <$> parts) then after_revoke (msgsStateMap c) p
      else msgsStateMap c !! p).
Proof.
  induction parts as [|tp parts IH]; intros c Hmu Hrev Hnd; simpl.
  - exists c. split; [done|]. split; [done|]. split; [done|]. split; [done|].
    done.
  - simpl in Hnd. apply NoDup_cons in Hnd as [Hni Hnd].
    destruct (revoke_partition_eq tp c Hmu Hrev) as (c1 & H1 & Hmu1 & Hc1 & Hs1 & Hp1 & Ho1).
    assert (revocable (msgsStateMap c1)) as Hrev1.
    { intros p ps Hps. destruct (decide (p = Partition tp)) as [->|Hne].
      - rewrite Hp1 in Hps. unfold after_revoke in Hps.
        destruct (msgsStateMap c !! Partition tp) as [ps0|] eqn:Hps0; [|done].
        destruct (Hrev _ _ Hps0) as [_ [mx []]].
        repeat case_match; simplify_eq; (split; [by right|exists mx; by split]).
      - rewrite Ho1 in Hps by done. by eapply Hrev. }
    destruct (IH c1 Hmu1 Hrev1 Hnd) as (c2 & H2 & Hmu2 & Hc2 & Hs2 & Hp2).
    exists c2. split; [|split; [done|split; [congruence|split; [congruence|]]]].
    + rewrite (go_bind_ret _ _ _ _ _ H1), (go_bind_ret _ _ _ _ _ H2). unfold go_ret.
      f_equal. f_equal. f_equal. apply Forall_bind_ext, Forall_forall. intros tp' Htp'.
      unfold last_commit. rewrite Ho1; [done|]. intros Heq. apply Hni.
      rewrite <- Heq. by apply list_elem_of_fmap_2.
    + intros p. rewrite Hp2. unfold after_revoke at 1.
      destruct (decide (p = Partition tp)) as [->|Hne].
      * rewrite decide_False by done. rewrite Hp1. by rewrite decide_True by apply list_elem_of_here.
      * rewrite Ho1 by done. fold (after_revoke (msgsStateMap c) p).
        destruct (decide (p ∈ Partition <$> parts)).
        -- by rewrite decide_True by (by apply list_elem_of_further).
        -- by rewrite decide_False by (by rewrite not_elem_of_cons).
Qed.

Definition unassign_reply c (parts : list TopicPartition) : option error :=
  if decide (ParititionAssignStrategy c = "cooperative-sticky"%string)
  then IncrementalUnassign broker parts else Unassign broker.

(** The requests of one revocation, latest first. *)
Definition revoke_calls c (parts : list TopicPartition) : list Call :=
  (if decide (ParititionAssignStrategy c = "cooperative-sticky"%string)
   then CallIncrementalUnassign parts else CallUnassign) ::
  match parts ≫= last_commit (msgsStateMap c) with
  | [] => []
  | l => [CallCommitOffsets l]
  end.

End Revoke.

(** Two running trackers: one with offset 1 settled and 2 pending, one that has
    received nothing. *)
Definition two_trackers : KafkaConsumer string :=
  set_msgsStateMap
    {[0 := mkPS 0 {[1 := MsgState_Success; 2 := MsgState_Pending]} (Some (mkTP "t" 0 2)) 0 false LoopIdle;
      1 := mkPS 1 ∅ (Some (mkTP "t" 1 4)) 4 false LoopIdle]} demo_consumer.

Lemma two_trackers_revocable : revocable (msgsStateMap two_trackers).
Proof.
  intros p ps Hp. simpl in Hp.
  apply lookup_insert_Some in Hp as [[<- <-]|[Hne Hp]].
  - split; [by left|]. exists (mkTP "t" 0 2). split; [done|..]; vm_compute; repeat split; congruence.
  - apply lookup_singleton_Some in Hp as [<- <-].
    split; [by left|]. exists (mkTP "t" 1 4). split; [done|..]; vm_compute; repeat split; congruence.
Qed.

