(* ===== verification/KafkaVariants.v ===== *)
(** * The outbox and CDC consumers

    [kafka-outbox/internal/kafka/consumer] and [kafka-cdc/pkg/kafka] carry
    copies of the consumer and of its tracker.  A function that is the same code
    there (up to logging, and to the commit function being passed to the tracker
    instead of the client) is the same definition here; what differs is defined
    anew: how a message that cannot be decoded or delivered is treated, and the
    number of topics one consumer subscribes to. *)

From S2P Require Import Prelude GoSem KafkaTracker Delivery KafkaConsumer.

(** ** kafka-outbox *)

Module OutboxConsumer.

Record KafkaConfig := mkKafkaConfig {
  DefaultTopics : list string;
  TopicsCount : Z;
  Host : string;
  ConsumerGroup : string;
  cfg_ParititionAssignStrategy : string;
  NumPartitions : Z;
}.

(** [TopicsCount] is not set: it keeps its zero value. *)
Definition NewKafkaConfig : KafkaConfig :=
  let strategy := "range"%string in
  let count := 2 in
  let topics := (λ id, strategy +:+ "_topic_" +:+ pretty id) <$> seqZ 0 count in
  mkKafkaConfig topics 0 "localhost" "local_cg" strategy 4.

Definition NewPartitionState := @KafkaTracker.NewPartitionState.
Definition FindLatestToCommit := KafkaTracker.FindLatestToCommit.
Definition ReadOffset := KafkaTracker.ReadOffset.
Definition commitOffsetLoop := KafkaTracker.commitOffsetLoop.
Definition Cancel := KafkaTracker.Cancel.

Section Consumer.
Context `{KafkaLib} {Msg : Type} (broker : Broker).

Definition NewKafkaConsumer (initTopic : string → outcome (option error))
    (client subscribe : option error) : outcome (KafkaConsumer Msg) :=
  let cfg := NewKafkaConfig in
  new_consumer (DefaultTopics cfg) (cfg_ParititionAssignStrategy cfg) initTopic client subscribe.

Definition UpdateState (tp : TopicPartition) (newState : Z) : GO (KafkaConsumer Msg) unit :=
  KafkaConsumer.UpdateState tp newState.
Definition assignPrntCB (parts : list TopicPartition) :
    GO (KafkaConsumer Msg) (option error) :=
  KafkaConsumer.assignPrntCB broker parts.
Definition revokePrtnCB (parts : list TopicPartition) :
    GO (KafkaConsumer Msg) (option error) :=
  KafkaConsumer.revokePrtnCB broker parts.
Definition rebalanceCB (event : RebalanceEvent) : GO (KafkaConsumer Msg) (option error) :=
  match event with
  | AssignedPartitions parts => assignPrntCB parts
  | RevokedPartitions parts => revokePrtnCB parts
  | OtherEvent => go_ret None
  end.
Definition appendMsgState (tp : TopicPartition) : GO (KafkaConsumer Msg) unit :=
  KafkaConsumer.appendMsgState tp.
Definition checkReadyToAccept (polls : list (bool * result nat)) :
    GO (KafkaConsumer Msg) (option error) :=
  KafkaConsumer.checkReadyToAccept polls.
Definition readyCheck := KafkaConsumer.readyCheck.
Definition formatPartitions := KafkaConsumer.formatPartitions.

(** A message that does not decode is left as [appendMsgState] recorded it. *)
Definition consumeLoop (newMsg : TopicPartition → string → result Msg)
    (firstMsg : bool) (read : ReadResult) (accepted : bool) :
    GO (KafkaConsumer Msg) bool :=
  match read with
  | ReadErr _ => go_ret firstMsg
  | ReadNil => go_ret firstMsg
  | ReadMsg tp value =>
      (if firstMsg then close_ReadyCH else go_ret tt) ;;'
      appendMsgState tp ;;'
      match newMsg tp value with
      | Err _ => go_ret false
      | Ok msgRequest =>
          if accepted then go_modify (send_MsgCH msgRequest) ;;' go_ret false
          else UpdateState tp MsgState_Error ;;' go_ret false
      end
  end.
End Consumer.

(** [pkgtypes.NewMessage] over the JSON decoder of the payload type. *)
Record Message (T : Type) := mkMessage { Metadata : TopicPartition; Data : T }.
Arguments mkMessage {T}.
Arguments Metadata {T}.
Arguments Data {T}.

Definition NewMessage {T} (unmarshal : string → result T)
    (metadata : TopicPartition) (data : string) : result (Message T) :=
  match unmarshal data with
  | Err e => Err (ErrWrap "failed to unmarshal message: " e)
  | Ok payload => Ok (mkMessage metadata payload)
  end.

Definition MustNewMessage {T} (unmarshal : string → result T)
    (metadata : TopicPartition) (data : string) : outcome (Message T) :=
  match NewMessage unmarshal metadata data with
  | Err e => Panic "failed to unmarshal message"
  | Ok msg => Ret msg
  end.

(** [Produce]: the message goes to every configured topic in order; the first
    failure stops it. [send topic] is the client's answer; the list is what
    was handed to the client. *)
Fixpoint produce_loop (send : string → option error) (topics : list string)
    (sent : list string) : list string * option error :=
  match topics with
  | [] => (sent, None)
  | topic :: topics =>
      match send topic with
      | Some err => (sent, Some err)
      | None => produce_loop send topics (sent ++ [topic])
      end
  end.

Definition Produce (send : string → option error) : list string * option error :=
  produce_loop send (DefaultTopics NewKafkaConfig) [].
End OutboxConsumer.

(** ** kafka-cdc *)

Module CdcConsumer.

Record KafkaConfig := mkKafkaConfig {
  DefaultTopics : list string;
  Host : string;
  ConsumerGroup : string;
  cfg_ParititionAssignStrategy : string;
  NumPartitions : Z;
}.

Definition NewKafkaConfig : KafkaConfig :=
  let strategy := "cooperative-sticky"%string in
  let count := 1 in
  let topics := (λ id, strategy +:+ "_topic_" +:+ pretty id) <$> seqZ 0 count in
  mkKafkaConfig topics "localhost" "local_cg" strategy 4.

Definition NewPartitionState := @KafkaTracker.NewPartitionState.
Definition FindLatestToCommit := KafkaTracker.FindLatestToCommit.
Definition ReadOffset := KafkaTracker.ReadOffset.
Definition commitOffsetLoop := KafkaTracker.commitOffsetLoop.
Definition Cancel := KafkaTracker.Cancel.

Section Consumer.
Context `{KafkaLib} (broker : Broker).

(** The channel carries the client's messages themselves. *)
Definition KMessage : Type := TopicPartition * string.

(** [encoder] is the error of [NewMsgEncoder], on which the constructor
    returns nil. *)
Definition NewKafkaConsumer (topics : list string) (encoder : option error)
    (initTopic : string → outcome (option error)) (client subscribe : option error) :
    outcome (option (KafkaConsumer KMessage)) :=
  match encoder with
  | Some _ => Ret None
  | None =>
      let cfg := NewKafkaConfig in
      let topics := if decide (topics = []) then DefaultTopics cfg else topics in
      c ← new_consumer topics (cfg_ParititionAssignStrategy cfg) initTopic client subscribe;
      Ret (Some c)
  end.

Definition UpdateState (tp : TopicPartition) (newState : Z) :
    GO (KafkaConsumer KMessage) unit := KafkaConsumer.UpdateState tp newState.
Definition assignPrntCB (parts : list TopicPartition) :
    GO (KafkaConsumer KMessage) (option error) := KafkaConsumer.assignPrntCB broker parts.
Definition revokePrtnCB (parts : list TopicPartition) :
    GO (KafkaConsumer KMessage) (option error) := KafkaConsumer.revokePrtnCB broker parts.
Definition rebalanceCB (event : RebalanceEvent) :
    GO (KafkaConsumer KMessage) (option error) :=
  match event with
  | AssignedPartitions parts => assignPrntCB parts
  | RevokedPartitions parts => revokePrtnCB parts
  | OtherEvent => go_ret None
  end.
Definition appendMsgState (tp : TopicPartition) : GO (KafkaConsumer KMessage) unit :=
  KafkaConsumer.appendMsgState tp.
Definition checkReadyToAccept (polls : list (bool * result nat)) :
    GO (KafkaConsumer KMessage) (option error) := KafkaConsumer.checkReadyToAccept polls.
Definition readyCheck := KafkaConsumer.readyCheck.
Definition formatPartitions := KafkaConsumer.formatPartitions.

(** No decoding and no timer here: the loop waits for the channel (128
    messages, drained by the handlers) to take the message. *)
Definition consumeLoop (firstMsg : bool) (read : ReadResult) (room : bool) :
    GO (KafkaConsumer KMessage) bool :=
  match read with
  | ReadErr _ => go_ret firstMsg
  | ReadNil => go_ret firstMsg
  | ReadMsg tp value =>
      (if firstMsg then close_ReadyCH else go_ret tt) ;;'
      appendMsgState tp ;;'
      if room then go_modify (send_MsgCH (tp, value)) ;;' go_ret false
      else go_block
  end.
End Consumer.
End CdcConsumer.

(** ** Messages that do not decode (outbox) *)

Section Poison.
Context `{KafkaLib} {Msg : Type}.

(** Runs in which offset [o] is never reported. *)
Definition unreported_step (o : Z) (s s' : Sys) : Prop :=
  sys_step s s' ∧ (o ∈ processed s' → o ∈ processed s).

(** A message the outbox consumer cannot decode is recorded as pending
    and reaches no handler; as no handler will report it, in every run of its
    partition from there no commit request ever goes past its offset. *)
Theorem undecodable_message_stops_commits
    (newMsg : TopicPartition → string → result Msg) (e : error)
    (c : KafkaConsumer Msg) (tp : TopicPartition) (value : string) (accepted : bool)
    (s s' : Sys) :
  free c → msgsStateMap c !! Partition tp = Some (tracker s) →
  inv s → next s ≤ Offset tp < max_int64 - 1 → requests s = [] → Offset tp ∉ processed s →
  newMsg tp value = Err e →
  let s1 := mkSys (append_state tp (tracker s)) ({[Offset tp]} ∪ received s)
              (processed s) (Offset tp + 1) (requests s) in
  OutboxConsumer.consumeLoop newMsg false (ReadMsg tp value) accepted c =
    Ret (false, KafkaConsumer.set_tracker (Partition tp) (tracker s1) c) ∧
  (rtc (unreported_step (Offset tp)) s1 s' → ∀ q, q ∈ requests s' → q ≤ Offset tp).
Proof.
  intros Hf Htr Hinv [Hn Hb] Hreq Hnp Herr s1. split.
  - unfold OutboxConsumer.consumeLoop, OutboxConsumer.appendMsgState.
    rewrite (go_bind_ret _ _ _ tt c eq_refl), (go_bind_ret _ _ _ _ _ (appendMsgState_eq tp c Hf)).
    by rewrite Herr, Htr.
  - intros Hrtc q Hq.
    assert (inv s' ∧ Offset tp ∈ received s' ∧ Offset tp ∉ processed s') as (Hinv' & Hr & Hp).
    { eapply (rtc_invariant (unreported_step (Offset tp))
        (λ s, inv s ∧ Offset tp ∈ received s ∧ Offset tp ∉ processed s)); [|exact Hrtc|].
      - intros a b (Ha & Har & Hap) [Hstep Hun]. split; [by eapply inv_step|].
        split; [|by auto]. destruct Hstep; simpl in *; set_solver.
      - split; [by apply inv_receive|]. split; [simpl; set_solver|done]. }
    destruct (inv_req _ Hinv' _ Hq) as [_ Hcov].
    destruct (decide (Offset tp < q)) as [Hlt|]; [|lia]. by destruct (Hp (Hcov _ Hr Hlt)).
Qed.
End Poison.

#[local] Instance kafka_lib_demo : KafkaLib.
Proof. refine {| OffsetBeginning := -2 |}. unfold min_int64. lia. Defined.

Definition poison_sys : Sys := sys_init (mkTP "t" 0 5).

Lemma poison_inv : inv poison_sys.
Proof. apply inv_init. split; vm_compute; congruence. Defined.

Lemma undecodable_message_stops_commits_witness :
  let c : KafkaConsumer string := KafkaConsumer.set_tracker 0 (tracker poison_sys) demo_consumer in
  let s1 := mkSys (append_state (mkTP "t" 0 5) (tracker poison_sys)) ({[5]} ∪ ∅) ∅ 6 [] in
  OutboxConsumer.consumeLoop (λ _ _, Err (ErrNew "bad")) false (ReadMsg (mkTP "t" 0 5) "x") true c =
    Ret (false, KafkaConsumer.set_tracker 0 (tracker s1) c) ∧
  (rtc (unreported_step 5) s1 s1 → ∀ q, q ∈ requests s1 → q ≤ 5).
Proof.
  apply (undecodable_message_stops_commits (λ _ _, Err (ErrNew "bad")) (ErrNew "bad")
    (KafkaConsumer.set_tracker 0 (tracker poison_sys) demo_consumer) (mkTP "t" 0 5) "x" true
    poison_sys).
  - reflexivity.
  - reflexivity.
  - exact poison_inv.
  - split; vm_compute; congruence.
  - reflexivity.
  - apply (bool_decide_unpack _). vm_compute. exact I.
  - reflexivity.
Defined.

(** ** Two topics, one map (outbox) *)

Section Collision.
Context `{KafkaLib}.

(** The positions of a new group: 0 for partition 0 of both topics. *)
Definition range_topics : list TopicPartition :=
  (λ t, mkTP t 0 0) <$> OutboxConsumer.DefaultTopics OutboxConsumer.NewKafkaConfig.

(** Offset 0 of both topics and offset 1 of the second are received; the
    handlers report the first topic's offset 0 and the second's offset 1. *)
Definition outbox_start : KafkaConsumer string :=
  match OutboxConsumer.NewKafkaConsumer (λ _, Ret None) None None with
  | Ret c => c
  | _ => demo_consumer
  end.

Definition collision_run : GO (KafkaConsumer string) unit :=
  OutboxConsumer.assignPrntCB ok_broker range_topics ;;'
  OutboxConsumer.appendMsgState (mkTP "range_topic_0" 0 0) ;;'
  OutboxConsumer.appendMsgState (mkTP "range_topic_1" 0 0) ;;'
  OutboxConsumer.appendMsgState (mkTP "range_topic_1" 0 1) ;;'
  OutboxConsumer.UpdateState (mkTP "range_topic_0" 0 0) MsgState_Success ;;'
  OutboxConsumer.UpdateState (mkTP "range_topic_1" 0 1) MsgState_Success.

End Collision.

(** The run, evaluated whatever the library's logical offset is. *)
Lemma collision_run_summary `{KafkaLib} :
  match collision_run outbox_start with
  | Ret (_, c) =>
      match msgsStateMap c !! 0 with
      | Some ps =>
          match OutboxConsumer.commitOffsetLoop EvTick ps with
          | Ret ps' => bool_decide (dom (msgsStateMap c) = {[0]}) &&
              bool_decide (loop ps' = LoopCommitting (mkTP "range_topic_1" 0 2))
          | _ => false
          end
      | None => false
      end
  | _ => false
  end = true.
Proof. destruct H as [[|ob|ob] Hob]; [lia|lia|]. by vm_compute. Qed.

(** The trackers are keyed by the partition number alone, while the
    outbox consumer subscribes to two topics: assigning partition 0 of both
    leaves one tracker, and reporting the first topic's offset 0 makes the
    commit loop ask for position 2 of the second topic although the second
    topic's offset 0 was received and never reported. *)
Theorem topics_share_a_tracker `{KafkaLib} :
  OutboxConsumer.DefaultTopics OutboxConsumer.NewKafkaConfig =
    ["range_topic_0"; "range_topic_1"]%string ∧
  ∃ c ps ps',
    collision_run outbox_start = Ret (tt, c) ∧
    dom (msgsStateMap c) = {[0]} ∧ msgsStateMap c !! 0 = Some ps ∧
    OutboxConsumer.commitOffsetLoop EvTick ps = Ret ps' ∧
    loop ps' = LoopCommitting (mkTP "range_topic_1" 0 2).
Proof.
  split; [by vm_compute|].
  pose proof collision_run_summary as Hsum.
  destruct (collision_run outbox_start) as [[[] c]| |]; [|done..].
  destruct (msgsStateMap c !! 0) as [ps|] eqn:Hps; [|done].
  destruct (OutboxConsumer.commitOffsetLoop EvTick ps) as [ps'| |] eqn:Hps'; [|done..].
  apply andb_true_iff in Hsum as [Hd%bool_decide_eq_true Hl%bool_decide_eq_true].
  by exists c, ps, ps'.
Qed.

Lemma topics_share_a_tracker_witness :
  OutboxConsumer.DefaultTopics OutboxConsumer.NewKafkaConfig =
    ["range_topic_0"; "range_topic_1"]%string ∧
  ∃ c ps ps',
    collision_run outbox_start = Ret (tt, c) ∧
    dom (msgsStateMap c) = {[0]} ∧ msgsStateMap c !! 0 = Some ps ∧
    OutboxConsumer.commitOffsetLoop EvTick ps = Ret ps' ∧
    loop ps' = LoopCommitting (mkTP "range_topic_1" 0 2).
Proof. exact (@topics_share_a_tracker kafka_lib_demo). Defined.
