(* ===== verification/KafkaChans.v ===== *)
(** * The channel-based consumer (kafka-chans/internal/consumer)

    Here a tracker's map is changed by one goroutine, [acceptMsgLoop], fed by
    channels, and the size of the map is an atomic counter.  A channel is the
    list of what is in it (oldest first); a nil channel is [None].  The map is
    also read by [CommitOffsetLoop] and by the revoke callback without
    synchronisation: each access is one atomic step here, so the data race
    itself is outside the model. *)

From S2P Require Import Prelude GoSem KafkaTracker KafkaConsumer.

(** ** Data *)

Record UpdateStateMsg := NewUpdateStateMsg { offset : Z; value : Z }.

Definition SetOffset (o : Z) (s : UpdateStateMsg) : UpdateStateMsg :=
  NewUpdateStateMsg o (value s).
Definition SetStateValue (v : Z) (s : UpdateStateMsg) : UpdateStateMsg :=
  NewUpdateStateMsg (offset s) v.

(** [MsgPool] says whether the pool pointer is set. *)
Record ChanState := mkCS {
  ID : Z;
  state : gmap Z Z;
  stateSize : Z;
  MaxReceived : option TopicPartition;
  lastCommited : Z;
  DeleteFromStateCH : list Z;
  UpdateStateCH : list UpdateStateMsg;
  FindLatestToCommitRespCH : list Z;
  ReadOffsetRespCH : option (list Z);
  ctxDone : bool;
  loop : LoopPC;
  accepting : bool;
  MsgPool : bool;
}.

Section Setters.
Implicit Types ps : ChanState.
Definition set_map (s : gmap Z Z) (n : Z) ps : ChanState :=
  mkCS (ID ps) s n (MaxReceived ps) (lastCommited ps) (DeleteFromStateCH ps)
    (UpdateStateCH ps) (FindLatestToCommitRespCH ps) (ReadOffsetRespCH ps)
    (ctxDone ps) (loop ps) (accepting ps) (MsgPool ps).
Definition set_max (m : option TopicPartition) (last : Z) ps : ChanState :=
  mkCS (ID ps) (state ps) (stateSize ps) m last (DeleteFromStateCH ps)
    (UpdateStateCH ps) (FindLatestToCommitRespCH ps) (ReadOffsetRespCH ps)
    (ctxDone ps) (loop ps) (accepting ps) (MsgPool ps).
Definition set_queues (d : list Z) (u : list UpdateStateMsg) ps : ChanState :=
  mkCS (ID ps) (state ps) (stateSize ps) (MaxReceived ps) (lastCommited ps) d u
    (FindLatestToCommitRespCH ps) (ReadOffsetRespCH ps)
    (ctxDone ps) (loop ps) (accepting ps) (MsgPool ps).
Definition set_replies (f : list Z) (r : option (list Z)) ps : ChanState :=
  mkCS (ID ps) (state ps) (stateSize ps) (MaxReceived ps) (lastCommited ps)
    (DeleteFromStateCH ps) (UpdateStateCH ps) f r
    (ctxDone ps) (loop ps) (accepting ps) (MsgPool ps).
Definition set_control (d : bool) (l : LoopPC) (a : bool) ps : ChanState :=
  mkCS (ID ps) (state ps) (stateSize ps) (MaxReceived ps) (lastCommited ps)
    (DeleteFromStateCH ps) (UpdateStateCH ps) (FindLatestToCommitRespCH ps)
    (ReadOffsetRespCH ps) d l a (MsgPool ps).
Definition set_loop (l : LoopPC) ps : ChanState :=
  set_control (ctxDone ps) l (accepting ps) ps.
End Setters.

(** ** The tracker *)

Section Tracker.
Context `{KafkaLib}.

(** Neither the pool nor the channels for reading an offset are set; the
    goroutine [acceptMsgLoop] is started. *)
Definition NewPartitionState (MaxReceived : TopicPartition) : ChanState :=
  let initialLastCommited :=
    if (Offset MaxReceived =? OffsetBeginning) || (Offset MaxReceived <? 0)
    then -1 else int64 (Offset MaxReceived - 1) in
  mkCS (Partition MaxReceived) ∅ 0 (Some MaxReceived) initialLastCommited
    [] [] [] None false LoopNotStarted true false.

Definition NewTestPartitionState (MaxReceived : TopicPartition) : ChanState :=
  let initialLastCommited :=
    if (Offset MaxReceived =? OffsetBeginning) || (Offset MaxReceived <? 0)
    then -1 else int64 (Offset MaxReceived - 1) in
  mkCS (Partition MaxReceived) ∅ 0 (Some MaxReceived) initialLastCommited
    [] [] [] (Some []) false LoopNotStarted true true.
End Tracker.

Definition getStateSize (ps : ChanState) : Z := stateSize ps.

(** The scan: [hi] is [MaxReceived.Offset+1], [latest] what [latestToCommit]
    holds before the loop; [None] when the fuel runs out. *)
Fixpoint find_loop (fuel : nat) (size : Z) (offset hi : Z) (st : gmap Z Z) (latest : Z) :
    option (gmap Z Z * Z) :=
  match fuel with
  | O => None
  | S fuel =>
      if offset <=? hi then
        if size =? 0 then Some (st, int64 (offset + 1))
        else match st !! offset with
             | None => find_loop fuel size (int64 (offset + 1)) hi st latest
             | Some msgState =>
                 if negb (msgState =? MsgState_Pending)
                 then find_loop fuel size (int64 (offset + 1)) hi (delete offset st) latest
                 else Some (st, offset)
             end
      else Some (st, latest)
  end.

Definition FindLatestToCommit (ps : ChanState) : outcome (ChanState * result TopicPartition) :=
  match MaxReceived ps with
  | None => Panic "nil pointer dereference"
  | Some mx =>
      if lastCommited ps =? Offset mx
      then Ret (ps, Err (ErrNew "lastCommit == MaxReceived -> skipping"))
      else
        let hi := int64 (Offset mx + 1) in
        match find_loop (find_fuel (lastCommited ps) hi) (getStateSize ps)
                (lastCommited ps) hi (state ps) (Offset mx) with
        | None => Block
        | Some (st, latest) => Ret (set_map st (stateSize ps) ps, Ok (set_Offset latest mx))
        end
  end.

(** One iteration of [CommitOffsetLoop]. *)
Definition CommitOffsetLoop (ev : LoopEvent) (ps : ChanState) : outcome ChanState :=
  match loop ps, ev with
  | LoopIdle, EvTick =>
      if ctxDone ps then Ret (set_loop LoopExited ps)
      else
        '(ps, r) ← FindLatestToCommit ps;
        match r with
        | Err _ => Ret ps
        | Ok latestToCommit => Ret (set_loop (LoopCommitting latestToCommit) ps)
        end
  | LoopIdle, EvDone => if ctxDone ps then Ret (set_loop LoopExited ps) else Block
  | LoopCommitting latestToCommit, EvCommitReply err =>
      match err with
      | Some _ => Ret (set_loop LoopIdle ps)
      | None => Ret (set_loop (LoopCommitted latestToCommit) ps)
      end
  | LoopCommitted latestToCommit, EvRecord =>
      match MaxReceived ps with
      | None => Panic "nil pointer dereference"
      | Some mx =>
          let mx := if Offset latestToCommit >? Offset mx
                    then set_Offset (Offset latestToCommit) mx else mx in
          Ret (set_loop LoopIdle (set_max (Some mx) (Offset latestToCommit) ps))
      end
  | _, _ => Block
  end.

Definition CancelAndWait (ps : ChanState) : outcome ChanState :=
  match loop ps with
  | LoopIdle | LoopExited => Ret (set_control true LoopExited (accepting ps) ps)
  | _ => Block
  end.

(** The case of [acceptMsgLoop]'s [select] that fires. *)
Inductive AcceptEvent := AccDone | AccDelete | AccUpdate | AccFind | AccRead (offset : Z).

(** One iteration of [acceptMsgLoop]. A missing offset is answered twice, -1
    and then the map's zero value. *)
Definition acceptMsgLoop (ev : AcceptEvent) (ps : ChanState) : outcome ChanState :=
  if negb (accepting ps) then Block else
  match ev with
  | AccDone => if ctxDone ps then Ret (set_control true (loop ps) false ps) else Block
  | AccDelete =>
      match DeleteFromStateCH ps with
      | [] => Block
      | o :: rest =>
          Ret (set_queues rest (UpdateStateCH ps)
            (set_map (delete o (state ps)) (int64 (stateSize ps - 1)) ps))
      end
  | AccUpdate =>
      match UpdateStateCH ps with
      | [] => Block
      | msg :: rest =>
          let ps := set_queues (DeleteFromStateCH ps) rest
            (set_map (<[offset msg := value msg]> (state ps)) (int64 (stateSize ps + 1)) ps) in
          if MsgPool ps then Ret ps else Panic "nil pointer dereference"
      end
  | AccFind =>
      '(ps, r) ← FindLatestToCommit ps;
      match r with
      | Err _ => Panic "nil pointer dereference"
      | Ok tp => Ret (set_replies (FindLatestToCommitRespCH ps ++ [Offset tp]) (ReadOffsetRespCH ps) ps)
      end
  | AccRead o =>
      match ReadOffsetRespCH ps with
      | None => Block
      | Some sent =>
          let answers := match state ps !! o with
                         | None => [-1; 0]
                         | Some v => [v]
                         end in
          Ret (set_replies (FindLatestToCommitRespCH ps) (Some (sent ++ answers)) ps)
      end
  end.

(** A send on [UpdateStateCH], of capacity 128. *)
Definition send_update (msg : UpdateStateMsg) (ps : ChanState) : outcome ChanState :=
  if (length (UpdateStateCH ps) <? 128)%nat
  then Ret (set_queues (DeleteFromStateCH ps) (UpdateStateCH ps ++ [msg]) ps)
  else Block.

(** ** The consumer *)

(** Its mutex is released on every path of every method, so the accesses to the
    map it protects are atomic. *)
Record ChanConsumer (Msg : Type) := mkCC {
  MsgCH : list Msg;
  IsReady : bool;
  ReadyCH_closed : bool;
  topic : string;
  msgsStateMap : gmap Z ChanState;
  ParititionAssignStrategy : string;
  calls : list Call;
}.
Arguments mkCC {Msg}.
Arguments MsgCH {Msg}.
Arguments IsReady {Msg}.
Arguments ReadyCH_closed {Msg}.
Arguments topic {Msg}.
Arguments msgsStateMap {Msg}.
Arguments ParititionAssignStrategy {Msg}.
Arguments calls {Msg}.

Record KafkaConfig := mkKafkaConfig {
  DefaultTopic : string;
  Host : string;
  ConsumerGroup : string;
  cfg_ParititionAssignStrategy : string;
  NumPartitions : Z;
}.

Definition NewKafkaConfig : KafkaConfig :=
  mkKafkaConfig "local_topic1" "localhost" "local_cg" "roundrobin" 2.

Section Consumer.
Context `{KafkaLib} {Msg : Type} (broker : Broker).
Implicit Types c : ChanConsumer Msg.

Definition set_trackers (m : gmap Z ChanState) c : ChanConsumer Msg :=
  mkCC (MsgCH c) (IsReady c) (ReadyCH_closed c) (topic c) m
    (ParititionAssignStrategy c) (calls c).
Definition set_tracker (p : Z) (ps : ChanState) c : ChanConsumer Msg :=
  set_trackers (<[p := ps]> (msgsStateMap c)) c.
Definition add_call (k : Call) c : ChanConsumer Msg :=
  mkCC (MsgCH c) (IsReady c) (ReadyCH_closed c) (topic c) (msgsStateMap c)
    (ParititionAssignStrategy c) (k :: calls c).
Definition on_tracker (p : Z) (o : outcome ChanState) : GO (ChanConsumer Msg) unit := λ c,
  match o with
  | Ret ps => Ret (tt, set_tracker p ps c)
  | Panic e => Panic e
  | Block => Block
  end.

Definition NewKafkaConsumer (initTopic : string → outcome (option error))
    (client subscribe : option error) : outcome (ChanConsumer Msg) :=
  let cfg := NewKafkaConfig in
  match client with
  | Some _ => Panic "kafka.NewConsumer"
  | None =>
      _ ← initTopic (DefaultTopic cfg);
      match subscribe with
      | Some _ => Panic "SubscribeTopics"
      | None => Ret (mkCC [] false false (DefaultTopic cfg) ∅ (cfg_ParititionAssignStrategy cfg) [])
      end
  end.

Definition UpdateState (tp : TopicPartition) (newState : Z) : GO (ChanConsumer Msg) unit :=
  c ←' go_get ;;
  match msgsStateMap c !! Partition tp with
  | None => go_ret tt
  | Some ps => on_tracker (Partition tp) (send_update (NewUpdateStateMsg (Offset tp) newState) ps)
  end.

Definition assign_partition (tp : TopicPartition) : GO (ChanConsumer Msg) unit :=
  let startOffset := if Offset tp <? 0 then OffsetBeginning else Offset tp in
  let prtnState := NewPartitionState (mkTP (Topic tp) (Partition tp) startOffset) in
  c ←' go_get ;;
  match msgsStateMap c !! Partition tp with
  | Some oldPS => on_tracker (Partition tp) (CancelAndWait oldPS)
  | None => go_ret tt
  end ;;'
  go_modify (set_tracker (Partition tp) (set_loop LoopIdle prtnState)).

Definition assignPrntCB (parts : list TopicPartition) :
    GO (ChanConsumer Msg) (option error) :=
  let committed := match Committed broker parts with Ok l => l | Err _ => parts end in
  go_for committed assign_partition ;;'
  c ←' go_get ;;
  if decide (ParititionAssignStrategy c = "cooperative-sticky"%string)
  then go_modify (add_call (CallIncrementalAssign parts)) ;;'
       go_ret (IncrementalAssign broker parts)
  else go_modify (add_call (CallAssign parts)) ;;'
       go_ret (Assign broker parts).

Fixpoint revoke_all (parts : list TopicPartition) :
    GO (ChanConsumer Msg) (list TopicPartition) :=
  match parts with
  | [] => go_ret []
  | tp :: parts =>
      c ←' go_get ;;
      l1 ←' (match msgsStateMap c !! Partition tp with
             | None => go_ret []
             | Some ps => λ c,
                 match (ps ← CancelAndWait ps; FindLatestToCommit ps) with
                 | Ret (ps, Err _) => Ret ([], set_tracker (Partition tp) ps c)
                 | Ret (ps, Ok lt) =>
                     Ret (if Offset lt >=? 0
                          then [mkTP (Topic tp) (Partition tp) (Offset lt)] else [],
                          set_trackers (delete (Partition tp) (msgsStateMap c)) c)
                 | Panic e => Panic e
                 | Block => Block
                 end
             end) ;;
      l2 ←' revoke_all parts ;;
      go_ret (l1 ++ l2)
  end.

Definition revokePrtnCB (parts : list TopicPartition) :
    GO (ChanConsumer Msg) (option error) :=
  toCommit ←' revoke_all parts ;;
  (if decide (toCommit = []) then go_ret tt
   else go_modify (add_call (CallCommitOffsets toCommit))) ;;'
  c ←' go_get ;;
  if decide (ParititionAssignStrategy c = "cooperative-sticky"%string)
  then go_modify (add_call (CallIncrementalUnassign parts)) ;;'
       go_ret (IncrementalUnassign broker parts)
  else go_modify (add_call CallUnassign) ;;'
       go_ret (Unassign broker).

Definition rebalanceCB (event : RebalanceEvent) : GO (ChanConsumer Msg) (option error) :=
  match event with
  | AssignedPartitions parts => assignPrntCB parts
  | RevokedPartitions parts => revokePrtnCB parts
  | OtherEvent => go_ret None
  end.

(** A missing tracker is a nil pointer, whose channel field is read. *)
Definition appendMsgState (tp : TopicPartition) : GO (ChanConsumer Msg) unit :=
  c ←' go_get ;;
  match msgsStateMap c !! Partition tp with
  | None => go_panic "nil pointer dereference"
  | Some ps =>
      on_tracker (Partition tp)
        (ps ← send_update (NewUpdateStateMsg (Offset tp) MsgState_Pending) ps;
         match MaxReceived ps with
         | None => Ret (set_max (Some (mkTP (Topic tp) (Partition tp) (Offset tp))) (lastCommited ps) ps)
         | Some mx =>
             if Offset mx <? Offset tp
             then Ret (set_max (Some (mkTP (Topic tp) (Partition tp) (Offset tp))) (lastCommited ps) ps)
             else Ret ps
         end)
  end.

(** One iteration of [consumeLoop]; [room]: [MsgCH] takes the message. *)
Definition consumeLoop (newMsg : TopicPartition → string → outcome Msg)
    (firstMsg : bool) (read : ReadResult) (room : bool) : GO (ChanConsumer Msg) bool :=
  match read with
  | ReadErr _ => go_ret firstMsg
  | ReadNil => go_ret firstMsg
  | ReadMsg tp value =>
      (if firstMsg then λ c,
         if ReadyCH_closed c then Panic "close of closed channel"
         else Ret (tt, mkCC (MsgCH c) (IsReady c) true (topic c) (msgsStateMap c)
                (ParititionAssignStrategy c) (calls c))
       else go_ret tt) ;;'
      appendMsgState tp ;;'
      match newMsg tp value with
      | Panic e => go_panic e
      | Block => go_block
      | Ret msgRequest =>
          if room then
            go_modify (λ c, mkCC (msgRequest :: MsgCH c) (IsReady c) (ReadyCH_closed c)
              (topic c) (msgsStateMap c) (ParititionAssignStrategy c) (calls c)) ;;'
            go_ret false
          else go_block
      end
  end.

Definition readyCheck := KafkaConsumer.readyCheck.
Definition formatPartitions := KafkaConsumer.formatPartitions.

Fixpoint checkReadyToAccept (polls : list (bool * result nat)) :
    GO (ChanConsumer Msg) (option error) :=
  let ready c := mkCC (MsgCH c) true (ReadyCH_closed c) (topic c) (msgsStateMap c)
    (ParititionAssignStrategy c) (calls c) in
  match polls with
  | [] => go_block
  | (readyClosed, assignment) :: polls =>
      if (readyClosed : bool) then go_modify ready ;;' go_ret None
      else match readyCheck assignment with
           | Err e => go_modify ready ;;' go_ret (Some e)
           | Ok true => go_modify ready ;;' go_ret None
           | Ok false => checkReadyToAccept polls
           end
  end.

(** A step of partition [p]'s [acceptMsgLoop] goroutine. *)
Definition accept_step (p : Z) (ev : AcceptEvent) : GO (ChanConsumer Msg) unit :=
  c ←' go_get ;;
  match msgsStateMap c !! p with
  | None => go_block
  | Some ps => on_tracker p (acceptMsgLoop ev ps)
  end.
End Consumer.

(** ** The scan *)

(** The answer of the scan over [lo..hi], [dflt] when nothing is pending. *)
Inductive chan_scan (lo hi dflt : Z) (st : gmap Z Z) : Z → gmap Z Z → Prop :=
| cs_pending p st' :
    lo ≤ p ≤ hi → pending_at st p → (∀ o, lo ≤ o < p → ¬ pending_at st o) →
    (∀ o, st' !! o = if decide (lo ≤ o < p) then None else st !! o) →
    chan_scan lo hi dflt st p st'
| cs_none st' :
    (∀ o, lo ≤ o ≤ hi → ¬ pending_at st o) →
    (∀ o, st' !! o = if decide (lo ≤ o ≤ hi) then None else st !! o) →
    chan_scan lo hi dflt st dflt st'.

(** Dropping the first offset of the range, when it is not pending. *)
Lemma chan_scan_step lo hi dflt st st1 r st' :
  lo ≤ hi → ¬ pending_at st lo → st1 !! lo = None →
  (∀ o, o ≠ lo → st1 !! o = st !! o) →
  chan_scan (lo + 1) hi dflt st1 r st' → chan_scan lo hi dflt st r st'.
Proof.
  intros Hle Hlo Hnone Heq Hcs.
  assert (∀ o, pending_at st o → pending_at st1 o) as Hpd.
  { intros o Ho. unfold pending_at. rewrite Heq; [done|]. by intros ->. }
  destruct Hcs as [p st' Hp Hpend Hmin Hst|st' Hno Hst].
  - apply cs_pending; [lia| | |].
    + unfold pending_at in *. by rewrite Heq in Hpend by lia.
    + intros o Ho Ho'. destruct (decide (o = lo)) as [->|]; [done|].
      apply (Hmin o); [lia|auto].
    + intros o. rewrite Hst. destruct (decide (o = lo)) as [->|]; map_cases.
      all: rewrite Heq by lia; done.
  - apply cs_none.
    + intros o Ho Ho'. destruct (decide (o = lo)) as [->|]; [done|].
      apply (Hno o); [lia|auto].
    + intros o. rewrite Hst. destruct (decide (o = lo)) as [->|]; map_cases.
      all: rewrite Heq by lia; done.
Qed.

Lemma chan_find_loop fuel : ∀ size lo hi st dflt,
  size ≠ 0 → min_int64 ≤ lo → hi < max_int64 → (Z.to_nat (hi - lo + 1) < fuel)%nat →
  ∃ r st', find_loop fuel size lo hi st dflt = Some (st', r) ∧ chan_scan lo hi dflt st r st'.
Proof.
  induction fuel as [|fuel IH]; intros size lo hi st dflt Hsz Hlo Hhi Hfuel; [lia|].
  simpl. destruct (lo <=? hi) eqn:Hle; zbool.
  - apply Z.eqb_neq in Hsz as Hsz'. rewrite Hsz', int64_id by (unfold min_int64, max_int64 in *; lia).
    destruct (st !! lo) as [v|] eqn:Hv; [destruct (v =? MsgState_Pending) eqn:Hp; zbool|]; simpl.
    + exists lo, st. split; [done|]. apply cs_pending; [lia|by unfold pending_at; subst|lia|].
      intros o. map_cases.
    + destruct (IH size (lo + 1) hi (delete lo st) dflt) as (r & st' & Hf & Hcs); [done|lia|done|lia|].
      exists r, st'. split; [done|]. eapply chan_scan_step; [done|..|done].
      * unfold pending_at. congruence.
      * apply lookup_delete_eq.
      * intros o Ho. by apply lookup_delete_ne.
    + destruct (IH size (lo + 1) hi st dflt) as (r & st' & Hf & Hcs); [done|lia|done|lia|].
      exists r, st'. split; [done|]. eapply chan_scan_step; [done|..|done]; [|done|done].
      unfold pending_at. congruence.
  - exists dflt, st. split; [done|]. apply cs_none; [lia|]. intros o. map_cases.
Qed.

(** The scan of a tracker whose counter is not zero. *)
Lemma FindLatestToCommit_scan (ps : ChanState) (mx : TopicPartition) :
  MaxReceived ps = Some mx → lastCommited ps ≠ Offset mx → stateSize ps ≠ 0 →
  min_int64 ≤ lastCommited ps → min_int64 ≤ Offset mx < max_int64 - 1 →
  ∃ r st', FindLatestToCommit ps = Ret (set_map st' (stateSize ps) ps, Ok (set_Offset r mx)) ∧
    chan_scan (lastCommited ps) (Offset mx + 1) (Offset mx) (state ps) r st'.
Proof.
  intros Hm Hne Hsz Hlo [Hmn Hhi]. unfold FindLatestToCommit. rewrite Hm.
  apply Z.eqb_neq in Hne. rewrite Hne.
  rewrite (int64_id (Offset mx + 1)) by (unfold min_int64, max_int64 in *; lia).
  destruct (chan_find_loop (find_fuel (lastCommited ps) (Offset mx + 1)) (stateSize ps)
    (lastCommited ps) (Offset mx + 1) (state ps) (Offset mx)) as (r & st' & Hf & Hcs);
    [done|lia|lia|unfold find_fuel; lia|].
  unfold getStateSize. rewrite Hf. by exists r, st'.
Qed.

(** C31. The channel tracker's [FindLatestToCommit] ends.  When the counter says
    the map is empty it answers one past the last committed offset, unless that
    is already beyond the range; otherwise it answers the least pending offset of
    [lastCommited..MaxReceived+1], or [MaxReceived] itself when nothing there is
    pending, and removes the settled entries it went over. *)
Theorem chans_find_latest_correct (ps : ChanState) (mx : TopicPartition) :
  MaxReceived ps = Some mx → lastCommited ps ≠ Offset mx →
  min_int64 ≤ lastCommited ps → min_int64 ≤ Offset mx < max_int64 - 1 →
  ∃ r st', FindLatestToCommit ps = Ret (set_map st' (stateSize ps) ps, Ok (set_Offset r mx)) ∧
    if decide (stateSize ps = 0)
    then st' = state ps ∧
         r = (if decide (lastCommited ps ≤ Offset mx + 1) then lastCommited ps + 1 else Offset mx)
    else chan_scan (lastCommited ps) (Offset mx + 1) (Offset mx) (state ps) r st'.
Proof.
  intros Hm Hne Hlo Hb. case_decide as Hsz; [|by apply FindLatestToCommit_scan].
  unfold FindLatestToCommit, getStateSize. rewrite Hm.
  apply Z.eqb_neq in Hne. rewrite Hne, Hsz.
  rewrite (int64_id (Offset mx + 1)) by (unfold min_int64, max_int64 in *; lia).
  unfold find_fuel. simpl. destruct (_ <=? _) eqn:Hle; zbool; simpl.
  - rewrite int64_id by (unfold min_int64, max_int64 in *; lia).
    eexists _, _. split; [done|]. split; [done|]. by case_decide; [|lia].
  - eexists _, _. split; [done|]. split; [done|]. by case_decide; [lia|].
Qed.

(** One settled and one pending offset after position 2. *)
Definition chan_demo : ChanState :=
  mkCS 0 {[3 := MsgState_Success; 4 := MsgState_Pending]} 3 (Some (mkTP "t" 0 4)) 2
    [] [] [] (Some []) false LoopIdle true true.

Lemma chans_find_latest_correct_witness :
  ∃ r st', FindLatestToCommit chan_demo =
      Ret (set_map st' 3 chan_demo, Ok (mkTP "t" 0 r)) ∧
    chan_scan 2 5 4 (state chan_demo) r st'.
Proof.
  apply (chans_find_latest_correct chan_demo (mkTP "t" 0 4)).
  - reflexivity.
  - discriminate.
  - vm_compute. congruence.
  - split; vm_compute; congruence.
Defined.

(** ** The size counter *)

(** What the goroutines of the program do to a tracker: a producer of updates
    sends one ([UpdateState], [appendMsgState]), [acceptMsgLoop] and
    [CommitOffsetLoop] run, the tracker is cancelled.  Nothing under src/ sends
    on [DeleteFromStateCH]. *)
Inductive track_step : ChanState → ChanState → Prop :=
| ts_send ps msg ps' : send_update msg ps = Ret ps' → track_step ps ps'
| ts_receive ps tp : track_step ps (set_max (Some tp) (lastCommited ps) ps)
| ts_accept ps ev ps' : acceptMsgLoop ev ps = Ret ps' → track_step ps ps'
| ts_commit ps ev ps' : CommitOffsetLoop ev ps = Ret ps' → track_step ps ps'
| ts_cancel ps : track_step ps (set_control true (loop ps) (accepting ps) ps).

Lemma FindLatestToCommit_size ps ps' r :
  FindLatestToCommit ps = Ret (ps', r) →
  stateSize ps' = stateSize ps ∧ DeleteFromStateCH ps' = DeleteFromStateCH ps.
Proof. unfold FindLatestToCommit. repeat case_match; naive_solver. Qed.

Lemma track_step_size n ps ps' :
  0 < stateSize ps ≤ n → n < max_int64 → DeleteFromStateCH ps = [] → track_step ps ps' →
  0 < stateSize ps' ≤ n + 1 ∧ DeleteFromStateCH ps' = [].
Proof.
  intros Hn Hb Hd Hs. destruct Hs as [ps msg ps' Hs|ps tp|ps ev ps' Hs|ps ev ps' Hs|ps].
  - unfold send_update in Hs. case_match; simplify_eq/=. split; [lia|done].
  - simpl. split; [lia|done].
  - unfold acceptMsgLoop in Hs. rewrite Hd in Hs. destruct (accepting ps); [|done]. simpl in Hs.
    destruct ev; simplify_eq/=.
    + destruct (ctxDone ps); simplify_eq/=. split; [lia|done].
    + destruct (UpdateStateCH ps), (MsgPool ps); simplify_eq/=.
      rewrite int64_id by (unfold min_int64, max_int64 in *; lia). split; [lia|done].
    + destruct (FindLatestToCommit ps) as [[ps1 [r|]]| |] eqn:Hf; simplify_eq/=.
      apply FindLatestToCommit_size in Hf as [-> ->]. split; [lia|done].
    + destruct (ReadOffsetRespCH ps); simplify_eq/=. split; [lia|done].
  - unfold CommitOffsetLoop in Hs. destruct (loop ps), ev; simplify_eq.
    + destruct (ctxDone ps); simplify_eq/=; [split; [lia|done]|].
      destruct (FindLatestToCommit ps) as [[ps1 [r|]]| |] eqn:Hf; simplify_eq/=;
        apply FindLatestToCommit_size in Hf as [Hsz Hdd]; simpl in *; split; (lia || congruence).
    + destruct (ctxDone ps); simplify_eq/=. split; [lia|done].
    + destruct err; simplify_eq/=; (split; [lia|done]).
    + destruct (MaxReceived ps); simplify_eq/=. split; [lia|done].
  - simpl. split; [lia|done].
Qed.

Lemma track_steps_size k ps ps' n :
  nsteps track_step k ps ps' → 0 < stateSize ps ≤ n → n + Z.of_nat k ≤ max_int64 →
  DeleteFromStateCH ps = [] → 0 < stateSize ps' ∧ DeleteFromStateCH ps' = [].
Proof.
  intros Hk. revert n. induction Hk as [ps|k ps ps1 ps2 Hs _ IH]; intros n Hn Hb Hd; [by split; [lia|]|].
  destruct (track_step_size n ps ps1) as [H1 H2]; [done|lia|done|done|].
  apply (IH (n + 1)); [done|lia|done].
Qed.

(** Each accepted update adds one to the size counter, also when it
    overwrites an entry, and the scan removes entries without subtracting: once
    a tracker has accepted an update, in every run of fewer than [2^62] steps no
    scan answers beyond the newest received offset, so the newest message of the
    partition is never committed, however long all of it has been processed. *)
Theorem chans_newest_never_committed (ps ps' : ChanState) (k : nat)
    (ps2 : ChanState) (mx tp : TopicPartition) :
  0 < stateSize ps < 2 ^ 62 → DeleteFromStateCH ps = [] →
  nsteps track_step k ps ps' → Z.of_nat k < 2 ^ 62 →
  MaxReceived ps' = Some mx → min_int64 ≤ Offset mx < max_int64 - 1 →
  (∀ o, is_Some (state ps' !! o) → o ≤ Offset mx) →
  min_int64 ≤ lastCommited ps' →
  FindLatestToCommit ps' = Ret (ps2, Ok tp) → Offset tp ≤ Offset mx.
Proof.
  intros Hsz Hd Hk Hkb Hm Hb Hdom Hl Hf.
  destruct (track_steps_size k ps ps' (2 ^ 62 - 1) Hk) as [Hsz' _]; [lia|unfold max_int64; lia|done|].
  destruct (decide (lastCommited ps' = Offset mx)) as [Heq|Hne].
  { unfold FindLatestToCommit in Hf. by rewrite Hm, Heq, Z.eqb_refl in Hf. }
  destruct (FindLatestToCommit_scan ps' mx Hm Hne ltac:(lia) Hl Hb) as (r & st' & Hf' & Hcs).
  rewrite Hf' in Hf. simplify_eq. simpl.
  destruct Hcs as [p st' Hp Hpend Hmin Hst|]; [|done]. apply Hdom. by eexists.
Qed.

(** Everything received so far (offsets 3 and 4) is processed. *)
Definition chan_done : ChanState :=
  mkCS 0 {[3 := MsgState_Success; 4 := MsgState_Success]} 4 (Some (mkTP "t" 0 4)) 2
    [] [] [] (Some []) false LoopIdle true true.

Lemma chans_newest_never_committed_witness :
  FindLatestToCommit chan_done = Ret (set_map ∅ 4 chan_done, Ok (mkTP "t" 0 4)) ∧ 4 ≤ 4.
Proof.
  assert (FindLatestToCommit chan_done = Ret (set_map ∅ 4 chan_done, Ok (mkTP "t" 0 4))) as Hf
    by (vm_compute; reflexivity).
  split; [exact Hf|].
  apply (chans_newest_never_committed chan_done chan_done 0 (set_map ∅ 4 chan_done)
    (mkTP "t" 0 4) (mkTP "t" 0 4)).
  - split; vm_compute; reflexivity.
  - reflexivity.
  - apply nsteps_O.
  - vm_compute. reflexivity.
  - reflexivity.
  - split; vm_compute; congruence.
  - intros o [v Ho]. simpl in Ho. apply lookup_insert_Some in Ho as [[<- _]|[_ Ho]]; [simpl; lia|].
    apply lookup_singleton_Some in Ho as [<- _]. simpl. lia.
  - vm_compute. congruence.
  - exact Hf.
Defined.

(** ** The first message *)

Section FirstMessage.
Context `{KafkaLib} {Msg : Type} (broker : Broker).

(** A production tracker that has not accepted anything yet. *)
Definition unused (q : list UpdateStateMsg) (ps : ChanState) : Prop :=
  UpdateStateCH ps = q ∧ accepting ps = true ∧ MsgPool ps = false.

Lemma assign_fresh (c : ChanConsumer Msg) tp :
  msgsStateMap c = ∅ → Committed broker [tp] = Ok [tp] →
  ∃ e c' ps, assignPrntCB broker [tp] c = Ret (e, c') ∧
    ReadyCH_closed c' = ReadyCH_closed c ∧
    msgsStateMap c' !! Partition tp = Some ps ∧ unused [] ps.
Proof.
  intros Hm Hc. unfold assignPrntCB. rewrite Hc. simpl.
  unfold go_bind, assign_partition, go_bind, go_get, go_ret. rewrite Hm, lookup_empty. simpl.
  case_decide; eexists _, _, _; (split; [reflexivity|]); simpl;
    rewrite lookup_insert_eq; by repeat split.
Qed.

Lemma first_message (c : ChanConsumer Msg) tp newMsg m v ps :
  msgsStateMap c !! Partition tp = Some ps → unused [] ps →
  ReadyCH_closed c = false → newMsg tp v = Ret m →
  ∃ c' ps' msg, consumeLoop newMsg true (ReadMsg tp v) true c = Ret (false, c') ∧
    msgsStateMap c' !! Partition tp = Some ps' ∧ unused [msg] ps'.
Proof.
  intros Hps (Hq & Ha & Hp) Hr Hn. unfold consumeLoop, go_bind, appendMsgState, go_bind, go_get.
  rewrite Hr. simpl. rewrite Hps, Hn. unfold send_update. rewrite Hq. simpl.
  destruct (MaxReceived ps) as [mx|]; [destruct (Offset mx <? Offset tp)|]; eexists _, _, _; (split; [reflexivity|]); simpl;
    rewrite lookup_insert_eq; by repeat split.
Qed.

(** The production constructor leaves the tracker's pool nil: when a
    partition is assigned and its first message is read, the tracker's
    goroutine panics on taking the update, whatever the message, the position
    and the strategy are. *)
Theorem chans_first_message_panics (c : ChanConsumer Msg) (tp : TopicPartition)
    (off : Z) (newMsg : TopicPartition → string → outcome Msg) (m : Msg) (v : string) :
  msgsStateMap c = ∅ → Committed broker [tp] = Ok [tp] → ReadyCH_closed c = false →
  newMsg (set_Offset off tp) v = Ret m →
  (assignPrntCB broker [tp] ;;'
   consumeLoop newMsg true (ReadMsg (set_Offset off tp) v) true ;;'
   accept_step (Partition tp) AccUpdate) c = Panic "nil pointer dereference".
Proof.
  intros Hm Hc Hr Hn.
  destruct (assign_fresh c tp Hm Hc) as (e & c1 & ps1 & H1 & Hr1 & Hps1 & Hu1).
  destruct (first_message c1 (set_Offset off tp) newMsg m v ps1) as (c2 & ps2 & msg & H2 & Hps2 & Hq & Ha & Hp);
    [done|done|congruence|done|].
  rewrite (go_bind_ret _ _ _ _ _ H1), (go_bind_ret _ _ _ _ _ H2).
  unfold accept_step, go_bind, go_get. simpl in Hps2. rewrite Hps2.
  unfold on_tracker, acceptMsgLoop. by rewrite Ha, Hq; simpl; rewrite Hp.
Qed.
End FirstMessage.

#[local] Instance kafka_lib_demo : KafkaLib.
Proof. refine {| OffsetBeginning := -2 |}. unfold min_int64. lia. Defined.

Definition chans_start : ChanConsumer string :=
  mkCC [] false false "local_topic1" ∅ "roundrobin" [].

Lemma chans_first_message_panics_witness :
  (assignPrntCB ok_broker [mkTP "local_topic1" 0 7] ;;'
   consumeLoop (λ _ s, Ret s) true (ReadMsg (mkTP "local_topic1" 0 7) "x") true ;;'
   accept_step 0 AccUpdate) chans_start = Panic "nil pointer dereference".
Proof.
  apply (chans_first_message_panics ok_broker chans_start (mkTP "local_topic1" 0 7) 7
    (λ _ s, Ret s) "x" "x"); reflexivity.
Defined.
