(* ===== verification/KafkaBench.v ===== *)
(** * The benchmark servers of kafka and kafka-chans

    kafka/cmd/benchmark/main.go drives the consumer of KafkaConsumer.v with
    scenarios of reads and updates, kafka-chans/cmd/benchmark/main.go fills the
    tracker of KafkaChans.v.  Random numbers and query parameters are
    arguments; times and what is only written to the response are left out. *)

From S2P Require Import Prelude GoSem GoStrings GoFloat KafkaChans KafkaTracker KafkaConsumer.
From Stdlib Require Import Ascii.

(** ** strconv.Atoi *)

Definition digit (c : ascii) : option Z :=
  let n := Z.of_nat (nat_of_ascii c) in if (48 <=? n) && (n <=? 57) then Some (n - 48) else None.
Fixpoint digits (n : Z) (s : string) : option Z :=
  match s with
  | EmptyString => Some n
  | String c s => match digit c with Some d => digits (10 * n + d) s | None => None end
  end.
Definition in_int64 (z : Z) : option Z :=
  if (min_int64 <=? z) && (z <=? max_int64) then Some z else None.
Definition Atoi (s : string) : option Z :=
  match s with
  | EmptyString => None
  | String "-" EmptyString | String "+" EmptyString => None
  | String "-" s => digits 0 s ≫= λ n, in_int64 (- n)
  | String "+" s => digits 0 s ≫= in_int64
  | s => digits 0 s ≫= in_int64
  end%char.

Example Atoi_examples : Atoi "-12" = Some (-12) ∧ Atoi "+7" = Some 7 ∧ Atoi "1_0" = None.
Proof. done. Qed.

Lemma Atoi_range s z : Atoi s = Some z → min_int64 ≤ z ≤ max_int64.
Proof.
  assert (∀ o (f : Z → Z), (o : option Z) ≫= (λ n, in_int64 (f n)) = Some z → min_int64 ≤ z ≤ max_int64) as Hin.
  { intros [n|] f; simpl; [|done]. unfold in_int64. intros Hz. case_match; simplify_eq. zbool. lia. }
  unfold Atoi. intros Hz. repeat case_match; simplify_eq; solve [by eapply (Hin _ id)|by eapply (Hin _ Z.opp)].
Qed.

(** ** kafka/cmd/benchmark *)

Module Bench.
Section Server.
Context `{KafkaLib}.
#[local] Abbreviation Consumer := (KafkaConsumer unit).

Record BenchmarkServer := mkBench { kc : Consumer; msgCount : Z; nextOffset : Z; mu : bool }.

Definition on_kc {A} (m : GO Consumer A) : GO BenchmarkServer A := λ s,
  match m (kc s) with
  | Ret (a, c) => Ret (a, mkBench c (msgCount s) (nextOffset s) (mu s))
  | Panic e => Panic e
  | Block => Block
  end.

Definition NewBenchmarkServer (count : Z) : outcome BenchmarkServer :=
  let count := if count <=? 0 then 1000 else count in
  let tp := mkTP "test_topic" 0 0 in
  '(_, c) ← NewTestPartitionState true tp (Z.to_nat count) (NewTestKafkaConsumer "test_topic" tp);
  Ret (mkBench c count count false).

(** Query parameters: the defaults of [getIters] and [getMsgCount]. *)
Definition query_int (dflt : Z) (s : string) : Z :=
  if decide (s = "")%string then dflt else default dflt (Atoi s).
Definition getIters (s : string) : Z := query_int 10000 s.
Definition getMsgCount (s : string) : Z := query_int 1000 s.

(** [rand.Intn(n)], [draw] being the number drawn. *)
Definition Intn (n draw : Z) : outcome Z :=
  if n <=? 0 then Panic "invalid argument to Intn" else Ret (draw mod n).

(** The tracker of partition 0, which every scenario looks up first. *)
Definition tracker : GO BenchmarkServer PartitionState :=
  r ←' on_kc (GetPartitionState 0) ;;
  match r with Ok ps => go_ret ps | Err _ => go_panic "nil pointer dereference" end.

(** [ps.ReadOffset(..)] of a random offset: the answer is dropped. *)
Definition read_random (draw : Z) : GO BenchmarkServer unit :=
  ps ←' tracker ;;
  match Intn 10000 draw with
  | Ret o => let '(_, _) := ReadOffset ps o in go_ret tt
  | Panic e => go_panic e
  | Block => go_block
  end.

(** An update of a random offset of partition 0; a tracker without
    [MaxReceived] has no topic to name. *)
Definition write_random (draw state : Z) : GO BenchmarkServer unit :=
  ps ←' tracker ;;
  s ←' go_get ;;
  match Intn (msgCount s) draw, MaxReceived ps with
  | Ret o, Some mx => on_kc (UpdateState (mkTP (Topic mx) 0 o) state)
  | Ret o, None => go_panic "nil pointer dereference"
  | Panic e, _ => go_panic e
  | Block, _ => go_block
  end.

(** Iteration [i] of the scenarios, with the numbers drawn. *)
Definition read_heavy_iter (i draw : Z) : GO BenchmarkServer unit :=
  if Z.rem i 10 <? 8 then read_random draw else write_random draw MsgState_Success.
Definition balanced_iter (i draw draw5 : Z) : GO BenchmarkServer unit :=
  if Z.rem i 2 =? 0 then read_random draw
  else match Intn 5 draw5 with
       | Ret d => write_random draw (if d =? 0 then MsgState_Pending else MsgState_Success)
       | Panic e => go_panic e
       | Block => go_block
       end.

Definition handleReadHeavy (iters : Z) (draw : Z → Z) : GO BenchmarkServer unit :=
  go_for (seqZ 0 iters) (λ i, read_heavy_iter i (draw i)).
Definition handleBalanced (iters : Z) (draw draw5 : Z → Z) : GO BenchmarkServer unit :=
  go_for (seqZ 0 iters) (λ i, balanced_iter i (draw i) (draw5 i)).

(** The new offset of an iteration of the Kafka simulation, taken under the
    server's mutex. *)
Definition take_offset : GO BenchmarkServer Z := λ s,
  if mu s then Block
  else Ret (nextOffset s, mkBench (kc s) (msgCount s) (int64 (nextOffset s + 1)) false).

(** A section that writes the tracker of partition 0 under its own mutex. *)
Definition on_tracker (f : PartitionState → PartitionState) : GO BenchmarkServer unit :=
  on_kc (go_modify (λ c, match msgsStateMap c !! 0 with
                         | Some ps => set_tracker 0 (f ps) c
                         | None => c
                         end)).

Definition receive (o : Z) (ps : PartitionState) : PartitionState :=
  match MaxReceived ps with
  | Some mx => if Offset mx <? o then set_MaxReceived (Some (set_Offset o mx)) ps else ps
  | None => ps
  end.

(** [ps.FindLatestToCommit()]. *)
Definition find_latest : GO BenchmarkServer (result TopicPartition) :=
  ps ←' tracker ;;
  match FindLatestToCommit ps with
  | Ret (ps, r) => on_tracker (λ _, ps) ;;' go_ret r
  | Panic e => go_panic e
  | Block => go_block
  end.

Definition kafka_sim_iter (i draw : Z) : GO BenchmarkServer unit :=
  ps ←' tracker ;;
  newOffset ←' take_offset ;;
  match MaxReceived ps with
  | None => go_panic "nil pointer dereference"
  | Some mx =>
      on_kc (UpdateState (mkTP (Topic mx) 0 newOffset) MsgState_Pending) ;;'
      on_tracker (receive newOffset) ;;'
      result ←' find_latest ;;
      match result with
      | Err _ => go_ret tt
      | Ok result =>
          on_tracker (set_LastCommited (Offset result)) ;;'
          if Z.rem i 3 =? 0 then
            match Intn 10 draw with
            | Ret d =>
                go_for (seqZ (Offset result - d) d) (λ offset,
                  on_kc (UpdateState (mkTP (Topic mx) 0 offset) MsgState_Success))
            | Panic e => go_panic e
            | Block => go_block
            end
          else go_ret tt
      end
  end.
Definition handleKafkaSim (iters : Z) (draw : Z → Z) : GO BenchmarkServer unit :=
  go_for (seqZ 0 iters) (λ i, kafka_sim_iter i (draw i)).

(** The server's mutex is released when the handler returns. *)
Definition handleReset (count : Z) : GO BenchmarkServer unit := λ s,
  if mu s then Block
  else match ResetPartitionState 0 (Z.to_nat count) (kc s) with
       | Ret (_, c) => Ret (tt, mkBench c count count false)
       | Panic e => Panic e
       | Block => Block
       end.

(** What [writeResponse] and [handleHealth] read. *)
Definition writeResponse : GO BenchmarkServer (Z * Z * Z) :=
  r ←' on_kc (GetPartitionState 0) ;;
  match r with
  | Err _ => go_ret (0, 0, 0)
  | Ok ps =>
      match MaxReceived ps with
      | Some mx => go_ret (Z.of_nat (size (State ps)), LastCommited ps, Offset mx)
      | None => go_panic "nil pointer dereference"
      end
  end.

(** [updateMemStats] writes to gauges that only [enableProm] makes, and [main]
    calls it at every tick of its ticker, without [enableProm]. *)
Definition updateMemStats (prom_enabled : bool) : outcome unit :=
  if prom_enabled then Ret tt else Panic "nil pointer dereference".
Fixpoint main_ticker (ticks : nat) : outcome unit :=
  match ticks with
  | O => Block
  | S ticks => _ ← updateMemStats false; main_ticker ticks
  end.

(** *** The simulation *)

(** The tracker of partition 0, in a consumer whose mutex no writer holds. *)
Definition has (ps : PartitionState) (s : BenchmarkServer) : Prop :=
  free (kc s) ∧ msgsStateMap (kc s) !! 0 = Some ps.
Definition with_ps (ps : PartitionState) (s : BenchmarkServer) : BenchmarkServer :=
  mkBench (set_tracker 0 ps (kc s)) (msgCount s) (nextOffset s) (mu s).

Lemma has_with_ps ps ps' s : has ps s → has ps' (with_ps ps' s).
Proof. intros [Hf _]. split; [done|]. simpl. apply lookup_insert_eq. Qed.

Lemma with_ps_twice ps ps' s : with_ps ps' (with_ps ps s) = with_ps ps' s.
Proof. unfold with_ps, set_tracker, set_msgsStateMap. simpl. by rewrite insert_insert_eq. Qed.

Lemma UpdateState_has ps s t o v :
  has ps s → on_kc (UpdateState (mkTP t 0 o) v) s = Ret (tt, with_ps (update_state o v ps) s).
Proof. intros [Hf Hps]. unfold on_kc. rewrite UpdateState_eq by done. simpl. by rewrite Hps. Qed.

Lemma GetPartitionState_has (c : Consumer) ps :
  free c → msgsStateMap c !! 0 = Some ps → GetPartitionState 0 c = Ret (Ok ps, c).
Proof.
  intros Hf Hps. unfold GetPartitionState. rewrite read_section, set_Mu_same by done.
  change (msgsStateMap (set_Mu (mkMutex false (readers (Mu c))) c)) with (msgsStateMap c).
  destruct c as [?????[]]. unfold free in Hf. simpl in *. by rewrite Hps.
Qed.

Lemma tracker_has ps s : has ps s → tracker s = Ret (ps, s).
Proof.
  intros [Hf Hps]. unfold tracker, go_bind, on_kc. rewrite (GetPartitionState_has _ _ Hf Hps).
  by destruct s.
Qed.

Lemma on_tracker_has ps s f : has ps s → on_tracker f s = Ret (tt, with_ps (f ps) s).
Proof. intros [Hf Hps]. unfold on_tracker, on_kc, go_modify. by rewrite Hps. Qed.

(** A loop over a range that keeps a property of its index. *)
Lemma go_for_range {S} (P : Z → S → Prop) (body : Z → GO S unit) (k : nat) : ∀ a s,
  (∀ i s, a ≤ i < a + Z.of_nat k → P i s → ∃ s', body i s = Ret (tt, s') ∧ P (i + 1) s') →
  P a s → ∃ s', go_for (seqZ a (Z.of_nat k)) body s = Ret (tt, s') ∧ P (a + Z.of_nat k) s'.
Proof.
  induction k as [|k IH]; intros a s Hbody Ha.
  - exists s. split; [done|]. by rewrite Z.add_0_r.
  - rewrite seqZ_cons by lia. simpl. destruct (Hbody a s ltac:(lia) Ha) as (s1 & H1 & Hs1).
    unfold go_bind. rewrite H1. replace (Z.pred (Z.of_nat (Datatypes.S k))) with (Z.of_nat k) by lia.
    replace (a + Z.of_nat (Datatypes.S k)) with (Z.succ a + Z.of_nat k) by lia.
    apply IH; [|by rewrite <-Z.add_1_r]. intros i s2 Hi. apply Hbody. lia.
Qed.

(** Offset 0 waits, and so does everything the simulation has added. *)
Record stalled (n k : Z) (s : BenchmarkServer) (ps : PartitionState) : Prop := {
  st_has : has ps s;
  st_mu : mu s = false;
  st_next : nextOffset s = n + k;
  st_max : ∃ t, MaxReceived ps = Some (mkTP t 0 (n + k - 1));
  st_last : LastCommited ps = if k =? 0 then -1 else 0;
  st_first : State ps !! 0 = Some MsgState_Pending;
  st_gap : k = 0 → State ps !! (-1) = None;
  st_added : ∀ o, n ≤ o < n + k → State ps !! o = Some MsgState_Pending }.

(** The scan stops at offset 0. *)
Lemma find_latest_stalled st last hi :
  last = -1 ∧ st !! (-1) = None ∨ last = 0 → 0 < hi → st !! 0 = Some MsgState_Pending →
  find_loop (find_fuel last hi) last hi st hi = Some (st, 0).
Proof.
  intros Hlast Hhi H0. unfold find_fuel.
  assert (∀ fuel, find_loop (Datatypes.S fuel) 0 hi st hi = Some (st, 0)) as Hz.
  { intros fuel. simpl. destruct (Z.leb_spec 0 hi); [|lia]. by rewrite H0. }
  destruct Hlast as [[-> Hgap]| ->]; [|apply Hz].
  cbn [find_loop]. destruct (Z.leb_spec (-1) hi); [|lia]. rewrite Hgap. apply Hz.
Qed.

Lemma stalled_update n k s ps o v :
  stalled n k s ps → 1 ≤ n → 0 < k → o < 0 →
  stalled n k (with_ps (update_state o v ps) s) (update_state o v ps).
Proof.
  intros [Hh Hm Hn Hmax Hl Hf Hg Ha] Hn1 Hk Ho.
  split; simpl; [by eapply has_with_ps|done..| | |].
  - by rewrite lookup_insert_ne by lia.
  - lia.
  - intros o' Ho'. rewrite lookup_insert_ne by lia. by apply Ha.
Qed.

(** What the scan finds, and the tracker with the new offset recorded. *)
Lemma find_latest_has n k s ps :
  stalled n k s ps → 1 ≤ n → 0 ≤ k →
  let ps1 := receive (n + k) (update_state (n + k) MsgState_Pending ps) in
  ∃ t, FindLatestToCommit ps1 = Ret (ps1, Ok (mkTP t 0 0)) ∧
    MaxReceived ps1 = Some (mkTP t 0 (n + k)) ∧
    State ps1 = <[n + k := MsgState_Pending]> (State ps) ∧ LastCommited ps1 = LastCommited ps.
Proof.
  intros [Hh Hm Hn [t Hmax] Hl Hf Hg Ha] Hn1 Hk ps1. exists t.
  assert (MaxReceived ps1 = Some (mkTP t 0 (n + k))) as Hmax1.
  { unfold ps1, receive. simpl. rewrite Hmax. simpl. by destruct (Z.ltb_spec (n + k - 1) (n + k)); [|lia]. }
  assert (State ps1 = <[n + k := MsgState_Pending]> (State ps) ∧ LastCommited ps1 = LastCommited ps) as [Hst Hlc].
  { unfold ps1, receive. simpl. rewrite Hmax. by destruct (_ <? _). }
  split; [|done]. unfold FindLatestToCommit. rewrite Hmax1, Hlc, Hl. cbn [Offset].
  assert ((if k =? 0 then -1 else 0) =? n + k = false) as -> by (destruct (Z.eqb_spec k 0); apply Z.eqb_neq; lia).
  rewrite Hst, find_latest_stalled.
  - rewrite <-Hst. unfold set_State, set_Offset. simpl. by destruct ps1.
  - destruct (Z.eqb_spec k 0) as [->|]; [left|by right]. split; [done|].
    rewrite lookup_insert_ne by lia. by apply Hg.
  - lia.
  - by rewrite lookup_insert_ne by lia.
Qed.

Lemma kafka_sim_iter_stalled n k i draw s ps :
  1 ≤ n → 0 ≤ k → n + k < 2 ^ 62 → stalled n k s ps →
  ∃ s' ps', kafka_sim_iter i draw s = Ret (tt, s') ∧ stalled n (k + 1) s' ps'.
Proof.
  intros Hn1 Hk Hb Hst. destruct (find_latest_has n k s ps Hst Hn1 Hk) as (t & Hfind & Hmax1 & Hst1 & Hlc1).
  destruct Hst as [Hh Hm Hn [t0 Hmax] Hl Hf Hg Ha].
  unfold kafka_sim_iter. rewrite (go_bind_ret _ _ _ _ _ (tracker_has _ _ Hh)).
  unfold go_bind at 1. unfold take_offset. rewrite Hm, Hn, Hmax.
  set (s1 := mkBench (kc s) (msgCount s) (int64 (n + k + 1)) false).
  assert (has ps s1) as Hh1 by done.
  rewrite (go_bind_ret _ _ _ _ _ (UpdateState_has ps s1 _ _ _ Hh1)).
  set (ps0 := update_state (n + k) MsgState_Pending ps) in *.
  rewrite (go_bind_ret _ _ _ _ _ (on_tracker_has ps0 _ _ (has_with_ps _ _ _ Hh1))), with_ps_twice.
  set (ps1 := receive (n + k) ps0) in *. assert (has ps1 (with_ps ps1 s1)) as Hh2 by by eapply has_with_ps.
  assert (find_latest (with_ps ps1 s1) = Ret (Ok (mkTP t 0 0), with_ps ps1 s1)) as Hfl.
  { unfold find_latest. rewrite (go_bind_ret _ _ _ _ _ (tracker_has _ _ Hh2)), Hfind.
    rewrite (go_bind_ret _ _ _ _ _ (on_tracker_has _ _ _ Hh2)). by rewrite with_ps_twice. }
  rewrite (go_bind_ret _ _ _ _ _ Hfl), (go_bind_ret _ _ _ _ _ (on_tracker_has _ _ _ Hh2)), with_ps_twice.
  set (ps2 := set_LastCommited (Offset (mkTP t 0 0)) ps1). set (s2 := with_ps ps2 s1).
  assert (stalled n (k + 1) s2 ps2) as Hs2.
  { split; simpl; [by eapply has_with_ps|done|rewrite int64_id by (unfold min_int64, max_int64; lia); lia| | | | |].
    - exists t. rewrite Hmax1. do 2 f_equal. lia.
    - destruct (Z.eqb_spec (k + 1) 0); [lia|done].
    - rewrite Hst1, lookup_insert_ne by lia. done.
    - lia.
    - intros o Ho. rewrite Hst1. destruct (decide (o = n + k)) as [->|]; [apply lookup_insert_eq|].
      rewrite lookup_insert_ne by lia. apply Ha. lia. }
  destruct (Z.rem i 3 =? 0); [|by exists s2, ps2].
  unfold Intn. simpl. pose proof (Z.mod_pos_bound draw 10 ltac:(lia)) as Hd.
  destruct (go_for_range (λ _ s, ∃ ps, stalled n (k + 1) s ps)
    (λ offset, on_kc (UpdateState (mkTP t0 0 offset) MsgState_Success)) (Z.to_nat (draw mod 10))
    (0 - draw mod 10) s2) as (s3 & Hrun & ps3 & Hs3); [|by exists ps2|].
  - intros o s3 Ho [ps3 Hs3]. pose proof (st_has _ _ _ _ Hs3) as Hh3.
    eexists. split; [by apply UpdateState_has|]. eexists. apply stalled_update; [done|lia..].
  - rewrite Z2Nat.id in Hrun by lia. by exists s3, ps3.
Qed.

(** What the constructor's loop has written after [i] offsets. *)
Definition filled (i : Z) (c : Consumer) : Prop :=
  free c ∧ ∃ ps, msgsStateMap c !! 0 = Some ps ∧ LastCommited ps = -1 ∧
    MaxReceived ps = Some (mkTP "test_topic" 0 (Z.max 0 (i - 1))) ∧
    State ps !! (-1) = None ∧ (0 < i → State ps !! 0 = Some MsgState_Pending).

Lemma filled_step i c :
  0 ≤ i → filled i c →
  ∃ c', (write_tp_Offset true i ;;'
         UpdateState (set_Offset i (mkTP "test_topic" 0 0))
           (if Z.rem i 5 =? 0 then MsgState_Pending else MsgState_Success)) c = Ret (tt, c') ∧
    filled (i + 1) c'.
Proof.
  intros Hi (Hf & ps & Hps & Hl & Hm & Hg & H0).
  unfold write_tp_Offset, go_bind at 1, go_bind, go_get, go_modify. rewrite Hps.
  rewrite UpdateState_eq by done. eexists. split; [reflexivity|].
  change (Partition (set_Offset i (mkTP "test_topic" 0 0))) with 0.
  change (Offset (set_Offset i (mkTP "test_topic" 0 0))) with i.
  simpl. rewrite lookup_insert_eq, Hm. simpl. split; [done|].
  eexists. split; [apply lookup_insert_eq|]. simpl. split_and!; [done| | |].
  - unfold set_Offset; simpl; do 2 f_equal. lia.
  - by rewrite lookup_insert_ne by lia.
  - intros _. destruct (decide (i = 0)) as [->|]; [by rewrite lookup_insert_eq|].
    rewrite lookup_insert_ne by lia. apply H0. lia.
Qed.

Lemma NewBenchmarkServer_stalled n :
  1 ≤ n → ∃ s ps, NewBenchmarkServer n = Ret s ∧ stalled n 0 s ps.
Proof.
  intros Hn. unfold NewBenchmarkServer. destruct (Z.leb_spec n 0); [lia|].
  unfold NewTestPartitionState. rewrite Z2Nat.id by lia.
  destruct (go_for_range filled (λ i, write_tp_Offset true i ;;'
         UpdateState (set_Offset i (mkTP "test_topic" 0 0))
           (if Z.rem i 5 =? 0 then MsgState_Pending else MsgState_Success)) (Z.to_nat n) 0
    (NewTestKafkaConsumer "test_topic" (mkTP "test_topic" 0 0))) as (c & Hrun & Hfill).
  - intros i c Hi. apply filled_step. lia.
  - split; [done|]. eexists. split; [by apply lookup_singleton_eq|]. simpl.
    split_and!; [|done|done|lia]. by case_match.
  - rewrite Z2Nat.id in Hrun, Hfill by lia.
    destruct Hfill as (Hf & ps & Hps & Hl & Hm & Hg & Hz0).
    rewrite (go_bind_ret _ _ _ _ _ Hrun).
    rewrite (go_bind_ret _ _ _ _ _ (GetPartitionState_has _ _ Hf Hps)). unfold go_ret. simpl.
    eexists _, ps. split; [reflexivity|]. split; simpl; try done; try lia.
    + rewrite Hm. eexists. do 2 f_equal. lia.
    + apply Hz0. lia.
Qed.

(** The Kafka simulation of the benchmark never commits past offset 0:
    whatever is drawn, after any number of iterations the committed position
    is 0, the newest offset has moved by one per iteration, and the tracker
    holds an entry for each. *)
Theorem kafka_sim_never_commits n iters draw :
  1 ≤ n → 1 ≤ iters → n + iters < 2 ^ 62 →
  ∃ s0 s size, NewBenchmarkServer n = Ret s0 ∧ handleKafkaSim iters draw s0 = Ret (tt, s) ∧
    writeResponse s = Ret ((size, 0, n + iters - 1), s) ∧ iters < size.
Proof.
  intros Hn Hi Hb. destruct (NewBenchmarkServer_stalled n Hn) as (s0 & ps0 & Hnew & Hs0).
  destruct (go_for_range (λ k s, ∃ ps, stalled n k s ps) (λ i, kafka_sim_iter i (draw i))
    (Z.to_nat iters) 0 s0) as (s & Hrun & ps & Hs); [|by exists ps0|].
  - intros i s Hr [ps Hs]. destruct (kafka_sim_iter_stalled n i i (draw i) s ps) as (s' & ps' & ? & ?);
      [lia..|done|]. exists s'. split; [done|]. by exists ps'.
  - rewrite Z2Nat.id in Hrun, Hs by lia. exists s0, s, (Z.of_nat (size (State ps))).
    split; [done|]. split; [exact Hrun|]. destruct Hs as [[Hf Hps] _ _ [t Hmax] Hl H0 _ Ha].
    split.
    + unfold writeResponse, go_bind, on_kc. rewrite (GetPartitionState_has _ _ Hf Hps). simpl.
      rewrite Hmax, Hl. destruct (Z.eqb_spec (0 + iters) 0); [lia|]. by destruct s.
    + assert (list_to_set (0 :: seqZ n iters) ⊆ dom (State ps)) as Hsub.
      { intros o Ho. apply elem_of_list_to_set, elem_of_cons in Ho as [->|Ho]; apply elem_of_dom; [by eexists|].
        apply elem_of_seqZ in Ho. eexists. apply Ha. lia. }
      apply subseteq_size in Hsub. rewrite size_dom, size_list_to_set in Hsub.
      * simpl in Hsub. rewrite length_seqZ in Hsub. lia.
      * apply NoDup_cons. split; [|apply NoDup_seqZ]. rewrite elem_of_seqZ. lia.
Qed.

(** The reset blocks, and keeps the mutex: every later simulation or reset waits. *)
Lemma handleReset_blocks count s : handleReset count s = Block.
Proof. unfold handleReset. destruct (mu s); [done|]. by rewrite ResetPartitionState_deadlocks. Qed.

Lemma benchmark_main_crashes n : main_ticker (S n) = Panic "nil pointer dereference".
Proof. done. Qed.
End Server.
End Bench.

#[local] Instance kafka_lib_demo : KafkaLib.
Proof. refine {| OffsetBeginning := -2 |}. unfold min_int64. lia. Defined.

Lemma kafka_sim_never_commits_witness :
  ∃ s0 s size, Bench.NewBenchmarkServer 2 = Ret s0 ∧
    Bench.handleKafkaSim 3 (λ i, i) s0 = Ret (tt, s) ∧
    Bench.writeResponse s = Ret ((size, 0, 4), s) ∧ 3 < size.
Proof. apply (Bench.kafka_sim_never_commits 2 3 (λ i, i)); vm_compute; congruence. Defined.

(** ** kafka-chans/cmd/benchmark *)

Module ChansBench.
Import KafkaChans.
Section Server.
Context `{KafkaLib}.

(** The updates the constructor sends, every fifth one pending. *)
Definition test_updates (msgCount : Z) : list UpdateStateMsg :=
  (λ i, NewUpdateStateMsg i (if Z.rem i 5 =? 0 then MsgState_Pending else MsgState_Success)) <$> seqZ 0 msgCount.

(** The constructor while it fills the tracker, against the tracker's
    goroutine, which was started with the tracker. *)
Record filling := mkFilling { to_send : list UpdateStateMsg; ps : ChanState }.
Inductive fill_step : filling → filling → Prop :=
| fill_send msg rest ps ps' :
    send_update msg ps = Ret ps' → fill_step (mkFilling (msg :: rest) ps) (mkFilling rest ps')
| fill_accept rest ps ps' :
    acceptMsgLoop AccUpdate ps = Ret ps' → fill_step (mkFilling rest ps) (mkFilling rest ps').

Definition NewBenchmarkServer (msgCount : Z) : filling :=
  let msgCount := if msgCount <=? 0 then 1000 else msgCount in
  mkFilling (test_updates msgCount) (NewPartitionState (mkTP "test_topic" 0 0)).

(** The requests' parameters. *)
Definition query_int (s : string) : Z :=
  if decide (s = "")%string then 1000000 else default 1000000 (Atoi s).

(** The constructor never returns: the queue holds 128 updates, and taking the
    first of them out of it panics. *)
Lemma fill_invariant count f :
  rtc fill_step (mkFilling (test_updates count) (NewPartitionState (mkTP "test_topic" 0 0))) f →
  0 ≤ count →
  accepting (ps f) = true ∧ MsgPool (ps f) = false ∧ (length (UpdateStateCH (ps f)) ≤ 128)%nat ∧
  Z.of_nat (length (to_send f)) + Z.of_nat (length (UpdateStateCH (ps f))) = count.
Proof.
  intros Hrun Hc. eapply (rtc_invariant fill_step (λ f, accepting (ps f) = true ∧ MsgPool (ps f) = false ∧
    (length (UpdateStateCH (ps f)) ≤ 128)%nat ∧
    Z.of_nat (length (to_send f)) + Z.of_nat (length (UpdateStateCH (ps f))) = count)); [|exact Hrun|].
  - intros a b (Ha & Hp & Hl & Hn) Hs. destruct Hs as [msg rest p p' Hs|rest p p' Hs]; simpl in *.
    + unfold send_update in Hs. destruct (Nat.ltb_spec (length (UpdateStateCH p)) 128); simplify_eq/=.
      rewrite length_app. simpl. split_and!; [done|done|lia|lia].
    + unfold acceptMsgLoop in Hs. rewrite Ha in Hs. simpl in Hs.
      destruct (UpdateStateCH p); [done|]. simpl in Hs. by rewrite Hp in Hs.
  - simpl. unfold test_updates. rewrite length_fmap, length_seqZ. split_and!; [done|done|lia|lia].
Qed.

(** The benchmark of the channel tracker cannot start: its constructor
    never gets to the end of its updates, and the tracker's goroutine panics
    on the first one it takes. *)
Theorem chans_benchmark_never_starts msgCount f :
  (msgCount ≤ 0 ∨ 128 < msgCount) → rtc fill_step (NewBenchmarkServer msgCount) f →
  to_send f ≠ [] ∧
  (UpdateStateCH (ps f) ≠ [] → acceptMsgLoop AccUpdate (ps f) = Panic "nil pointer dereference").
Proof.
  intros Hc Hrun. unfold NewBenchmarkServer in Hrun.
  set (count := if msgCount <=? 0 then 1000 else msgCount) in Hrun.
  assert (128 < count) by (unfold count; destruct (Z.leb_spec msgCount 0); lia).
  destruct (fill_invariant count f Hrun ltac:(lia)) as (Ha & Hp & Hl & Hn). split.
  - intros E. rewrite E in Hn. simpl in Hn. lia.
  - intros Hq. unfold acceptMsgLoop. rewrite Ha. simpl.
    destruct (UpdateStateCH (ps f)); [done|]. simpl. by rewrite Hp.
Qed.

(** [handleBenchmark] against the tracker's goroutine: before a request, waiting
    for its answer, sending the update, at the end; [reqs] is how many requests
    their channel (of 1028) holds. *)
Inductive BenchPC := BRequest | BWait | BUpdate (offset : Z) | BRespond.
Record benchmark := mkBenchmark { pc : BenchPC; left_ : Z; reqs : nat; bps : ChanState }.
Definition handleBenchmark (itersStr : string) (ps : ChanState) : benchmark :=
  let iters := query_int itersStr in
  mkBenchmark (if iters <=? 0 then BRespond else BRequest) iters 0 ps.

Inductive bench_step : benchmark → benchmark → Prop :=
| bn_request n q ps : (q < 1028)%nat → bench_step (mkBenchmark BRequest n q ps) (mkBenchmark BWait n (S q) ps)
| bn_answer n q ps offset rest :
    FindLatestToCommitRespCH ps = offset :: rest →
    bench_step (mkBenchmark BWait n q ps)
      (mkBenchmark (BUpdate offset) n q (set_replies rest (ReadOffsetRespCH ps) ps))
| bn_update n q ps offset ps' :
    send_update (NewUpdateStateMsg offset MsgState_Success) ps = Ret ps' →
    bench_step (mkBenchmark (BUpdate offset) n q ps)
      (mkBenchmark (if n - 1 <=? 0 then BRespond else BRequest) (n - 1) q ps')
| bn_find p n q ps ps' :
    acceptMsgLoop AccFind ps = Ret ps' → bench_step (mkBenchmark p n (S q) ps) (mkBenchmark p n q ps')
| bn_accept ev p n q ps ps' :
    ev = AccUpdate ∨ ev = AccDelete ∨ ev = AccDone →
    acceptMsgLoop ev ps = Ret ps' → bench_step (mkBenchmark p n q ps) (mkBenchmark p n q ps').

(** [handleReset] cancels the tracker and fills a new one, as the constructor
    does. *)
Definition handleReset (msgCountStr : string) : filling :=
  mkFilling (test_updates (query_int msgCountStr)) (NewPartitionState (mkTP "test_topic" 0 0)).

(** What stays while the goroutine cannot take an update. *)
Definition bench_inv (n : Z) (b : benchmark) : Prop :=
  MsgPool (bps b) = false ∧ (length (UpdateStateCH (bps b)) ≤ 128)%nat ∧
  left_ b + Z.of_nat (length (UpdateStateCH (bps b))) = n ∧ (pc b = BRespond → left_ b ≤ 0).

Lemma acceptMsgLoop_queue ev ps ps' : MsgPool ps = false → acceptMsgLoop ev ps = Ret ps' →
  MsgPool ps' = false ∧ UpdateStateCH ps' = UpdateStateCH ps.
Proof.
  intros Hp Ha. unfold acceptMsgLoop, FindLatestToCommit, mbind, outcome_bind in Ha.
  repeat case_match; simplify_eq/=; done || congruence.
Qed.

Lemma bench_inv_step n b b' : bench_inv n b → bench_step b b' → bench_inv n b'.
Proof.
  intros (Hp & Hl & Hn & Hr) Hs. unfold bench_inv.
  destruct Hs as [k q ps Hq|k q ps o rest Hf|k q ps o ps' Hu|p k q ps ps' Ha|ev p k q ps ps' Hev Ha]; simpl in *.
  - done.
  - done.
  - unfold send_update in Hu. destruct (Nat.ltb_spec (length (UpdateStateCH ps)) 128); simplify_eq/=.
    rewrite length_app. simpl. split_and!; [done|lia|lia|]. destruct (Z.leb_spec (k - 1) 0); [lia|done].
  - destruct (acceptMsgLoop_queue _ _ _ Hp Ha) as [-> ->]. done.
  - destruct (acceptMsgLoop_queue _ _ _ Hp Ha) as [-> ->]. done.
Qed.

(** Nor could the benchmark be run: on a tracker made as the constructor makes it
    no request of more than 128 iterations gets an answer, the default million
    included; and a reset to as many offsets is not answered either. *)
Lemma chans_benchmark_never_answers itersStr b f :
  128 < query_int itersStr →
  rtc bench_step (handleBenchmark itersStr (NewPartitionState (mkTP "test_topic" 0 0))) b →
  rtc fill_step (handleReset itersStr) f →
  pc b ≠ BRespond ∧ to_send f ≠ [].
Proof.
  intros Hi Hb Hf. split.
  - assert (bench_inv (query_int itersStr) b) as (_ & Hl & Hn & Hr).
    { eapply rtc_invariant; [apply bench_inv_step|exact Hb|]. unfold bench_inv, handleBenchmark. simpl.
      destruct (Z.leb_spec (query_int itersStr) 0); [lia|]. split_and!; [done|lia|lia|done]. }
    intros Hpc. specialize (Hr Hpc). lia.
  - destruct (fill_invariant _ _ Hf ltac:(lia)) as (_ & _ & Hl & Hn).
    intros E. rewrite E in Hn. simpl in Hn. lia.
Qed.

Example default_is_a_million : query_int "" = 1000000 ∧ query_int "x" = 1000000.
Proof. done. Qed.

(** [handleHealth] only reports; its memory is in megabytes. *)
Definition convertToMB (val : Z) : float64 := fdiv (fdiv (float_of_Z val) (float_of_Z 1024)) (float_of_Z 1024).
End Server.
End ChansBench.

Lemma chans_benchmark_never_starts_witness :
  ChansBench.to_send (ChansBench.NewBenchmarkServer (-1)) ≠ [].
Proof.
  apply (ChansBench.chans_benchmark_never_starts (-1) (ChansBench.NewBenchmarkServer (-1))).
  - left. lia.
  - apply rtc_refl.
Defined.
