(* ===== verification/KafkaAdmin.v ===== *)
(** * Topic creation and readiness

    Six programs carry the same two functions, [initializeKafkaTopic] and
    [waitForTopicReady], in three variants: with a failed creation reported
    (kafka, kafka-chans), with it ignored (kafka-outbox, kafka-cdc), and with the
    wait left to the caller (chat/with-loop-per-client, protocol-playground).
    What the admin client answers is an argument. *)

From S2P Require Import Prelude GoSem.

(** The two error codes of the client the code compares with. *)
Class KafkaCodes := {
  ErrNoError : Z;
  ErrTopicAlreadyExists : Z;
  codes_differ : ErrNoError ≠ ErrTopicAlreadyExists;
}.

Record PartitionMetadata := mkPM { Error_Code : Z; Leader : Z }.

(** [metadata.Topics]: the partitions of each known topic. *)
Definition Metadata : Type := gmap string (list PartitionMetadata).

Section Admin.
Context `{KafkaCodes}.

(** The inner loop over the partitions, with its [break]s. *)
Fixpoint allPartitionsReady (partitions : list PartitionMetadata) : bool :=
  match partitions with
  | [] => true
  | partition :: partitions =>
      if negb (Error_Code partition =? ErrNoError) then false
      else if Leader partition =? -1 then false
      else allPartitionsReady partitions
  end.

(** The polling loop, over the successive answers of [GetMetadata]; the
    answers left unread are returned. *)
Fixpoint wait_loop (topicName : string) (answers : list (result Metadata)) :
    outcome (option error * list (result Metadata)) :=
  match answers with
  | [] => Block
  | Err _ :: answers => wait_loop topicName answers
  | Ok metadata :: answers =>
      match metadata !! topicName with
      | None => wait_loop topicName answers
      | Some partitions =>
          if (0 <? length partitions)%nat then
            if allPartitionsReady partitions then Ret (None, answers)
            else wait_loop topicName answers
          else wait_loop topicName answers
      end
  end.

(** [admin] is the error of [NewAdminClient], if any. *)
Definition waitForTopicReady (admin : option error) (topicName : string)
    (answers : list (result Metadata)) :
    outcome (option error * list (result Metadata)) :=
  match admin with
  | Some err => Ret (Some err, answers)
  | None => wait_loop topicName answers
  end.

(** The loop over the results of [CreateTopics]: the error it returns. *)
Fixpoint check_results (results : list Z) : option error :=
  match results with
  | [] => None
  | code :: results =>
      if code =? ErrTopicAlreadyExists then check_results results
      else if negb (code =? ErrNoError) then Some (ErrNew "failed to create topic")
      else check_results results
  end.

(** kafka, kafka-chans: [admin1] and [admin2] are the answers of the two
    [NewAdminClient] calls. *)
Definition initializeKafkaTopic (admin1 : option error) (create : result (list Z))
    (admin2 : option error) (topicName : string) (answers : list (result Metadata)) :
    outcome (option error * list (result Metadata)) :=
  match admin1 with
  | Some err => Ret (Some err, answers)
  | None =>
      match create with
      | Err err => Ret (Some err, answers)
      | Ok results =>
          match check_results results with
          | Some err => Ret (Some err, answers)
          | None => waitForTopicReady admin2 topicName answers
          end
      end
  end.
End Admin.

Module OutboxAdmin.
Section Admin.
Context `{KafkaCodes}.

Definition waitForTopicReady := KafkaAdmin.waitForTopicReady.

(** The results of [CreateTopics] are only logged. *)
Definition initializeKafkaTopic (admin1 : option error) (create : result (list Z))
    (admin2 : option error) (topicName : string) (answers : list (result Metadata)) :
    outcome (option error * list (result Metadata)) :=
  match admin1 with
  | Some err => Ret (Some err, answers)
  | None =>
      match create with
      | Err err => Ret (Some err, answers)
      | Ok results => waitForTopicReady admin2 topicName answers
      end
  end.
End Admin.
End OutboxAdmin.

Module CdcAdmin.
Section Admin.
Context `{KafkaCodes}.
Definition waitForTopicReady := KafkaAdmin.waitForTopicReady.
Definition initializeKafkaTopic := OutboxAdmin.initializeKafkaTopic.
End Admin.
End CdcAdmin.

Module ChansAdmin.
Section Admin.
Context `{KafkaCodes}.
Definition waitForTopicReady := KafkaAdmin.waitForTopicReady.
Definition initializeKafkaTopic := KafkaAdmin.initializeKafkaTopic.
End Admin.
End ChansAdmin.

(** The constructor calls the creation, then the wait. *)
Module ChatAdmin.
Section Admin.
Context `{KafkaCodes}.
Definition waitForTopicReady := KafkaAdmin.waitForTopicReady.

Definition initializeKafkaTopic (admin : option error) (create : result (list Z)) :
    option error :=
  match admin with
  | Some err => Some err
  | None => match create with
            | Err err => Some err
            | Ok results => check_results results
            end
  end.

(** [newConsumer] and [subscribe]: the errors of the two client calls. *)
Definition NewKafkaConsumer (admin1 : option error) (create : result (list Z))
    (admin2 : option error) (topicName : string) (answers : list (result Metadata))
    (newConsumer subscribe : option error) : outcome (option error) :=
  match initializeKafkaTopic admin1 create with
  | Some err => Ret (Some err)
  | None =>
      '(err, _) ← waitForTopicReady admin2 topicName answers;
      match err with
      | Some err => Ret (Some err)
      | None => match newConsumer with
                | Some err => Ret (Some err)
                | None => Ret subscribe
                end
      end
  end.
End Admin.
End ChatAdmin.

Module PlaygroundAdmin.
Section Admin.
Context `{KafkaCodes}.
Definition waitForTopicReady := KafkaAdmin.waitForTopicReady.
Definition initializeKafkaTopic := ChatAdmin.initializeKafkaTopic.
Definition NewKafkaConsumer := ChatAdmin.NewKafkaConsumer.
End Admin.
End PlaygroundAdmin.

(** ** Properties *)

Section Facts.
Context `{KafkaCodes}.

(** What a ready topic is. *)
Definition topic_ready (topicName : string) (answer : result Metadata) : Prop :=
  ∃ metadata partitions, answer = Ok metadata ∧ metadata !! topicName = Some partitions ∧
    partitions ≠ [] ∧
    Forall (λ p, Error_Code p = ErrNoError ∧ Leader p ≠ -1) partitions.

Lemma allPartitionsReady_spec l :
  allPartitionsReady l = true ↔ Forall (λ p, Error_Code p = ErrNoError ∧ Leader p ≠ -1) l.
Proof.
  induction l as [|p l IH]; simpl; [by split|]. rewrite Forall_cons, <- IH.
  destruct (Error_Code p =? ErrNoError) eqn:E, (Leader p =? -1) eqn:L; zbool; simpl; naive_solver.
Qed.

(** One answer: the loop returns on a ready one and goes on otherwise. *)
Lemma wait_loop_step t a answers :
  (topic_ready t a ∧ wait_loop t (a :: answers) = Ret (None, answers)) ∨
  (¬ topic_ready t a ∧ wait_loop t (a :: answers) = wait_loop t answers).
Proof.
  simpl. destruct a as [m|e]; [|right; split; [intros (? & ? & ? & _)|]; done].
  destruct (m !! t) as [l|] eqn:Hm; [|right; split; [intros (? & ? & ? & ? & _); naive_solver|done]].
  destruct l as [|p l]; simpl.
  - right. split; [|done]. intros (m' & l' & ? & ? & ? & _). naive_solver.
  - destruct (allPartitionsReady (p :: l)) eqn:Hr.
    + left. simpl in Hr. rewrite Hr. split; [|done]. exists m, (p :: l).
      split; [done|]. split; [done|]. split; [done|]. by apply allPartitionsReady_spec.
    + right. simpl in Hr. rewrite Hr. split; [|done]. intros (m' & l' & ? & ? & ? & Hf).
      simplify_eq. apply allPartitionsReady_spec in Hf. simpl in Hf. congruence.
Qed.

(** C32. The wait returns exactly when the topic shows up ready: with the
    answers [pre ++ a :: rest] it returns nil after [a], the first answer in
    which the topic exists, has a partition, and every partition has a leader
    and no error; failures to fetch the metadata never end it. *)
Theorem waitForTopicReady_correct (topicName : string) (answers rest : list (result Metadata)) :
  waitForTopicReady None topicName answers = Ret (None, rest) ↔
  ∃ pre a, answers = pre ++ a :: rest ∧ topic_ready topicName a ∧
    Forall (λ b, ¬ topic_ready topicName b) pre.
Proof.
  unfold waitForTopicReady. induction answers as [|a answers IH].
  - split; [done|]. intros (pre & a & Heq & _). by destruct pre.
  - destruct (wait_loop_step topicName a answers) as [[Hr ->]|[Hr ->]].
    + split.
      * intros [= ->]. exists [], a. by repeat split.
      * intros ([|b pre] & a' & Heq & Ha & Hpre); simplify_eq/=; [done|].
        apply Forall_cons in Hpre as [? _]. done.
    + rewrite IH. split.
      * intros (pre & a' & -> & Ha & Hpre). exists (a :: pre), a'.
        split; [done|]. split; [done|]. by apply Forall_cons.
      * intros ([|b pre] & a' & Heq & Ha & Hpre); simplify_eq/=; [done|].
        apply Forall_cons in Hpre as [_ Hpre]. by exists pre, a'.
Qed.

Lemma wait_loop_never t answers :
  Forall (λ a, ¬ topic_ready t a) answers → wait_loop t answers = Block.
Proof.
  induction 1 as [|a answers Ha _ IH]; [done|].
  by destruct (wait_loop_step t a answers) as [[? _]|[_ ->]].
Qed.

(** A rejected creation: kafka and kafka-chans report it without waiting,
    while the outbox and CDC consumers ignore it and wait for a topic nobody
    has created, so that as long as it does not appear their constructor does
    not return. *)
Theorem rejected_topic (code : Z) (topicName : string) (answers : list (result Metadata)) :
  code ≠ ErrNoError → code ≠ ErrTopicAlreadyExists →
  Forall (λ a, ¬ topic_ready topicName a) answers →
  (∃ e, initializeKafkaTopic None (Ok [code]) None topicName answers = Ret (Some e, answers)) ∧
  OutboxAdmin.initializeKafkaTopic None (Ok [code]) None topicName answers = Block ∧
  CdcAdmin.initializeKafkaTopic None (Ok [code]) None topicName answers = Block.
Proof.
  intros H1%Z.eqb_neq H2%Z.eqb_neq Hn. split.
  - unfold initializeKafkaTopic. simpl. rewrite H2, H1. by eexists.
  - unfold CdcAdmin.initializeKafkaTopic, OutboxAdmin.initializeKafkaTopic. simpl.
    by rewrite wait_loop_never.
Qed.
End Facts.

#[local] Instance codes_demo : KafkaCodes.
Proof. refine {| ErrNoError := 0; ErrTopicAlreadyExists := 36 |}. discriminate. Defined.

Lemma rejected_topic_witness :
  (∃ e, initializeKafkaTopic None (Ok [37]) None "t" [Ok ∅] = Ret (Some e, [Ok ∅])) ∧
  OutboxAdmin.initializeKafkaTopic None (Ok [37]) None "t" [Ok ∅] = Block ∧
  CdcAdmin.initializeKafkaTopic None (Ok [37]) None "t" [Ok ∅] = Block.
Proof.
  apply (rejected_topic 37 "t" [Ok ∅]).
  - discriminate.
  - discriminate.
  - apply Forall_singleton. intros (m & l & [= <-] & Hl & _).
    vm_compute in Hl. discriminate Hl.
Defined.
