(* ===== verification/Performance.v ===== *)
(** * The tracker benchmarks (performance/)

    Three trackers with the same interface: a map under a mutex, a [sync.Map]
    and a map owned by one goroutine that is sent requests; and the HTTP server
    that runs them.  The loops are modelled by their iterations ([Tick]: the
    ticker fires, [Done]: the context is seen cancelled); an iteration is one
    step, since [NewTestConfig] starts one goroutine per loop.  What the loops
    log is left out. *)

From S2P Require Import Prelude GoSem KafkaTracker.

(** ** shared.go *)

Record TestConfig := mkCfg {
  IDX : Z;
  InitOffset : Z;
  UpdateRange : Z;
  numG : Z;
  commitDur : Z;
  updateDur : Z;
  appendDur : Z;
  scenario : string;
  testDur : Z;
  prefillState : Z;
  isDebugMode : bool;
}.

(** [time.Millisecond * time.Duration(d)], in nanoseconds. *)
Definition milliseconds (d : Z) : Z := int64 (1000000 * d).

(** The [numG] argument is normalised and then not used. *)
Definition NewTestConfig (idx commitdur updatedur appenddur testdur updateRange : Z)
    (scenario : string) (numG prefillState : Z) (isDebugMode : bool) : TestConfig :=
  mkCfg idx 0 updateRange 1 (milliseconds commitdur) (milliseconds updatedur)
    (milliseconds appenddur) scenario (milliseconds testdur) prefillState isDebugMode.

Definition set_InitOffset (o : Z) (cfg : TestConfig) : TestConfig :=
  mkCfg (IDX cfg) o (UpdateRange cfg) (numG cfg) (commitDur cfg) (updateDur cfg)
    (appendDur cfg) (scenario cfg) (testDur cfg) (prefillState cfg) (isDebugMode cfg).

(** [State[idx] = Pending] for [idx] in [0..prefillState-1]. *)
Definition prefill (cfg : TestConfig) : gmap Z Z :=
  if 0 <? prefillState cfg
  then foldl (λ m idx, <[idx := MsgState_Pending]> m) ∅ (seqZ 0 (prefillState cfg))
  else ∅.

Inductive TickEvent := Tick | Done.

(** The offset an [updateLoop] iteration picks; [rnd n] is [rand.Int64N(n)] for
    a positive [n], which panics otherwise. [None]: nothing was received yet. *)
Definition pick_offset (rnd : Z → Z) (cfg : TestConfig) (maxReceived : Z) : outcome (option Z) :=
  let init := InitOffset cfg in
  if maxReceived =? 0 then Ret None
  else
    let maxToUpdate := Z.min (float64_int (int64 (init + UpdateRange cfg))) (float64_int maxReceived) in
    if int64 maxToUpdate <=? 0 then Panic "invalid argument to Int64N"
    else
      let randInt := rnd (int64 maxToUpdate) in
      Ret (Some (if randInt <? init then int64 (randInt + init) else randInt)).

(** What an [appendLoop] iteration does to [MaxReceived], and the offset it
    adds. *)
Definition next_offset (latest : Z) : Z * Z :=
  if negb (latest =? 0) then (int64 (latest + 1), int64 (latest + 1)) else (1, 0).

(** ** partition-state-lock.go *)

Module PSLock.
Record PartitionStateLock := mkPS {
  State : gmap Z Z; MaxReceived : Z; ctxDone : bool; cfg : TestConfig }.

Definition NewPartitionStateLock (cfg : TestConfig) : PartitionStateLock :=
  mkPS (prefill cfg) 0 false cfg.

Definition cancel (ps : PartitionStateLock) : PartitionStateLock :=
  mkPS (State ps) (MaxReceived ps) true (cfg ps).

(** An iteration returns the tracker, and whether the loop goes on. *)
Definition appendLoop (ev : TickEvent) (ps : PartitionStateLock) :
    outcome (PartitionStateLock * bool) :=
  match ev with
  | Done => if ctxDone ps then Ret (ps, false) else Block
  | Tick =>
      let '(max, next) := next_offset (MaxReceived ps) in
      Ret (mkPS (<[next := MsgState_Pending]> (State ps)) max (ctxDone ps) (cfg ps), true)
  end.

Definition updateLoop (rnd : Z → Z) (ev : TickEvent) (ps : PartitionStateLock) :
    outcome (PartitionStateLock * bool) :=
  match ev with
  | Done => if ctxDone ps then Ret (ps, false) else Block
  | Tick =>
      o ← pick_offset rnd (cfg ps) (MaxReceived ps);
      match o with
      | None => Ret (ps, true)
      | Some randInt =>
          Ret (mkPS (<[randInt := MsgState_Success]> (State ps)) (MaxReceived ps)
                 (ctxDone ps) (cfg ps), true)
      end
  end.

Definition FindLatestToCommit (ps : PartitionStateLock) : outcome (PartitionStateLock * Z) :=
  let latestToCommit := MaxReceived ps in
  let initOffset := InitOffset (cfg ps) in
  match find_loop (find_fuel initOffset latestToCommit) initOffset latestToCommit
          (State ps) latestToCommit with
  | None => Block
  | Some (st, latest) => Ret (mkPS st (MaxReceived ps) (ctxDone ps) (cfg ps), latest)
  end.

Definition commitLoop (ev : TickEvent) (ps : PartitionStateLock) :
    outcome (PartitionStateLock * bool) :=
  match ev with
  | Done => if ctxDone ps then Ret (ps, false) else Block
  | Tick =>
      if ctxDone ps then Ret (ps, false)
      else
        '(ps, latestToCommit) ← FindLatestToCommit ps;
        Ret (mkPS (State ps) (MaxReceived ps) (ctxDone ps)
               (set_InitOffset latestToCommit (cfg ps)), true)
  end.

Definition ReadOffset (offset : Z) (ps : PartitionStateLock) : Z * bool :=
  match State ps !! offset with Some state => (state, true) | None => (0, false) end.
End PSLock.

(** ** partition-state-syncmap.go *)

Module PSSyncMap.
(** A [sync.Map] from offsets to states. *)
Record PartitionStateSyncMap := mkPS {
  State : gmap Z Z; MaxReceived : Z; ctxDone : bool; cfg : TestConfig }.

Definition NewPartitionStateSyncMap (cfg : TestConfig) : PartitionStateSyncMap :=
  mkPS (prefill cfg) 0 false cfg.

Definition cancel (ps : PartitionStateSyncMap) : PartitionStateSyncMap :=
  mkPS (State ps) (MaxReceived ps) true (cfg ps).

Definition appendLoop (ev : TickEvent) (ps : PartitionStateSyncMap) :
    outcome (PartitionStateSyncMap * bool) :=
  match ev with
  | Done => if ctxDone ps then Ret (ps, false) else Block
  | Tick =>
      let '(max, next) := next_offset (MaxReceived ps) in
      Ret (mkPS (<[next := MsgState_Pending]> (State ps)) max (ctxDone ps) (cfg ps), true)
  end.

Definition updateLoop (rnd : Z → Z) (ev : TickEvent) (ps : PartitionStateSyncMap) :
    outcome (PartitionStateSyncMap * bool) :=
  match ev with
  | Done => if ctxDone ps then Ret (ps, false) else Block
  | Tick =>
      o ← pick_offset rnd (cfg ps) (MaxReceived ps);
      match o with
      | None => Ret (ps, true)
      | Some randInt =>
          Ret (mkPS (<[randInt := MsgState_Success]> (State ps)) (MaxReceived ps)
                 (ctxDone ps) (cfg ps), true)
      end
  end.

(** [getSyncMapLen] counts the entries by ranging over the map. *)
Definition getSyncMapLen (state : gmap Z Z) : Z :=
  map_fold (λ _ _ count, count + 1) 0 state.

Fixpoint find_loop (fuel : nat) (offset maxOffset : Z) (st : gmap Z Z) (latest : Z) :
    option (gmap Z Z * Z) :=
  match fuel with
  | O => None
  | S fuel =>
      if offset <=? maxOffset then
        match st !! offset with
        | None => find_loop fuel (int64 (offset + 1)) maxOffset st latest
        | Some msgState =>
            if negb (msgState =? MsgState_Pending) then
              let st := delete offset st in
              if getSyncMapLen st =? 0 then Some (st, int64 (offset + 1))
              else find_loop fuel (int64 (offset + 1)) maxOffset st latest
            else Some (st, offset)
        end
      else Some (st, latest)
  end.

Definition FindLatestToCommit (ps : PartitionStateSyncMap) :
    outcome (PartitionStateSyncMap * Z) :=
  let latestToCommit := MaxReceived ps in
  let initOffset := InitOffset (cfg ps) in
  match find_loop (find_fuel initOffset latestToCommit) initOffset latestToCommit
          (State ps) latestToCommit with
  | None => Block
  | Some (st, latest) => Ret (mkPS st (MaxReceived ps) (ctxDone ps) (cfg ps), latest)
  end.

Definition commitLoop (ev : TickEvent) (ps : PartitionStateSyncMap) :
    outcome (PartitionStateSyncMap * bool) :=
  match ev with
  | Done => if ctxDone ps then Ret (ps, false) else Block
  | Tick =>
      if ctxDone ps then Ret (ps, false)
      else
        '(ps, latestToCommit) ← FindLatestToCommit ps;
        Ret (mkPS (State ps) (MaxReceived ps) (ctxDone ps)
               (set_InitOffset latestToCommit (cfg ps)), true)
  end.

(** The type assertion on a missing (nil) value panics. *)
Definition ReadOffset (offset : Z) (ps : PartitionStateSyncMap) : outcome (Z * bool) :=
  match State ps !! offset with
  | Some state => Ret (state, true)
  | None => Panic "interface conversion: interface {} is nil, not int32"
  end.
End PSSyncMap.

(** ** partition-state-chans.go *)

Module PSChans.
Inductive ActionType :=
| ActionType_Add | ActionType_Update | ActionType_Delete | ActionType_FindLastestToCommit.

Record UpdateStateMsg := NewUpdateStateMsg {
  idx : Z; actionType : ActionType; toMsgState : Z }.

Record PartitionStateChans := mkPS {
  State : gmap Z Z;
  updateStateCH : list UpdateStateMsg;
  findResultCH : list Z;
  MaxReceived : Z;
  ctxDone : bool;
  cfg : TestConfig;
}.

Definition NewPartitionStateChans (cfg : TestConfig) : PartitionStateChans :=
  mkPS (prefill cfg) [] [] 0 false cfg.

Definition cancel (ps : PartitionStateChans) : PartitionStateChans :=
  mkPS (State ps) (updateStateCH ps) (findResultCH ps) (MaxReceived ps) true (cfg ps).

(** A send on [updateStateCH], of capacity 128. *)
Definition send (msg : UpdateStateMsg) (ps : PartitionStateChans) : outcome PartitionStateChans :=
  if (length (updateStateCH ps) <? 128)%nat
  then Ret (mkPS (State ps) (updateStateCH ps ++ [msg]) (findResultCH ps)
              (MaxReceived ps) (ctxDone ps) (cfg ps))
  else Block.

Definition latestToCommitFinder (ps : PartitionStateChans) : outcome (gmap Z Z * Z) :=
  let latestToCommit := MaxReceived ps in
  let initOffset := InitOffset (cfg ps) in
  match find_loop (find_fuel initOffset latestToCommit) initOffset latestToCommit
          (State ps) latestToCommit with
  | None => Block
  | Some r => Ret r
  end.

(** One message of [updateStateLoop]'s queue; [findResultCH] holds 64. *)
Definition handle (msg : UpdateStateMsg) (ps : PartitionStateChans) : outcome PartitionStateChans :=
  let upd st := mkPS st (updateStateCH ps) (findResultCH ps) (MaxReceived ps) (ctxDone ps) (cfg ps) in
  match actionType msg with
  | ActionType_Add | ActionType_Update => Ret (upd (<[idx msg := toMsgState msg]> (State ps)))
  | ActionType_Delete => Ret (upd (delete (idx msg) (State ps)))
  | ActionType_FindLastestToCommit =>
      '(st, latest) ← latestToCommitFinder ps;
      if (length (findResultCH ps) <? 64)%nat
      then Ret (mkPS st (updateStateCH ps) (findResultCH ps ++ [latest])
                  (MaxReceived ps) (ctxDone ps) (cfg ps))
      else Block
  end.

Definition updateStateLoop (ev : TickEvent) (ps : PartitionStateChans) :
    outcome (PartitionStateChans * bool) :=
  match ev with
  | Done => if ctxDone ps then Ret (ps, false) else Block
  | Tick =>
      match updateStateCH ps with
      | [] => Block
      | msg :: rest =>
          ps ← handle msg (mkPS (State ps) rest (findResultCH ps) (MaxReceived ps)
                             (ctxDone ps) (cfg ps));
          Ret (ps, true)
      end
  end.

Definition appendLoop (ev : TickEvent) (ps : PartitionStateChans) :
    outcome (PartitionStateChans * bool) :=
  match ev with
  | Done => if ctxDone ps then Ret (ps, false) else Block
  | Tick =>
      let '(max, next) := next_offset (MaxReceived ps) in
      ps ← send (NewUpdateStateMsg next ActionType_Add MsgState_Pending)
             (mkPS (State ps) (updateStateCH ps) (findResultCH ps) max (ctxDone ps) (cfg ps));
      Ret (ps, true)
  end.

Definition updateLoop (rnd : Z → Z) (ev : TickEvent) (ps : PartitionStateChans) :
    outcome (PartitionStateChans * bool) :=
  match ev with
  | Done => if ctxDone ps then Ret (ps, false) else Block
  | Tick =>
      o ← pick_offset rnd (cfg ps) (MaxReceived ps);
      match o with
      | None => Ret (ps, true)
      | Some randInt =>
          ps ← send (NewUpdateStateMsg randInt ActionType_Add MsgState_Success) ps;
          Ret (ps, true)
      end
  end.

(** The queue is served until it is empty, in order. *)
Fixpoint serve (fuel : nat) (ps : PartitionStateChans) : outcome PartitionStateChans :=
  match fuel with
  | O => Ret ps
  | S fuel => '(ps, _) ← updateStateLoop Tick ps; serve fuel ps
  end.

(** The request waits behind what is queued; the caller takes the first
    result. *)
Definition FindLatestToCommit (ps : PartitionStateChans) : outcome (PartitionStateChans * Z) :=
  ps ← send (NewUpdateStateMsg (-1) ActionType_FindLastestToCommit MsgState_Success) ps;
  ps ← serve (length (updateStateCH ps)) ps;
  match findResultCH ps with
  | [] => Block
  | idx :: rest =>
      Ret (mkPS (State ps) (updateStateCH ps) rest (MaxReceived ps) (ctxDone ps) (cfg ps), idx)
  end.

Definition commitLoop (ev : TickEvent) (ps : PartitionStateChans) :
    outcome (PartitionStateChans * bool) :=
  match ev with
  | Done => if ctxDone ps then Ret (ps, false) else Block
  | Tick =>
      if ctxDone ps then Ret (ps, false)
      else
        '(ps, latestToCommit) ← FindLatestToCommit ps;
        Ret (mkPS (State ps) (updateStateCH ps) (findResultCH ps) (MaxReceived ps) (ctxDone ps)
               (set_InitOffset latestToCommit (cfg ps)), true)
  end.
End PSChans.

(** ** main.go *)

Module Runner.
Record TestReq := mkReq {
  req_UpdateRange : Z; CommitDur : Z; UpdateDur : Z; AppendDur : Z; TestDur : Z; Scenario : string }.

(** A test: its context cancelled, its [exitCH] closed. [running]: a
    [runTests] goroutine, which closes [exitCH] when it returns, was started
    for it, on [cfgs] (the field of that name is never written by the code). *)
Record CurrentTest := mkTest {
  cfgs : list TestConfig; cancelled : bool; exitCH_closed : bool; running : bool }.
Definition NewCurrentTest : CurrentTest := mkTest [] false false false.

Record Server := mkServer { currentTest : option CurrentTest }.

(** Waiting for a test cancelled just before: its goroutine, if there is one,
    sees the cancellation and closes the channel. *)
Definition wait_exit (t : CurrentTest) : outcome CurrentTest :=
  if exitCH_closed t then Ret t
  else if running t then Ret (mkTest (cfgs t) (cancelled t) true false)
  else Block.

Definition config_of (idx : Z) (item : TestReq) : TestConfig :=
  NewTestConfig idx (CommitDur item) (UpdateDur item) (AppendDur item) (TestDur item)
    (req_UpdateRange item) (Scenario item) 1 (-1) true.

(** [body] is the decoded request; the flag of the answer: the error page. *)
Definition testCaseHandler (body : result (list TestReq)) : GO Server bool := λ s,
  match (match currentTest s with
         | None => Ret tt
         | Some t => _ ← wait_exit (mkTest (cfgs t) true (exitCH_closed t) (running t)); Ret tt
         end) with
  | Panic e => Panic e
  | Block => Block
  | Ret _ =>
      match body with
      | Err _ => Ret (true, mkServer (Some NewCurrentTest))
      | Ok body =>
          Ret (false, mkServer (Some (mkTest (imap (λ i, config_of (Z.of_nat i)) body)
                 false false true)))
      end
  end.

(** The tracker a test runs on: an interface value, nil when no case of the
    [switch] matches. *)
Inductive StateRunner :=
| RunLock (ps : PSLock.PartitionStateLock)
| RunSyncMap (ps : PSSyncMap.PartitionStateSyncMap).

Definition pick_runner (cfg : TestConfig) : option StateRunner :=
  if decide (scenario cfg = "lock"%string) then Some (RunLock (PSLock.NewPartitionStateLock cfg))
  else if decide (scenario cfg = "syncmap"%string)
  then Some (RunSyncMap (PSSyncMap.NewPartitionStateSyncMap cfg))
  else None.

(** The trackers [runTests] starts one after the other, as long as it is not
    cancelled ([cancelled_before i]: seen before the [i]-th). *)
Fixpoint runTests (cancelled_before : nat → bool) (i : nat) (cfgs : list TestConfig) :
    outcome (list StateRunner) :=
  match cfgs with
  | [] => Ret []
  | cfg :: cfgs =>
      if cancelled_before i then Ret []
      else match pick_runner cfg with
           | None => Panic "nil pointer dereference"
           | Some ps => rest ← runTests cancelled_before (S i) cfgs; Ret (ps :: rest)
           end
  end.
End Runner.

(** ** The three trackers compute the same *)

Lemma getSyncMapLen_size (m : gmap Z Z) : PSSyncMap.getSyncMapLen m = Z.of_nat (size m).
Proof.
  unfold PSSyncMap.getSyncMapLen. induction m as [|k v m Hk IH] using map_ind.
  - by rewrite map_fold_empty, map_size_empty.
  - rewrite map_fold_insert_L, IH, map_size_insert_None by (done || lia). lia.
Qed.

Lemma getSyncMapLen_empty (m : gmap Z Z) : (PSSyncMap.getSyncMapLen m =? 0) = map_is_empty m.
Proof.
  rewrite getSyncMapLen_size. unfold map_is_empty. apply eq_bool_prop_intro.
  rewrite !Is_true_true, bool_decide_eq_true, Z.eqb_eq, <- map_size_empty_iff. lia.
Qed.

Lemma find_loop_syncmap fuel : ∀ o hi st lat,
  PSSyncMap.find_loop fuel o hi st lat = find_loop fuel o hi st lat.
Proof.
  induction fuel as [|fuel IH]; intros o hi st lat; [done|]. simpl.
  repeat (rewrite getSyncMapLen_empty || case_match); congruence.
Qed.

#[local] Arguments find_loop : simpl never.
#[local] Arguments PSSyncMap.find_loop : simpl never.

(** The queued updates, applied in order. *)
Definition is_update (msg : PSChans.UpdateStateMsg) : Prop :=
  PSChans.actionType msg ≠ PSChans.ActionType_FindLastestToCommit.
Definition apply_update (st : gmap Z Z) (msg : PSChans.UpdateStateMsg) : gmap Z Z :=
  match PSChans.actionType msg with
  | PSChans.ActionType_Delete => delete (PSChans.idx msg) st
  | _ => <[PSChans.idx msg := PSChans.toMsgState msg]> st
  end.

Lemma serve_updates q : ∀ st rest f max d c,
  Forall is_update q →
  PSChans.serve (length q + length rest) (PSChans.mkPS st (q ++ rest) f max d c) =
  PSChans.serve (length rest) (PSChans.mkPS (foldl apply_update st q) rest f max d c).
Proof.
  induction q as [|msg q IH]; intros st rest f max d c Hq; [done|].
  apply Forall_cons in Hq as [Hm Hq]. simpl. rewrite <- IH by done.
  unfold PSChans.handle, apply_update, is_update in *.
  by destruct msg as [i [] v].
Qed.

Section Agree.
Context (cfg : TestConfig) (max : Z) (d : bool).
Hypothesis init_ok : min_int64 ≤ InitOffset cfg.
Hypothesis max_ok : max < max_int64.

Lemma perf_scan st :
  ∃ st' r, find_loop (find_fuel (InitOffset cfg) max) (InitOffset cfg) max st max = Some (st', r) ∧
    scan_result (InitOffset cfg) max st r st'.
Proof.
  destruct (find_loop_total (find_fuel (InitOffset cfg) max) (InitOffset cfg) max st max)
    as [[st' r] Hf]; [done|done|unfold find_fuel; lia|].
  exists st', r. split; [done|]. by eapply find_loop_spec.
Qed.

(** C25. The three benchmarked trackers agree: on the same content, the one
    with a mutex, the one with a [sync.Map] and the one behind a channel (whose
    content is its map with the queued updates applied, as the request queues
    behind them) return the same offset, the reference answer of the scan, and
    are left with the same map. *)
Theorem perf_trackers_agree (st0 : gmap Z Z) (q : list PSChans.UpdateStateMsg) :
  Forall is_update q → (length q < 128)%nat →
  let st := foldl apply_update st0 q in
  ∃ st' r, scan_result (InitOffset cfg) max st r st' ∧
    PSLock.FindLatestToCommit (PSLock.mkPS st max d cfg) =
      Ret (PSLock.mkPS st' max d cfg, r) ∧
    PSSyncMap.FindLatestToCommit (PSSyncMap.mkPS st max d cfg) =
      Ret (PSSyncMap.mkPS st' max d cfg, r) ∧
    PSChans.FindLatestToCommit (PSChans.mkPS st0 q [] max d cfg) =
      Ret (PSChans.mkPS st' [] [] max d cfg, r).
Proof.
  intros Hq Hlen st. destruct (perf_scan st) as (st' & r & Hf & Hsr).
  exists st', r. split; [done|]. split; [|split].
  - unfold PSLock.FindLatestToCommit. simpl. by rewrite Hf.
  - unfold PSSyncMap.FindLatestToCommit. simpl. by rewrite find_loop_syncmap, Hf.
  - unfold PSChans.FindLatestToCommit, PSChans.send. simpl.
    apply Nat.ltb_lt in Hlen. rewrite Hlen. simpl. rewrite length_app, serve_updates by done.
    simpl. fold st. unfold PSChans.handle. simpl. unfold PSChans.latestToCommitFinder. simpl.
    by rewrite Hf.
Qed.
End Agree.

Definition perf_cfg : TestConfig := NewTestConfig 0 100 10 10 1000 5 "lock" 1 0 false.

Lemma perf_trackers_agree_witness :
  ∃ st' r, scan_result 0 2 {[2 := 0; 0 := 1]} r st' ∧
    PSLock.FindLatestToCommit (PSLock.mkPS {[2 := 0; 0 := 1]} 2 false perf_cfg) =
      Ret (PSLock.mkPS st' 2 false perf_cfg, r) ∧
    PSSyncMap.FindLatestToCommit (PSSyncMap.mkPS {[2 := 0; 0 := 1]} 2 false perf_cfg) =
      Ret (PSSyncMap.mkPS st' 2 false perf_cfg, r) ∧
    PSChans.FindLatestToCommit (PSChans.mkPS {[0 := 1]}
        [PSChans.NewUpdateStateMsg 2 PSChans.ActionType_Add 0] [] 2 false perf_cfg) =
      Ret (PSChans.mkPS st' [] [] 2 false perf_cfg, r).
Proof.
  apply (perf_trackers_agree perf_cfg 2 false) with (st0 := {[0 := 1]})
    (q := [PSChans.NewUpdateStateMsg 2 PSChans.ActionType_Add 0]).
  - vm_compute. congruence.
  - vm_compute. reflexivity.
  - apply Forall_singleton. discriminate.
  - simpl. lia.
Defined.

(** ** What the loops do *)

(** [k] ticks of the append loop. *)
Fixpoint append_ticks (k : nat) (ps : PSLock.PartitionStateLock) :
    outcome PSLock.PartitionStateLock :=
  match k with
  | O => Ret ps
  | S k => ps ← append_ticks k ps; '(ps, _) ← PSLock.appendLoop Tick ps; Ret ps
  end.

(** The append loop never adds offset 1: on a fresh tracker, after any
    positive number [k] of ticks the newest received offset is [k] and the
    tracked offsets are 0 and [2..k], all pending (so after the first tick the
    newest received offset is one that was never added). *)
Theorem append_loop_skips_one (cfg : TestConfig) (k : nat) :
  prefillState cfg ≤ 0 → (0 < k)%nat → Z.of_nat k ≤ max_int64 →
  ∃ ps, append_ticks k (PSLock.NewPartitionStateLock cfg) = Ret ps ∧
    PSLock.MaxReceived ps = Z.of_nat k ∧
    ∀ o, PSLock.State ps !! o =
      if decide (o = 0 ∨ 2 ≤ o ≤ Z.of_nat k) then Some MsgState_Pending else None.
Proof.
  intros Hpre Hk Hb. destruct k as [|k]; [lia|]. clear Hk.
  induction k as [|k IH].
  - eexists. split; [reflexivity|]. split; [done|]. intros o. unfold PSLock.NewPartitionStateLock, prefill.
    destruct (0 <? prefillState cfg) eqn:Hp; zbool; [lia|]. simpl. map_cases.
  - destruct IH as (ps & Hps & Hm & Hst); [lia|].
    change (append_ticks (S (S k)) (PSLock.NewPartitionStateLock cfg)) with
      (ps ← append_ticks (S k) (PSLock.NewPartitionStateLock cfg);
       '(ps, _) ← PSLock.appendLoop Tick ps; Ret ps).
    rewrite Hps. simpl. rewrite Hm. unfold next_offset.
    destruct (Z.of_nat (S k) =? 0) eqn:E; zbool; [lia|]. simpl negb. cbv iota.
    rewrite int64_id by (unfold min_int64, max_int64 in *; lia).
    eexists. split; [reflexivity|]. simpl. split; [lia|]. intros o.
    rewrite lookup_insert, Hst. map_cases.
Qed.

Lemma append_loop_skips_one_witness :
  ∃ ps, append_ticks 1 (PSLock.NewPartitionStateLock perf_cfg) = Ret ps ∧
    PSLock.MaxReceived ps = 1 ∧
    ∀ o, PSLock.State ps !! o =
      if decide (o = 0 ∨ 2 ≤ o ≤ 1) then Some MsgState_Pending else None.
Proof.
  apply (append_loop_skips_one perf_cfg 1).
  - vm_compute. congruence.
  - lia.
  - vm_compute. congruence.
Defined.

(** A request without an update range stops the benchmark: with [UpdateRange]
    0 the trackers the server starts are at position 0, so the first update tick
    after something was received asks for a random number below 0 and panics,
    with either tracker, whatever the other parameters are. *)
Theorem zero_update_range_panics (idx : Z) (item : Runner.TestReq) (rnd : Z → Z) (k : Z)
    (st : gmap Z Z) (d : bool) :
  Runner.req_UpdateRange item = 0 → 0 < k ≤ max_int64 →
  let cfg := Runner.config_of idx item in
  PSLock.updateLoop rnd Tick (PSLock.mkPS st k d cfg) = Panic "invalid argument to Int64N" ∧
  PSSyncMap.updateLoop rnd Tick (PSSyncMap.mkPS st k d cfg) = Panic "invalid argument to Int64N".
Proof.
  intros Hr Hk cfg.
  assert (pick_offset rnd cfg k = Panic "invalid argument to Int64N") as Hp.
  { unfold pick_offset, cfg, Runner.config_of, NewTestConfig. simpl. rewrite Hr.
    destruct (k =? 0) eqn:E; zbool; [lia|].
    change (float64_int (int64 0)) with 0.
    assert (0 ≤ float64_int k) as Hf.
    { unfold float64_int. rewrite Z.sgn_pos by lia. case_match; [lia|].
      apply Z.mul_nonneg_nonneg; [lia|]. apply Z.mul_nonneg_nonneg; [|by apply Z.pow_nonneg].
      assert (0 ≤ Z.abs k / 2 ^ (Z.log2 (Z.abs k) - 52)).
      { apply Z.div_pos; [lia|]. apply Z.pow_pos_nonneg; [done|]. zbool.
        assert (53 ≤ Z.log2 (Z.abs k)); [|lia]. apply Z.log2_le_pow2; lia. }
      case_match; lia. }
    by rewrite Z.min_l by done. }
  unfold PSLock.updateLoop, PSSyncMap.updateLoop. simpl. by rewrite Hp.
Qed.

Lemma zero_update_range_panics_witness :
  let cfg := Runner.config_of 0 (Runner.mkReq 0 100 10 10 1000 "lock") in
  PSLock.updateLoop (λ _, 0) Tick (PSLock.mkPS ∅ 1 false cfg) = Panic "invalid argument to Int64N" ∧
  PSSyncMap.updateLoop (λ _, 0) Tick (PSSyncMap.mkPS ∅ 1 false cfg) = Panic "invalid argument to Int64N".
Proof.
  apply (zero_update_range_panics 0 (Runner.mkReq 0 100 10 10 1000 "lock") (λ _, 0) 1 ∅ false);
    [reflexivity|split; vm_compute; congruence].
Defined.

(** The benchmark server: a request whose body does not parse leaves a test
    for which no goroutine was started, so the next request, whatever it is,
    waits for it forever; and a test of the "chan" scenario (or of an unknown
    one) has no tracker, and running it panics. *)
Theorem bad_request_blocks_the_server (e : error) (s : Runner.Server)
    (body : result (list Runner.TestReq)) :
  Runner.currentTest s = None →
  (∃ s', Runner.testCaseHandler (Err e) s = Ret (true, s') ∧
     Runner.testCaseHandler body s' = Block) ∧
  (∀ cfg cfgs, scenario cfg = "chan"%string →
     Runner.runTests (λ _, false) 0 (cfg :: cfgs) = Panic "nil pointer dereference").
Proof.
  intros Hs. split.
  - unfold Runner.testCaseHandler at 1. rewrite Hs. by eexists.
  - intros cfg cfgs Hc. simpl. unfold Runner.pick_runner. by rewrite Hc.
Qed.

Lemma bad_request_blocks_the_server_witness :
  (∃ s', Runner.testCaseHandler (Err (ErrNew "EOF")) (Runner.mkServer None) = Ret (true, s') ∧
     Runner.testCaseHandler (Ok []) s' = Block) ∧
  (∀ cfg cfgs, scenario cfg = "chan"%string →
     Runner.runTests (λ _, false) 0 (cfg :: cfgs) = Panic "nil pointer dereference").
Proof.
  apply (bad_request_blocks_the_server (ErrNew "EOF") (Runner.mkServer None) (Ok [])). reflexivity.
Defined.
