(* ===== verification/PerfShutdown.v ===== *)
(** * How the benchmarked trackers start and stop (performance/)

    [init] starts three goroutines for each of [numG] and one that waits for
    them and closes [ExitCH], for which main.go waits.  The trackers with a lock
    and with a sync.Map share the interface [TickLoops]; the one with channels
    has a goroutine more, which answers the commit loop, and is modelled with
    the points at which its goroutines wait. *)

From S2P Require Import Prelude GoSem KafkaTracker Performance.

Inductive LoopKind := LAppend | LCommit | LUpdate.

(** What [init] starts for [numG]. *)
Definition loops_of (numG : Z) : list LoopKind :=
  foldr (λ _ ks, LAppend :: LCommit :: LUpdate :: ks) [] (seqZ 0 numG).

Lemma length_loops_of numG : 0 ≤ numG → Z.of_nat (length (loops_of numG)) = 3 * numG.
Proof.
  intros Hn. unfold loops_of.
  assert (∀ l : list Z, length (foldr (λ _ ks, LAppend :: LCommit :: LUpdate :: ks) [] l) =
    (3 * length l)%nat) as -> by (induction l; simpl; lia).
  rewrite length_seqZ. lia.
Qed.

(** ** A lock or a sync.Map *)

Section Runner.
Context {PS : Type} (body : (Z → Z) → LoopKind → TickEvent → PS → outcome (PS * bool))
  (cancel : PS → PS) (ctxDone : PS → bool).

(** An iteration tells whether its loop goes on; only [cancel] cancels. *)
Class TickLoops : Prop := {
  loop_done rnd k ps : ctxDone ps = true → body rnd k Done ps = Ret (ps, false);
  loop_keeps rnd k ev ps ps' go : body rnd k ev ps = Ret (ps', go) → ctxDone ps' = ctxDone ps;
  loop_goes_on rnd k ev ps ps' : body rnd k ev ps = Ret (ps', false) → ctxDone ps = true;
  cancel_done ps : ctxDone (cancel ps) = true }.

(** [wg] counts the goroutines that have not called [Done]. *)
Record Run := mkRun {
  tracker : PS; workers : list (LoopKind * bool); wg : Z; ExitCH_closed : bool }.

Definition init (numG : Z) (ps : PS) : Run :=
  mkRun ps ((λ k, (k, true)) <$> loops_of numG) (3 * numG) false.

Inductive step : Run → Run → Prop :=
| st_loop rnd r i k ev ps go :
    workers r !! i = Some (k, true) → body rnd k ev (tracker r) = Ret (ps, go) →
    step r (mkRun ps (<[i := (k, go)]> (workers r)) (if go : bool then wg r else wg r - 1) (ExitCH_closed r))
| st_cancel r : step r (mkRun (cancel (tracker r)) (workers r) (wg r) (ExitCH_closed r))
| st_exit r :
    wg r = 0 → ExitCH_closed r = false → step r (mkRun (tracker r) (workers r) (wg r) true).

Definition running (ws : list (LoopKind * bool)) : list (LoopKind * bool) := filter (λ w, w.2 = true) ws.

Record run_ok (r : Run) : Prop := {
  ro_wg : wg r = Z.of_nat (length (running (workers r)));
  ro_exit : ExitCH_closed r = true → running (workers r) = [];
  ro_stop : ctxDone (tracker r) = false → running (workers r) = workers r }.

Lemma running_insert ws i k (go : bool) : ws !! i = Some (k, true) →
  Z.of_nat (length (running (<[i := (k, go)]> ws))) =
  Z.of_nat (length (running ws)) - (if go then 0 else 1).
Proof.
  intros Hi. rewrite (insert_take_drop ws i (k, go)) by (by eapply lookup_lt_Some).
  rewrite <-(take_drop_middle ws i (k, true)) at 3 by done.
  unfold running. rewrite !filter_app, !length_app, !filter_cons. simpl. destruct go; simpl; lia.
Qed.

Context {HT : TickLoops}.

Lemma runner_step_ok r r' : run_ok r → step r r' → run_ok r'.
Proof using HT.
  intros [Hwg Hex Hst] Hs. destruct Hs as [rnd r i k ev ps go Hi Hb|r|r Hz He]; split; simpl.
  - pose proof (running_insert _ _ _ go Hi). destruct go; lia.
  - intros Hc. specialize (Hex Hc). exfalso.
    assert ((k, true) ∈ running (workers r)) as Hin.
    { apply list_elem_of_filter. split; [done|by eapply list_elem_of_lookup_2]. }
    rewrite Hex in Hin. set_solver.
  - intros Hd. rewrite (loop_keeps _ _ _ _ _ _ Hb) in Hd. destruct go.
    + rewrite list_insert_id by done. by apply Hst.
    + apply loop_goes_on in Hb. congruence.
  - done.
  - done.
  - intros Hd. by rewrite cancel_done in Hd.
  - done.
  - intros _. rewrite Hwg in Hz. apply nil_length_inv. lia.
  - done.
Qed.

Lemma runner_init_ok numG ps : 0 ≤ numG → run_ok (init numG ps).
Proof using.
  intros Hn. assert (running ((λ k, (k, true)) <$> loops_of numG) = (λ k, (k, true)) <$> loops_of numG) as Hr.
  { apply filter_all, Forall_fmap, Forall_true. done. }
  split; simpl; [|done|done].
  rewrite Hr, length_fmap, length_loops_of; done.
Qed.

Lemma runner_reach_ok numG ps r : 0 ≤ numG → rtc step (init numG ps) r → run_ok r.
Proof using HT. intros Hn Hrun. eapply rtc_invariant; [apply runner_step_ok|exact Hrun|by apply runner_init_ok]. Qed.

(** The goroutines that run can return, one after the other. *)
Lemma stop_all n : ∀ r, run_ok r → ctxDone (tracker r) = true → length (running (workers r)) = n →
  ∃ ws, nsteps step n r (mkRun (tracker r) ws 0 (ExitCH_closed r)) ∧ running ws = [].
Proof using HT.
  induction n as [|n IH]; intros r Hok Hd Hn.
  - exists (workers r). assert (wg r = 0) as Hz by (rewrite (ro_wg _ Hok), Hn; done).
    split; [|by apply nil_length_inv]. destruct r; simpl in *; subst. apply nsteps_O.
  - destruct (running (workers r)) as [|[k b] l] eqn:Hr; [done|].
    assert ((k, b) ∈ running (workers r)) as Hin by (rewrite Hr; left).
    apply list_elem_of_filter in Hin as [Hb Hin]. simpl in Hb. subst b.
    apply list_elem_of_lookup in Hin as [i Hi].
    pose proof (st_loop (λ _, 0) r i k Done (tracker r) false Hi (loop_done _ k _ Hd)) as Hs.
    pose proof (runner_step_ok _ _ Hok Hs) as Hok'.
    destruct (IH _ Hok' Hd) as (ws & Hsteps & Hws).
    + simpl. pose proof (running_insert _ _ _ false Hi) as Hl. rewrite Hr in Hl. simpl in Hl, Hn. lia.
    + exists ws. split; [|done]. eapply nsteps_l; [exact Hs|exact Hsteps].
Qed.

(** Wherever its goroutines are, a cancelled run can still end: each of them
    returns once and then [ExitCH] is closed.  When it is closed none runs. *)
Lemma cancelled_run_ends numG ps r : 0 ≤ numG → rtc step (init numG ps) r →
  (ExitCH_closed r = true → running (workers r) = []) ∧
  (ctxDone (tracker r) = true → ExitCH_closed r = false →
   ∃ r', nsteps step (S (length (running (workers r)))) r r' ∧ ExitCH_closed r' = true ∧ tracker r' = tracker r).
Proof using HT.
  intros Hn Hrun. pose proof (runner_reach_ok _ _ _ Hn Hrun) as Hok. split; [apply (ro_exit _ Hok)|].
  intros Hd He. destruct (stop_all _ r Hok Hd eq_refl) as (ws & Hsteps & Hws). rewrite He in Hsteps.
  exists (mkRun (tracker r) ws 0 true). split; [|done].
  rewrite <-Nat.add_1_r. eapply nsteps_trans; [exact Hsteps|]. apply nsteps_once. by apply st_exit.
Qed.
End Runner.

Definition lock_body (rnd : Z → Z) (k : LoopKind) : TickEvent → PSLock.PartitionStateLock →
    outcome (PSLock.PartitionStateLock * bool) :=
  match k with LAppend => PSLock.appendLoop | LCommit => PSLock.commitLoop | LUpdate => PSLock.updateLoop rnd end.
Definition syncmap_body (rnd : Z → Z) (k : LoopKind) : TickEvent → PSSyncMap.PartitionStateSyncMap →
    outcome (PSSyncMap.PartitionStateSyncMap * bool) :=
  match k with LAppend => PSSyncMap.appendLoop | LCommit => PSSyncMap.commitLoop | LUpdate => PSSyncMap.updateLoop rnd end.

#[global] Instance lock_loops : TickLoops lock_body PSLock.cancel PSLock.ctxDone.
Proof.
  split.
  - intros rnd [] ps Hd; simpl; by rewrite Hd.
  - intros rnd [] [] ps ps' go; simpl;
      unfold PSLock.appendLoop, PSLock.commitLoop, PSLock.updateLoop, PSLock.FindLatestToCommit, mbind, outcome_bind;
      intros; repeat case_match; by simplify_eq/=.
  - intros rnd [] [] ps ps'; simpl;
      unfold PSLock.appendLoop, PSLock.commitLoop, PSLock.updateLoop, PSLock.FindLatestToCommit, mbind, outcome_bind;
      intros; repeat case_match; by simplify_eq/=.
  - done.
Qed.

#[global] Instance syncmap_loops : TickLoops syncmap_body PSSyncMap.cancel PSSyncMap.ctxDone.
Proof.
  split.
  - intros rnd [] ps Hd; simpl; by rewrite Hd.
  - intros rnd [] [] ps ps' go; simpl;
      unfold PSSyncMap.appendLoop, PSSyncMap.commitLoop, PSSyncMap.updateLoop, PSSyncMap.FindLatestToCommit, mbind, outcome_bind;
      intros; repeat case_match; by simplify_eq/=.
  - intros rnd [] [] ps ps'; simpl;
      unfold PSSyncMap.appendLoop, PSSyncMap.commitLoop, PSSyncMap.updateLoop, PSSyncMap.FindLatestToCommit, mbind, outcome_bind;
      intros; repeat case_match; by simplify_eq/=.
  - done.
Qed.

(** C37. The trackers with a lock and with a sync.Map shut down: in every run of
    [init], a closed [ExitCH] means that none of the goroutines runs any more,
    and after [cancel] the run can end from wherever it is, in one step per
    goroutine that is left and one to close the channel, none of which touches
    the tracker. *)
Theorem runners_can_exit (numG : Z) : 0 ≤ numG →
  (∀ ps r, rtc (step lock_body PSLock.cancel) (init numG ps) r →
     (ExitCH_closed r = true → running (workers r) = []) ∧
     (PSLock.ctxDone (tracker r) = true → ExitCH_closed r = false →
      ∃ r', nsteps (step lock_body PSLock.cancel) (S (length (running (workers r)))) r r' ∧
        ExitCH_closed r' = true ∧ tracker r' = tracker r)) ∧
  (∀ ps r, rtc (step syncmap_body PSSyncMap.cancel) (init numG ps) r →
     (ExitCH_closed r = true → running (workers r) = []) ∧
     (PSSyncMap.ctxDone (tracker r) = true → ExitCH_closed r = false →
      ∃ r', nsteps (step syncmap_body PSSyncMap.cancel) (S (length (running (workers r)))) r r' ∧
        ExitCH_closed r' = true ∧ tracker r' = tracker r)).
Proof.
  intros Hn. split; intros ps r Hrun.
  - apply (cancelled_run_ends lock_body PSLock.cancel PSLock.ctxDone numG ps r Hn Hrun).
  - apply (cancelled_run_ends syncmap_body PSSyncMap.cancel PSSyncMap.ctxDone numG ps r Hn Hrun).
Qed.

(** ** Channels *)

Module Chans.
Import PSChans.

(** A goroutine of [init]: at its [select], sending on [updateStateCH], waiting
    for the answer to its request, returned. *)
Inductive WorkerPC := WIdle | WSend (msg : UpdateStateMsg) | WResult | WReturned.
(** [updateStateLoop]: at its [select], sending an answer, returned. *)
Inductive LoopPC := LIdle | LResult (latest : Z) | LReturned.

Record Run := mkRun {
  ps : PartitionStateChans; updateLoopPC : LoopPC; workers : list (LoopKind * WorkerPC);
  wg : Z; ExitCH_closed : bool }.

Definition init (cfg : TestConfig) : Run :=
  mkRun (NewPartitionStateChans cfg) LIdle ((λ k, (k, WIdle)) <$> loops_of (numG cfg)) (1 + 3 * numG cfg) false.

Definition with_max (max : Z) (ps : PartitionStateChans) : PartitionStateChans :=
  mkPS (State ps) (updateStateCH ps) (findResultCH ps) max (ctxDone ps) (cfg ps).
Definition with_queue (q : list UpdateStateMsg) (ps : PartitionStateChans) : PartitionStateChans :=
  mkPS (State ps) q (findResultCH ps) (MaxReceived ps) (ctxDone ps) (cfg ps).
Definition with_result (st : gmap Z Z) (res : list Z) (ps : PartitionStateChans) : PartitionStateChans :=
  mkPS st (updateStateCH ps) res (MaxReceived ps) (ctxDone ps) (cfg ps).
Definition with_cfg (c : TestConfig) (ps : PartitionStateChans) : PartitionStateChans :=
  mkPS (State ps) (updateStateCH ps) (findResultCH ps) (MaxReceived ps) (ctxDone ps) c.

Definition is_find (msg : UpdateStateMsg) : bool :=
  match actionType msg with ActionType_FindLastestToCommit => true | _ => false end.
Definition find_msg : UpdateStateMsg := NewUpdateStateMsg (-1) ActionType_FindLastestToCommit MsgState_Success.

(** What a goroutine does between two points where it waits. *)
Definition worker_step (rnd : Z → Z) (ev : TickEvent) (k : LoopKind) (pc : WorkerPC) (ps : PartitionStateChans) :
    outcome (PartitionStateChans * WorkerPC) :=
  match pc with
  | WIdle =>
      match ev with
      | Done => if ctxDone ps then Ret (ps, WReturned) else Block
      | Tick =>
          match k with
          | LAppend =>
              let '(max, next) := next_offset (MaxReceived ps) in
              Ret (with_max max ps, WSend (NewUpdateStateMsg next ActionType_Add MsgState_Pending))
          | LUpdate =>
              o ← pick_offset rnd (cfg ps) (MaxReceived ps);
              Ret (ps, match o with
                       | None => WIdle
                       | Some randInt => WSend (NewUpdateStateMsg randInt ActionType_Add MsgState_Success)
                       end)
          | LCommit => Ret (ps, if ctxDone ps then WReturned else WSend find_msg)
          end
      end
  | WSend msg => ps ← send msg ps; Ret (ps, if is_find msg then WResult else WIdle)
  | WResult =>
      match findResultCH ps with
      | [] => Block
      | latest :: rest =>
          Ret (with_cfg (set_InitOffset latest (cfg ps)) (with_result (State ps) rest ps), WIdle)
      end
  | WReturned => Block
  end.

(** The same for [updateStateLoop]. *)
Definition loop_step (ev : TickEvent) (pc : LoopPC) (ps : PartitionStateChans) :
    outcome (PartitionStateChans * LoopPC) :=
  match pc, ev with
  | LIdle, Done => if ctxDone ps then Ret (ps, LReturned) else Block
  | LIdle, Tick =>
      match updateStateCH ps with
      | [] => Block
      | msg :: rest =>
          if is_find msg then
            '(st, latest) ← latestToCommitFinder ps;
            Ret (with_result st (findResultCH ps) (with_queue rest ps), LResult latest)
          else ps ← handle msg (with_queue rest ps); Ret (ps, LIdle)
      end
  | LResult latest, _ =>
      if (length (findResultCH ps) <? 64)%nat
      then Ret (with_result (State ps) (findResultCH ps ++ [latest]) ps, LIdle) else Block
  | LReturned, _ => Block
  end.

Definition done_worker (old new : WorkerPC) : Z := match old, new with WReturned, _ => 0 | _, WReturned => 1 | _, _ => 0 end.
Definition done_loop (old new : LoopPC) : Z := match old, new with LReturned, _ => 0 | _, LReturned => 1 | _, _ => 0 end.

Inductive step : Run → Run → Prop :=
| st_worker rnd ev r i k pc ps' pc' :
    workers r !! i = Some (k, pc) → worker_step rnd ev k pc (ps r) = Ret (ps', pc') →
    step r (mkRun ps' (updateLoopPC r) (<[i := (k, pc')]> (workers r)) (wg r - done_worker pc pc') (ExitCH_closed r))
| st_loop ev r ps' pc' :
    loop_step ev (updateLoopPC r) (ps r) = Ret (ps', pc') →
    step r (mkRun ps' pc' (workers r) (wg r - done_loop (updateLoopPC r) pc') (ExitCH_closed r))
| st_cancel r : step r (mkRun (cancel (ps r)) (updateLoopPC r) (workers r) (wg r) (ExitCH_closed r))
| st_exit r :
    wg r = 0 → ExitCH_closed r = false → step r (mkRun (ps r) (updateLoopPC r) (workers r) (wg r) true).

(** [wg] counts who has not returned. *)
Definition active (ws : list (LoopKind * WorkerPC)) : Z :=
  foldr (λ w n, (match w.2 with WReturned => 0 | _ => 1 end) + n) 0 ws.
Definition loop_active (pc : LoopPC) : Z := match pc with LReturned => 0 | _ => 1 end.

Lemma active_nonneg ws : 0 ≤ active ws.
Proof. induction ws as [|[k []] ws IH]; simpl; lia. Qed.

Lemma active_insert ws i k pc pc' : ws !! i = Some (k, pc) → pc ≠ WReturned →
  active (<[i := (k, pc')]> ws) = active ws - done_worker pc pc'.
Proof.
  revert i. induction ws as [|[k0 pc0] ws IH]; intros [|i] Hi Hne; simpl in *; try done.
  - injection Hi as -> ->. by destruct pc, pc'; simpl; try lia.
  - rewrite IH by done. lia.
Qed.

Lemma active_zero ws i k pc : active ws = 0 → ws !! i = Some (k, pc) → pc = WReturned.
Proof.
  revert i. induction ws as [|[k0 pc0] ws IH]; intros [|i] H0 Hi; simpl in *; try done;
    pose proof (active_nonneg ws).
  - injection Hi as -> ->. destruct pc; done || lia.
  - apply (IH i); [destruct pc0; lia|done].
Qed.

Record run_ok (r : Run) : Prop := {
  ro_wg : wg r = loop_active (updateLoopPC r) + active (workers r);
  ro_exit : ExitCH_closed r = true → wg r = 0 }.

Lemma chan_step_ok r r' : run_ok r → step r r' → run_ok r'.
Proof.
  intros [Hwg Hex] Hs. destruct Hs as [rnd ev r i k pc ps' pc' Hi Hw|ev r ps' pc' Hl|r|r Hz He]; split; simpl; try done.
  - assert (pc ≠ WReturned) as Hne by (intros ->; simpl in Hw; by destruct ev).
    rewrite (active_insert _ _ _ _ _ Hi Hne). lia.
  - intros Hc. specialize (Hex Hc). exfalso.
    pose proof (active_nonneg (workers r)). assert (active (workers r) = 0) as H0
      by (destruct (updateLoopPC r); simpl in *; lia).
    rewrite (active_zero _ _ _ _ H0 Hi) in Hw. by destruct ev.
  - assert (updateLoopPC r ≠ LReturned) as Hne by (intros E; rewrite E in Hl; by destruct ev).
    destruct (updateLoopPC r), pc'; simpl in *; done || lia.
  - intros Hc. specialize (Hex Hc). exfalso. pose proof (active_nonneg (workers r)).
    assert (updateLoopPC r = LReturned) as E by (destruct (updateLoopPC r); simpl in *; done || lia).
    rewrite E in Hl. by destruct ev.
Qed.

Lemma chan_reach_ok cfg r : 0 ≤ numG cfg → rtc step (init cfg) r → run_ok r.
Proof.
  intros Hn Hrun. eapply rtc_invariant; [apply chan_step_ok|exact Hrun|]. split; [|done]. simpl.
  pose proof (length_loops_of (numG cfg) Hn) as Hl.
  assert (∀ l : list LoopKind, active ((λ k, (k, WIdle)) <$> l) = Z.of_nat (length l)) as ->; [|lia].
  intros l. induction l as [|x l IH]; [done|].
  change (1 + active ((λ k, (k, WIdle)) <$> l) = Z.of_nat (S (length l))). lia.
Qed.

(** The channels are closed when every goroutine has returned: nothing is sent
    on a closed channel. *)
Lemma exit_is_quiet cfg r : 0 ≤ numG cfg → rtc step (init cfg) r → ExitCH_closed r = true →
  updateLoopPC r = LReturned ∧ ∀ i k pc, workers r !! i = Some (k, pc) → pc = WReturned.
Proof.
  intros Hn Hrun Hc. destruct (chan_reach_ok _ _ Hn Hrun) as [Hwg Hex]. rewrite (Hex Hc) in Hwg.
  pose proof (active_nonneg (workers r)). split.
  - destruct (updateLoopPC r); simpl in *; done || lia.
  - intros i k pc. apply active_zero. destruct (updateLoopPC r); simpl in *; lia.
Qed.

(** A commit loop waits for an answer that nobody gives. *)
Definition orphaned (i : nat) (r : Run) : Prop :=
  run_ok r ∧ updateLoopPC r = LReturned ∧ findResultCH (ps r) = [] ∧
  workers r !! i = Some (LCommit, WResult).

Lemma worker_keeps_results rnd ev k pc ps ps' pc' :
  findResultCH ps = [] → worker_step rnd ev k pc ps = Ret (ps', pc') → findResultCH ps' = [] ∧ pc ≠ WResult.
Proof.
  intros Hr. destruct pc, ev, k; simpl; unfold send, mbind, outcome_bind; try rewrite Hr; intros;
    repeat case_match; by simplify_eq/=.
Qed.

Lemma orphaned_step i r r' : orphaned i r → step r r' → orphaned i r'.
Proof.
  intros (Hok & Hl & Hr & Hi) Hs. split; [by eapply chan_step_ok|].
  destruct Hs as [rnd ev r j k pc ps' pc' Hj Hw|ev r ps' pc' Hls|r|r Hz He]; simpl in *; try done.
  - destruct (worker_keeps_results _ _ _ _ _ _ _ Hr Hw) as [Hr' Hne]. split_and!; [done..|].
    destruct (decide (i = j)) as [->|Hij]; [congruence|]. by rewrite list_lookup_insert_ne.
  - rewrite Hl in Hls. by destruct ev.
Qed.

Lemma orphaned_forever i r r' : orphaned i r → rtc step r r' → ExitCH_closed r' = false.
Proof.
  intros Ho Hrun.
  assert (orphaned i r') as (Hok & _ & _ & Hi) by (eapply rtc_invariant; [apply orphaned_step|exact Hrun|exact Ho]).
  destruct (ExitCH_closed r') eqn:Hc; [|done].
  pose proof (ro_exit _ Hok Hc) as Hz. pose proof (ro_wg _ Hok) as Hwg. rewrite Hz in Hwg.
  pose proof (active_nonneg (workers r')).
  assert (active (workers r') = 0) as H0 by (destruct (updateLoopPC r'); simpl in *; lia).
  by pose proof (active_zero _ _ _ _ H0 Hi).
Qed.

Lemma commit_worker numG : 1 ≤ numG → loops_of numG !! 1%nat = Some LCommit.
Proof. intros Hn. unfold loops_of. rewrite seqZ_cons by lia. done. Qed.

(** The tracker with channels need not shut down: a commit loop that has sent
    its request when the context is cancelled waits for an answer that
    [updateStateLoop], which may return first, never gives; then [ExitCH] stays
    open however the run goes on, and so does the test that waits for it. *)
Theorem chan_runner_hangs (cfg : TestConfig) : 1 ≤ numG cfg →
  ∃ r, rtc step (init cfg) r ∧ ctxDone (ps r) = true ∧
    ∀ r', rtc step r r' → ExitCH_closed r' = false.
Proof.
  intros Hn. set (ws := (λ k, (k, WIdle)) <$> loops_of (numG cfg)).
  assert (ws !! 1%nat = Some (LCommit, WIdle)) as Hi
    by (unfold ws; by rewrite list_lookup_fmap, commit_worker).
  set (p0 := NewPartitionStateChans cfg). set (n := 1 + 3 * numG cfg).
  set (ws1 := <[1%nat := (LCommit, WSend find_msg)]> ws). set (ws2 := <[1%nat := (LCommit, WResult)]> ws1).
  assert (ws1 !! 1%nat = Some (LCommit, WSend find_msg)) as Hi1
    by (apply list_lookup_insert_eq; by eapply lookup_lt_Some).
  assert (ws2 !! 1%nat = Some (LCommit, WResult)) as Hi2
    by (apply list_lookup_insert_eq; by eapply lookup_lt_Some).
  set (p1 := with_queue [find_msg] p0).
  assert (rtc step (init cfg) (mkRun (cancel p1) LReturned ws2 (n - 0 - 0 - 1) false)) as Hrun.
  { eapply rtc_l; [exact (st_worker (λ _, 0) Tick (init cfg) 1 LCommit WIdle p0 (WSend find_msg) Hi eq_refl)|].
    eapply rtc_l; [exact (st_worker (λ _, 0) Tick (mkRun p0 LIdle ws1 (n - 0) false) 1 LCommit (WSend find_msg) p1 WResult Hi1 eq_refl)|].
    eapply rtc_l; [apply st_cancel|].
    eapply rtc_l; [apply (st_loop Done _ (cancel p1) LReturned); reflexivity|]. apply rtc_refl. }
  eexists. split; [exact Hrun|]. split; [done|]. intros r' Hr'.
  eapply (orphaned_forever 1); [|exact Hr']. split; [|done].
  eapply chan_reach_ok; [|exact Hrun]. lia.
Qed.
End Chans.

(** A run that was cancelled at once ends in four steps. *)
Lemma runners_can_exit_witness :
  ∃ r', nsteps (step lock_body PSLock.cancel) 4
      (mkRun (PSLock.cancel (PSLock.NewPartitionStateLock perf_cfg)) [(LAppend, true); (LCommit, true); (LUpdate, true)] 3 false) r' ∧
    ExitCH_closed r' = true.
Proof.
  set (ps := PSLock.NewPartitionStateLock perf_cfg).
  destruct (runners_can_exit 1) as [Hlock _]; [lia|].
  destruct (Hlock ps (mkRun (PSLock.cancel ps) [(LAppend, true); (LCommit, true); (LUpdate, true)] 3 false))
    as [_ Hend].
  - apply rtc_once. exact (st_cancel lock_body PSLock.cancel (init 1 ps)).
  - destruct (Hend eq_refl eq_refl) as (r' & Hsteps & Hc & _). exists r'. split; [exact Hsteps|exact Hc].
Defined.

Lemma chan_runner_hangs_witness :
  ∃ r, rtc Chans.step (Chans.init perf_cfg) r ∧ PSChans.ctxDone (Chans.ps r) = true ∧ Chans.ExitCH_closed r = false.
Proof.
  destruct (Chans.chan_runner_hangs perf_cfg) as (r & Hrun & Hd & Hall); [vm_compute; congruence|].
  exists r. split; [exact Hrun|]. split; [exact Hd|]. apply Hall, rtc_refl.
Defined.
