(* ===== verification/Transactions.v ===== *)
(** * Database errors and transactions

    [IsDuplicateKeyErr], unique indexes and the three [TxClosure]s (kafka and kafka-chans,
    kafka-outbox, kafka-cdc).  The database is not under src/: a transaction is
    given by the driver's answers to [BeginTxx], [Commit] and [Rollback], and by
    what transactions promise: work done on the transaction reaches the database
    when the commit succeeds and not otherwise. *)

From S2P Require Import Prelude GoSem.

(** ** Errors *)

(** [errors.As(err, &pgErr)]: the first [*pq.Error] along the [Unwrap] chain. *)
Fixpoint as_pq (err : error) : option string :=
  match err with
  | ErrPq code => Some code
  | ErrWrap _ inner => as_pq inner
  | ErrApp _ _ (Some inner) => as_pq inner
  | _ => None
  end.

Definition ErrDuplicateCode : string := "23505".
Definition NonExistingIntKey : Z := -1001.
Definition JSONParsingError : Z := -1002.

Definition IsDuplicateKeyErr (err : option error) : bool :=
  match err with
  | Some err =>
      match as_pq err with
      | Some code => bool_decide (code = ErrDuplicateCode)
      | None => false
      end
  | None => false
  end.

(** ** Unique indexes *)

(** What an insert into a table with a unique index on [key] answers: a row
    whose key is there is refused, and only such a row is refused with the code
    of a duplicate. *)
Class UniqueIndex {Row Key : Type} (key : Row → Key) (reject : list Row → Row → option error) : Prop := {
  unique_refuses rows r : key r ∈ key <$> rows → ∃ e, reject rows r = Some e;
  unique_code rows r e :
    reject rows r = Some e → IsDuplicateKeyErr (Some e) = true → key r ∈ key <$> rows }.

(** The index alone. *)
Definition unique_reject {Row Key} `{EqDecision Key} (key : Row → Key) (rows : list Row) (r : Row) :
    option error :=
  if decide (key r ∈ key <$> rows) then Some (ErrPq ErrDuplicateCode) else None.

#[global] Instance unique_reject_unique {Row Key} `{EqDecision Key} (key : Row → Key) :
  UniqueIndex key (unique_reject key).
Proof.
  split; unfold unique_reject; intros rows r; [intros Hr|intros e]; case_decide; try done. by eexists.
Qed.

(** ** Transactions *)

(** The driver's answers for one transaction. *)
Record TxAnswers := mkTx {
  begin_err : option error;
  commit_err : option error;
  rollback_err : option error;
}.

Definition tx_fine : TxAnswers := mkTx None None None.

(** kafka-outbox. *)
Module OutboxTx.
Section Closure.
Context {DB W T : Type}.

(** The state is the database and the rest of the world ([W]: trackers,
    messages sent), which no rollback undoes.  [fn] works on the transaction's
    copy of the database.  A panic of [fn] rolls back and goes on. *)
Definition TxClosure (tx : TxAnswers) (fn : GO (DB * W) (result T)) :
    GO (DB * W) (result T) := λ '(db, w),
  match begin_err tx with
  | Some err => Ret (Err (ErrWrap "failed to begin transaction: " err), (db, w))
  | None =>
      match fn (db, w) with
      | Panic r => Panic r
      | Block => Block
      | Ret (Err err, (_, w)) =>
          match rollback_err tx with
          | Some rbErr => Ret (Err (ErrWrap "tx failed, rollback failed" err), (db, w))
          | None => Ret (Err err, (db, w))
          end
      | Ret (Ok res, (db', w)) =>
          match commit_err tx with
          | Some err => Ret (Err (ErrWrap "failed to commit transaction: " err), (db, w))
          | None => Ret (Ok res, (db', w))
          end
      end
  end.
End Closure.
End OutboxTx.
Export OutboxTx.

(** kafka and kafka-chans: a begin that fails panics, and the results are not
    named, so an error of the commit is printed and not returned. *)
Module KafkaTx.
Definition TxClosure {DB W T} (tx : TxAnswers) (fn : GO (DB * W) (result T)) :
    GO (DB * W) (result T) := λ '(db, w),
  match begin_err tx with
  | Some err => Panic "unable to start TX"
  | None =>
      match fn (db, w) with
      | Panic r => Panic r
      | Block => Block
      | Ret (Err err, (_, w)) => Ret (Err err, (db, w))
      | Ret (Ok res, (db', w)) =>
          match commit_err tx with
          | Some err => Ret (Ok res, (db, w))
          | None => Ret (Ok res, (db', w))
          end
      end
  end.

Definition IsDuplicateKeyErr := Transactions.IsDuplicateKeyErr.
End KafkaTx.

Module ChansTx.
Definition TxClosure {DB W T} := @KafkaTx.TxClosure DB W T.
Definition IsDuplicateKeyErr := Transactions.IsDuplicateKeyErr.
End ChansTx.

Module CdcTx.
Definition TxClosure {DB W T} := @OutboxTx.TxClosure DB W T.
End CdcTx.

(** ** Properties *)

Section Facts.
Context {DB W T : Type}.
Implicit Types fn : GO (DB * W) (result T).

Lemma TxClosure_ok tx fn db w db' w' res :
  TxClosure tx fn (db, w) = Ret (Ok res, (db', w')) →
  fn (db, w) = Ret (Ok res, (db', w')) ∧ begin_err tx = None ∧ commit_err tx = None.
Proof. unfold TxClosure. repeat case_match; naive_solver. Qed.

Lemma TxClosure_err tx fn db w db' w' e :
  TxClosure tx fn (db, w) = Ret (Err e, (db', w')) → db' = db.
Proof. unfold TxClosure. repeat case_match; naive_solver. Qed.

(** C18. A transaction of the outbox and CDC services is all or nothing and
    says which: the call reports success exactly when the transaction began,
    the function succeeded and the commit succeeded, and then the database is
    the one the function left; when it reports an error the database is
    untouched. *)
Theorem TxClosure_atomic (tx : TxAnswers) fn (db : DB) (w : W) (r : result T)
    (db' : DB) (w' : W) :
  TxClosure tx fn (db, w) = Ret (r, (db', w')) →
  match r with
  | Ok res => begin_err tx = None ∧ commit_err tx = None ∧ fn (db, w) = Ret (Ok res, (db', w'))
  | Err _ => db' = db ∧
      (begin_err tx ≠ None ∨ (∃ e s, fn (db, w) = Ret (Err e, s)) ∨
       (commit_err tx ≠ None ∧ ∃ res s, fn (db, w) = Ret (Ok res, s)))
  end.
Proof. unfold TxClosure. repeat case_match; naive_solver. Qed.

(** The kafka and kafka-chans transactions do not: when the commit fails
    the call reports success although the database is untouched. *)
Theorem KafkaTx_loses_commit_error (tx : TxAnswers) (e : error) fn (db db1 : DB) (w w1 : W)
    (res : T) :
  begin_err tx = None → commit_err tx = Some e → fn (db, w) = Ret (Ok res, (db1, w1)) →
  KafkaTx.TxClosure tx fn (db, w) = Ret (Ok res, (db, w1)) ∧
  ChansTx.TxClosure tx fn (db, w) = Ret (Ok res, (db, w1)).
Proof. intros Hb Hc Hf. unfold ChansTx.TxClosure, KafkaTx.TxClosure. by rewrite Hb, Hf, Hc. Qed.
End Facts.

Lemma TxClosure_atomic_witness :
  begin_err tx_fine = None ∧ commit_err tx_fine = None ∧
  (λ '(db, w), Ret (Ok 7, (db ++ [1], w)) : outcome (result Z * (list Z * Z))) ([], 0) =
    Ret (Ok 7, ([1], 0)).
Proof.
  apply (TxClosure_atomic tx_fine
    (λ '(db, w), Ret (Ok 7, (db ++ [1], w)) : outcome (result Z * (list Z * Z)))
    [] 0 (Ok 7) [1] 0). reflexivity.
Defined.

Lemma KafkaTx_loses_commit_error_witness :
  KafkaTx.TxClosure (mkTx None (Some (ErrExt "conn")) None)
    (λ '(db, w), Ret (Ok 7, (db ++ [1], w)) : outcome (result Z * (list Z * Z))) ([], 0) =
    Ret (Ok 7, ([], 0)) ∧
  ChansTx.TxClosure (mkTx None (Some (ErrExt "conn")) None)
    (λ '(db, w), Ret (Ok 7, (db ++ [1], w)) : outcome (result Z * (list Z * Z))) ([], 0) =
    Ret (Ok 7, ([], 0)).
Proof.
  apply (KafkaTx_loses_commit_error (mkTx None (Some (ErrExt "conn")) None) (ErrExt "conn")
    (λ '(db, w), Ret (Ok 7, (db ++ [1], w)) : outcome (result Z * (list Z * Z))) [] [1] 0 0 7);
    reflexivity.
Defined.
