(* ===== verification/KafkaEvents.v ===== *)
(** * Events and their storage (kafka, kafka-chans)

    The random keys every service names its events by ([Keys], four copies of
    one function), the event row of kafka and kafka-chans with its repository
    (internal/repo), the message that carries it (internal/shared), and the
    handlers that store what the consumers received (cmd/server).  The
    generator of math/rand, json and the database are arguments. *)

From S2P Require Import Prelude GoSem KafkaTracker KafkaConsumer KafkaChans Transactions.
From Stdlib Require Import Ascii.

(** ** Random keys *)

Module Keys.

Definition charset : string := "abcdefghijklmnopqrstuvwxyzABCDEFGHIJKLMNOPQRSTUVWXYZ0123456789".

Section Keys.
(** [Intn n r]: the number drawn, and the generator after it. *)
Context {Rand : Type} (Intn : Z → Rand → Z * Rand).

(** [b[i] = charset[..]], for [n] positions. *)
Fixpoint fill (n : nat) (r : Rand) : outcome (string * Rand) :=
  match n with
  | O => Ret (EmptyString, r)
  | S n =>
      let '(i, r) := Intn (Z.of_nat (String.length charset)) r in
      match (if i <? 0 then None else String.get (Z.to_nat i) charset) with
      | None => Panic "index out of range"
      | Some c => '(s, r) ← fill n r; Ret (String c s, r)
      end
  end.

Definition GenerateRandomString (length : Z) (r : Rand) : outcome (string * Rand) :=
  if length <? 0 then Panic "makeslice: len out of range" else fill (Z.to_nat length) r.

(** What [rand.Intn] documents. *)
Class IntnLaw : Prop := Intn_range n r : 0 < n → 0 ≤ (Intn n r).1 < n.

(** The numbers drawn for a key. *)
Fixpoint draws (n : nat) (r : Rand) : list Z * Rand :=
  match n with
  | O => ([], r)
  | S n => let '(i, r) := Intn 62 r in let '(l, r) := draws n r in (i :: l, r)
  end.
End Keys.

Definition letter (i : Z) : ascii := default zero (String.get (Z.to_nat i) charset).
Definition of_draws (l : list Z) : string := foldr (λ i s, String (letter i) s) EmptyString l.

(** The 62 letters and digits, each once. *)
Lemma letter_inj i j : 0 ≤ i < 62 → 0 ≤ j < 62 → letter i = letter j → i = j.
Proof.
  intros Hi Hj Heq.
  assert (NoDup (letter <$> seqZ 0 62)) as Hnd by (apply (bool_decide_unpack _); vm_compute; exact I).
  assert (Hl : ∀ k, 0 ≤ k < 62 → (letter <$> seqZ 0 62) !! Z.to_nat k = Some (letter k)).
  { intros k Hk. rewrite list_lookup_fmap, lookup_seqZ_lt by lia. simpl. f_equal. f_equal. lia. }
  pose proof (Hl i Hi) as Hli. rewrite Heq in Hli.
  pose proof (NoDup_lookup _ _ _ _ Hnd Hli (Hl j Hj)). lia.
Qed.

Lemma letter_get i : 0 ≤ i < 62 → String.get (Z.to_nat i) charset = Some (letter i).
Proof.
  intros Hi. unfold letter. destruct (String.get _ _) eqn:E; [done|].
  assert (∀ k, (k < 62)%nat → is_Some (String.get k charset)) as Hall.
  { intros k Hk. do 62 (destruct k as [|k]; [by eexists|]). lia. }
  destruct (Hall (Z.to_nat i) ltac:(lia)) as [c Hc]. congruence.
Qed.

Lemma of_draws_inj l l' : Forall (λ i, 0 ≤ i < 62) l → Forall (λ i, 0 ≤ i < 62) l' →
  of_draws l = of_draws l' → l = l'.
Proof.
  intros Hl. revert l'. induction Hl as [|i l Hi Hl IH]; intros l' Hl' Heq; destruct Hl' as [|j l' Hj Hl'];
    simplify_eq/=; [done|]. f_equal; [by apply letter_inj|by apply IH].
Qed.

Section KeyFacts.
Context {Rand : Type} (Intn : Z → Rand → Z * Rand) {HI : IntnLaw Intn}.

Lemma draws_range n : ∀ r, Forall (λ i, 0 ≤ i < 62) (draws Intn n r).1 ∧ length (draws Intn n r).1 = n.
Proof using HI.
  induction n as [|n IH]; intros r; simpl; [done|].
  pose proof (HI 62 r ltac:(lia)) as Hi. destruct (Intn 62 r) as [i r1].
  destruct (IH r1) as [Hf Hlen]. destruct (draws Intn n r1) as [l r2]. simpl in *. split; [by constructor|lia].
Qed.

(** A key is the letters of its draws: it has the length asked for, and the
    function never goes out of range. *)
Lemma GenerateRandomString_eq len r : 0 ≤ len →
  GenerateRandomString Intn len r =
    Ret (of_draws (draws Intn (Z.to_nat len) r).1, (draws Intn (Z.to_nat len) r).2).
Proof using HI.
  intros Hlen. unfold GenerateRandomString. rewrite (proj2 (Z.ltb_ge len 0)) by done.
  generalize (Z.to_nat len) as n. clear len Hlen. intros n. revert r.
  induction n as [|n IH]; intros r; [done|]. cbn [fill draws].
  change (Z.of_nat (String.length charset)) with 62.
  pose proof (HI 62 r ltac:(lia)) as Hi. destruct (Intn 62 r) as [i r1]. simpl in Hi.
  rewrite (proj2 (Z.ltb_ge i 0)), letter_get, IH by lia. by destruct (draws Intn n r1).
Qed.

Lemma of_draws_length l : String.length (of_draws l) = length l.
Proof. induction l; simpl; congruence. Qed.

(** Keys collide only when all their draws do: nothing of what was drawn is
    lost in the text. *)
Theorem keys_collide_with_their_draws (len : Z) (r1 r2 r1' r2' : Rand) (k1 k2 : string) :
  0 ≤ len → GenerateRandomString Intn len r1 = Ret (k1, r1') → GenerateRandomString Intn len r2 = Ret (k2, r2') →
  String.length k1 = Z.to_nat len ∧
  (k1 = k2 ↔ (draws Intn (Z.to_nat len) r1).1 = (draws Intn (Z.to_nat len) r2).1).
Proof using HI.
  intros Hlen. rewrite !GenerateRandomString_eq by done. intros [= <- <-] [= <- <-].
  destruct (draws_range (Z.to_nat len) r1) as [H1 Hl1], (draws_range (Z.to_nat len) r2) as [H2 _].
  split; [by rewrite of_draws_length|]. split; [by apply of_draws_inj|by intros ->].
Qed.
End KeyFacts.
End Keys.

(** ** internal/repo and internal/shared *)

Module KafkaRepo.

Record Event := mkEvent { EventId : string; EventName : string; Timespamp : Z }.

(** Both servers have a table [events]; [W] is the rest of the world. *)
Section Repo.
Context {W Rand : Type} (Intn : Z → Rand → Z * Rand).

Definition NewEvent (now : Z) (r : Rand) : outcome (Event * Rand) :=
  '(id, r) ← Keys.GenerateRandomString Intn 15 r;
  Ret (mkEvent id "test_event" now, r).

Definition EventRepo_Insert (reject : list Event → Event → option error) (e : Event) :
    GO (list Event * W) (result string) := λ '(events, w),
  match reject events e with
  | Some err => Ret (Err err, (events, w))
  | None => Ret (Ok (EventId e), (events ++ [e], w))
  end.

(** [answer] is that of [GetContext], which selects the identifier; an error
    other than "no rows" leaves the event as it was made. *)
Definition EventRepo_Get (answer : result (option string)) : option Event :=
  match answer with
  | Ok (Some id) => Some (mkEvent id "" zero_time)
  | Ok None => None
  | Err _ => Some (mkEvent "" "" zero_time)
  end.
End Repo.

Record Message := mkMessage { Metadata : TopicPartition; msg_Event : Event }.

Definition NewMessage (unmarshal : string → result Event) (metadata : TopicPartition) (data : string) :
    outcome Message :=
  match unmarshal data with
  | Err _ => Panic "err unmarshalling event"
  | Ok e => Ret (mkMessage metadata e)
  end.
End KafkaRepo.

(** The copies of kafka-chans, kafka-outbox and kafka-cdc. *)
Module ChansRepo.
Definition GenerateRandomString {Rand} := @Keys.GenerateRandomString Rand.
Definition Event : Type := KafkaRepo.Event.
Definition NewEvent {Rand} := @KafkaRepo.NewEvent Rand.
Definition EventRepo_Insert {W} := @KafkaRepo.EventRepo_Insert W.
Definition EventRepo_Get := KafkaRepo.EventRepo_Get.
Definition Message : Type := KafkaRepo.Message.
Definition NewMessage := KafkaRepo.NewMessage.
End ChansRepo.
Module OutboxKeys.
Definition GenerateRandomString {Rand} := @Keys.GenerateRandomString Rand.
End OutboxKeys.
Module CdcKeys.
Definition GenerateRandomString {Rand} := @Keys.GenerateRandomString Rand.
End CdcKeys.

Lemma NewEvent_eq {Rand} (Intn : Z → Rand → Z * Rand) {HI : Keys.IntnLaw Intn} now r :
  ∃ e r', KafkaRepo.NewEvent Intn now r = Ret (e, r') ∧ KafkaRepo.Timespamp e = now ∧
    String.length (KafkaRepo.EventId e) = 15%nat.
Proof.
  unfold KafkaRepo.NewEvent. rewrite Keys.GenerateRandomString_eq by done.
  eexists _, _. split; [reflexivity|]. split; [done|]. cbn [KafkaRepo.EventId].
  rewrite Keys.of_draws_length. by apply Keys.draws_range.
Qed.

(** ** cmd/server: the handlers *)

Section Handlers.
Import KafkaRepo.

(** [update]: the tracker's [UpdateState], inside the transaction. *)
Definition save_event {C} (duplicate : option error → bool)
    (update : TopicPartition → Z → GO C unit) (reject : list Event → Event → option error)
    (msg : Message) : GO (list Event * C) (result string) :=
  r ←' EventRepo_Insert reject (msg_Event msg) ;;
  match r with
  | Err err =>
      if duplicate (Some err) then
        go_snd (update (Metadata msg) MsgState_Success) ;;' go_ret (Err (ErrNew "already exists"))
      else
        go_snd (update (Metadata msg) MsgState_Error) ;;' go_ret (Err err)
  | Ok id => go_snd (update (Metadata msg) MsgState_Success) ;;' go_ret (Ok id)
  end.

Definition saveToDB {M} (tx : TxAnswers) (reject : list Event → Event → option error) (msg : Message) :
    GO (list Event * KafkaConsumer M) (result string) :=
  KafkaTx.TxClosure tx (save_event KafkaTx.IsDuplicateKeyErr KafkaConsumer.UpdateState reject msg).

Definition chans_saveToDB {M} (tx : TxAnswers) (reject : list Event → Event → option error) (msg : Message) :
    GO (list Event * ChanConsumer M) (result string) :=
  ChansTx.TxClosure tx (save_event ChansTx.IsDuplicateKeyErr KafkaChans.UpdateState reject msg).

(** [handleMsg] waits until the consumer is ready; its error is dropped. *)
Definition handleMsg {M} (tx : TxAnswers) (reject : list Event → Event → option error) (msg : Message) :
    GO (list Event * KafkaConsumer M) unit := λ '(events, c),
  if KafkaConsumer.ReadyCH_closed c then (saveToDB tx reject msg ;;' go_ret tt) (events, c) else Block.

Definition chans_handleMsg {M} (tx : TxAnswers) (reject : list Event → Event → option error) (msg : Message) :
    GO (list Event * ChanConsumer M) unit := λ '(events, c),
  if KafkaChans.ReadyCH_closed c then (chans_saveToDB tx reject msg ;;' go_ret tt) (events, c) else Block.

(** ** Properties *)

(** The outcome the handlers report for an insert. *)
Definition reported (rejected : option error) : Z :=
  match rejected with
  | None => MsgState_Success
  | Some err => if IsDuplicateKeyErr (Some err) then MsgState_Success else MsgState_Error
  end.

(** Storing a received event, on a consumer with a free mutex that has the
    partition, in a transaction that begins: the tracker is told "success" for
    an event that is new or there already and "error" otherwise, before the
    commit.  The row is added exactly when the insert and the commit succeed;
    the call reports success when the insert does, whatever the commit. *)
Theorem saveToDB_correct {M} (tx : TxAnswers) (reject : list Event → Event → option error) (msg : Message)
    (events : list Event) (c : KafkaConsumer M) (ps : PartitionState) :
  let tp := Metadata msg in
  free c → KafkaConsumer.msgsStateMap c !! Partition tp = Some ps → begin_err tx = None →
  ∃ r events', saveToDB tx reject msg (events, c) =
    Ret (r, (events', KafkaConsumer.set_tracker (Partition tp)
      (update_state (Offset tp) (reported (reject events (msg_Event msg))) ps) c)) ∧
  match reject events (msg_Event msg), commit_err tx with
  | None, None => r = Ok (EventId (msg_Event msg)) ∧ events' = events ++ [msg_Event msg]
  | None, Some _ => r = Ok (EventId (msg_Event msg)) ∧ events' = events
  | Some _, _ => events' = events ∧ ∃ e, r = Err e
  end.
Proof.
  intros tp Hf Hps Hb. unfold saveToDB, KafkaTx.TxClosure, save_event. rewrite Hb.
  unfold EventRepo_Insert, go_bind, go_snd, KafkaTx.IsDuplicateKeyErr, reported. fold tp.
  destruct (reject events (msg_Event msg)) as [err|].
  - destruct (IsDuplicateKeyErr (Some err)); rewrite KafkaConsumer.UpdateState_eq, Hps by done; unfold go_ret;
      (eexists _, _; split; [reflexivity|]); eauto.
  - rewrite KafkaConsumer.UpdateState_eq, Hps by done. unfold go_ret.
    destruct (commit_err tx); (eexists _, _; split; [reflexivity|]); eauto.
Qed.

(** The channel-based server does the same as long as its tracker takes the
    update; a full channel makes the handler wait inside its transaction. *)
Lemma chans_saveToDB_waits {M} (tx : TxAnswers) reject (msg : Message) events (c : ChanConsumer M) ps :
  KafkaChans.msgsStateMap c !! Partition (Metadata msg) = Some ps → begin_err tx = None →
  (128 ≤ length (UpdateStateCH ps))%nat →
  chans_saveToDB tx reject msg (events, c) = Block.
Proof.
  intros Hps Hb Hfull. unfold chans_saveToDB, ChansTx.TxClosure, KafkaTx.TxClosure, save_event. rewrite Hb.
  unfold EventRepo_Insert, go_bind, go_snd, KafkaChans.UpdateState, go_bind, go_get.
  assert (Hs : ∀ m, KafkaChans.on_tracker (Partition (Metadata msg)) (send_update m ps) c = Block).
  { intros m. unfold KafkaChans.on_tracker, send_update. by rewrite (proj2 (Nat.ltb_ge _ _)). }
  destruct (reject events (msg_Event msg)) as [err|]; [destruct (ChansTx.IsDuplicateKeyErr _)|]; simpl; by rewrite Hps, Hs.
Qed.
End Handlers.

Definition one_message : PartitionState :=
  mkPS 0 {[5 := MsgState_Pending]} (Some (mkTP "t" 0 5)) 4 false LoopIdle.
Definition one_message_consumer : KafkaConsumer string :=
  KafkaConsumer.set_tracker 0 one_message demo_consumer.
Definition sample_event : KafkaRepo.Event := KafkaRepo.mkEvent "ev" "test_event" 2.
Definition sample_message : KafkaRepo.Message := KafkaRepo.mkMessage (mkTP "t" 0 5) sample_event.

Lemma saveToDB_correct_witness :
  ∃ r events', saveToDB (mkTx None (Some (ErrExt "conn")) None) (unique_reject KafkaRepo.EventId) sample_message
      ([], one_message_consumer) =
    Ret (r, (events', KafkaConsumer.set_tracker 0
      (update_state 5 MsgState_Success one_message) one_message_consumer)) ∧
    r = Ok "ev"%string ∧ events' = [].
Proof.
  apply (saveToDB_correct (mkTx None (Some (ErrExt "conn")) None) (unique_reject KafkaRepo.EventId) sample_message []
    one_message_consumer one_message); reflexivity.
Defined.
