(* ===== verification/Outbox.v ===== *)
(** * The outbox services (kafka-outbox)

    The tables are lists of rows; what makes a statement fail (constraints,
    connection) is an argument, [reject] for an insert into a table.  The
    payment service writes a payment and its event in one transaction, the
    outbox service sends the pending events and marks them, the inbox service
    stores what the consumer received and
    reports its outcome to the tracker. *)

From S2P Require Import Prelude GoSem KafkaTracker KafkaConsumer KafkaVariants Transactions KafkaEvents.

(** ** Rows *)

Record Event := mkEvent {
  EventId : string;
  EventType : string;
  Timespamp : Z;
  Status : string;
  ParentId : string;
  ParentType : string;
  ParentMetadata : string;
}.

Definition EventType_PaymentCreated : string := "payment_created".
Definition EventStatus_Pending : string := "pending".
Definition EventStatus_Produced : string := "produced".
Definition EventParentType_Payment : string := "payment".

(** [id] and [now]: the random identifier and the time drawn. *)
Definition NewEvent (id : string) (now : Z) (eventName parentId parentType parentMetadata : string) :
    Event :=
  mkEvent id eventName now EventStatus_Pending parentId parentType parentMetadata.

Record InboxEvent := mkInbox {
  inbox_ID : Z;
  InboxEventType : string;
  OutboxEventId : string;
  OutboxCreatedAt : Z;
  CreatedAt : Z;
  inbox_Status : string;
  inbox_ParentId : string;
  inbox_ParentType : string;
  inbox_ParentMetadata : string;
}.

Definition NewInboxEvent (now : Z) (outboxEvent : Event) : InboxEvent :=
  mkInbox 0 (EventType outboxEvent) (EventId outboxEvent) (Timespamp outboxEvent) now
    (Status outboxEvent) (ParentId outboxEvent) (ParentType outboxEvent) (ParentMetadata outboxEvent).

(** [Amount] is a float64 the services only copy: its bits. *)
Record Payment := mkPayment {
  payment_ID : Z;
  OrderNumber : string;
  Amount : Z;
  payment_Status : string;
  payment_CreatedAt : Z;
  UpdatedAt : Z;
}.

Definition NewPayment (now1 now2 : Z) (orderNumber : string) (amount : Z) (status : string) : Payment :=
  mkPayment 0 orderNumber amount status now1 now2.

Record DB := mkDB {
  payment_orders : list Payment;
  events : list Event;
  audit : list InboxEvent;
}.

(** ** Repositories *)

(** Statements on the transaction's copy of the database. *)
Section Repos.
Context {W : Type}.

Definition EventRepo_Insert (reject : list Event → Event → option error) (e : Event) :
    GO (DB * W) (result string) := λ '(db, w),
  match reject (events db) e with
  | Some err => Ret (Err err, (db, w))
  | None => Ret (Ok (EventId e), (mkDB (payment_orders db) (events db ++ [e]) (audit db), w))
  end.

Definition set_event_status (status : string) (e : Event) : Event :=
  mkEvent (EventId e) (EventType e) (Timespamp e) status (ParentId e) (ParentType e)
    (ParentMetadata e).

(** [UPDATE .. SET status WHERE event_id = ..]: the number of rows. *)
Definition EventRepo_UpdateStatusById (failed : option error) (eventId status : string) :
    GO (DB * W) (result string) := λ '(db, w),
  match failed with
  | Some err => Ret (Err err, (db, w))
  | None =>
      Ret (Ok (pretty (Z.of_nat (length (filter (λ e, EventId e = eventId) (events db))))),
        (mkDB (payment_orders db)
           ((λ e, if decide (EventId e = eventId) then set_event_status status e else e)
              <$> events db) (audit db), w))
  end.

(** [sqlx.In] refuses an empty list of values. *)
Definition EventRepo_UpdateStatusByIds (failed : option error) (eventIds : list string)
    (status : string) : GO (DB * W) (result Z) := λ '(db, w),
  let status := if decide (status = ""%string) then EventStatus_Produced else status in
  if decide (eventIds = []) then Ret (Err (ErrExt "empty slice passed to 'in' query"), (db, w))
  else match failed with
  | Some err => Ret (Err err, (db, w))
  | None =>
      Ret (Ok (Z.of_nat (length (filter (λ e, EventId e ∈ eventIds) (events db)))),
        (mkDB (payment_orders db)
           ((λ e, if decide (EventId e ∈ eventIds) then set_event_status status e else e)
              <$> events db) (audit db), w))
  end.

(** What [GetContext] answers: a row, no row, or another error, which [Get]
    does not tell from a row (only the identifier is selected). *)
Inductive QueryAnswer := QueryRow (event_id : string) | QueryNoRows | QueryError (err : error).

Definition empty_event : Event := mkEvent "" "" zero_time "" "" "" "".

Definition EventRepo_Get (answer : QueryAnswer) : option Event :=
  match answer with
  | QueryRow id => Some (mkEvent id "" zero_time "" "" "" "")
  | QueryNoRows => None
  | QueryError _ => Some empty_event
  end.

Definition EventRepo_GetAllPending (failed : option error) : GO (DB * W) (result (list Event)) :=
  λ '(db, w),
    match failed with
    | Some err => Ret (Err err, (db, w))
    | None => Ret (Ok (filter (λ e, Status e = EventStatus_Pending) (events db)), (db, w))
    end.

(** [nextval]: the identifier the sequence gives. *)
Definition PaymentRepo_Insert (reject : list Payment → Payment → option error) (nextval : Z)
    (p : Payment) : GO (DB * W) (result Z) := λ '(db, w),
  match reject (payment_orders db) p with
  | Some err => Ret (Err err, (db, w))
  | None =>
      let row := mkPayment nextval (OrderNumber p) (Amount p) (payment_Status p)
                   (payment_CreatedAt p) (UpdatedAt p) in
      Ret (Ok nextval, (mkDB (payment_orders db ++ [row]) (events db) (audit db), w))
  end.

Definition with_id (id : Z) (e : InboxEvent) : InboxEvent :=
  mkInbox id (InboxEventType e) (OutboxEventId e) (OutboxCreatedAt e) (CreatedAt e) (inbox_Status e)
    (inbox_ParentId e) (inbox_ParentType e) (inbox_ParentMetadata e).
Definition InboxEventRepo_Insert (reject : list InboxEvent → InboxEvent → option error)
    (nextval : Z) (e : InboxEvent) : GO (DB * W) (result Z) := λ '(db, w),
  match reject (audit db) e with
  | Some err => Ret (Err err, (db, w))
  | None =>
      Ret (Ok nextval, (mkDB (payment_orders db) (events db) (audit db ++ [with_id nextval e]), w))
  end.

(** *** payment.service.go *)

(** [marshal] is [json.Marshal] on payments. *)
Definition PaymentService_Save (tx : TxAnswers)
    (rejectP : list Payment → Payment → option error)
    (rejectE : list Event → Event → option error)
    (marshal : Payment → result string) (nextval : Z) (eventId : string) (now : Z)
    (p : Payment) : GO (DB * W) (result Z) :=
  TxClosure tx (
    r ←' PaymentRepo_Insert rejectP nextval p ;;
    match r with
    | Err err => go_ret (Err err)
    | Ok paymentID =>
        let p := mkPayment paymentID (OrderNumber p) (Amount p) (payment_Status p)
                   (payment_CreatedAt p) (UpdatedAt p) in
        match marshal p with
        | Err err => go_ret (Err err)
        | Ok metadata =>
            let event := NewEvent eventId now EventType_PaymentCreated (pretty paymentID)
                           EventParentType_Payment metadata in
            r ←' EventRepo_Insert rejectE event ;;
            match r with
            | Err err => go_ret (Err err)
            | Ok _ => go_ret (Ok paymentID)
            end
        end
    end).
End Repos.

(** *** outbox.service.go *)

(** The world is the list of (topic, payload) pairs handed to the client. *)
Definition Sent : Type := list (string * string).

(** [KafkaProducer.Produce] of one payload; [send] is the client's answer. *)
Definition Produce (send : string → string → option error) (b : string) :
    GO (DB * Sent) (option error) := λ '(db, w),
  let '(topics, err) := OutboxConsumer.Produce (λ topic, send topic b) in
  Ret (err, (db, w ++ ((λ t, (t, b)) <$> topics))).

(** The loop over the pending events: the identifiers of those sent. *)
Fixpoint produce_events (marshal : Event → result string) (send : string → string → option error)
    (pending : list Event) : GO (DB * Sent) (list string) :=
  match pending with
  | [] => go_ret []
  | e :: pending =>
      match marshal e with
      | Err _ => produce_events marshal send pending
      | Ok b =>
          err ←' Produce send b ;;
          match err with
          | Some _ => produce_events marshal send pending
          | None =>
              ids ←' produce_events marshal send pending ;;
              go_ret (EventId e :: ids)
          end
      end
  end.

(** [select_err] and [update_err]: the failures of the two statements. *)
Definition handlePending (tx : TxAnswers) (select_err update_err : option error)
    (marshal : Event → result string) (send : string → string → option error) :
    GO (DB * Sent) (result Z) :=
  TxClosure tx (
    r ←' EventRepo_GetAllPending select_err ;;
    match r with
    | Err err => go_ret (Err err)
    | Ok pending =>
        toUpdateIds ←' produce_events marshal send pending ;;
        r ←' EventRepo_UpdateStatusByIds update_err toUpdateIds EventStatus_Produced ;;
        match r with
        | Err err => go_ret (Err err)
        | Ok rows =>
            if negb (rows =? Z.of_nat (length toUpdateIds))
            then go_ret (Err (ErrNew "updated row count didn't match"))
            else go_ret (Ok rows)
        end
    end).

(** *** inbox.service.go *)

(** A call of the consumer, inside a transaction. *)
Definition on_consumer {C} (m : GO C unit) : GO (DB * C) unit :=
  λ '(db, c), match m c with
              | Ret (_, c) => Ret (tt, (db, c))
              | Panic e => Panic e
              | Block => Block
              end.

Section Handlers.
Context {Msg : Type}.

Definition InboxService_Save (tx : TxAnswers)
    (reject : list InboxEvent → InboxEvent → option error) (nextval now : Z)
    (msg : OutboxConsumer.Message Event) : GO (DB * KafkaConsumer Msg) (result Z) :=
  TxClosure tx (
    let metadata := OutboxConsumer.Metadata msg in
    r ←' InboxEventRepo_Insert reject nextval (NewInboxEvent now (OutboxConsumer.Data msg)) ;;
    match r with
    | Err err =>
        if IsDuplicateKeyErr (Some err) then
          on_consumer (OutboxConsumer.UpdateState metadata MsgState_Success) ;;'
          go_ret (Err (ErrNew "already exists"))
        else
          on_consumer (OutboxConsumer.UpdateState metadata MsgState_Error) ;;'
          go_ret (Err err)
    | Ok inboxID =>
        on_consumer (OutboxConsumer.UpdateState metadata MsgState_Success) ;;'
        go_ret (Ok inboxID)
    end).

End Handlers.

(** ** The payment service *)

Section PaymentFacts.
Context {W : Type}.

(** C16. Saving a payment is atomic with its event: success means the payment
    row and exactly one pending event that names it were added, under the
    returned identifier, and nothing else changed; an error means the database
    did not change. *)
Theorem PaymentService_Save_atomic (tx : TxAnswers)
    (rejectP : list Payment → Payment → option error)
    (rejectE : list Event → Event → option error)
    (marshal : Payment → result string) (nextval : Z) (eventId : string) (now : Z)
    (p : Payment) (db db' : DB) (w w' : W) (r : result Z) :
  PaymentService_Save tx rejectP rejectE marshal nextval eventId now p (db, w) =
    Ret (r, (db', w')) →
  match r with
  | Err _ => db' = db
  | Ok id =>
      let row := mkPayment id (OrderNumber p) (Amount p) (payment_Status p)
                   (payment_CreatedAt p) (UpdatedAt p) in
      id = nextval ∧ ∃ metadata, marshal row = Ok metadata ∧
      db' = mkDB (payment_orders db ++ [row])
        (events db ++ [NewEvent eventId now EventType_PaymentCreated (pretty id)
                         EventParentType_Payment metadata]) (audit db)
  end.
Proof.
  unfold PaymentService_Save. intros Hrun. destruct r as [id|e].
  - apply TxClosure_ok in Hrun as (Hf & _ & _).
    unfold go_bind, PaymentRepo_Insert, EventRepo_Insert, go_ret in Hf.
    repeat case_match; naive_solver.
  - by apply TxClosure_err in Hrun.
Qed.
End PaymentFacts.

Definition accept_all {A} (l : list A) (x : A) : option error := None.
Definition demo_db : DB := mkDB [] [] [].

Lemma PaymentService_Save_atomic_witness :
  7 = 7 ∧ ∃ metadata, Ok "{}"%string = Ok metadata ∧
    mkDB [mkPayment 7 "31" 31 "created" 1 1]
      [mkEvent "ev" "payment_created" 2 "pending" "7" "payment" "{}"] [] =
    mkDB ([] ++ [mkPayment 7 "31" 31 "created" 1 1])
      ([] ++ [NewEvent "ev" 2 EventType_PaymentCreated (pretty 7)
                           EventParentType_Payment metadata]) [].
Proof.
  apply (PaymentService_Save_atomic tx_fine accept_all accept_all (λ _, Ok "{}"%string) 7 "ev" 2
    (NewPayment 1 1 "31" 31 "created") demo_db
    (mkDB [mkPayment 7 "31" 31 "created" 1 1]
      [mkEvent "ev" "payment_created" 2 "pending" "7" "payment" "{}"] []) tt tt (Ok 7)).
  vm_compute. reflexivity.
Defined.

(** ** The outbox service *)

Section OutboxFacts.
Context (marshal : Event → result string) (send : string → string → option error).

Definition topics_of : list string :=
  OutboxConsumer.DefaultTopics OutboxConsumer.NewKafkaConfig.

(** Event [e] was handed to the client for every topic. *)
Definition delivered (e : Event) (w : Sent) : Prop :=
  ∃ b, marshal e = Ok b ∧ ∀ t, t ∈ topics_of → (t, b) ∈ w.

Lemma delivered_mono e w w' : w `prefix_of` w' → delivered e w → delivered e w'.
Proof. intros [l ->] (b & Hb & Ht). exists b. split; [done|]. intros t Hin. set_solver. Qed.

Lemma produce_loop_ok snd l : ∀ sent sent',
  OutboxConsumer.produce_loop snd l sent = (sent', None) → sent' = sent ++ l.
Proof.
  induction l as [|t l IH]; intros sent sent' Hp; simpl in Hp.
  - simplify_eq. by rewrite app_nil_r.
  - destruct (snd t); [done|]. apply IH in Hp as ->. by rewrite <- app_assoc.
Qed.

Lemma Produce_eq b db w :
  ∃ l err, Produce send b (db, w) = Ret (err, (db, w ++ l)) ∧
    (err = None → ∀ t, t ∈ topics_of → (t, b) ∈ w ++ l).
Proof.
  unfold Produce, OutboxConsumer.Produce.
  destruct (OutboxConsumer.produce_loop _ _ []) as [ts err] eqn:Hp.
  eexists _, _. split; [reflexivity|]. intros -> t Ht.
  apply produce_loop_ok in Hp as ->. apply elem_of_app. right.
  apply list_elem_of_fmap. by exists t.
Qed.

Lemma produce_events_eq pending : ∀ db w,
  ∃ ids l, produce_events marshal send pending (db, w) = Ret (ids, (db, w ++ l)) ∧
    ∀ id, id ∈ ids → ∃ e, e ∈ pending ∧ EventId e = id ∧ delivered e (w ++ l).
Proof.
  induction pending as [|e pending IH]; intros db w; simpl.
  - exists [], []. split; [by rewrite app_nil_r|]. set_solver.
  - destruct (marshal e) as [b|] eqn:Hb.
    + destruct (Produce_eq b db w) as (l1 & err & Hp & Hd).
      destruct (IH db (w ++ l1)) as (ids & l2 & He & Hids).
      rewrite (go_bind_ret _ _ _ _ _ Hp). rewrite <- (app_assoc w) in He, Hids.
      destruct err as [err|].
      * exists ids, (l1 ++ l2). split; [exact He|]. intros id Hid.
        destruct (Hids id Hid) as (e' & ? & ? & ?). exists e'. split; [by right|done].
      * exists (EventId e :: ids), (l1 ++ l2). split; [exact (go_bind_ret _ _ _ _ _ He)|].
        intros id [->|Hid]%elem_of_cons.
        -- exists e. split; [by left|]. split; [done|]. exists b. split; [done|].
           intros t Ht. rewrite app_assoc. apply elem_of_app. left. by apply Hd.
        -- destruct (Hids id Hid) as (e' & ? & ? & ?). exists e'. split; [by right|done].
    + destruct (IH db w) as (ids & l & He & Hids). exists ids, l. split; [done|].
      intros id Hid. destruct (Hids id Hid) as (e' & ? & ? & ?). exists e'. split; [by right|done].
Qed.

(** One run of the outbox service: what was sent is never undone; when the
    run reports an error no row changed (so everything it sent is sent again);
    when it reports [n] updated rows, [n] is positive, payments and inbox rows
    are untouched, and each event either is unchanged or is marked produced,
    in which case a pending event with its identifier was handed to the client
    for every configured topic. *)
Theorem handlePending_correct (tx : TxAnswers) (select_err update_err : option error)
    (db db' : DB) (w w' : Sent) (r : result Z) :
  handlePending tx select_err update_err marshal send (db, w) = Ret (r, (db', w')) →
  match r with
  | Err _ => db' = db
  | Ok n => 0 < n ∧ payment_orders db' = payment_orders db ∧ audit db' = audit db ∧
      Forall2 (λ e e', e' = e ∨
        (e' = set_event_status EventStatus_Produced e ∧
         ∃ e0, e0 ∈ events db ∧ Status e0 = EventStatus_Pending ∧
           EventId e0 = EventId e ∧ delivered e0 w')) (events db) (events db')
  end.
Proof.
  unfold handlePending. intros Hrun. destruct r as [n|e]; [|by apply TxClosure_err in Hrun].
  apply TxClosure_ok in Hrun as (Hf & _ & _).
  unfold EventRepo_GetAllPending, go_bind at 1 in Hf.
  destruct select_err; [done|].
  set (pending := filter (λ e, Status e = EventStatus_Pending) (events db)) in *.
  destruct (produce_events_eq pending db w) as (ids & l & He & Hids).
  rewrite (go_bind_ret _ _ _ _ _ He) in Hf.
  unfold go_bind, EventRepo_UpdateStatusByIds in Hf.
  destruct (decide (ids = [])) as [|Hne]; [done|].
  destruct update_err; [done|]. unfold go_ret in Hf.
  rewrite decide_False in Hf by done.
  destruct (negb _) eqn:Hn in Hf; [done|]. simplify_eq. zbool. rewrite Hn.
  split; [destruct ids; [done|simpl; lia]|]. split; [done|]. split; [done|].
  simpl. apply Forall2_fmap_r, Forall_Forall2_diag, Forall_forall. intros e He'.
  simpl. destruct (decide (EventId e ∈ ids)) as [Hin|]; [|by left]. right. split; [done|].
  destruct (Hids _ Hin) as (e0 & He0 & Hid & Hdel).
  apply list_elem_of_filter in He0 as [Hst He0]. by exists e0.
Qed.
End OutboxFacts.

Definition pending_event : Event := mkEvent "ev" "payment_created" 2 "pending" "7" "payment" "{}".

Lemma handlePending_correct_witness :
  0 < 1 ∧ ([] : list Payment) = [] ∧ ([] : list InboxEvent) = [] ∧
  Forall2 (λ e e', e' = e ∨
    (e' = set_event_status EventStatus_Produced e ∧
     ∃ e0, e0 ∈ [pending_event] ∧ Status e0 = EventStatus_Pending ∧
       EventId e0 = EventId e ∧
       delivered (λ _, Ok "json"%string) e0 [("range_topic_0", "json"); ("range_topic_1", "json")]%string))
    [pending_event] [set_event_status EventStatus_Produced pending_event].
Proof.
  apply (handlePending_correct (λ _, Ok "json"%string) (λ _ _, None) tx_fine None None
    (mkDB [] [pending_event] [])
    (mkDB [] [set_event_status EventStatus_Produced pending_event] []) []
    [("range_topic_0", "json"); ("range_topic_1", "json")]%string (Ok 1)).
  vm_compute. reflexivity.
Defined.

(** ** Storing what was received *)

Section InboxFacts.
Context {Msg : Type}.
Implicit Types c : KafkaConsumer Msg.

Lemma on_consumer_update tp v db c :
  free c → is_Some (msgsStateMap c !! Partition tp) →
  ∃ ps, msgsStateMap c !! Partition tp = Some ps ∧
    on_consumer (UpdateState tp v) (db, c) =
      Ret (tt, (db, set_tracker (Partition tp) (update_state (Offset tp) v ps) c)).
Proof.
  intros Hf [ps Hps]. exists ps. split; [done|].
  unfold on_consumer. by rewrite UpdateState_eq, Hps.
Qed.

(** Storing a received message, on a consumer with a free mutex to which
    the message's partition is assigned and with a transaction that begins:
    the tracker is told "success" for a stored or an already stored message and
    "error" for any other failure, whatever becomes of the transaction; a row
    is added exactly when the insert and the commit succeed, and that is when
    the call succeeds. *)
Theorem InboxService_Save_correct (tx : TxAnswers)
    (reject : list InboxEvent → InboxEvent → option error) (nextval now : Z)
    (msg : OutboxConsumer.Message Event) (db : DB) c (ps : PartitionState) :
  let tp := OutboxConsumer.Metadata msg in
  let row := NewInboxEvent now (OutboxConsumer.Data msg) in
  free c → msgsStateMap c !! Partition tp = Some ps → begin_err tx = None →
  ∃ r db', InboxService_Save tx reject nextval now msg (db, c) =
    Ret (r, (db', set_tracker (Partition tp)
      (update_state (Offset tp) (reported (reject (audit db) row)) ps) c)) ∧
  match reject (audit db) row, commit_err tx with
  | None, None => r = Ok nextval ∧
      db' = mkDB (payment_orders db) (events db) (audit db ++ [with_id nextval row])
  | _, _ => db' = db ∧ ∃ e, r = Err e
  end.
Proof.
  intros tp row Hf Hps Hb. unfold InboxService_Save, TxClosure. rewrite Hb.
  fold tp row. unfold InboxEventRepo_Insert, go_bind.
  destruct (on_consumer_update tp MsgState_Success db c) as (ps1 & Hps1 & H1); [done|by eexists|].
  destruct (on_consumer_update tp MsgState_Error db c) as (ps2 & Hps2 & H2); [done|by eexists|].
  destruct (on_consumer_update tp MsgState_Success
    (mkDB (payment_orders db) (events db) (audit db ++ [with_id nextval row])) c) as (ps3 & Hps3 & H3); [done|by eexists|].
  simplify_eq. unfold OutboxConsumer.UpdateState. unfold reported.
  destruct (reject (audit db) row) as [err|].
  - destruct (IsDuplicateKeyErr (Some err)); [rewrite H1|rewrite H2]; unfold go_ret;
      destruct (rollback_err tx); (eexists _, _; split; [reflexivity|]; eauto).
  - rewrite H3. unfold go_ret.
    destruct (commit_err tx); (eexists _, _; split; [reflexivity|]); eauto.
Qed.

(** A message can be lost: the tracker is told before the transaction
    commits, so when the commit fails nothing is stored (and kafka/cmd/server
    even reports success), yet the only message being tracked is settled and
    the tracker's next scan asks to commit past it. *)
Theorem failed_commit_loses_message (tx : TxAnswers) (e : error)
    (reject : list KafkaRepo.Event → KafkaRepo.Event → option error)
    (rejectI : list InboxEvent → InboxEvent → option error) (nextval now : Z)
    (tp : TopicPartition) (row : KafkaRepo.Event) (rows : list KafkaRepo.Event)
    (event : Event) (db : DB) c (ps : PartitionState) (mx : TopicPartition) :
  free c → msgsStateMap c !! Partition tp = Some ps →
  begin_err tx = None → commit_err tx = Some e →
  reject rows row = None →
  rejectI (audit db) (NewInboxEvent now event) = None →
  in_range ps mx → Offset mx = Offset tp → LastCommited ps < Offset tp →
  State ps = {[Offset tp := MsgState_Pending]} →
  ∃ ps', let c' := set_tracker (Partition tp) ps' c in
    saveToDB tx reject (KafkaRepo.mkMessage tp row) (rows, c) = Ret (Ok (KafkaRepo.EventId row), (rows, c')) ∧
    (∃ e', InboxService_Save tx rejectI nextval now (OutboxConsumer.mkMessage tp event) (db, c) =
      Ret (Err e', (db, c'))) ∧
    ∃ ps'', FindLatestToCommit ps' = Ret (ps'', Ok (set_Offset (Offset tp + 1) mx)).
Proof.
  intros Hf Hps Hb Hc Hr HrI Hir Hmx Hlast Hst.
  exists (update_state (Offset tp) MsgState_Success ps). simpl. split; [|split].
  - destruct (saveToDB_correct tx reject (KafkaRepo.mkMessage tp row) rows c ps) as (r & rows' & Hrun & Hcase); [done..|].
    simpl in *. rewrite Hr, Hc in *. by destruct Hcase as [-> ->].
  - unfold InboxService_Save, TxClosure, InboxEventRepo_Insert, go_bind. rewrite Hb. simpl.
    rewrite HrI. unfold on_consumer, OutboxConsumer.UpdateState.
    rewrite UpdateState_eq, Hps by done. unfold go_ret. rewrite Hc. by eexists.
  - assert (in_range (update_state (Offset tp) MsgState_Success ps) mx) as Hir' by (by destruct Hir).
    destruct (FindLatestToCommit_run _ mx Hir') as (st' & r & Hrun & Hsr); [simpl; lia|].
    assert (r = Offset tp + 1) as ->.
    { eapply (scan_result_functional (LastCommited ps) (Offset mx)); [exact Hsr|].
      assert (State (update_state (Offset tp) MsgState_Success ps) =
        {[Offset tp := MsgState_Success]}) as ->
        by (simpl; by rewrite Hst, insert_singleton_eq).
      apply (sr_drained _ _ _ (Offset tp)); [simpl; lia| |].
      - rewrite lookup_singleton_eq. by eexists.
      - intros o [v Ho]. apply lookup_singleton_Some in Ho as [<- _].
        split; [simpl; lia|]. unfold pending_at. by rewrite lookup_singleton_eq. }
    eexists. exact Hrun.
Qed.
End InboxFacts.

Lemma InboxService_Save_correct_witness :
  ∃ r db', InboxService_Save tx_fine (λ _ _, Some (ErrPq "23505")) 9 1
      (OutboxConsumer.mkMessage (mkTP "t" 0 5) pending_event) (demo_db, one_message_consumer) =
    Ret (r, (db', set_tracker 0
      (update_state 5 MsgState_Success one_message) one_message_consumer)) ∧
    db' = demo_db ∧ ∃ e, r = Err e.
Proof.
  apply (InboxService_Save_correct tx_fine (λ _ _, Some (ErrPq "23505")) 9 1
    (OutboxConsumer.mkMessage (mkTP "t" 0 5) pending_event) demo_db one_message_consumer one_message);
    reflexivity.
Defined.

Lemma failed_commit_loses_message_witness :
  ∃ ps', let c' := set_tracker 0 ps' one_message_consumer in
    saveToDB (mkTx None (Some (ErrExt "conn")) None) accept_all sample_message
      ([], one_message_consumer) = Ret (Ok "ev"%string, ([], c')) ∧
    (∃ e', InboxService_Save (mkTx None (Some (ErrExt "conn")) None) accept_all 9 1
        (OutboxConsumer.mkMessage (mkTP "t" 0 5) pending_event) (demo_db, one_message_consumer) =
      Ret (Err e', (demo_db, c'))) ∧
    ∃ ps'', FindLatestToCommit ps' = Ret (ps'', Ok (mkTP "t" 0 6)).
Proof.
  apply (failed_commit_loses_message (mkTx None (Some (ErrExt "conn")) None) (ErrExt "conn")
    accept_all accept_all 9 1 (mkTP "t" 0 5) sample_event [] pending_event demo_db one_message_consumer
    one_message (mkTP "t" 0 5)); try reflexivity.
  split; [reflexivity|vm_compute; congruence|split; vm_compute; congruence].
Defined.
