(* ===== verification/EndToEnd.v ===== *)
(** * From the partition to the database

    The tracker of Delivery.v run together with a service that stores the
    messages it is handed.  What the service promises is the class
    [MessageStore]: an attempt at a message reports an outcome to the tracker,
    keeps what is stored, and stores the message unless it counts as failed.
    Against this interface: no commit request leaves a message behind that is
    neither stored nor failed.  [OpenTransactions] discharges it for services
    that insert into one table and tell the tracker before they commit
    (KafkaDelivery.v, OutboxDelivery.v); CdcDelivery.v does for kafka-cdc. *)

From S2P Require Import Prelude GoSem KafkaTracker Delivery Transactions.

Section EndToEnd.
Context {DB : Type}.
(** [attempt o db ps db' ps' fl]: the handler of the message at [o] takes the
    database and the tracker from [db], [ps] to [db'], [ps']; [fl] says that it
    failed.  [settle]: what the database does by itself afterwards. *)
Context (attempt : Z → DB → PartitionState → DB → PartitionState → bool → Prop)
  (settle : DB → DB → Prop).

(** The promises of the service about its database: [wf] is its invariant,
    [stored db o] that the message at [o] has its effect. *)
Class MessageStore (wf : DB → Prop) (stored : DB → Z → Prop) : Prop := {
  attempt_wf o db ps db' ps' fl : wf db → attempt o db ps db' ps' fl → wf db';
  attempt_keeps o o' db ps db' ps' fl :
    stored db o' → attempt o db ps db' ps' fl → stored db' o';
  attempt_reports o db ps db' ps' fl :
    attempt o db ps db' ps' fl → ∃ v, v ≠ MsgState_Pending ∧ ps' = update_state o v ps;
  attempt_stores o db ps db' ps' :
    wf db → attempt o db ps db' ps' false → stored db' o;
  settle_wf db db' : wf db → settle db db' → wf db';
  settle_keeps o db db' : stored db o → settle db db' → stored db' o }.

(** The system of Delivery.v, the database, and the messages of which an
    attempt failed. *)
Record World := mkWorld { sys : Sys; db : DB; failed : gset Z }.

(** [e_system]: a step of the tracker and its environment in which no handler
    reports; [e_attempt]: a handler runs, on a message that was received. *)
Inductive e2e_step : World → World → Prop :=
| e_system s s' d f :
    sys_step s s' → processed s' = processed s → e2e_step (mkWorld s d f) (mkWorld s' d f)
| e_attempt s d f o d' ps' fl :
    o ∈ received s → attempt o d (tracker s) d' ps' fl →
    e2e_step (mkWorld s d f)
      (mkWorld (mkSys ps' (received s) ({[o]} ∪ processed s) (next s) (requests s)) d'
         (if fl : bool then {[o]} ∪ f else f))
| e_settle s d d' f :
    settle d d' → e2e_step (mkWorld s d f) (mkWorld s d' f).

Context {wf : DB → Prop} {stored : DB → Z → Prop} {HS : MessageStore wf stored}.

(** The tracker's part of an execution is an execution of Delivery.v. *)
Lemma e2e_sys_steps w w' : e2e_step w w' → rtc sys_step (sys w) (sys w').
Proof using HS.
  destruct 1 as [s s' d f Hs _|s d f o d' ps' fl Ho Ha|s d d' f _]; simpl.
  - by apply rtc_once.
  - apply attempt_reports in Ha as (v & Hv & ->). by apply rtc_once, ss_update.
  - apply rtc_refl.
Qed.

(** Processed messages are stored or failed. *)
Definition accounted (w : World) : Prop :=
  wf (db w) ∧ ∀ o, o ∈ processed (sys w) → stored (db w) o ∨ o ∈ failed w.

Lemma accounted_step w w' : accounted w → e2e_step w w' → accounted w'.
Proof using HS.
  intros [Hwf Hacc] Hs. destruct Hs as [s s' d f Hs Hp|s d f o d' ps' fl Ho Ha|s d d' f Hset];
    unfold accounted in *; simpl in *.
  - split; [done|]. by rewrite Hp.
  - split; [by eapply attempt_wf|]. intros o' [->%elem_of_singleton|Ho']%elem_of_union.
    + destruct fl; [right; set_solver|left]. by eapply attempt_stores.
    + destruct (Hacc o' Ho') as [Hst|Hf]; [left; by eapply attempt_keeps|right].
      destruct fl; set_solver.
  - split; [by eapply settle_wf|]. intros o Ho.
    destruct (Hacc o Ho); [left; by eapply settle_keeps|by right].
Qed.

(** A partition assigned at [tp], in front of a database. *)
Definition world0 `{KafkaLib} (tp : TopicPartition) (d : DB) : World := mkWorld (sys_init tp) d ∅.

Lemma requested_is_stored `{KafkaLib} tp d w c o :
  assignable tp → wf d → rtc e2e_step (world0 tp d) w →
  c ∈ requests (sys w) → o ∈ received (sys w) → o < c →
  stored (db w) o ∨ o ∈ failed w.
Proof using HS.
  intros Htp Hwf Hrun Hc Ho Hlt.
  assert (rtc sys_step (sys_init tp) (sys w)) as Hsys.
  { eapply (rtc_invariant e2e_step (λ w, rtc sys_step (sys_init tp) (sys w))); [|exact Hrun|apply rtc_refl].
    intros a b Ha Hs. etransitivity; [exact Ha|by apply e2e_sys_steps]. }
  assert (accounted w) as [_ Hacc].
  { eapply rtc_invariant; [apply accounted_step|exact Hrun|]. split; [done|]. set_solver. }
  apply Hacc. pose proof (inv_req _ (inv_reachable _ _ Htp Hsys) c Hc) as [_ Hcov]. by apply Hcov.
Qed.

Lemma reachable_wf `{KafkaLib} tp d w : wf d → rtc e2e_step (world0 tp d) w → wf (db w).
Proof using HS.
  intros Hwf Hrun. assert (accounted w) as [Hw _]; [|done].
  eapply rtc_invariant; [apply accounted_step|exact Hrun|]. split; [done|]. set_solver.
Qed.
End EndToEnd.

(** ** Services that tell the tracker before they commit *)

Section OpenTransactions.
(** A database with a table of rows, and the key that each message is stored
    under. *)
Context {D Row Key : Type} (rows : D → list Row) (add : Row → D → D)
  (rows_add : ∀ r d, rows (add r d) = rows d ++ [r]) (key : Row → Key) (want : Z → Key).

(** The tables, and the rows of transactions that have told the tracker and are
    about to commit. *)
Record Tables := mkTables { tables : D; opened : list Row }.

Definition keys (t : Tables) : list Key := key <$> rows (tables t) ++ opened t.
Definition tables_ok (t : Tables) : Prop := NoDup (keys t).
Definition key_stored (t : Tables) (o : Z) : Prop := want o ∈ keys t.

(** The database commits one of the open transactions. *)
Inductive commit_one : Tables → Tables → Prop :=
| commit_row t l1 row l2 :
    opened t = l1 ++ row :: l2 → commit_one t (mkTables (add row (tables t)) (l1 ++ l2)).

(** What an attempt does: it reports, and it opens a transaction for the one
    row of its key or leaves the tables alone, which is a success when the key
    is there. *)
Class OpensOne (attempt : Z → Tables → PartitionState → Tables → PartitionState → bool → Prop) : Prop :=
  opens_one o t ps t' ps' fl : attempt o t ps t' ps' fl →
    (∃ v, v ≠ MsgState_Pending ∧ ps' = update_state o v ps) ∧
    (t' = t ∧ (fl = false → key_stored t o) ∨
     ∃ row, key row = want o ∧ want o ∉ keys t ∧ t' = mkTables (tables t) (opened t ++ [row])).

Lemma commit_one_keys t t' : commit_one t t' → keys t' ≡ₚ keys t.
Proof using rows_add.
  intros [t0 l1 row l2 Ho]. unfold keys. simpl. rewrite Ho, rows_add. apply fmap_Permutation.
  rewrite <-app_assoc. apply Permutation_app_head. simpl. apply Permutation_middle.
Qed.

Lemma opened_keys t row :
  keys (mkTables (tables t) (opened t ++ [row])) = keys t ++ [key row].
Proof. unfold keys. simpl. by rewrite app_assoc, fmap_app. Qed.

#[global] Instance opens_one_store attempt :
  OpensOne attempt → MessageStore attempt commit_one tables_ok key_stored.
Proof using rows_add.
  intros HA. split; unfold tables_ok, key_stored.
  - intros o t ps t' ps' fl Hwf [_ [[-> _]|(row & Hid & Hnew & ->)]]%opens_one; [done|].
    rewrite opened_keys. apply NoDup_app. split_and!; [done| |apply NoDup_singleton].
    rewrite Hid. set_solver.
  - intros o o' t ps t' ps' fl Hst [_ [[-> _]|(row & _ & _ & ->)]]%opens_one; [done|].
    rewrite opened_keys. set_solver.
  - by intros o t ps t' ps' fl [? _]%opens_one.
  - intros o t ps t' ps' _ [_ [[-> Hst]|(row & Hid & _ & ->)]]%opens_one; [by apply Hst|].
    rewrite opened_keys, Hid. set_solver.
  - intros t t' Hwf Hs. by rewrite (commit_one_keys _ _ Hs).
  - intros o t t' Hst Hs. by rewrite (commit_one_keys _ _ Hs).
Qed.

(** Each key is in the table at most once, and what was passed by a commit
    request is in the table, in an open transaction, or failed. *)
Lemma committed_is_stored `{KafkaLib} attempt (tp : TopicPartition) (d0 : D)
    (w : World (DB := Tables)) (c o : Z) :
  OpensOne attempt → assignable tp → NoDup (key <$> rows d0) →
  rtc (e2e_step attempt commit_one) (world0 tp (mkTables d0 [])) w →
  NoDup (key <$> rows (tables (db w))) ∧
  (c ∈ requests (sys w) → o ∈ received (sys w) → o < c →
   want o ∈ key <$> rows (tables (db w)) ∨ want o ∈ key <$> opened (db w) ∨ o ∈ failed w).
Proof using rows_add.
  intros HA Htp Hnd Hrun.
  assert (tables_ok (mkTables d0 [])) as Hwf by (unfold tables_ok, keys; simpl; by rewrite app_nil_r).
  split.
  - pose proof (reachable_wf _ _ _ _ _ Hwf Hrun) as Hw. unfold tables_ok, keys in Hw.
    rewrite fmap_app in Hw. by apply NoDup_app in Hw as [? _].
  - intros Hc Ho Hlt. destruct (requested_is_stored _ _ _ _ _ _ _ Htp Hwf Hrun Hc Ho Hlt) as [Hst|Hf];
      [|by auto]. unfold key_stored, keys in Hst. rewrite fmap_app in Hst. set_solver.
Qed.
End OpenTransactions.
Arguments mkTables {D Row}.
Arguments tables {D Row}.
Arguments opened {D Row}.
Arguments Tables : clear implicits.

(** The attempt failed: the insert was refused, and not as a duplicate, or the
    commit is going to fail. *)
Definition save_failed (tx : TxAnswers) (refused : option error) : bool :=
  match refused with
  | Some e => negb (IsDuplicateKeyErr (Some e))
  | None => bool_decide (commit_err tx ≠ None)
  end.
