(* ===== verification/KafkaDelivery.v ===== *)
(** * The events of the kafka server, end to end

    The messages of a partition stored by [saveToDB] (KafkaEvents.v), as a
    service of [OpenTransactions] (EndToEnd.v).  The schema is not in the
    repository; the handler relies on an index that makes identifiers unique. *)

From S2P Require Import Prelude GoSem KafkaTracker Delivery KafkaConsumer Transactions KafkaEvents EndToEnd.

Section Events.
Import KafkaRepo.
Context {M : Type} (c0 : KafkaConsumer M) (topic : string) (p : Z) (log : Z → Event).

Definition with_tracker (ps : PartitionState) : KafkaConsumer M := set_tracker p ps c0.
Definition message (o : Z) : Message := mkMessage (mkTP topic p o) (log o).

Definition Tables := EndToEnd.Tables (list Event) Event.
Definition add_event (e : Event) (events : list Event) : list Event := events ++ [e].

(** One run of [saveToDB] in a transaction that begins; an insert waits for an
    open transaction with the same key. *)
Inductive event_attempt (o : Z) (t : Tables) (ps : PartitionState) :
    Tables → PartitionState → bool → Prop :=
| event_save tx reject r events' c' added ps' :
    UniqueIndex EventId reject → begin_err tx = None →
    EventId (log o) ∉ EventId <$> opened t →
    saveToDB tx reject (message o) (tables t, with_tracker ps) = Ret (r, (events', c')) →
    events' = tables t ++ added → msgsStateMap c' !! p = Some ps' →
    event_attempt o t ps (mkTables (tables t) (opened t ++ added)) ps'
      (save_failed tx (reject (tables t) (log o))).

Context (Hfree : free c0).

#[global] Instance event_opens_one : OpensOne id EventId (λ o, EventId (log o)) event_attempt.
Proof using Hfree.
  intros o t ps t' ps' fl [tx reject r events' c' added ps1 Hun Hb Hopen Hsave Hadd Hps].
  destruct (saveToDB_correct tx reject (message o) (tables t) (with_tracker ps) ps)
    as (r1 & events1 & Hrun & Hcase); [done|by apply lookup_insert_eq|done|].
  rewrite Hsave in Hrun. injection Hrun as <- <- ->. simpl in Hps, Hcase.
  rewrite lookup_insert_eq in Hps. injection Hps as <-. split.
  { eexists. split; [|reflexivity]. unfold reported. by repeat case_match. }
  unfold save_failed.
  assert (Hnil : events' = tables t → added = []).
  { intros ->. rewrite <-(app_nil_r (tables t)) in Hadd at 1. by apply app_inv_head in Hadd. }
  destruct (reject (tables t) (log o)) as [e|] eqn:Hrej.
  - destruct Hcase as [Hdb _]. left. rewrite (Hnil Hdb), app_nil_r. split; [by destruct t|].
    intros Hdup%negb_false_iff. apply (unique_code _ _ _ Hrej) in Hdup.
    unfold key_stored, keys. rewrite fmap_app. set_solver.
  - destruct (commit_err tx).
    + destruct Hcase as [_ Hdb]. left. rewrite (Hnil Hdb), app_nil_r. by destruct t.
    + destruct Hcase as [_ ->]. apply app_inv_head in Hadd as <-. right.
      exists (log o). split; [done|]. split; [|done].
      unfold keys. rewrite fmap_app, not_elem_of_app. split; [|done].
      intros Hin. destruct (unique_refuses (key := EventId) (reject := reject) _ (log o) Hin) as [e He].
      unfold id in He. congruence.
Qed.

End Events.

(** ** A concrete run: the commit of the only message fails. *)

#[local] Instance kafka_lib_demo : KafkaLib.
Proof. refine {| OffsetBeginning := -2 |}. unfold min_int64. lia. Defined.

Definition demo_log (o : Z) : KafkaRepo.Event := sample_event.
Definition event_received : Sys :=
  mkSys (append_state (mkTP "t" 0 5) (tracker demo_s1)) ({[5]} ∪ ∅) ∅ 6 [].
Definition event_saved : Sys :=
  mkSys (update_state 5 MsgState_Success (tracker event_received)) ({[5]} ∪ ∅) ({[5]} ∪ ∅) 6 [].
Definition event_ticked : PartitionState :=
  match commitOffsetLoop EvTick (tracker event_saved) with Ret ps => ps | _ => tracker event_saved end.
Definition event_end (t : list KafkaRepo.Event) (f : gset Z) : World (DB := Tables) :=
  mkWorld (mkSys event_ticked ({[5]} ∪ ∅) ({[5]} ∪ ∅) 6 [6]) (mkTables t []) f.

#[local] Abbreviation demo_steps := (e2e_step (event_attempt demo_consumer "t" 0 demo_log) (commit_one add_event)).

(** Whether the database takes the commit or not, the tracker asks for position 6. *)
Lemma event_demo_run (lost : bool) :
  rtc demo_steps (world0 demo_tp (mkTables [] []))
    (if lost then event_end [] ({[5]} ∪ ∅) else event_end [sample_event] ∅).
Proof.
  eapply rtc_l; [apply e_system; [by apply ss_start|done]|].
  eapply rtc_l; [apply e_system; [by apply (ss_receive demo_s1 (mkTP "t" 0 5))|done]|].
  destruct lost.
  - eapply rtc_l; [apply (e_attempt _ _ event_received (mkTables [] []) ∅ 5 (mkTables [] [])
      (tracker event_saved) true); [set_solver|]|].
    { eapply (event_save demo_consumer "t" 0 demo_log 5 (mkTables [] []) (tracker event_received) (mkTx None (Some (ErrExt "conn")) None)
        (unique_reject KafkaRepo.EventId) _ [] _ []); try reflexivity; [apply _|apply not_elem_of_nil]. }
    eapply rtc_l; [apply e_system; [by apply (ss_tick event_saved event_ticked)|done]|]. apply rtc_refl.
  - eapply rtc_l; [apply (e_attempt _ _ event_received (mkTables [] []) ∅ 5 (mkTables [] [sample_event])
      (tracker event_saved) false); [set_solver|]|].
    { eapply (event_save demo_consumer "t" 0 demo_log 5 (mkTables [] []) (tracker event_received) tx_fine
        (unique_reject KafkaRepo.EventId) _ [sample_event] _ [sample_event]); try reflexivity; [apply _|apply not_elem_of_nil]. }
    eapply rtc_l; [apply e_settle, (commit_row add_event (mkTables [] [sample_event]) [] sample_event []); done|].
    eapply rtc_l; [apply e_system; [by apply (ss_tick event_saved event_ticked)|done]|]. apply rtc_refl.
Qed.

