(* ===== verification/OutboxDelivery.v ===== *)
(** * The inbox of kafka-outbox, end to end

    The messages of a partition stored by [InboxService_Save] (Outbox.v), as a
    [MessageStore] for EndToEnd.v.  The service tells the tracker before its
    transaction commits: a row is [opened] when the insert has been accepted,
    and reaches the table when the database commits it. *)

From S2P Require Import Prelude GoSem KafkaTracker Delivery KafkaConsumer KafkaVariants Transactions KafkaEvents Outbox EndToEnd.

Section Inbox.
Context {Msg : Type} (c0 : KafkaConsumer Msg) (topic : string) (p : Z) (log : Z → Event).

(** The consumer with tracker [ps] for the partition [p]. *)
Definition with_tracker (ps : PartitionState) : KafkaConsumer Msg := set_tracker p ps c0.
Definition message (o : Z) : OutboxConsumer.Message Event :=
  OutboxConsumer.mkMessage (mkTP topic p o) (log o).

(** The tables, and the rows that are about to be committed. *)
Definition Tables := EndToEnd.Tables Outbox.DB InboxEvent.
Definition add_audit (row : InboxEvent) (db : Outbox.DB) : Outbox.DB :=
  mkDB (payment_orders db) (events db) (audit db ++ [row]).
Definition event_ids : Tables → list string := keys audit OutboxEventId.
Definition inbox_settle : Tables → Tables → Prop := commit_one add_audit.

(** One run of [InboxService_Save] in a transaction that begins, on a table with
    a unique index; an insert waits for an open transaction with the same key. *)
Inductive inbox_attempt (o : Z) (t : Tables) (ps : PartitionState) :
    Tables → PartitionState → bool → Prop :=
| inbox_save tx reject nextval now r db' c' added ps' :
    UniqueIndex OutboxEventId reject → begin_err tx = None →
    EventId (log o) ∉ OutboxEventId <$> opened t →
    InboxService_Save tx reject nextval now (message o) (tables t, with_tracker ps) = Ret (r, (db', c')) →
    audit db' = audit (tables t) ++ added → msgsStateMap c' !! p = Some ps' →
    inbox_attempt o t ps (mkTables (tables t) (opened t ++ added)) ps'
      (save_failed tx (reject (audit (tables t)) (NewInboxEvent now (log o)))).

Context (Hfree : free c0).

#[global] Instance inbox_opens_one :
  OpensOne audit OutboxEventId (λ o, EventId (log o)) inbox_attempt.
Proof using Hfree.
  intros o t ps t' ps' fl [tx reject nextval now r db' c' added ps1 Hun Hb Hopen Hsave Hadd Hps].
  destruct (InboxService_Save_correct tx reject nextval now (message o) (tables t) (with_tracker ps) ps)
    as (r1 & db1 & Hrun & Hcase); [done|by apply lookup_insert_eq|done|].
  rewrite Hsave in Hrun. injection Hrun as <- <- ->. simpl in Hps, Hcase.
  rewrite lookup_insert_eq in Hps. injection Hps as <-. split.
  { eexists. split; [|reflexivity]. unfold reported. by repeat case_match. }
  set (row := NewInboxEvent now (log o)) in *. unfold save_failed.
  assert (Hnil : db' = tables t → added = []).
  { intros ->. rewrite <-(app_nil_r (audit (tables t))) in Hadd at 1. by apply app_inv_head in Hadd. }
  destruct (reject (audit (tables t)) row) as [e|] eqn:Hrej.
  - destruct Hcase as [Hdb _]. left. rewrite (Hnil Hdb), app_nil_r. split; [by destruct t|].
    intros Hdup%negb_false_iff. apply (unique_code _ _ _ Hrej) in Hdup.
    unfold key_stored, keys. rewrite fmap_app. set_solver.
  - destruct (commit_err tx).
    + destruct Hcase as [Hdb _]. left. rewrite (Hnil Hdb), app_nil_r. by destruct t.
    + destruct Hcase as [_ ->]. simpl in Hadd. apply app_inv_head in Hadd as <-. right.
      exists (with_id nextval row). split; [done|]. split; [|done].
      unfold keys. rewrite fmap_app, not_elem_of_app. split; [|done].
      intros Hin. destruct (unique_refuses (key := OutboxEventId) (reject := reject) _ row Hin) as [e He].
      congruence.
Qed.

Lemma inbox_settle_ids t t' : inbox_settle t t' → event_ids t' ≡ₚ event_ids t.
Proof. apply commit_one_keys. reflexivity. Qed.

(** The outbox's messages, from the partition to the inbox table: whatever
    the interleaving of receipts, handlers, commits of the database and steps
    of the tracker, and whatever was stored before (so that messages may come
    again), every event is in the table at most once; and no commit request
    passes a message whose event is not stored, unless its transaction is still
    open or an attempt to store it failed. *)
Theorem committed_is_in_inbox `{KafkaLib} (tp : TopicPartition) (db0 : Outbox.DB)
    (w : World (DB := Tables)) (c o : Z) :
  assignable tp → NoDup (OutboxEventId <$> audit db0) →
  rtc (e2e_step inbox_attempt inbox_settle) (world0 tp (mkTables db0 [])) w →
  NoDup (OutboxEventId <$> audit (tables (db w))) ∧
  (c ∈ requests (sys w) → o ∈ received (sys w) → o < c →
   EventId (log o) ∈ OutboxEventId <$> audit (tables (db w)) ∨
   EventId (log o) ∈ OutboxEventId <$> opened (db w) ∨ o ∈ failed w).
Proof using Hfree.
  apply (committed_is_stored audit add_audit (λ _ _, eq_refl) OutboxEventId (λ o, EventId (log o))), _.
Qed.
End Inbox.

(** ** A concrete run *)

#[local] Instance kafka_lib_demo : KafkaLib.
Proof. refine {| OffsetBeginning := -2 |}. unfold min_int64. lia. Defined.

Definition demo_log (o : Z) : Event := pending_event.

(** The partition is assigned at 5, message 5 arrives, is saved and committed,
    and the tracker asks for position 6. *)
Definition saved_row : InboxEvent := with_id 9 (NewInboxEvent 1 pending_event).
Definition demo_received : Sys :=
  mkSys (append_state (mkTP "t" 0 5) (tracker demo_s1)) ({[5]} ∪ ∅) ∅ 6 [].
Definition demo_saved : Sys :=
  mkSys (update_state 5 MsgState_Success (tracker demo_received)) ({[5]} ∪ ∅) ({[5]} ∪ ∅) 6 [].
Definition demo_ticked : PartitionState :=
  match commitOffsetLoop EvTick (tracker demo_saved) with Ret ps => ps | _ => tracker demo_saved end.
Definition demo_end : World (DB := Tables) :=
  mkWorld (mkSys demo_ticked ({[5]} ∪ ∅) ({[5]} ∪ ∅) 6 [6])
    (mkTables (mkDB [] [] [saved_row]) []) ∅.

Lemma inbox_demo_run :
  rtc (e2e_step (inbox_attempt demo_consumer "t" 0 demo_log) inbox_settle)
    (world0 demo_tp (mkTables (mkDB [] [] []) [])) demo_end.
Proof.
  eapply rtc_l; [apply e_system; [by apply ss_start|done]|].
  eapply rtc_l; [apply e_system; [by apply (ss_receive demo_s1 (mkTP "t" 0 5))|done]|].
  eapply rtc_l; [apply (e_attempt _ _ demo_received (mkTables (mkDB [] [] []) []) ∅ 5); [set_solver|]|].
  { eapply (inbox_save demo_consumer "t" 0 demo_log 5 _ _ tx_fine (unique_reject OutboxEventId) 9 1).
    - apply _.
    - done.
    - apply not_elem_of_nil.
    - reflexivity.
    - reflexivity.
    - reflexivity. }
  eapply rtc_l; [apply e_settle, (commit_row add_audit (mkTables (mkDB [] [] []) [saved_row]) [] saved_row []); done|].
  eapply rtc_l; [apply e_system; [by apply (ss_tick demo_saved demo_ticked)|done]|].
  apply rtc_refl.
Qed.

Lemma committed_is_in_inbox_witness :
  6 ∈ requests (sys demo_end) ∧ NoDup (OutboxEventId <$> audit (tables (db demo_end))) ∧
  (EventId (demo_log 5) ∈ OutboxEventId <$> audit (tables (db demo_end)) ∨
   EventId (demo_log 5) ∈ OutboxEventId <$> opened (db demo_end) ∨ 5 ∈ failed demo_end).
Proof.
  split; [apply list_elem_of_here|].
  destruct (committed_is_in_inbox demo_consumer "t" 0 demo_log (eq_refl false) demo_tp (mkDB [] [] [])
    demo_end 6 5) as [Hnd Hst].
  - split; vm_compute; congruence.
  - apply NoDup_nil_2.
  - exact inbox_demo_run.
  - split; [exact Hnd|]. apply Hst; [apply list_elem_of_here|apply elem_of_union_l, elem_of_singleton; reflexivity|lia].
Defined.
