(* ===== verification/OutboxPipeline.v ===== *)
(** * The outbox, from the payment to the inbox

    The services of kafka-outbox around one partition of a topic: payments are
    saved with their events, runs of the outbox send the pending ones, the
    broker appends what was sent to the partition, and the consumer's inbox
    (OutboxDelivery.v) stores what arrives.  Events travel at least once and
    are accepted exactly once. *)

From S2P Require Import Prelude GoSem KafkaTracker Delivery KafkaConsumer KafkaVariants Transactions KafkaEvents Outbox EndToEnd OutboxDelivery.

(** ** Abstract specification *)

(** Every event is emitted once and accepted at most once, after that. *)
Record Exactly := mkExactly { emitted : gset string; accepted : gset string }.

Inductive exactly_step : Exactly → Exactly → Prop :=
| emit id em ac : id ∉ em → exactly_step (mkExactly em ac) (mkExactly ({[id]} ∪ em) ac)
| accept id em ac :
    id ∈ em → id ∉ ac → exactly_step (mkExactly em ac) (mkExactly em ({[id]} ∪ ac)).

(** ** The pipeline *)

Section Pipeline.
Context `{KafkaLib} {Msg : Type} (c0 : KafkaConsumer Msg) (topic : string) (p : Z) (log : Z → Event)
  (marshal : Event → result string) (unmarshal : string → result Event).

Record Pipeline := mkPipeline {
  shop : Outbox.DB; sent : Sent; partition : list string; inbox : World (DB := Tables) }.

(** The message at [o] has been appended to the partition; [log] says what it
    will hold. *)
Definition published (part : list string) (o : Z) : Prop :=
  0 ≤ o ∧ ∃ b, part !! Z.to_nat o = Some b ∧ unmarshal b = Ok (log o).

(** A payment is saved under a new event identifier, the outbox runs, the broker
    appends a message it was sent (once or again), the consumer's side moves,
    receiving only what is published. *)
Inductive pipe_step : Pipeline → Pipeline → Prop :=
| pipe_pay sh sn bl ib tx rejectP rejectE mp nextval id now pay r sh' :
    id ∉ EventId <$> events sh →
    PaymentService_Save tx rejectP rejectE mp nextval id now pay (sh, tt) = Ret (r, (sh', tt)) →
    pipe_step (mkPipeline sh sn bl ib) (mkPipeline sh' sn bl ib)
| pipe_outbox sh sn bl ib tx select_err update_err send r sh' sn' :
    handlePending tx select_err update_err marshal send (sh, sn) = Ret (r, (sh', sn')) →
    pipe_step (mkPipeline sh sn bl ib) (mkPipeline sh' sn' bl ib)
| pipe_broker sh sn bl ib b :
    (topic, b) ∈ sn →
    pipe_step (mkPipeline sh sn bl ib) (mkPipeline sh sn (bl ++ [b]) ib)
| pipe_inbox sh sn bl ib ib' :
    e2e_step (inbox_attempt c0 topic p log) inbox_settle ib ib' →
    (∀ o, o ∈ received (sys ib') → o ∈ received (sys ib) ∨ published bl o) →
    pipe_step (mkPipeline sh sn bl ib) (mkPipeline sh sn bl ib').

Definition shop_ids (sh : Outbox.DB) : list string := EventId <$> events sh.
Definition abs_pipe (s : Pipeline) : Exactly :=
  mkExactly (list_to_set (shop_ids (shop s))) (list_to_set (event_ids (db (inbox s)))).

(** ** What the outbox sends *)

Lemma produce_events_sent send pending : ∀ (sh : Outbox.DB) w ids s',
  produce_events marshal send pending (sh, w) = Ret (ids, s') →
  ∃ l, s' = (sh, w ++ l) ∧ ∀ x, x ∈ l → ∃ e, e ∈ pending ∧ marshal e = Ok x.2.
Proof.
  induction pending as [|e pending IH]; intros sh w ids s' Hrun; simpl in Hrun.
  - injection Hrun as <- <-. exists []. rewrite app_nil_r. split; [done|]. set_solver.
  - assert (Hrest : ∀ w1 ids1, produce_events marshal send pending (sh, w ++ w1) = Ret (ids1, s') →
      (∀ x, x ∈ w1 → marshal e = Ok x.2) →
      ∃ l, s' = (sh, w ++ l) ∧ ∀ x, x ∈ l → ∃ e', e' ∈ e :: pending ∧ marshal e' = Ok x.2).
    { intros w1 ids1 (l & -> & Hl)%IH Hw1. exists (w1 ++ l). rewrite app_assoc. split; [done|].
      intros x [Hx|Hx]%elem_of_app; [exists e; split; [by left|auto]|].
      destruct (Hl x Hx) as (e' & ? & ?). exists e'. split; [by right|done]. }
    destruct (marshal e) as [b|] eqn:Hb.
    + unfold go_bind at 1, Produce in Hrun. destruct (OutboxConsumer.Produce _) as [ts err] eqn:Hp.
      assert (Hts : ∀ x, x ∈ ((λ t, (t, b)) <$> ts) → Ok b = Ok x.2)
        by (intros x (t & -> & _)%list_elem_of_fmap; done).
      destruct err; [by eapply Hrest|]. apply go_bind_inv in Hrun as (ids1 & s1 & Hrun & Hret).
      injection Hret as _ <-. by eapply Hrest.
    + apply (Hrest [] ids); [by rewrite app_nil_r|set_solver].
Qed.

(** A run of the outbox keeps the identifiers and sends only events of the
    table, whatever it answers. *)
Lemma handlePending_sent tx select_err update_err send (sh sh' : Outbox.DB) w w' r :
  handlePending tx select_err update_err marshal send (sh, w) = Ret (r, (sh', w')) →
  shop_ids sh' = shop_ids sh ∧
  ∃ l, w' = w ++ l ∧ ∀ x, x ∈ l → ∃ e, e ∈ events sh ∧ marshal e = Ok x.2.
Proof.
  unfold handlePending, TxClosure, EventRepo_GetAllPending. intros Hrun.
  assert (Hnone : ∃ l, w = w ++ l ∧ ∀ x : string * string, x ∈ l → ∃ e, e ∈ events sh ∧ marshal e = Ok x.2)
    by (exists []; rewrite app_nil_r; split; [done|set_solver]).
  destruct (begin_err tx); [by simplify_eq|]. unfold go_bind at 1 in Hrun.
  destruct select_err; [by cbn in Hrun; case_match; simplify_eq|].
  set (pending := filter (λ e, Status e = EventStatus_Pending) (events sh)) in *.
  destruct (produce_events marshal send pending (sh, w)) as [[ids s1]| |] eqn:Hp;
    unfold go_bind in Hrun; rewrite Hp in Hrun; [|done..].
  apply produce_events_sent in Hp as (l & -> & Hl).
  assert (Hsent : ∃ l0, w ++ l = w ++ l0 ∧ ∀ x, x ∈ l0 → ∃ e, e ∈ events sh ∧ marshal e = Ok x.2).
  { exists l. split; [done|]. intros x Hx. destruct (Hl x Hx) as (e & He & ?). exists e.
    by apply list_elem_of_filter in He as [_ He]. }
  assert (Hids : shop_ids sh = EventId <$> ((λ e, if decide (EventId e ∈ ids) then
      set_event_status EventStatus_Produced e else e) <$> events sh)).
  { unfold shop_ids. rewrite <-list_fmap_compose. apply list_fmap_ext. intros i e _. simpl. by case_decide. }
  unfold EventRepo_UpdateStatusByIds, go_ret in Hrun.
  destruct (decide (ids = [])); [by case_match; simplify_eq|].
  destruct update_err; [by case_match; simplify_eq|]. rewrite decide_False in Hrun by done.
  destruct (negb _); [by case_match; simplify_eq|]. destruct (commit_err tx); by simplify_eq.
Qed.

(** Saving a payment adds its event, or nothing. *)
Lemma save_events tx rejectP rejectE mp nextval id now pay (sh sh' : Outbox.DB) r :
  PaymentService_Save (W := unit) tx rejectP rejectE mp nextval id now pay (sh, tt) = Ret (r, (sh', tt)) →
  events sh' = events sh ∨
  ∃ ev, EventId ev = id ∧ Status ev = EventStatus_Pending ∧ events sh' = events sh ++ [ev].
Proof.
  unfold PaymentService_Save. destruct r as [x|e]; intros Hrun.
  - apply TxClosure_ok in Hrun as (Hf & _ & _). right.
    unfold go_bind, PaymentRepo_Insert, EventRepo_Insert, go_ret in Hf.
    repeat (case_match; simplify_eq/=). eexists. split; [|split; [|reflexivity]]; done.
  - apply TxClosure_err in Hrun as ->. by left.
Qed.

(** ** The invariant *)

Context (roundtrip : ∀ e b, marshal e = Ok b → unmarshal b = Ok e).

(** A payload stands for an event of the shop. *)
Definition from_shop (sh : Outbox.DB) (b : string) : Prop :=
  ∃ e, marshal e = Ok b ∧ EventId e ∈ shop_ids sh.

Record pipe_inv (s : Pipeline) : Prop := {
  pi_sent t b : (t, b) ∈ sent s → from_shop (shop s) b;
  pi_part b : b ∈ partition s → from_shop (shop s) b;
  pi_recv o : o ∈ received (sys (inbox s)) → EventId (log o) ∈ shop_ids (shop s);
  pi_prod e : e ∈ events (shop s) → Status e = EventStatus_Produced →
    ∃ e0, EventId e0 = EventId e ∧ delivered marshal e0 (sent s) }.

Lemma from_shop_mono sh sh' b : shop_ids sh ⊆ shop_ids sh' → from_shop sh b → from_shop sh' b.
Proof. intros Hsub (e & ? & ?). exists e. split; [done|by apply Hsub]. Qed.

Lemma published_ids s o : pipe_inv s → published (partition s) o → EventId (log o) ∈ shop_ids (shop s).
Proof using roundtrip.
  intros Hinv (_ & b & Hb & Hlog).
  destruct (pi_part s Hinv b ltac:(by eapply list_elem_of_lookup_2)) as (e & He & Hin).
  apply roundtrip in He. rewrite Hlog in He. by injection He as ->.
Qed.

Lemma pipe_inv_step s s' : pipe_inv s → pipe_step s s' → pipe_inv s'.
Proof using roundtrip.
  intros Hinv Hs. pose proof (published_ids s) as Hpub. pose proof Hinv as [Hsent Hpart Hrecv Hprod].
  destruct Hs as [sh sn bl ib tx rP rE mp nv id now pay r sh' Hid Hsave|sh sn bl ib tx se ue send r sh' sn' Hrun
    |sh sn bl ib b Hb|sh sn bl ib ib' Hi Hnew]; simpl in *.
  - assert (shop_ids sh ⊆ shop_ids sh') as Hsub.
    { unfold shop_ids. destruct (save_events _ _ _ _ _ _ _ _ _ _ _ Hsave) as [-> | (ev & _ & _ & ->)];
        [done|]. rewrite fmap_app. set_solver. }
    split; simpl; eauto using from_shop_mono.
    intros e He Hst. apply save_events in Hsave as [Heq|(ev & _ & Hev & Heq)]; rewrite Heq in He; [eauto|].
    apply elem_of_app in He as [He| ->%list_elem_of_singleton]; [eauto|by rewrite Hev in Hst].
  - destruct (handlePending_sent _ _ _ _ _ _ _ _ _ Hrun) as (Hids & l & -> & Hl).
    split; simpl; unfold from_shop in *; rewrite ?Hids; try done.
    + intros t b [Hb|Hb]%elem_of_app; [by eapply Hsent|].
      destruct (Hl _ Hb) as (e & He & Hm). exists e. split; [done|]. by apply list_elem_of_fmap_2.
    + intros e He Hst. pose proof (handlePending_correct _ _ _ _ _ _ _ _ _ _ Hrun) as Hc.
      assert (Hold : ∀ e, (∃ e0, EventId e0 = EventId e ∧ delivered marshal e0 sn) →
        ∃ e0, EventId e0 = EventId e ∧ delivered marshal e0 (sn ++ l))
        by (intros e1 (e0 & ? & Hd); exists e0; split; [done|]; revert Hd; by apply delivered_mono, prefix_app_r).
      destruct r as [n|err]; [|rewrite Hc in He; eauto]. destruct Hc as (_ & _ & _ & Hall).
      apply list_elem_of_lookup in He as [i Hi]. destruct (Forall2_lookup_r _ _ _ _ _ Hall Hi) as (e1 & He1 & Hcase).
      apply list_elem_of_lookup_2 in He1. destruct Hcase as [-> |[-> (e0 & _ & _ & Hid0 & Hdel)]]; [eauto|].
      by exists e0.
  - split; simpl; try done. intros b' [Hb'| ->%list_elem_of_singleton]%elem_of_app; [eauto|by eapply Hsent].
  - split; simpl; try done. intros o Ho. destruct (Hnew o Ho) as [?|Hp]; [eauto|by apply Hpub].
Qed.

(** ** Refinement *)

Context (Hfree : free c0).

(** A step of the consumer's side accepts one identifier it had not, of a
    message it received, or none. *)
Lemma inbox_step_ids (ib ib' : World (DB := Tables)) :
  e2e_step (inbox_attempt c0 topic p log) inbox_settle ib ib' →
  event_ids (db ib') ≡ₚ event_ids (db ib) ∨
  ∃ o, o ∈ received (sys ib) ∧ EventId (log o) ∉ event_ids (db ib) ∧
    event_ids (db ib') ≡ₚ EventId (log o) :: event_ids (db ib).
Proof using Hfree.
  intros [s s' d f _ _|s d f o d' ps' fl Ho Ha|s d d' f Hset]; simpl.
  - by left.
  - apply (inbox_opens_one c0 topic p log Hfree) in Ha as [_ [[-> _]|(row & Hid & Hnew & ->)]]; [by left|].
    right. exists o. split_and!; [done..|]. unfold event_ids. rewrite opened_keys, Hid.
    by rewrite Permutation_app_comm.
  - left. by apply inbox_settle_ids.
Qed.

Lemma pipe_refines s s' : pipe_inv s → pipe_step s s' → rtc exactly_step (abs_pipe s) (abs_pipe s').
Proof using Hfree.
  intros Hinv Hs. destruct Hs as [sh sn bl ib tx rP rE mp nv id now pay r sh' Hid Hsave
    |sh sn bl ib tx se ue send r sh' sn' Hrun|sh sn bl ib b Hb|sh sn bl ib ib' Hi Hnew]; unfold abs_pipe; simpl.
  - unfold shop_ids. destruct (save_events _ _ _ _ _ _ _ _ _ _ _ Hsave) as [-> | (ev & <- & _ & ->)]; [done|].
    rewrite fmap_app, list_to_set_app_L, (union_comm_L (list_to_set (EventId <$> events sh))). simpl.
    rewrite union_empty_r_L. apply rtc_once, emit. by rewrite elem_of_list_to_set.
  - by destruct (handlePending_sent _ _ _ _ _ _ _ _ _ Hrun) as [-> _].
  - done.
  - destruct (inbox_step_ids _ _ Hi) as [Heq|(o & Ho & Hfresh & Heq)].
    + by rewrite (list_to_set_perm_L _ _ Heq).
    + rewrite (list_to_set_perm_L _ _ Heq). simpl. apply rtc_once, accept; rewrite elem_of_list_to_set; [|done].
      by apply (pi_recv _ Hinv).
Qed.

(** Nothing paid, nothing sent; the partition assigned at [tp]. *)
Definition pipe0 (tp : TopicPartition) : Pipeline :=
  mkPipeline (mkDB [] [] []) [] [] (world0 tp (mkTables (mkDB [] [] []) [])).

Lemma pipe_inv0 tp : pipe_inv (pipe0 tp).
Proof. split; simpl; set_solver. Qed.

Lemma pipe_inbox_steps s s' : pipe_step s s' →
  rtc (e2e_step (inbox_attempt c0 topic p log) inbox_settle) (inbox s) (inbox s').
Proof. intros []; simpl; try done. by apply rtc_once. Qed.

Lemma pipe_reachable tp s : rtc pipe_step (pipe0 tp) s →
  pipe_inv s ∧ rtc exactly_step (mkExactly ∅ ∅) (abs_pipe s) ∧
  rtc (e2e_step (inbox_attempt c0 topic p log) inbox_settle) (inbox (pipe0 tp)) (inbox s).
Proof using roundtrip Hfree.
  intros Hrun. eapply (rtc_invariant pipe_step (λ s, pipe_inv s ∧ rtc exactly_step (mkExactly ∅ ∅) (abs_pipe s) ∧
    rtc (e2e_step (inbox_attempt c0 topic p log) inbox_settle) (inbox (pipe0 tp)) (inbox s))); [|exact Hrun|].
  - intros a b (Ha & Hr & Hi) Hs. split_and!; [by eapply pipe_inv_step|etransitivity..]; eauto using pipe_refines, pipe_inbox_steps.
  - split_and!; [apply pipe_inv0|apply rtc_refl..].
Qed.

End Pipeline.

(** ** A concrete run *)

#[local] Instance kafka_lib_demo : KafkaLib.
Proof. refine {| OffsetBeginning := -2 |}. unfold min_int64. lia. Defined.

(** An encoding that knows one event. *)
Definition demo_marshal (e : Event) : result string :=
  if bool_decide (EventId e = "ev" ∧ EventType e = "payment_created" ∧ Timespamp e = 2 ∧
    Status e = "pending" ∧ ParentId e = "7" ∧ ParentType e = "payment" ∧ ParentMetadata e = "{}")%string
  then Ok "json"%string else Err (ErrNew "unknown event").
Definition demo_unmarshal (b : string) : result Event :=
  if bool_decide (b = "json"%string) then Ok pending_event else Err (ErrNew "unexpected end of JSON input").

Lemma demo_roundtrip e b : demo_marshal e = Ok b → demo_unmarshal b = Ok e.
Proof.
  unfold demo_marshal, demo_unmarshal. case_bool_decide as He; [|done]. intros [= <-].
  destruct e as [i ty ts st pi pt pm]. simpl in He. by destruct He as (-> & -> & -> & -> & -> & -> & ->).
Qed.

(** A payment is saved, its event sent to both topics, appended to the first
    one's partition, received, stored, and position 1 requested. *)
Definition flow_tp : TopicPartition := mkTP "range_topic_0" 0 0.
Definition flow_payment : Payment := NewPayment 1 1 "31" 31 "created".
Definition flow_paid : Outbox.DB := mkDB [mkPayment 7 "31" 31 "created" 1 1] [pending_event] [].
Definition flow_sold : Outbox.DB :=
  mkDB [mkPayment 7 "31" 31 "created" 1 1] [set_event_status EventStatus_Produced pending_event] [].
Definition flow_sent : Sent := [("range_topic_0", "json"); ("range_topic_1", "json")]%string.
Definition flow_s0 : Sys := sys_init flow_tp.
Definition flow_s1 : Sys := mkSys (set_loop LoopIdle (tracker flow_s0)) ∅ ∅ 0 [].
Definition flow_s2 : Sys := mkSys (append_state flow_tp (tracker flow_s1)) ({[0]} ∪ ∅) ∅ 1 [].
Definition flow_s3 : Sys :=
  mkSys (update_state 0 MsgState_Success (tracker flow_s2)) ({[0]} ∪ ∅) ({[0]} ∪ ∅) 1 [].
Definition flow_s4 : Sys :=
  mkSys (match commitOffsetLoop EvTick (tracker flow_s3) with Ret ps => ps | _ => tracker flow_s3 end)
    ({[0]} ∪ ∅) ({[0]} ∪ ∅) 1 [1].
Definition flow_open : Tables := mkTables demo_db [saved_row].
Definition flow_stored : Tables := mkTables (mkDB [] [] [saved_row]) [].
Definition flow_end : Pipeline :=
  mkPipeline flow_sold flow_sent ["json"%string] (mkWorld flow_s4 flow_stored ∅).
#[local] Abbreviation flow_step := (pipe_step demo_consumer "range_topic_0" 0 demo_log demo_marshal demo_unmarshal).
#[local] Abbreviation at_inbox w := (mkPipeline flow_sold flow_sent ["json"%string] w).

Lemma flow_received o : o ∈ ({[0]} ∪ ∅ : gset Z) → published demo_log demo_unmarshal ["json"%string] o.
Proof. intros [->%elem_of_singleton|[]%not_elem_of_empty]%elem_of_union. split; [done|]. by exists "json"%string. Qed.

Lemma flow_run : rtc flow_step (pipe0 flow_tp) flow_end.
Proof.
  assert (Hin : ∀ w w', e2e_step (inbox_attempt demo_consumer "range_topic_0" 0 demo_log) inbox_settle w w' →
    received (sys w') ⊆ ({[0]} ∪ ∅ : gset Z) → rtc flow_step (at_inbox w) (at_inbox w')).
  { intros w w' Hs Hsub. apply rtc_once. apply pipe_inbox; [done|]. intros o Ho. right. by apply flow_received, Hsub. }
  eapply rtc_l; [apply (pipe_pay _ _ _ _ _ _ demo_db [] [] _ tx_fine accept_all accept_all (λ _, Ok "{}"%string)
    7 "ev" 2 flow_payment (Ok 7) flow_paid); [apply not_elem_of_nil|reflexivity]|].
  eapply rtc_l; [apply (pipe_outbox _ _ _ _ _ _ flow_paid [] [] _ tx_fine None None (λ _ _, None) (Ok 1) flow_sold
    flow_sent); vm_compute; reflexivity|].
  eapply rtc_l; [apply (pipe_broker _ _ _ _ _ _ flow_sold flow_sent [] _ "json"), list_elem_of_here|].
  etransitivity; [apply (Hin _ (mkWorld flow_s1 (mkTables demo_db []) ∅)); [|done]|].
  { apply e_system; [by apply (ss_start flow_s0)|done]. }
  etransitivity; [apply (Hin _ (mkWorld flow_s2 (mkTables demo_db []) ∅)); [|done]|].
  { apply e_system; [by apply (ss_receive flow_s1 flow_tp)|done]. }
  etransitivity; [apply (Hin _ (mkWorld flow_s3 flow_open ∅)); [|done]|].
  { apply (e_attempt _ _ flow_s2 (mkTables demo_db []) ∅ 0 flow_open (tracker flow_s3) false); [set_solver|].
    apply (inbox_save demo_consumer "range_topic_0" 0 demo_log 0 (mkTables demo_db []) (tracker flow_s2) tx_fine
      (unique_reject OutboxEventId) 9 1 (Ok 9) (mkDB [] [] [saved_row])
      (set_tracker 0 (tracker flow_s3) demo_consumer) [saved_row] (tracker flow_s3)); try reflexivity.
    - apply _.
    - apply not_elem_of_nil. }
  etransitivity; [apply (Hin _ (mkWorld flow_s3 flow_stored ∅)); [|done]|].
  { apply e_settle, (commit_row add_audit flow_open [] saved_row []). done. }
  etransitivity; [apply (Hin _ (mkWorld flow_s4 flow_stored ∅)); [|done]|].
  { apply e_system; [by apply (ss_tick flow_s3 (tracker flow_s4))|done]. }
  apply rtc_refl.
Qed.

