(* ===== verification/Cdc.v ===== *)
(** * The change-data-capture services (kafka-cdc)

    The errors of pkg/errors, the payment service, and the inventory service:
    its router takes the payments' change events from Kafka, maps them and
    stores an inbox row and a reservation in one transaction, then tells the
    tracker.  strconv.ParseFloat is an argument, as are the schema decoder and
    the database. *)

From S2P Require Import Prelude GoSem GoStrings CdcDecimal KafkaTracker KafkaConsumer KafkaVariants Transactions.
From Stdlib Require Import Ascii.
From Stdlib Require Import Floats.SpecFloat.

(** ** pkg/errors/errors.go *)

Definition CodeNonExistingKey : Z := -1001.
Definition CodeJSONParsing : Z := -1002.
Definition CodeDuplicateKey : Z := -1003.
Definition CodeUnknown : Z := -9999.

Definition NewDuplicateKeyError (err : error) : error :=
  ErrApp CodeDuplicateKey "duplicate key violation" (Some err).
Definition NewNonExistingKeyError (err : error) : error :=
  ErrApp CodeNonExistingKey "key does not exist" (Some err).
Definition NewJSONParsingError (err : error) : error :=
  ErrApp CodeJSONParsing "failed to parse JSON" (Some err).

(** [errors.As(err, &appErr)]: the code of the first [*AppError] along the
    [Unwrap] chain. *)
Fixpoint as_app (err : error) : option Z :=
  match err with
  | ErrApp code _ _ => Some code
  | ErrWrap _ inner => as_app inner
  | _ => None
  end.

Definition has_code (code : Z) (err : option error) : bool :=
  match err ≫= as_app with Some c => c =? code | None => false end.

Definition IsDuplicateKeyError : option error → bool := has_code CodeDuplicateKey.
Definition IsNonExistingKeyError : option error → bool := has_code CodeNonExistingKey.
Definition IsJSONParsingError : option error → bool := has_code CodeJSONParsing.
Definition GetErrorCode (err : option error) : Z := default CodeUnknown (err ≫= as_app).

(** ** Data *)

(** A time is its nanoseconds since the epoch. *)
Definition Time := Z.

(** [time.Unix(microSeconds / 1_000_000, (microSeconds % 1_000_000) * 1000)]. *)
Definition ConvertIntTimeToUnix (microSeconds : Z) : Time :=
  let seconds := Z.quot microSeconds 1000000 in
  let nanos := int64 (Z.rem microSeconds 1000000 * 1000) in
  seconds * 1000000000 + nanos.

Record CDCPayment := mkCDCPayment {
  cdc_Id : Z; cdc_OrderNumber : string; cdc_Amount : string; cdc_Status : string;
  cdc_CreatedAt : Z; cdc_UpdatedAt : Z }.

Record CDCPaymentEnvelope := mkEnvelope {
  Before : option CDCPayment; After : option CDCPayment; Op : string; TsMs : Z }.

Record PaymentCreatedEvent := mkPaymentCreated {
  pay_ID : Z; pay_OrderNumber : string; pay_Amount : spec_float; pay_Status : string;
  pay_CreatedAt : Time; pay_UpdatedAt : Time }.

Record InboxEvent := mkInbox {
  inbox_ID : Z; InboxEventType : string; AggregateId : string; AggregateCreatedAt : Time;
  AggregateType : string; AggregateMetadata : string; CreatedAt : Time; inbox_Status : string }.

Record Inventory := mkInventory {
  inv_ID : Z; ProductName : string; inv_Status : string; Quantity : Z; LastUpdated : Time;
  inv_OrderNumber : string; PaymentId : string }.

Definition InboxEventStatus_Pending : string := "pending".

Record DB := mkDB { event_inbox : list InboxEvent; inventory : list Inventory }.

(** [int(f)]: truncation; what does not fit gives the smallest integer (amd64). *)
Definition int_of_float (f : spec_float) : Z :=
  match f with
  | S754_zero _ => 0
  | S754_finite s m e =>
      let a := if 0 <=? e then Z.pos m * 2 ^ e else Z.pos m / 2 ^ (- e) in
      let z := if s then - a else a in
      if (min_int64 <=? z) && (z <=? max_int64) then z else min_int64
  | _ => min_int64
  end.

(** [math.Floor] of a float that is an integer is that float. *)
Definition NewInventoryReservation (pName : string) (now : Time) (orderNumber paymentID : string)
    (amount : Z) : Inventory :=
  mkInventory 0 pName "reserved" (float64_int (Z.quot amount 10)) now orderNumber paymentID.

(** ** Topics and event types *)

Definition DebPaymentTopic : string := "cdc.public.payment".
Definition EventType_PaymentCreated : string := "payment_created".

(** Both routers have this method. *)
Definition getEventType (topic op : string) : result string :=
  match Split "."%char topic with
  | _ :: _ :: event :: _ =>
      if decide (topic = "")%string then Err (ErrNew "Invalid topic & event type combination")
      else if decide (op = "c" ∨ op = "r")%string then Ok (event +:+ "_created")
      else if decide (op = "u")%string then Ok (event +:+ "_updated")
      else if decide (op = "d")%string then Ok (event +:+ "_deleted")
      else if decide (op = "t")%string then Ok (event +:+ "_truncated")
      else Ok event
  | _ => Err (ErrNew "Invalid topic & event type combination")
  end%string.

Inductive KafkaEncoder := KafkaEncoder_JSON | KafkaEncoder_AVRO | KafkaEncoder_PROTO.

(** ** The inventory service *)

Module InventoryRouter.
Section Service.
Context {C : Type}.
(** The environment: the schema decoder, [strconv.ParseFloat],
    [json.Marshal], the answers of the database, and what is drawn. *)
Context (GetType : KafkaEncoder)
  (Decoder : TopicPartition → string → result CDCPaymentEnvelope)
  (ParseFloat : string → result spec_float)
  (marshal : PaymentCreatedEvent → result string)
  (tx : TxAnswers)
  (rejectInbox : list InboxEvent → InboxEvent → option error)
  (rejectInv : list Inventory → Inventory → option error)
  (nextInbox nextInv : Z) (pName : string) (now : Time).

(** *** proto-payment.go *)

Definition paymentToEvent (cdc : CDCPayment) : result PaymentCreatedEvent :=
  let amount := match ParseFloat (cdc_Amount cdc) with
                | Ok amount => Ok amount
                | Err _ => DecodeDebeziumDecimal (cdc_Amount cdc) 2
                end in
  match amount with
  | Err err => Err err
  | Ok amount =>
      Ok (mkPaymentCreated (cdc_Id cdc) (cdc_OrderNumber cdc) amount (cdc_Status cdc)
            (ConvertIntTimeToUnix (cdc_CreatedAt cdc)) (ConvertIntTimeToUnix (cdc_UpdatedAt cdc)))
  end.

(** The message's [After]: the rest of what [getPaymentCreatedEvent] builds is
    not used. The fields of a nil [After] are read. *)
Definition getPaymentCreatedEvent (parsed : CDCPaymentEnvelope) :
    outcome (result PaymentCreatedEvent) :=
  match After parsed with
  | None => Panic "nil pointer dereference"
  | Some cdc =>
      match paymentToEvent cdc with
      | Err err => Ret (Err err)
      | Ok after =>
          match Before parsed with
          | None => Ret (Ok after)
          | Some cdc =>
              match paymentToEvent cdc with
              | Err err => Ret (Err err)
              | Ok _ => Ret (Ok after)
              end
          end
      end
  end.

(** *** inventory.service.go and the repositories *)

Definition InboxEventRepo_Insert (e : InboxEvent) : GO (DB * C) (result Z) := λ '(db, c),
  match rejectInbox (event_inbox db) e with
  | Some err => Ret (Err (NewNonExistingKeyError err), (db, c))
  | None =>
      let row := mkInbox nextInbox (InboxEventType e) (AggregateId e) (AggregateCreatedAt e)
                   (AggregateType e) (AggregateMetadata e) (CreatedAt e) (inbox_Status e) in
      Ret (Ok nextInbox, (mkDB (event_inbox db ++ [row]) (inventory db), c))
  end.

Definition InventoryRepo_Insert (inv : Inventory) : GO (DB * C) (result Z) := λ '(db, c),
  match rejectInv (inventory db) inv with
  | Some err => Ret (Err (NewNonExistingKeyError err), (db, c))
  | None =>
      let row := mkInventory nextInv (ProductName inv) (inv_Status inv) (Quantity inv)
                   (LastUpdated inv) (inv_OrderNumber inv) (PaymentId inv) in
      Ret (Ok nextInv, (mkDB (event_inbox db) (inventory db ++ [row]), c))
  end.

(** The error of the second insert is dropped. *)
Definition InventoryService_Save (inboxEvent : InboxEvent) (inv : Inventory) :
    GO (DB * C) (result Z) :=
  CdcTx.TxClosure tx (
    r ←' InboxEventRepo_Insert inboxEvent ;;
    match r with
    | Err err =>
        if IsDuplicateKeyErr (Some err) then go_ret (Err (NewDuplicateKeyError err))
        else go_ret (Err (NewNonExistingKeyError err))
    | Ok inboxID => InventoryRepo_Insert inv ;;' go_ret (Ok inboxID)
    end).

Definition PaymentToInventory (payment : PaymentCreatedEvent) (eventType : string) :
    result (Inventory * InboxEvent) :=
  match marshal payment with
  | Err err => Err err
  | Ok afterJson =>
      Ok (NewInventoryReservation pName now (pay_OrderNumber payment) (pretty (pay_ID payment))
            (int_of_float (pay_Amount payment)),
          mkInbox 0 eventType (pretty (pay_ID payment)) (pay_CreatedAt payment) "payment"
            afterJson now InboxEventStatus_Pending)
  end.

(** *** payment-created.handler.go and msg-router.go *)

Definition handlePaymentCreated (paymentEvent : PaymentCreatedEvent) (eventType : string) :
    GO (DB * C) (option error) :=
  match PaymentToInventory paymentEvent eventType with
  | Err err => go_ret (Some err)
  | Ok (inv, inbox) =>
      r ←' InventoryService_Save inbox inv ;;
      match r with Err err => go_ret (Some err) | Ok _ => go_ret None end
  end.

Definition decodePayment (tp : TopicPartition) (value : string) :
    result (CDCPaymentEnvelope * string) :=
  match GetType with
  | KafkaEncoder_PROTO =>
      match Decoder tp value with
      | Err err => Err err
      | Ok target => Ok (target, Op target)
      end
  | _ => Err (ErrNew "Unknown topic, missing handler for it")
  end.

Definition decodeMsg (tp : TopicPartition) (value : string) :
    result (CDCPaymentEnvelope * string) :=
  if decide (Topic tp = DebPaymentTopic) then decodePayment tp value
  else Err (ErrNew "Unknown topic, missing handler for it").

Definition handlerMsg (tp : TopicPartition) (value : string) : GO (DB * C) (option error) :=
  match decodeMsg tp value with
  | Err err => go_ret (Some err)
  | Ok (envelope, op) =>
      match getEventType (Topic tp) op with
      | Err err => go_ret (Some err)
      | Ok eventType =>
          if decide (eventType = EventType_PaymentCreated) then
            match GetType with
            | KafkaEncoder_PROTO =>
                match getPaymentCreatedEvent envelope with
                | Panic e => go_panic e
                | Block => go_block
                | Ret (Err err) => go_ret (Some err)
                | Ret (Ok after) => handlePaymentCreated after eventType
                end
            | _ => go_ret (Some (ErrNew "unknown eventType, encoderType combo"))
            end
          else go_ret None
      end
  end.
End Service.

(** The goroutine [consumeLoop] starts for a message: [handle] is
    [handlerMsg]. *)
Definition consume {Msg} (handle : GO (DB * KafkaConsumer Msg) (option error)) (tp : TopicPartition) :
    GO (DB * KafkaConsumer Msg) unit :=
  err ←' handle ;;
  if bool_decide (err ≠ None) && negb (IsDuplicateKeyError err)
  then go_snd (UpdateState tp MsgState_Error)
  else go_snd (UpdateState tp MsgState_Success).
End InventoryRouter.

(** ** The payment service *)

Module PaymentRouter.
Section Router.
Context {W Msg : Type}.

(** A handler gets the message and its position. *)
Definition Handler : Type := TopicPartition → string → GO (W * KafkaConsumer Msg) (option error).

(** The mutex is released on every path of the two methods that take it. *)
Record MsgRouter := mkMsgRouter { handlers : gmap string Handler }.

(** [NewMsgRouter] starts the goroutines of the consumer and of [consumeLoop]
    before it returns: handlers are added to a router that is running. *)
Definition NewMsgRouter : MsgRouter := mkMsgRouter ∅.

Definition AddHandler (h : Handler) (event : string) (r : MsgRouter) : MsgRouter :=
  mkMsgRouter (<[event := h]> (handlers r)).

Definition getHandler (event : string) (r : MsgRouter) : result Handler :=
  match handlers r !! event with
  | None => Err (ErrNew ("handler is missing for " +:+ event +:+ " event type"))
  | Some h => Ok h
  end.

(** [parse] is [json.Unmarshal] of the operation. *)
Definition handlerMsg (parse : string → result string) (r : MsgRouter)
    (tp : TopicPartition) (value : string) : GO (W * KafkaConsumer Msg) (option error) :=
  match parse value with
  | Err _ => go_ret (Some (ErrNew "Cannot parse CDC msg"))
  | Ok op =>
      match getEventType (Topic tp) op with
      | Err err => go_ret (Some err)
      | Ok event =>
          match getHandler event r with
          | Err err => go_ret (Some err)
          | Ok handler => handler tp value
          end
      end
  end.

(** The loop over what the channel yields; the answer is what the loop left
    unread when it returned, [None] while it waits for more. *)
Fixpoint consumeLoop (handle : TopicPartition → string → GO (W * KafkaConsumer Msg) (option error))
    (msgs : list (TopicPartition * string)) :
    GO (W * KafkaConsumer Msg) (option (list (TopicPartition * string))) :=
  match msgs with
  | [] => go_ret None
  | (tp, value) :: msgs =>
      err ←' handle tp value ;;
      if bool_decide (err ≠ None) && negb (IsDuplicateKeyError err)
      then go_snd (UpdateState tp MsgState_Error) ;;' go_ret (Some msgs)
      else go_snd (UpdateState tp MsgState_Success) ;;' consumeLoop handle msgs
  end.
End Router.
End PaymentRouter.

(** ** Properties *)

(** Microseconds, negative ones too, keep their value. *)
Lemma ConvertIntTimeToUnix_value us :
  ConvertIntTimeToUnix us = us * 1000.
Proof.
  unfold ConvertIntTimeToUnix.
  pose proof (Z.rem_bound_abs us 1000000 ltac:(lia)).
  rewrite int64_id by (unfold min_int64, max_int64; lia).
  pose proof (Z.quot_rem' us 1000000). lia.
Qed.

(** A reservation is for as many products, at 10 each, as the amount pays. *)
Lemma NewInventoryReservation_quantity pName now order payment amount :
  0 ≤ amount < 2 ^ 53 →
  let q := Quantity (NewInventoryReservation pName now order payment amount) in
  10 * q ≤ amount < 10 * (q + 1).
Proof.
  intros Ha q. subst q. cbn [NewInventoryReservation Quantity].
  rewrite Z.quot_div_nonneg by lia.
  pose proof (Z.mod_pos_bound amount 10 ltac:(lia)). pose proof (Z.div_mod amount 10 ltac:(lia)).
  rewrite float64_int_small by lia. lia.
Qed.

Lemma getEventType_payment op :
  op = "c"%string ∨ op = "r"%string → getEventType DebPaymentTopic op = Ok EventType_PaymentCreated.
Proof. by intros [-> | ->]. Qed.

Section Inventory.
Import InventoryRouter.
Context {Msg : Type}
  (Decoder : TopicPartition → string → result CDCPaymentEnvelope)
  (ParseFloat : string → result spec_float)
  (marshal : PaymentCreatedEvent → result string)
  (tx : TxAnswers)
  (rejectInbox : list InboxEvent → InboxEvent → option error)
  (rejectInv : list Inventory → Inventory → option error)
  (nextInbox nextInv : Z) (pName : string) (now : Time).
Implicit Types c : KafkaConsumer Msg.

(** What the two tables gain from a payment. *)
Definition new_inbox (id : Z) (ev : PaymentCreatedEvent) (json : string) : InboxEvent :=
  mkInbox id EventType_PaymentCreated (pretty (pay_ID ev)) (pay_CreatedAt ev) "payment" json now
    InboxEventStatus_Pending.
Definition new_inventory (id : Z) (ev : PaymentCreatedEvent) : Inventory :=
  let inv := NewInventoryReservation pName now (pay_OrderNumber ev) (pretty (pay_ID ev))
               (int_of_float (pay_Amount ev)) in
  mkInventory id (ProductName inv) (inv_Status inv) (Quantity inv) (LastUpdated inv)
    (inv_OrderNumber inv) (PaymentId inv).

(** The service's answer for a payment on every branch, its error being one
    the router takes for a duplicate exactly when the inbox row was one. *)
Lemma handlePaymentCreated_eq ev json db c :
  marshal ev = Ok json → begin_err tx = None →
  (∀ e, commit_err tx = Some e → as_app e = None) →
  (rejectInv (inventory db) (new_inventory 0 ev) ≠ None → commit_err tx ≠ None) →
  ∃ db' err,
    handlePaymentCreated marshal tx rejectInbox rejectInv nextInbox nextInv pName now ev
      EventType_PaymentCreated (db, c) = Ret (err, (db', c)) ∧
    match rejectInbox (event_inbox db) (new_inbox 0 ev json), commit_err tx with
    | Some e, _ => db' = db ∧ err ≠ None ∧ IsDuplicateKeyError err = IsDuplicateKeyErr (Some e)
    | None, Some _ => db' = db ∧ err ≠ None ∧ IsDuplicateKeyError err = false
    | None, None => err = None ∧
        db' = mkDB (event_inbox db ++ [new_inbox nextInbox ev json])
                (inventory db ++ [new_inventory nextInv ev])
    end.
Proof.
  intros Hjson Hb Hce Habort.
  unfold handlePaymentCreated, PaymentToInventory. rewrite Hjson.
  unfold InventoryService_Save, CdcTx.TxClosure, TxClosure, go_bind at 1. rewrite Hb.
  unfold InboxEventRepo_Insert, go_bind at 1.
  fold (new_inbox 0 ev json).
  destruct (rejectInbox (event_inbox db) (new_inbox 0 ev json)) as [e|].
  - change (IsDuplicateKeyErr (Some (NewNonExistingKeyError e))) with (IsDuplicateKeyErr (Some e)).
    destruct (IsDuplicateKeyErr (Some e)), (rollback_err tx); cbn;
      (eexists _, _; split; [reflexivity|]; done).
  - unfold go_bind, InventoryRepo_Insert. cbn [inventory event_inbox].
    destruct (rejectInv (inventory db) _) as [e|] eqn:Hrej.
    + destruct (commit_err tx) as [ce|] eqn:Hc.
      * cbn. eexists _, _. split; [reflexivity|]. split_and!; [done..|].
        unfold IsDuplicateKeyError, has_code. cbn. by rewrite (Hce ce eq_refl).
      * by destruct Habort.
    + destruct (commit_err tx) as [ce|] eqn:Hc; cbn; (eexists _, _; split; [reflexivity|]).
      * split_and!; [done..|]. unfold IsDuplicateKeyError, has_code. cbn.
        by rewrite (Hce ce eq_refl).
      * done.
Qed.
End Inventory.

Section InventoryMessages.
Import InventoryRouter.
Context {Msg : Type}
  (Decoder : TopicPartition → string → result CDCPaymentEnvelope)
  (ParseFloat : string → result spec_float)
  (marshal : PaymentCreatedEvent → result string)
  (tx : TxAnswers)
  (rejectInbox : list InboxEvent → InboxEvent → option error)
  (rejectInv : list Inventory → Inventory → option error)
  (nextInbox nextInv : Z) (pName : string) (now : Time).

(** What the goroutine of a message tells the tracker. *)
Definition told (err : option error) : Z :=
  if bool_decide (err ≠ None) && negb (IsDuplicateKeyError err) then MsgState_Error else MsgState_Success.

Lemma consume_eq handle tp db (c : KafkaConsumer Msg) (ps : PartitionState) err db' :
  free c → msgsStateMap c !! Partition tp = Some ps → handle (db, c) = Ret (err, (db', c)) →
  consume handle tp (db, c) =
    Ret (tt, (db', set_tracker (Partition tp) (update_state (Offset tp) (told err) ps) c)).
Proof.
  intros Hf Hps Hh. unfold consume, told. rewrite (go_bind_ret _ _ _ _ _ Hh).
  destruct (_ && _); unfold go_snd; by rewrite UpdateState_eq, Hps.
Qed.

(** A message that decodes to a payment's creation is handled as one. *)
Lemma handlerMsg_payment tp value env p ev :
  Topic tp = DebPaymentTopic → Decoder tp value = Ok env → Op env = "c"%string ∨ Op env = "r"%string →
  After env = Some p → Before env = None → paymentToEvent ParseFloat p = Ok ev →
  handlerMsg (C := KafkaConsumer Msg) KafkaEncoder_PROTO Decoder ParseFloat marshal tx
      rejectInbox rejectInv nextInbox nextInv pName now tp value =
  handlePaymentCreated marshal tx rejectInbox rejectInv nextInbox nextInv pName now ev
    EventType_PaymentCreated.
Proof.
  intros Htopic Hdec Hop Hafter Hbefore Hev.
  unfold handlerMsg, decodeMsg, decodePayment. rewrite decide_True, Hdec by done.
  rewrite Htopic, getEventType_payment by done. rewrite decide_True by done.
  unfold getPaymentCreatedEvent. by rewrite Hafter, Hbefore, Hev.
Qed.

(** C17. A payment's creation, from Kafka to the tables and the tracker.  When
    the message decodes, the transaction begins, and the database refuses to
    commit after a failed statement (as Postgres does), the goroutine of the
    message finishes; the tracker hears "success" exactly when the payment's
    inbox row and its reservation are now both stored, or the inbox row was
    already there, and "error" otherwise; and unless they are both stored the
    tables are as before. *)
Theorem inventory_message_correct (tp : TopicPartition) (value json : string)
    (env : CDCPaymentEnvelope) (p : CDCPayment) (ev : PaymentCreatedEvent) (db : DB)
    (c : KafkaConsumer Msg) (ps : PartitionState) :
  free c → msgsStateMap c !! Partition tp = Some ps → Topic tp = DebPaymentTopic →
  Decoder tp value = Ok env → Op env = "c"%string ∨ Op env = "r"%string →
  After env = Some p → Before env = None →
  paymentToEvent ParseFloat p = Ok ev → marshal ev = Ok json →
  begin_err tx = None → (∀ e, commit_err tx = Some e → as_app e = None) →
  (rejectInv (inventory db) (new_inventory pName now 0 ev) ≠ None → commit_err tx ≠ None) →
  ∃ db' v,
    consume (handlerMsg KafkaEncoder_PROTO Decoder ParseFloat marshal tx
      rejectInbox rejectInv nextInbox nextInv pName now tp value) tp (db, c) =
    Ret (tt, (db', set_tracker (Partition tp) (update_state (Offset tp) v ps) c)) ∧
    match rejectInbox (event_inbox db) (new_inbox now 0 ev json), commit_err tx with
    | None, None => v = MsgState_Success ∧
        db' = mkDB (event_inbox db ++ [new_inbox now nextInbox ev json])
                (inventory db ++ [new_inventory pName now nextInv ev])
    | Some e, _ => db' = db ∧
        v = if IsDuplicateKeyErr (Some e) then MsgState_Success else MsgState_Error
    | None, Some _ => db' = db ∧ v = MsgState_Error
    end.
Proof.
  intros Hf Hps Htopic Hdec Hop Hafter Hbefore Hev Hjson Hb Hce Habort.
  destruct (handlePaymentCreated_eq marshal tx rejectInbox rejectInv nextInbox nextInv pName now
    ev json db c Hjson Hb Hce Habort) as (db' & err & Hrun & Hcase).
  exists db', (told err). split.
  - apply consume_eq; [done..|]. by erewrite handlerMsg_payment by done.
  - unfold told. destruct (rejectInbox (event_inbox db) _) as [e|].
    + destruct Hcase as (-> & Herr & ->). split; [done|].
      rewrite bool_decide_true by done. by destruct (IsDuplicateKeyErr _).
    + destruct (commit_err tx).
      * destruct Hcase as (-> & Herr & ->). by rewrite bool_decide_true.
      * by destruct Hcase as [-> ->].
Qed.
End InventoryMessages.

(** The payment router's loop ends at the first message whose handler fails
    otherwise than on a duplicate, leaving the rest of the channel unread. *)
Lemma payment_router_stops {W Msg : Type} handle (tp : TopicPartition) (value : string)
    rest (w : W) (c : KafkaConsumer Msg) (err : error) (w' : W) (c' c'' : KafkaConsumer Msg) :
  handle tp value (w, c) = Ret (Some err, (w', c')) → IsDuplicateKeyError (Some err) = false →
  UpdateState tp MsgState_Error c' = Ret (tt, c'') →
  PaymentRouter.consumeLoop handle ((tp, value) :: rest) (w, c) = Ret (Some rest, (w', c'')).
Proof.
  intros Hh Hd Hu. cbn [PaymentRouter.consumeLoop]. rewrite (go_bind_ret _ _ _ _ _ Hh), Hd.
  change (bool_decide (Some err ≠ None) && negb false) with true. cbv iota.
  unfold go_bind, go_snd. by rewrite Hu.
Qed.

(** In particular at the first message that comes before its handler was added,
    which the constructor makes possible. *)
Lemma payment_router_needs_handlers {W Msg : Type} parse (tp : TopicPartition) (value : string)
    rest (w : W) (c c' : KafkaConsumer Msg) :
  UpdateState tp MsgState_Error c = Ret (tt, c') →
  PaymentRouter.consumeLoop (PaymentRouter.handlerMsg parse PaymentRouter.NewMsgRouter)
    ((tp, value) :: rest) (w, c) = Ret (Some rest, (w, c')).
Proof.
  intros Hu. set (handle := PaymentRouter.handlerMsg _ _).
  assert (∃ err, handle tp value (w, c) = Ret (Some err, (w, c)) ∧ IsDuplicateKeyError (Some err) = false)
    as (err & Hh & Hd).
  { unfold handle, PaymentRouter.handlerMsg, PaymentRouter.getHandler, getEventType.
    repeat case_match; simplify_eq/=; eexists; split; reflexivity. }
  by apply (payment_router_stops handle tp value rest w c err w c c').
Qed.

(** ** A concrete run *)

#[local] Instance kafka_lib_demo : KafkaLib.
Proof. refine {| OffsetBeginning := -2 |}. unfold min_int64. lia. Defined.

Definition demo_payment : CDCPayment := mkCDCPayment 7 "o" "25" "reserved" 1000000 1000001.
Definition demo_event : PaymentCreatedEvent :=
  mkPaymentCreated 7 "o" (S754_finite false 25 0) "reserved" 1000000000 1000001000.
Definition demo_tracker : PartitionState := NewPartitionState (mkTP DebPaymentTopic 0 4).
Definition demo_cdc_consumer : KafkaConsumer string :=
  set_tracker 0 demo_tracker demo_consumer.

Lemma inventory_message_correct_witness :
  ∃ db' v,
    InventoryRouter.consume (InventoryRouter.handlerMsg KafkaEncoder_PROTO
      (λ _ _, Ok (mkEnvelope None (Some demo_payment) "c" 0)) (λ _, Ok (S754_finite false 25 0))
      (λ _, Ok "{}"%string) tx_fine (λ _ _, None) (λ _ _, None) 1 1 "P" 9
      (mkTP DebPaymentTopic 0 4) "v") (mkTP DebPaymentTopic 0 4) (mkDB [] [], demo_cdc_consumer) =
    Ret (tt, (db', set_tracker 0 (update_state 4 v demo_tracker) demo_cdc_consumer)) ∧
    v = MsgState_Success ∧
    db' = mkDB [new_inbox 9 1 demo_event "{}"] [new_inventory "P" 9 1 demo_event].
Proof.
  apply (inventory_message_correct
    (λ _ _, Ok (mkEnvelope None (Some demo_payment) "c" 0)) (λ _, Ok (S754_finite false 25 0))
    (λ _, Ok "{}"%string) tx_fine (λ _ _, None) (λ _ _, None) 1 1 "P" 9
    (mkTP DebPaymentTopic 0 4) "v" "{}" (mkEnvelope None (Some demo_payment) "c" 0) demo_payment
    demo_event (mkDB [] []) demo_cdc_consumer demo_tracker); try reflexivity.
  - by left.
  - discriminate.
  - intros H. exfalso. by apply H.
Defined.

Example demo_quantity : Quantity (new_inventory "P" 9 1 demo_event) = 2.
Proof. vm_compute. reflexivity. Qed.
