(* ===== verification/CdcDelivery.v ===== *)
(** * The inventory service of kafka-cdc, end to end

    The payments of a partition of the change topic handled by the inventory
    service (Cdc.v), as a [MessageStore] for EndToEnd.v.  Of the tables only
    [inventory] has a unique index (on the payment's order number,
    migrations/inventory/000003_inventory.up.sql); the inbox has none. *)

From S2P Require Import Prelude GoSem KafkaTracker Delivery KafkaConsumer Transactions Cdc EndToEnd.
From Stdlib Require Import SpecFloat.

Section Reservations.
Import InventoryRouter.
Context {Msg : Type} (c0 : KafkaConsumer Msg) (p : Z)
  (Decoder : TopicPartition → string → result CDCPaymentEnvelope)
  (ParseFloat : string → result spec_float)
  (marshal : PaymentCreatedEvent → result string).

(** A partition that holds creations of payments. *)
Record PaymentLog := mkLog {
  value : Z → string; payment : Z → CDCPayment; created : Z → PaymentCreatedEvent; json : Z → string }.
Class ReadableLog (log : PaymentLog) : Prop := {
  log_decodes o : ∃ op ts,
    Decoder (mkTP DebPaymentTopic p o) (value log o) = Ok (mkEnvelope None (Some (payment log o)) op ts) ∧
    (op = "c" ∨ op = "r")%string;
  log_maps o : paymentToEvent ParseFloat (payment log o) = Ok (created log o);
  log_marshals o : marshal (created log o) = Ok (json log o) }.

Context (log : PaymentLog) {Hlog : ReadableLog log}.

Definition with_tracker (ps : PartitionState) : KafkaConsumer Msg := set_tracker p ps c0.

(** The answers of the database to one message: an insert refused by the unique
    index is an error, the inbox never refuses a row as a duplicate, and a
    transaction with a failed statement does not commit. *)
Record Answers := mkAnswers {
  tx : TxAnswers;
  rejectInbox : list InboxEvent → InboxEvent → option error;
  rejectInv : list Inventory → Inventory → option error;
  nextInbox : Z; nextInv : Z; pName : string; now : Time }.
Record possible (a : Answers) (db : DB) (ev : PaymentCreatedEvent) : Prop := {
  a_index : UniqueIndex inv_OrderNumber (rejectInv a);
  a_inbox rows r e : rejectInbox a rows r = Some e → IsDuplicateKeyErr (Some e) = false;
  a_begin : begin_err (tx a) = None;
  a_commit e : commit_err (tx a) = Some e → as_app e = None;
  a_abort : rejectInv a (inventory db) (new_inventory (pName a) (now a) 0 ev) ≠ None →
            commit_err (tx a) ≠ None }.

(** The goroutine of the message at [o]. *)
Definition consume_at (a : Answers) (o : Z) : GO (DB * KafkaConsumer Msg) unit :=
  let tp := mkTP DebPaymentTopic p o in
  consume (handlerMsg KafkaEncoder_PROTO Decoder ParseFloat marshal (tx a) (rejectInbox a)
    (rejectInv a) (nextInbox a) (nextInv a) (pName a) (now a) tp (value log o)) tp.

Inductive inventory_attempt (o : Z) (db : DB) (ps : PartitionState) :
    DB → PartitionState → bool → Prop :=
| inventory_consume a db' c' ps' :
    possible a db (created log o) →
    consume_at a o (db, with_tracker ps) = Ret (tt, (db', c')) → msgsStateMap c' !! p = Some ps' →
    inventory_attempt o db ps db' ps' (bool_decide (State ps' !! o = Some MsgState_Error)).

(** Nothing happens to the tables by itself. *)
Definition inventory_settle (db db' : DB) : Prop := False.

(** Each reservation belongs to an inbox row, and no order has two. *)
Definition inventory_ok (db : DB) : Prop :=
  NoDup (inv_OrderNumber <$> inventory db) ∧
  Forall2 (λ e r, AggregateId e = PaymentId r) (event_inbox db) (inventory db).
Definition reserved (db : DB) (o : Z) : Prop :=
  pay_OrderNumber (created log o) ∈ inv_OrderNumber <$> inventory db.

Context (Hfree : free c0).

(** What an attempt does: it adds the inbox row and the reservation of an order
    that has none and reports success, or changes nothing and reports an error. *)
Lemma inventory_attempt_eq o db ps db' ps' fl :
  inventory_attempt o db ps db' ps' fl →
  ps' = update_state o (if fl : bool then MsgState_Error else MsgState_Success) ps ∧
  if fl : bool then db' = db
  else ¬ reserved db o ∧ ∃ e r, AggregateId e = PaymentId r ∧
    inv_OrderNumber r = pay_OrderNumber (created log o) ∧
    db' = mkDB (event_inbox db ++ [e]) (inventory db ++ [r]).
Proof using Hfree Hlog.
  intros [a db1 c' ps1 [Hun Hin Hb Hce Habort] Hrun Hps].
  destruct (log_decodes o) as (op & ts & Hdec & Hop).
  destruct (handlePaymentCreated_eq marshal (tx a) (rejectInbox a) (rejectInv a) (nextInbox a)
    (nextInv a) (pName a) (now a) (created log o) (json log o) db (with_tracker ps)
    (log_marshals o) Hb Hce Habort) as (db2 & err & Hh & Hcase).
  unfold consume_at in Hrun.
  rewrite (consume_eq _ (mkTP DebPaymentTopic p o) db (with_tracker ps) ps err db2) in Hrun;
    [|done|by apply lookup_insert_eq|].
  2:{ by erewrite handlerMsg_payment; [exact Hh|done|exact Hdec|exact Hop|done|done|apply log_maps]. }
  injection Hrun as <- <-. simpl in Hps. rewrite lookup_insert_eq in Hps. injection Hps as <-.
  simpl. rewrite lookup_insert_eq.
  assert (Htold : IsDuplicateKeyError err = false → err ≠ None → told err = MsgState_Error)
    by (intros Hd Hne; unfold told; by rewrite bool_decide_true, Hd).
  destruct (rejectInbox a (event_inbox db) _) as [e|] eqn:Hri.
  - destruct Hcase as (-> & Hne & Hdup). rewrite (Hin _ _ _ Hri) in Hdup.
    rewrite (Htold Hdup Hne). by rewrite bool_decide_true.
  - destruct (commit_err (tx a)) as [ce|] eqn:Hc.
    + destruct Hcase as (-> & Hne & Hdup). rewrite (Htold Hdup Hne). by rewrite bool_decide_true.
    + destruct Hcase as [-> ->]. change (told None) with MsgState_Success.
      rewrite bool_decide_false by done. split; [done|]. split.
      * intros Hres. destruct (unique_refuses (reject := rejectInv a) (inventory db)
          (new_inventory (pName a) (now a) 0 (created log o)) Hres) as [e He].
        by apply Habort; [rewrite He|].
      * eexists _, _. split; [|split; [|reflexivity]]; done.
Qed.

#[global] Instance inventory_store :
  MessageStore inventory_attempt inventory_settle inventory_ok reserved.
Proof using Hfree Hlog.
  split; unfold reserved.
  - intros o db ps db' ps' fl [Hnd Hf] [_ Hdb]%inventory_attempt_eq. destruct fl; [by subst|].
    destruct Hdb as (Hnew & e & r & Hid & Hon & ->). split; simpl.
    + rewrite fmap_app. apply NoDup_app. split_and!; [done| |apply NoDup_singleton].
      simpl. rewrite Hon. unfold reserved in Hnew. set_solver.
    + apply Forall2_app; [done|]. by repeat constructor.
  - intros o o' db ps db' ps' fl Hst [_ Hdb]%inventory_attempt_eq. destruct fl; [by subst|].
    destruct Hdb as (_ & e & r & _ & _ & ->). simpl. rewrite fmap_app. set_solver.
  - intros o db ps db' ps' fl [-> _]%inventory_attempt_eq. eexists. split; [|done]. by destruct fl.
  - intros o db ps db' ps' _ [_ (_ & e & r & _ & Hon & ->)]%inventory_attempt_eq. simpl.
    rewrite fmap_app, <-Hon. set_solver.
  - done.
  - done.
Qed.

(** C5. Payments, from the partition to the inventory: in every interleaving of
    receipts, handlers and the tracker's steps, no order has two reservations
    and each reservation has its inbox row; no commit request passes a payment
    whose order has no reservation, unless an attempt at it failed; and a
    payment that comes again is reported as an error, not as a duplicate, and
    changes nothing. *)
Theorem committed_is_reserved `{KafkaLib} (tp : TopicPartition) (db0 : DB)
    (w : World (DB := DB)) (c o : Z) :
  assignable tp → inventory_ok db0 →
  rtc (e2e_step inventory_attempt inventory_settle) (world0 tp db0) w →
  inventory_ok (db w) ∧
  (c ∈ requests (sys w) → o ∈ received (sys w) → o < c → reserved (db w) o ∨ o ∈ failed w) ∧
  (reserved (db w) o → ∀ ps db' ps' fl, inventory_attempt o (db w) ps db' ps' fl →
     db' = db w ∧ ps' = update_state o MsgState_Error ps).
Proof using Hfree Hlog.
  intros Htp Hwf Hrun. split_and!.
  - exact (reachable_wf _ _ _ _ _ Hwf Hrun).
  - intros Hc Ho Hlt. exact (requested_is_stored _ _ _ _ _ _ _ Htp Hwf Hrun Hc Ho Hlt).
  - intros Hres ps db' ps' fl [Hps Hdb]%inventory_attempt_eq. destruct fl; [done|]. tauto.
Qed.
End Reservations.

(** ** A concrete run *)

#[local] Instance kafka_lib_demo : KafkaLib.
Proof. refine {| OffsetBeginning := -2 |}. unfold min_int64. lia. Defined.

Definition demo_reader (tp : TopicPartition) (v : string) : result CDCPaymentEnvelope :=
  Ok (mkEnvelope None (Some demo_payment) "c" 0).
Definition demo_float (s : string) : result spec_float := Ok (S754_finite false 25 0).
Definition demo_json (ev : PaymentCreatedEvent) : result string := Ok "{}"%string.
Definition demo_log : PaymentLog :=
  mkLog (λ _, "v"%string) (λ _, demo_payment) (λ _, demo_event) (λ _, "{}"%string).
#[local] Instance demo_log_readable : ReadableLog 0 demo_reader demo_float demo_json demo_log.
Proof. split; intros o; [|reflexivity..]. exists "c"%string, 0. split; [reflexivity|by left]. Qed.

(** The message arrives twice: the second attempt changes nothing. *)
Definition demo_answers (refuse : bool) : Answers :=
  mkAnswers (mkTx None (if refuse then Some (ErrExt "aborted") else None) None) (λ _ _, None)
    (unique_reject inv_OrderNumber) 1 1 "P" 9.
Lemma demo_possible refuse db :
  (refuse = true ∨ pay_OrderNumber demo_event ∉ inv_OrderNumber <$> inventory db) →
  possible (demo_answers refuse) db demo_event.
Proof.
  intros Hr. split; simpl; try done.
  - apply _.
  - intros e. by destruct refuse; intros [= <-].
  - unfold unique_reject. destruct refuse; [done|]. destruct Hr as [?|Hr]; [done|].
    case_decide; [done|]. done.
Qed.

Definition demo_tables : DB := mkDB [new_inbox 9 1 demo_event "{}"] [new_inventory "P" 9 1 demo_event].
Definition demo_received : Sys :=
  mkSys (append_state (mkTP "t" 0 5) (tracker demo_s1)) ({[5]} ∪ ∅) ∅ 6 [].
Definition demo_told : Sys :=
  mkSys (update_state 5 MsgState_Success (tracker demo_received)) ({[5]} ∪ ∅) ({[5]} ∪ ∅) 6 [].
Definition demo_again : Sys :=
  mkSys (update_state 5 MsgState_Error (tracker demo_told)) ({[5]} ∪ ∅) ({[5]} ∪ ({[5]} ∪ ∅)) 6 [].
Definition demo_ticked : PartitionState :=
  match commitOffsetLoop EvTick (tracker demo_again) with Ret ps => ps | _ => tracker demo_again end.
Definition demo_end : World (DB := DB) :=
  mkWorld (mkSys demo_ticked ({[5]} ∪ ∅) ({[5]} ∪ ({[5]} ∪ ∅)) 6 [6]) demo_tables ({[5]} ∪ ∅).

#[local] Abbreviation demo_steps := (e2e_step (inventory_attempt demo_consumer 0 demo_reader demo_float demo_json demo_log)
  inventory_settle).
Lemma inventory_demo_run : rtc demo_steps (world0 demo_tp (mkDB [] [])) demo_end.
Proof.
  eapply rtc_l; [apply e_system; [by apply ss_start|done]|].
  eapply rtc_l; [apply e_system; [by apply (ss_receive demo_s1 (mkTP "t" 0 5))|done]|].
  eapply rtc_l; [apply (e_attempt _ _ demo_received (mkDB [] []) ∅ 5 demo_tables (tracker demo_told));
    [set_solver|]|].
  { eapply (inventory_consume demo_consumer 0 demo_reader demo_float demo_json demo_log 5 _ _
      (demo_answers false)); [apply demo_possible; right; apply not_elem_of_nil|reflexivity|reflexivity]. }
  eapply rtc_l; [apply (e_attempt _ _ demo_told demo_tables ∅ 5 demo_tables (tracker demo_again));
    [set_solver|]|].
  { eapply (inventory_consume demo_consumer 0 demo_reader demo_float demo_json demo_log 5 _ _
      (demo_answers true)); [apply demo_possible; by left|reflexivity|reflexivity]. }
  eapply rtc_l; [apply e_system; [by apply (ss_tick demo_again demo_ticked)|done]|].
  apply rtc_refl.
Qed.

Lemma committed_is_reserved_witness :
  6 ∈ requests (sys demo_end) ∧ inventory_ok (db demo_end) ∧
  (reserved demo_log (db demo_end) 5 ∨ 5 ∈ failed demo_end).
Proof.
  split; [apply list_elem_of_here|].
  destruct (committed_is_reserved demo_consumer 0 demo_reader demo_float demo_json demo_log
    (eq_refl false) demo_tp (mkDB [] []) demo_end 6 5) as (Hok & Hst & _).
  - split; vm_compute; congruence.
  - split; [apply NoDup_nil_2|constructor].
  - exact inventory_demo_run.
  - split; [exact Hok|].
    apply Hst; [apply list_elem_of_here|apply elem_of_union_l, elem_of_singleton; reflexivity|lia].
Defined.
