(* ===== verification/CdcPayment.v ===== *)
(** * The payment service of kafka-cdc (internal/payment)

    The payment table with the service that inserts and confirms payments
    (application/payment.service.go, infra/repo/payment.repo.go), the copy of
    the event repository (infra/repo/event-repo.go), the handler that makes a
    payment (cmd/payment-server/main.go), and the mapper of Avro payments
    (internal/inventory/handlers/msg/avro-payment.go).  The answers of the
    database are arguments, as in Outbox.v, whose rows these tables share. *)

From S2P Require Import Prelude GoSem GoFloat CdcDecimal KafkaTracker Transactions Outbox Cdc.
From Stdlib Require Import SpecFloat.

Module Payments.

(** ** Data *)

Record Payment := mkPayment {
  payment_ID : Z; OrderNumber : string; Amount : float64; payment_Status : string;
  CreatedAt : Time; UpdatedAt : Time }.

Definition NewPayment (now1 now2 : Time) (orderNumber : string) (amount : float64) (status : string) :
    Payment := mkPayment 0 orderNumber amount status now1 now2.

Record DB := mkDB { payment : list Payment; events : list Event }.

Definition set_status (status : string) (p : Payment) : Payment :=
  mkPayment (payment_ID p) (OrderNumber p) (Amount p) status (CreatedAt p) (UpdatedAt p).

(** ** Repositories *)

Section Repos.
Context {W : Type}.

(** [INSERT .. RETURNING id]: refused by the server, or answered with rows, the
    last of which gives the identifier; reading a row may fail too. *)
Inductive insert_answer := Refused (e : error) | Inserted (id : Z) | ScanError (e : error).

Definition PaymentRepo_Insert (answer : list Payment → Payment → insert_answer) (p : Payment) :
    GO (DB * W) (result Z) := λ '(db, w),
  let stored id := mkDB (payment db ++ [mkPayment id (OrderNumber p) (Amount p) (payment_Status p)
                                          (CreatedAt p) (UpdatedAt p)]) (events db) in
  match answer (payment db) p with
  | Refused err => Ret (Err (NewNonExistingKeyError err), (db, w))
  | ScanError err => Ret (Err (NewNonExistingKeyError err), (stored 0, w))
  | Inserted id => Ret (Ok id, (stored id, w))
  end.

(** Only the identifier is selected; errors other than "no rows" are not seen. *)
Definition PaymentRepo_Get (answer : result (option Z)) : option Payment :=
  match answer with
  | Ok (Some id) => Some (mkPayment id "" (S754_zero false) "" zero_time zero_time)
  | Ok None => None
  | Err _ => Some (mkPayment 0 "" (S754_zero false) "" zero_time zero_time)
  end.

(** [exec_err] and [rows_err] are the failures of the statement and of its row
    count. *)
Definition PaymentRepo_UpdateStatus (exec_err rows_err : option error) (ID : Z) (status : string) :
    GO (DB * W) (option error) := λ '(db, w),
  match exec_err with
  | Some err => Ret (Some err, (db, w))
  | None =>
      let updated := filter (λ p, payment_ID p = ID) (payment db) in
      let db' := mkDB ((λ p, if decide (payment_ID p = ID) then set_status status p else p)
                         <$> payment db) (events db) in
      match rows_err with
      | Some err => Ret (Some err, (db', w))
      | None =>
          if Z.of_nat (length updated) =? 0 then
            Ret (Some (NewNonExistingKeyError
                         (ErrNew ("ID does not exist, errCode = " +:+ pretty CodeNonExistingKey))),
                 (db', w))
          else Ret (None, (db', w))
      end
  end.

Definition EventRepo_Insert (reject : list Event → Event → option error) (e : Event) :
    GO (DB * W) (result string) := λ '(db, w),
  match reject (events db) e with
  | Some err => Ret (Err err, (db, w))
  | None => Ret (Ok (EventId e), (mkDB (payment db) (events db ++ [e]), w))
  end.

Definition EventRepo_UpdateStatusById (exec_err rows_err : option error) (eventId status : string) :
    GO (DB * W) (result string) := λ '(db, w),
  match exec_err with
  | Some err => Ret (Err err, (db, w))
  | None =>
      let db' := mkDB (payment db)
        ((λ e, if decide (EventId e = eventId) then set_event_status status e else e) <$> events db) in
      match rows_err with
      | Some err => Ret (Err err, (db', w))
      | None =>
          Ret (Ok (pretty (Z.of_nat (length (filter (λ e, EventId e = eventId) (events db))))),
            (db', w))
      end
  end.

(** [sqlx.In] refuses an empty slice. *)
Definition EventRepo_UpdateStatusByIds (exec_err rows_err : option error) (eventIds : list string)
    (status : string) : GO (DB * W) (result Z) := λ '(db, w),
  let status := if decide (status = ""%string) then EventStatus_Produced else status in
  if decide (eventIds = []) then Ret (Err (ErrExt "empty slice passed to 'in' query"), (db, w))
  else match exec_err with
  | Some err => Ret (Err err, (db, w))
  | None =>
      let db' := mkDB (payment db)
        ((λ e, if decide (EventId e ∈ eventIds) then set_event_status status e else e) <$> events db) in
      match rows_err with
      | Some err => Ret (Err err, (db', w))
      | None =>
          Ret (Ok (Z.of_nat (length (filter (λ e, EventId e ∈ eventIds) (events db)))), (db', w))
      end
  end.

Definition EventRepo_Get (answer : QueryAnswer) : option Event := Outbox.EventRepo_Get answer.

(** [query] and [scan] are the errors of the query and of reading a row. *)
Definition EventRepo_GetAllPending (query scan : option error) : GO (DB * W) (result (list Event)) :=
  λ '(db, w),
    match query with
    | Some err => Ret (Err err, (db, w))
    | None =>
        let pending := filter (λ e, Status e = EventStatus_Pending) (events db) in
        match scan, pending with
        | Some err, _ :: _ => Ret (Err err, (db, w))
        | _, _ => Ret (Ok pending, (db, w))
        end
    end.
End Repos.

(** ** The service *)

Section Service.

(** The rest of the world is the caller's payment, whose identifier is set
    inside the transaction. *)
Definition PaymentService_Save (tx : TxAnswers) (answer : list Payment → Payment → insert_answer) :
    GO (DB * Payment) (result Z) :=
  CdcTx.TxClosure tx (λ '(db, p),
    (r ←' PaymentRepo_Insert answer p ;;
     match r with
     | Err err => go_ret (Err (NewNonExistingKeyError err))
     | Ok paymentID => λ '(db, p),
         Ret (Ok paymentID, (db, mkPayment paymentID (OrderNumber p) (Amount p) (payment_Status p)
                                    (CreatedAt p) (UpdatedAt p)))
     end) (db, p)).

Definition PaymentService_Confirm {W} (tx : TxAnswers) (exec_err rows_err : option error) (ID : Z) :
    GO (DB * W) (option error) :=
  r ←' CdcTx.TxClosure tx (
         err ←' PaymentRepo_UpdateStatus exec_err rows_err ID "confirmed" ;;
         go_ret match err with Some err => Err err | None => Ok 0 end) ;;
  go_ret match r with Err err => Some err | Ok _ => None end.

(** cmd/payment-server/main.go: [amount] is [rand.Intn(100_000)]. *)
Definition createPayment (tx : TxAnswers) (answer : list Payment → Payment → insert_answer)
    (amount : Z) (now1 now2 : Time) (db : DB) : outcome (result Z * DB) :=
  let paym := NewPayment now1 now2 (pretty amount) (float_of_Z amount) "reserved" in
  '(r, (db, _)) ← PaymentService_Save tx answer (db, paym);
  Ret (r, db).

(** The handler does not answer with its error: the status is always 200. *)
Definition handleCreatePayment (tx : TxAnswers) (answer : list Payment → Payment → insert_answer)
    (amount : Z) (now1 now2 : Time) (db : DB) : outcome (Z * DB) :=
  '(_, db) ← createPayment tx answer amount now1 now2 db;
  Ret (200, db).
End Service.
End Payments.

(** ** The Avro mapper *)

Module Avro.

(** pkg/types/avro: the optional columns are pointers. *)
Record CDCPayment := mkAvroPayment {
  ID : Z; OrderNumber : string; Amount : string; Status : option string;
  CreatedAt : option Z; UpdatedAt : option Z }.

Definition deref {A} (p : option A) : outcome A :=
  match p with Some a => Ret a | None => Panic "invalid memory address or nil pointer dereference" end.

Definition PaymenmtToEvent (ParseFloat : string → result spec_float) (cdc : CDCPayment) :
    outcome (result PaymentCreatedEvent) :=
  let amount := match ParseFloat (Amount cdc) with
                | Ok amount => Ok amount
                | Err _ => DecodeDebeziumDecimal (Amount cdc) 2
                end in
  match amount with
  | Err err => Ret (Err err)
  | Ok amount =>
      status ← deref (Status cdc);
      createdAt ← deref (CreatedAt cdc);
      updatedAt ← deref (UpdatedAt cdc);
      Ret (Ok (mkPaymentCreated (ID cdc) (OrderNumber cdc) amount status
                 (ConvertIntTimeToUnix createdAt) (ConvertIntTimeToUnix updatedAt)))
  end.
End Avro.

(** ** Properties *)

Section PaymentFacts.
Import Payments.

Lemma rows_of_ID ID (l : list Payment) :
  (Z.of_nat (length (filter (λ p, payment_ID p = ID) l)) =? 0) = false ↔
  ∃ p, p ∈ l ∧ payment_ID p = ID.
Proof.
  assert (∀ p, p ∈ filter (λ p, payment_ID p = ID) l ↔ payment_ID p = ID ∧ p ∈ l) as Hin
    by (intros p; rewrite list_elem_of_filter; done).
  destruct (filter _ l) as [|p f] eqn:E; simpl.
  - split; [done|]. intros (p & Hp & HID). specialize (Hin p). set_solver.
  - split; [intros _|done]. exists p. specialize (Hin p). set_solver.
Qed.

Lemma UpdateStatus_eq {W} exec_err rows_err ID status (db : DB) (w : W) :
  ∃ err db', PaymentRepo_UpdateStatus exec_err rows_err ID status (db, w) = Ret (err, (db', w)) ∧
    (err = None ↔ exec_err = None ∧ rows_err = None ∧ ∃ p, p ∈ payment db ∧ payment_ID p = ID) ∧
    (err = None → db' = mkDB ((λ p, if decide (payment_ID p = ID) then set_status status p else p)
                                <$> payment db) (events db)).
Proof.
  unfold PaymentRepo_UpdateStatus. pose proof (rows_of_ID ID (payment db)) as Hrows.
  destruct exec_err as [e|], rows_err as [e'|];
    try (eexists _, _; split; [reflexivity|]; naive_solver).
  destruct (_ =? 0); (eexists _, _; split; [reflexivity|]; naive_solver).
Qed.

(** Confirming a payment is atomic and reports what it did: it succeeds
    exactly when no statement of the transaction failed and a payment has the
    id, then that payment is confirmed, and otherwise nothing changes. *)
Theorem Confirm_correct {W} tx exec_err rows_err ID (db : DB) (w : W) :
  ∃ err db', PaymentService_Confirm tx exec_err rows_err ID (db, w) = Ret (err, (db', w)) ∧
    (err = None ↔ begin_err tx = None ∧ exec_err = None ∧ rows_err = None ∧ commit_err tx = None ∧
                  ∃ p, p ∈ payment db ∧ payment_ID p = ID) ∧
    db' = match err with
          | None => mkDB ((λ p, if decide (payment_ID p = ID) then set_status "confirmed" p else p)
                            <$> payment db) (events db)
          | Some _ => db
          end.
Proof.
  unfold PaymentService_Confirm, CdcTx.TxClosure, TxClosure.
  destruct (begin_err tx) as [be|] eqn:Hb.
  { eexists _, _. split; [reflexivity|]. naive_solver. }
  destruct (UpdateStatus_eq exec_err rows_err ID "confirmed" db w) as (err & db' & Hu & Hiff & Hdb).
  unfold go_bind. rewrite Hu. unfold go_ret. destruct err as [err|].
  - destruct (rollback_err tx); (eexists _, _; split; [reflexivity|]; naive_solver).
  - destruct (commit_err tx) as [ce|]; (eexists _, _; split; [reflexivity|]; naive_solver).
Qed.

(** Saving: the identifier returned names the stored row; an error leaves the
    table as it was, but the caller's payment keeps the identifier when it is
    the commit that failed. *)
Lemma Save_correct tx answer (db : DB) (p : Payment) r db' p' :
  PaymentService_Save tx answer (db, p) = Ret (r, (db', p')) →
  let row id := mkPayment id (OrderNumber p) (Amount p) (payment_Status p) (CreatedAt p) (UpdatedAt p) in
  match r with
  | Ok id => answer (payment db) p = Inserted id ∧ p' = row id ∧
             db' = mkDB (payment db ++ [row id]) (events db)
  | Err _ => db' = db ∧ (p' = p ∨ ∃ id, answer (payment db) p = Inserted id ∧ p' = row id ∧
                                     commit_err tx ≠ None)
  end.
Proof.
  unfold PaymentService_Save, CdcTx.TxClosure, TxClosure, PaymentRepo_Insert, go_bind, go_ret.
  intros H. repeat case_match; simplify_eq/=; naive_solver.
Qed.

(** A refused payment is reported under the repository's own code. *)
Lemma Save_refused tx answer db p e :
  begin_err tx = None → rollback_err tx = None → answer (payment db) p = Refused e →
  ∃ err, PaymentService_Save tx answer (db, p) = Ret (Err err, (db, p)) ∧
    IsNonExistingKeyError (Some err) = true.
Proof.
  intros Hb Hr Ha. unfold PaymentService_Save, CdcTx.TxClosure, TxClosure, PaymentRepo_Insert, go_bind, go_ret.
  rewrite Hb, Ha, Hr. by eexists.
Qed.
End PaymentFacts.

(** The amount drawn by the payment server survives the float it is stored in,
    and reserves a tenth of it. *)
Lemma reservation_of_amount pName now order id amount :
  0 ≤ amount < 100000 →
  Quantity (NewInventoryReservation pName now order id (int_of_float (float_of_Z amount))) = amount / 10.
Proof.
  intros Ha. assert (int_of_float (float_of_Z amount) = amount) as ->.
  { destruct (float_of_Z_exact amount ltac:(lia)) as (Hv & Hf & He).
    assert (ftrunc (float_of_Z amount) = amount) as Ht.
    { rewrite ftrunc_fval, He by done. apply Z.quot_mul. done. }
    unfold ftrunc, int_of_float in *. destruct (float_of_Z amount) as [| | |s m e]; try done.
    cbv zeta in *. rewrite Ht. unfold min_int64, max_int64.
    by destruct (_ && _) eqn:E; [|lia]. }
  pose proof (NewInventoryReservation_quantity pName now order id amount ltac:(lia)) as Hq.
  cbv zeta in Hq. Z.to_euclidean_division_equations. lia.
Qed.
