(* ===== verification/CdcInfra.v ===== *)
(** * Connectors, encoders and migrations of kafka-cdc

    pkg/debezium/debezium.go (registering a connector with Kafka Connect),
    pkg/kafka/encoder.go, avro-encoder.go and proto-encoder.go (the choice of
    an encoder, the cache of Avro codecs) and migrations/main.go (the command
    that creates the database and runs migrations).  HTTP, the schema registry,
    Postgres and the migration library are arguments. *)

From S2P Require Import Prelude GoSem GoStrings KafkaTracker CdcDecimal Cdc.
From Stdlib Require Import Ascii.

(** ** Strings of migrations/main.go *)

Module Migrations.

Definition substr (i n : nat) (s : string) : string := String.substring i n s.

(** The loop of [indexOf] from [i], [fuel] iterations being left. *)
Fixpoint indexOf_from (s sub : string) (i fuel : nat) : Z :=
  match fuel with
  | O => -1
  | S fuel =>
      if decide (substr i (String.length sub) s = sub) then Z.of_nat i
      else indexOf_from s sub (S i) fuel
  end.
Definition indexOf (s sub : string) : Z :=
  indexOf_from s sub 0
    (Z.to_nat (Z.of_nat (String.length s) - Z.of_nat (String.length sub) + 1)).

Definition contains (s sub : string) : bool :=
  let n := String.length s in
  let m := String.length sub in
  bool_decide (m ≤ n)%nat &&
  (bool_decide (s = sub) ||
   bool_decide (m < n)%nat &&
   (bool_decide (substr 0 m s = sub) || bool_decide (substr (n - m) m s = sub)
    || (0 <=? indexOf s sub))).

Definition quote : string := String (ascii_of_nat 34) EmptyString.

(** [isAlreadyExistsError] of an error with the given text. *)
Definition isAlreadyExistsError (err : option string) : bool :=
  match err with
  | None => false
  | Some text =>
      bool_decide (text = "pq: database " +:+ quote +:+ text +:+ quote +:+ " already exists")
      || contains text "already exists"
  end.

(** *** setupDatabase *)

Definition walSettings : list string :=
  ["ALTER SYSTEM SET wal_level = 'logical'"; "ALTER SYSTEM SET max_wal_senders = 4";
   "ALTER SYSTEM SET max_replication_slots = 4"].

(** [exec] runs a statement on the server and gives the text of its error. *)
Section Setup.
Context {E : Type} (exec : string → GO E (option string)).

Definition setupDatabase (open_err : option error) (DBName : string) : GO E (option error) :=
  match open_err with
  | Some err => go_ret (Some (ErrWrap "failed to connect to postgres: " err))
  | None =>
      err ←' exec ("CREATE DATABASE " +:+ DBName) ;;
      match err with
      | Some text =>
          if isAlreadyExistsError (Some text) then
            go_for walSettings (λ setting, exec setting ;;' go_ret tt) ;;' go_ret None
          else go_ret (Some (ErrWrap "failed to create database: " (ErrExt text)))
      | None => go_for walSettings (λ setting, exec setting ;;' go_ret tt) ;;' go_ret None
      end
  end.
End Setup.

(** *** main *)

(** What the migration library is asked for. *)
Inductive call := Up | Down | Steps (n : Z) | Version.
Inductive exit := Done | Fatal (msg : string).

(** [migrate] answers the calls (the version itself is only printed);
    [ErrNoChange] tells the library's error for "nothing to do". *)
Section Main.
Context {E : Type} (exec : string → GO E (option string)) (migrate : call → GO E (option error))
  (ErrNoChange : error → bool).

Definition fatal_if (msg : string) (err : option error) : exit :=
  match err with Some _ => Fatal msg | None => Done end.

Definition migrate_action (action : string) (steps : Z) : GO E exit :=
  if decide (action = "up") then
    err ←' migrate Up ;;
    go_ret match err with
           | Some err => if ErrNoChange err then Done else Fatal "Migration up failed"
           | None => Done
           end
  else if decide (action = "down") then
    if 0 <? steps then
      err ←' migrate (Steps (int64 (- steps))) ;; go_ret (fatal_if "Migration down failed" err)
    else err ←' migrate Down ;; go_ret (fatal_if "Migration down failed" err)
  else if decide (action = "version") then
    err ←' migrate Version ;; go_ret (fatal_if "Failed to get version" err)
  else go_ret (Fatal "Unknown action").

(** [DBName] is the database the service's environment names, [open_err]
    and [new_err] the errors of [sql.Open] and [migrate.New]. *)
Definition main (DBName : string) (open_err new_err : option error) (service action : string)
    (steps : Z) : GO E exit :=
  if decide (service = "") then go_ret (Fatal "Please specify -service flag (payment or inventory)")
  else
    err ←' setupDatabase exec open_err DBName ;;
    match err with
    | Some _ => go_ret (Fatal "Database setup failed")
    | None =>
        match new_err with
        | Some _ => go_ret (Fatal "Failed to create migrate instance")
        | None => migrate_action action steps
        end
    end.
End Main.
End Migrations.

(** ** Kafka Connect (pkg/debezium/debezium.go) *)

Module Connectors.

Inductive request := Get (url : string) | Post (url body : string).
Inductive answer := HErr (e : error) | HStatus (code : Z) (body : string).

Definition GetDebPaymentDBConnectorName (DBName : string) : string := DBName +:+ "_conn".

Definition config (connectorName dbName tables : string) : list (string * string) :=
  [ ("connector.class", "io.debezium.connector.postgresql.PostgresConnector");
    ("tasks.max", "1"); ("database.hostname", "postgres-go-api"); ("database.port", "5432");
    ("database.user", "user"); ("database.password", "pass"); ("database.dbname", dbName);
    ("database.server.name", dbName +:+ "_server"); ("table.include.list", tables);
    ("plugin.name", "pgoutput"); ("topic.prefix", "cdc"); ("slot.name", connectorName);
    ("heartbeat.interval.ms", "10000"); ("decimal.handling.mode", "string");
    ("key.converter", "io.confluent.connect.protobuf.ProtobufConverter");
    ("key.converter.schema.registry.url", "http://schema-registry:8081");
    ("value.converter", "io.confluent.connect.protobuf.ProtobufConverter");
    ("value.converter.schema.registry.url", "http://schema-registry:8081") ]%string.

Section Client.
Context {E : Type} (http : request → GO E answer)
  (Marshal : string → list (string * string) → result string).

Definition status_ok (a : answer) : bool :=
  match a with HStatus code _ => code =? 200 | HErr _ => false end.

Definition maxRetries : nat := 30.
Fixpoint wait_loop (connectURL : string) (retries : nat) : GO E (option error) :=
  match retries with
  | O => go_ret (Some (ErrNew "kafka connect not ready after 30 retries"))
  | S retries =>
      resp ←' http (Get (connectURL +:+ "/connectors")) ;;
      if status_ok resp then go_ret None else wait_loop connectURL retries
  end.
Definition waitForKafkaConnect (connectURL : string) : GO E (option error) :=
  wait_loop connectURL maxRetries.

Definition RegisterConnector (connectURL connectorName dbName tables : string) :
    GO E (option error) :=
  match Marshal connectorName (config connectorName dbName tables) with
  | Err err => go_ret (Some (ErrWrap "failed to marshal config: " err))
  | Ok body =>
      err ←' waitForKafkaConnect connectURL ;;
      match err with
      | Some err => go_ret (Some err)
      | None =>
          resp ←' http (Get (connectURL +:+ "/connectors/" +:+ connectorName)) ;;
          if status_ok resp then go_ret None
          else
            resp ←' http (Post (connectURL +:+ "/connectors") body) ;;
            match resp with
            | HErr err => go_ret (Some (ErrWrap "failed to create connector: " err))
            | HStatus code text =>
                if code =? 201 then go_ret None
                else go_ret (Some (ErrNew ("failed to create connector: status=" +:+ pretty code
                                             +:+ ", body=" +:+ text)))
            end
      end
  end.
End Client.
End Connectors.

(** ** Substrings *)

Section Substrings.
Import Migrations.

Lemma substr_app p sub q : substr (String.length p) (String.length sub) (p +:+ sub +:+ q) = sub.
Proof.
  unfold substr. induction p as [|c p IH]; [|exact IH].
  simpl. induction sub as [|c sub IH]; simpl; [by destruct q|]. f_equal. exact IH.
Qed.

Lemma substr_split i n s :
  (i + n ≤ String.length s)%nat → ∃ p q, s = p +:+ substr i n s +:+ q ∧ String.length p = i.
Proof.
  unfold substr. revert n s. induction i as [|i IH]; intros n s H.
  - exists ""%string. simpl. revert n H. induction s as [|c s IHs]; intros n H.
    + simpl in H. assert (n = 0%nat) as -> by lia. by exists ""%string.
    + destruct n as [|n]; [by exists (String c s)|]. simpl in H.
      destruct (IHs n ltac:(lia)) as (q & Hq & _). exists q. split; [|done].
      change (String c s = String c (String.substring 0 n s +:+ q)). by f_equal.
  - destruct s as [|c s]; simpl in H; [lia|].
    destruct (IH n s ltac:(lia)) as (p & q & Hs & Hp). exists (String c p), q. simpl.
    split; [|by rewrite Hp]. change (String c s = String c (p +:+ String.substring i n s +:+ q)). by f_equal.
Qed.

Lemma append_nil_r s : s +:+ "" = s.
Proof. induction s as [|c s IH]; [done|]. change (String c (s +:+ "") = String c s). by rewrite IH. Qed.

Lemma length_append s1 s2 : String.length (s1 +:+ s2) = (String.length s1 + String.length s2)%nat.
Proof. induction s1 as [|c s1 IH]; [done|]. simpl. by f_equal. Qed.

Lemma indexOf_from_spec s sub fuel : ∀ i,
  match indexOf_from s sub i fuel with
  | Zneg _ => ∀ j, (i ≤ j < i + fuel)%nat → substr j (String.length sub) s ≠ sub
  | k => (i ≤ Z.to_nat k < i + fuel)%nat ∧ substr (Z.to_nat k) (String.length sub) s = sub ∧
         ∀ j, (i ≤ j < Z.to_nat k)%nat → substr j (String.length sub) s ≠ sub
  end.
Proof.
  induction fuel as [|fuel IH]; intros i; cbn [indexOf_from]; [intros j; lia|].
  case_decide as H.
  - destruct (Z.of_nat i) eqn:E; [..|lia]; replace (Z.to_nat _) with i by lia;
      (split_and!; [lia|lia|done|intros j; lia]).
  - specialize (IH (S i)). destruct (indexOf_from s sub (S i) fuel).
    3:{ intros j Hj. destruct (decide (j = i)) as [->|]; [done|]. apply IH. lia. }
    all: destruct IH as ([? ?] & ? & Hlt); split_and!; [lia|lia|done|].
    all: intros j Hj; destruct (decide (j = i)) as [->|]; [done|]; apply Hlt; lia.
Qed.

(** The first occurrence, or a negative number when there is none. *)
Lemma indexOf_nonneg s sub : (0 <=? indexOf s sub) = true ↔ ∃ p q, s = p +:+ sub +:+ q.
Proof.
  unfold indexOf. set (fuel := Z.to_nat _). pose proof (indexOf_from_spec s sub fuel 0) as H.
  rewrite Z.leb_le. split.
  - intros Hk. assert (∃ k, (k < fuel)%nat ∧ substr k (String.length sub) s = sub) as (k & Hlt & Hs).
    { destruct (indexOf_from s sub 0 fuel) as [|k|k]; [..|lia];
        destruct H as ([_ Hl] & Hs & _); eexists; split; [exact Hl|exact Hs|exact Hl|exact Hs]. }
    destruct (substr_split k (String.length sub) s) as (p & q & Hpq & _); [unfold fuel in Hlt; lia|].
    rewrite Hs in Hpq. by exists p, q.
  - intros (p & q & ->). destruct (indexOf_from (p +:+ sub +:+ q) sub 0 fuel); [lia..|].
    exfalso. apply (H (String.length p)); [|apply substr_app].
    unfold fuel. rewrite !length_append. lia.
Qed.

Lemma substr_occurs i s sub :
  (i + String.length sub ≤ String.length s)%nat → substr i (String.length sub) s = sub →
  ∃ p q, s = p +:+ sub +:+ q.
Proof.
  intros Hle H. destruct (substr_split i (String.length sub) s Hle) as (p & q & Hs & _).
  rewrite H in Hs. by exists p, q.
Qed.

(** The hand-written substring search of the migration tool finds exactly
    the substrings. *)
Theorem contains_spec s sub : contains s sub = true ↔ ∃ p q, s = p +:+ sub +:+ q.
Proof.
  unfold contains. cbv zeta. rewrite andb_true_iff, !orb_true_iff, andb_true_iff, !orb_true_iff,
    !bool_decide_eq_true, indexOf_nonneg. split.
  - intros [Hle [->|[Hlt [[H|H]|H]]]]; [| | |done].
    + exists ""%string, ""%string. symmetry. apply append_nil_r.
    + by apply (substr_occurs 0).
    + eapply substr_occurs; [|exact H]. lia.
  - intros H. pose proof H as (p & q & Hs). assert (String.length s = String.length p +
      (String.length sub + String.length q))%nat as Hlen by (by rewrite Hs, !length_append).
    split; [lia|]. destruct (decide (String.length sub < String.length s)%nat); [tauto|]. left.
    assert (p = "" ∧ q = "")%string as [-> ->].
    { destruct p, q; simpl in Hlen; [done|lia..]. }
    rewrite Hs. apply append_nil_r.
Qed.

(** The comparison with the formatted text never holds: the text would contain
    itself and more. *)
Lemma isAlreadyExistsError_eq text :
  isAlreadyExistsError (Some text) = contains text "already exists".
Proof.
  unfold isAlreadyExistsError. rewrite bool_decide_false; [done|]. intros H.
  apply (f_equal String.length) in H. rewrite !length_append in H. simpl in H. lia.
Qed.
End Substrings.

(** ** Database setup *)

Section SetupFacts.
Import Migrations.
Context {E : Type} (exec : string → GO E (option string)).

(** When the server answers every statement, the database is created (or was
    there), and the three settings are applied whatever becomes of each. *)
Lemma setupDatabase_eq DBName s :
  (∀ q s, ∃ r s', exec q s = Ret (r, s')) →
  ∃ created s1, exec ("CREATE DATABASE " +:+ DBName) s = Ret (created, s1) ∧
  match created with
  | Some text =>
      if contains text "already exists"
      then ∃ s2, setupDatabase exec None DBName s = Ret (None, s2)
      else ∃ e, setupDatabase exec None DBName s = Ret (Some e, s1)
  | None => ∃ s2, setupDatabase exec None DBName s = Ret (None, s2)
  end.
Proof.
  intros Htotal. destruct (Htotal ("CREATE DATABASE " +:+ DBName) s) as (created & s1 & Hc).
  exists created, s1. split; [done|].
  assert (∃ s2, (go_for walSettings (λ setting, exec setting ;;' go_ret tt) ;;' go_ret None) s1
    = Ret (@None error, s2)) as [s2 Hwal].
  { unfold walSettings, go_for, go_bind, go_ret.
    destruct (Htotal "ALTER SYSTEM SET wal_level = 'logical'" s1) as (? & s3 & ->).
    destruct (Htotal "ALTER SYSTEM SET max_wal_senders = 4" s3) as (? & s4 & ->).
    destruct (Htotal "ALTER SYSTEM SET max_replication_slots = 4" s4) as (? & s5 & ->). by eexists. }
  unfold setupDatabase. rewrite (go_bind_ret _ _ _ _ _ Hc). destruct created as [text|]; [|by exists s2].
  rewrite isAlreadyExistsError_eq. destruct (contains text _); [by exists s2|]. by eexists.
Qed.
End SetupFacts.

(** ** Registering a connector *)

Import Connectors.

(** What the code relies on of Kafka Connect under a base address: reading
    changes nothing, a connector's page exists when the connector does, and a
    request to create is either refused or adds one connector (when the answer
    is lost it may have done so). [named] is the name a request's body asks
    for. *)
Class ConnectServer {E : Type} (http : request → GO E answer) (connectURL : string)
    (named : string → option string) := {
  connectors : E → gmap string string;
  requests : E → Z;
  http_answers r e : ∃ a e', http r e = Ret (a, e') ∧ requests e' = requests e + 1;
  get_reads url e a e' : http (Get url) e = Ret (a, e') → connectors e' = connectors e;
  get_known name e a e' :
    http (Get (connectURL +:+ "/connectors/" +:+ name)) e = Ret (a, e') →
    status_ok a = true → is_Some (connectors e !! name);
  post_creates body e a e' :
    http (Post (connectURL +:+ "/connectors") body) e = Ret (a, e') →
    let created := ∃ name, named body = Some name ∧ connectors e !! name = None ∧
                     connectors e' = <[name := body]> (connectors e) in
    match a with
    | HStatus code _ => if code =? 201 then created else connectors e' = connectors e
    | HErr _ => connectors e' = connectors e ∨ created
    end }.

Section Registration.
Context {E : Type} {http : request → GO E answer} {connectURL : string}
  {named : string → option string} `{!ConnectServer http connectURL named}
  (Marshal : string → list (string * string) → result string).

Lemma wait_loop_correct n e :
  ∃ r e', wait_loop http connectURL n e = Ret (r, e') ∧ connectors e' = connectors e ∧
    requests e ≤ requests e' ≤ requests e + Z.of_nat n ∧
    (r ≠ None → requests e' = requests e + Z.of_nat n).
Proof.
  revert e. induction n as [|n IH]; intros e; cbn [wait_loop].
  - eexists _, _. split; [reflexivity|]. split_and!; [done|lia|lia|lia].
  - destruct (http_answers (Get (connectURL +:+ "/connectors")) e) as (a & e1 & Ha & Hreq).
    rewrite (go_bind_ret _ _ _ _ _ Ha). apply get_reads in Ha as Hc. destruct (status_ok a).
    + eexists _, _. split; [reflexivity|]. split_and!; [done|lia|lia|done].
    + destruct (IH e1) as (r & e' & -> & Hc' & ? & Hr). exists r, e'. split; [done|].
      split_and!; [congruence|lia|lia|]. intros Hne. specialize (Hr Hne). lia.
Qed.

Lemma RegisterConnector_spec connectorName dbName tables body e :
  Marshal connectorName (config connectorName dbName tables) = Ok body →
  named body = Some connectorName →
  ∃ r e', RegisterConnector http Marshal connectURL connectorName dbName tables e = Ret (r, e') ∧
    (r = None → is_Some (connectors e' !! connectorName)) ∧
    (connectors e' = connectors e ∨
     connectors e !! connectorName = None ∧
     connectors e' = <[connectorName := body]> (connectors e)) ∧
    requests e' ≤ requests e + 32.
Proof.
  intros Hbody Hnamed. unfold RegisterConnector. rewrite Hbody.
  destruct (wait_loop_correct maxRetries e) as (r & e1 & Hw & Hc1 & Hreq1 & _).
  unfold waitForKafkaConnect. rewrite (go_bind_ret _ _ _ _ _ Hw). unfold maxRetries in Hreq1.
  destruct r as [err|].
  { eexists _, _. split; [reflexivity|]. split_and!; [done|by left|lia]. }
  destruct (http_answers (Get (connectURL +:+ "/connectors/" +:+ connectorName)) e1)
    as (a & e2 & Ha & Hreq2).
  rewrite (go_bind_ret _ _ _ _ _ Ha). pose proof (get_reads _ _ _ _ Ha) as Hc2.
  pose proof (get_known _ _ _ _ Ha) as Hk. destruct (status_ok a).
  { eexists _, _. split; [reflexivity|]. rewrite Hc2. split_and!; [auto|left; congruence|lia]. }
  destruct (http_answers (Post (connectURL +:+ "/connectors") body) e2) as (p & e3 & Hp & Hreq3).
  rewrite (go_bind_ret _ _ _ _ _ Hp). pose proof (post_creates _ _ _ _ Hp) as Hcase.
  assert (Hnew : (∃ name, named body = Some name ∧ connectors e2 !! name = None ∧
      connectors e3 = <[name := body]> (connectors e2)) →
    connectors e !! connectorName = None ∧
    connectors e3 = <[connectorName := body]> (connectors e)).
  { intros (name & Hn & ? & ?). simplify_eq. by rewrite <-Hc1, <-Hc2. }
  destruct p as [err|code text]; [|destruct (code =? 201)];
    (eexists _, _; split; [reflexivity|]); (split_and!; [|..|lia]).
  - done.
  - destruct Hcase as [->|Hcase]; [left; congruence|right; auto].
  - intros _. destruct (Hnew Hcase) as [_ ->]. by rewrite lookup_insert_eq.
  - right. auto.
  - done.
  - left. congruence.
Qed.

End Registration.

(** *** A server that satisfies the interface: it refuses connections for a
    while, then answers; a connector's body is its name. *)

Record connect := mkConnect { booting : nat; created : gmap string string; served : Z }.

Definition demo_http (connectURL : string) (r : request) : GO connect answer := λ e,
  let seen n := mkConnect n (created e) (served e + 1) in
  match booting e with
  | S n => Ret (HErr (ErrExt "connection refused"), seen n)
  | O =>
      match r with
      | Get url =>
          if decide (url = connectURL +:+ "/connectors") then Ret (HStatus 200 "[]", seen 0%nat)
          else if decide (Exists (λ n, url = connectURL +:+ "/connectors/" +:+ n)
                            (elements (dom (created e)))) then Ret (HStatus 200 "{}", seen 0%nat)
          else Ret (HStatus 404 "", seen 0%nat)
      | Post url body =>
          if decide (created e !! body = None)
          then Ret (HStatus 201 "", mkConnect 0 (<[body := body]> (created e)) (served e + 1))
          else Ret (HStatus 409 "", seen 0%nat)
      end
  end.

#[local] Instance demo_connect base : ConnectServer (demo_http base) base Some.
Proof.
  refine {| connectors := created; requests := served |}; unfold demo_http.
  - intros r e. repeat case_match; eexists _, _; (split; [reflexivity|done]).
  - intros url e a e'. repeat case_match; intros; by simplify_eq.
  - intros name e a e' H Hok. destruct (booting e); [|by simplify_eq].
    rewrite decide_False in H.
    + case_decide as Hex; simplify_eq. apply Exists_exists in Hex as (n & Hn & Heq).
      apply (inj (String.append base)), (inj (String.append "/connectors/")) in Heq as ->.
      by apply elem_of_dom, elem_of_elements.
    + intros Heq%(inj (String.append base)). by destruct name.
  - intros body e a e' H. destruct (booting e); [|simplify_eq; by left].
    case_decide; simplify_eq; simpl; [|done]. by exists body.
Defined.

Definition demo_marshal (name : string) (cfg : list (string * string)) : result string := Ok name.


Example registered_after_boot :
  match RegisterConnector (demo_http "u") demo_marshal "u" "c" "d" "t" (mkConnect 3 ∅ 0) with
  | Ret (None, e) => served e =? 6
  | _ => false
  end = true.
Proof. vm_compute. reflexivity. Qed.

(** ** Encoders (pkg/kafka) *)

Module Encoders.

(** [EncoderType] is a string; [None] is any other one. *)
Record SchemaRegistryConfig := mkRegistry { URL : string; EncoderType : option KafkaEncoder }.
Definition DefaultSchemaRegistryConfig : SchemaRegistryConfig :=
  mkRegistry "http://localhost:8081" (Some KafkaEncoder_PROTO).

(** The interface value: its dynamic type, and whether the pointer in it is
    nil. *)
Record MsgEncoder := mkEncoder { msgEncoderType : KafkaEncoder; is_nil : bool }.

Definition GetType (e : MsgEncoder) : outcome KafkaEncoder :=
  if is_nil e then Panic "invalid memory address or nil pointer dereference"
  else Ret (msgEncoderType e).

(** The errors of the schema registry's client and of its deserialisers. *)
Definition NewAvroEncoder (client specific generic : option error) : MsgEncoder * option error :=
  match client, specific, generic with
  | None, None, None => (mkEncoder KafkaEncoder_AVRO false, None)
  | Some err, _, _ | None, Some err, _ | None, None, Some err => (mkEncoder KafkaEncoder_AVRO true, Some err)
  end.

Definition NewProtoEncoder (deser : option error) : MsgEncoder * option error :=
  match deser with
  | Some err => (mkEncoder KafkaEncoder_PROTO true, Some err)
  | None => (mkEncoder KafkaEncoder_PROTO false, None)
  end.

Definition NewJsonEncoder : MsgEncoder := mkEncoder KafkaEncoder_JSON false.

(** [DeserializeInto] of the schema registry's deserialisers, or
    [json.Unmarshal]: the value read, or an error. *)
Definition Avro_Decoder {T} (DeserializeInto : string → string → result T) (metadata : TopicPartition)
    (data : string) : result T :=
  match DeserializeInto (Topic metadata) data with
  | Err _ => Err (ErrNew "Deserialization error")
  | Ok v => Ok v
  end.
Definition Proto_Decoder {T} (DeserializeInto : string → string → result T) (metadata : TopicPartition)
    (data : string) : result T :=
  match DeserializeInto (Topic metadata) data with
  | Err _ => Err (ErrNew "Deserialization error")
  | Ok v => Ok v
  end.
Definition Json_Decoder {T} (Unmarshal : string → result T) (metadata : TopicPartition) (data : string) :
    result T :=
  match Unmarshal data with
  | Err err => Err (ErrWrap "failed to unmarshal message: " err)
  | Ok v => Ok v
  end.

(** The client's error is kept only when no other assignment follows; the
    encoder for Avro makes a client of its own. *)
Definition NewMsgEncoder (srConfig : option SchemaRegistryConfig)
    (client avro_client specific generic proto : option error) : MsgEncoder * option error :=
  match EncoderType (default DefaultSchemaRegistryConfig srConfig) with
  | Some KafkaEncoder_AVRO => NewAvroEncoder avro_client specific generic
  | Some KafkaEncoder_PROTO => NewProtoEncoder proto
  | _ => (NewJsonEncoder, client)
  end.

Lemma NewMsgEncoder_type srConfig client avro_client specific generic proto :
  let '(e, err) := NewMsgEncoder srConfig client avro_client specific generic proto in
  err = None → GetType e = Ret match EncoderType (default DefaultSchemaRegistryConfig srConfig) with
                               | Some t => t | None => KafkaEncoder_JSON end.
Proof. unfold NewMsgEncoder, NewAvroEncoder, NewProtoEncoder. by repeat case_match; intros; simplify_eq/=. Qed.

(** A constructor that fails gives an interface that is not nil, whose first
    use panics; only the JSON encoder always works. *)
Lemma NewMsgEncoder_failed srConfig client avro_client specific generic proto :
  let '(e, err) := NewMsgEncoder srConfig client avro_client specific generic proto in
  err ≠ None → GetType e = Ret KafkaEncoder_JSON ∨ ∃ m, GetType e = Panic m.
Proof.
  unfold NewMsgEncoder, NewAvroEncoder, NewProtoEncoder.
  repeat case_match; intros; simplify_eq/=; first [by left|right; by eexists].
Qed.

(** *** AvroSchemaCache *)

Section Cache.
Context {Schema Codec : Type} (GetBySubjectAndID : string → Z → result Schema)
  (NewCodec : Schema → result Codec).

Definition fetch (topic : string) (schemaID : Z) : result Codec :=
  match GetBySubjectAndID (topic +:+ "-value") schemaID with
  | Err err => Err err
  | Ok schemaInfo => NewCodec schemaInfo
  end.

(** A goroutine in [GetCodec]: before the lookup, after a miss, before the
    write, and with its result. *)
Inductive pc := Lookup | Missed | Fetched (c : Codec) | Returned (r : result Codec).
Record call := mkCall { topic : string; schemaID : Z; at_pc : pc }.
Record cache := mkCache { codecs : gmap Z Codec; calls : list call }.

Definition GetCodec_step (st : gmap Z Codec) (c : call) : gmap Z Codec * pc :=
  match at_pc c with
  | Lookup => (st, match st !! schemaID c with Some codec => Returned (Ok codec) | None => Missed end)
  | Missed => (st, match fetch (topic c) (schemaID c) with
                   | Ok codec => Fetched codec
                   | Err err => Returned (Err err)
                   end)
  | Fetched codec => (<[schemaID c := codec]> st, Returned (Ok codec))
  | Returned r => (st, Returned r)
  end.

Inductive step : cache → cache → Prop :=
| step_call i c st cs st' p :
    cs !! i = Some c → GetCodec_step st c = (st', p) →
    step (mkCache st cs) (mkCache st' (<[i := mkCall (topic c) (schemaID c) p]> cs)).

Definition initial (requests : list (string * Z)) : cache :=
  mkCache ∅ ((λ r, mkCall r.1 r.2 Lookup) <$> requests).

(** A codec the registry has given for an identifier. *)
Definition known (id : Z) (c : Codec) : Prop := ∃ topic, fetch topic id = Ok c.

Record coherent (s : cache) : Prop := {
  cached id c : codecs s !! id = Some c → known id c;
  held i c codec : calls s !! i = Some c →
    at_pc c = Fetched codec ∨ at_pc c = Returned (Ok codec) → known (schemaID c) codec }.

Lemma initial_coherent requests : coherent (initial requests).
Proof.
  split; [done|]. intros i c codec Hi. simpl in Hi. rewrite list_lookup_fmap in Hi.
  destruct (requests !! i); simplify_eq/=. by intros [|].
Qed.

Lemma step_coherent s s' : coherent s → step s s' → coherent s'.
Proof.
  intros Hcoh Hs. destruct Hs as [i c st cs st' p Hi Hstep]. destruct Hcoh as [Hc Hh]. simpl in *.
  assert ((∀ id x, st' !! id = Some x → known id x) ∧
    ∀ x, p = Fetched x ∨ p = Returned (Ok x) → known (schemaID c) x) as [Hst Hp].
  { pose proof (Hh i c) as Hic. unfold GetCodec_step in Hstep.
    destruct (at_pc c) as [| |x|[x|err]] eqn:Epc; simplify_eq.
    - split; [done|]. destruct (st' !! schemaID c) eqn:E; intros ? [|]; simplify_eq; eauto.
    - split; [done|]. destruct (fetch (topic c) (schemaID c)) eqn:E; intros ? [|]; simplify_eq;
        by exists (topic c).
    - pose proof (Hic x Hi (or_introl eq_refl)). split; [|intros ? [|]; by simplify_eq].
      intros id y. destruct (decide (id = schemaID c)) as [->|].
      + rewrite lookup_insert_eq. by intros [= <-].
      + rewrite lookup_insert_ne by done. apply Hc.
    - split; [done|]. intros y [|]; simplify_eq. apply Hic; auto.
    - split; [done|]. by intros ? [|]. }
  split; simpl; [done|]. intros j d codec Hj Hd.
  destruct (decide (j = i)) as [->|].
  - rewrite list_lookup_insert_eq in Hj by (by eapply lookup_lt_Some). simplify_eq. by apply Hp.
  - rewrite list_lookup_insert_ne in Hj by done. by eapply Hh.
Qed.

(** Under every interleaving a call gets a codec the registry gave for its
    schema identifier, the registry's own answer to it when identifiers mean
    the same for every subject. *)
Lemma cache_coherent requests s i c codec :
  (∀ t t' id x x', GetBySubjectAndID t id = Ok x → GetBySubjectAndID t' id = Ok x' → x = x') →
  rtc step (initial requests) s →
  calls s !! i = Some c → at_pc c = Returned (Ok codec) →
  known (schemaID c) codec ∧ ∀ codec', fetch (topic c) (schemaID c) = Ok codec' → codec' = codec.
Proof.
  intros Hids Hrun Hi Hpc.
  assert (coherent s) as [_ Hh].
  { eapply rtc_invariant; [apply step_coherent|exact Hrun|apply initial_coherent]. }
  pose proof (Hh i c codec Hi (or_intror Hpc)) as Hk. split; [done|].
  destruct Hk as [t Ht]. unfold fetch in *. intros codec' H.
  destruct (GetBySubjectAndID (t +:+ "-value") _) eqn:E1; [|done].
  destruct (GetBySubjectAndID (topic c +:+ "-value") _) eqn:E2; [|done].
  rewrite (Hids _ _ _ _ _ E1 E2) in Ht. congruence.
Qed.
End Cache.
End Encoders.
