(* ===== verification/Servers.v ===== *)
(** * Commands and producers

    The programs around the services: the flag and the environment that decide
    whether a server produces (kafka, kafka-chans), its ticker and message
    handlers, the HTTP servers of the payment services (kafka-outbox, kafka-cdc)
    with the part of net/http they use, and the producers of the chat server and
    the playground, which start a goroutine for each message. *)

From S2P Require Import Prelude GoSem GoStrings KafkaTracker KafkaConsumer KafkaVariants KafkaChans Transactions KafkaEvents Cdc Outbox CdcPayment.
From Stdlib Require Import Ascii.

(** ** Package flag *)

(** Boolean flags; the pointer that [flag.Bool] returns is the flag's entry. *)
Module Flag.
Abbreviation FlagSet := (gmap string bool).

Definition ParseBool (s : string) : result bool :=
  if decide (s ∈ ["1"; "t"; "T"; "TRUE"; "true"; "True"]%string) then Ok true
  else if decide (s ∈ ["0"; "f"; "F"; "FALSE"; "false"; "False"]%string) then Ok false
  else Err (ErrNew "strconv.ParseBool: parsing: invalid syntax").

(** [flag.Bool(name, value, usage)]. *)
Definition Bool (name : string) (value : bool) (fs : FlagSet) : outcome FlagSet :=
  match fs !! name with
  | Some _ => Panic "flag redefined"
  | None => Ret (<[name := value]> fs)
  end.

(** The name and the value of an argument without its dashes. *)
Fixpoint cut (s : string) : string * option string :=
  match s with
  | EmptyString => (EmptyString, None)
  | String c rest =>
      if decide (c = "="%char) then (EmptyString, Some rest)
      else let '(name, value) := cut rest in (String c name, value)
  end.

(** An error ends the process. *)
Inductive parsed := Exit (code : Z) | Parsed (fs : FlagSet).

(** [flag.Parse] of the arguments of the command. *)
Fixpoint Parse (args : list string) (fs : FlagSet) : parsed :=
  match args with
  | [] => Parsed fs
  | String d (String c rest) :: args =>
      if negb (bool_decide (d = "-"%char)) then Parsed fs
      else if decide (c = "-"%char ∧ rest = EmptyString) then Parsed fs
      else
        match (if decide (c = "-"%char) then rest else String c rest) with
        | EmptyString => Exit 2
        | String c0 _ as s =>
            if decide (c0 = "-"%char ∨ c0 = "="%char) then Exit 2
            else
              let '(name, value) := cut s in
              match fs !! name, value with
              | None, _ => Exit (if decide (name = "help" ∨ name = "h")%string then 0 else 2)
              | Some _, None => Parse args (<[name := true]> fs)
              | Some _, Some v =>
                  match ParseBool v with
                  | Ok b => Parse args (<[name := b]> fs)
                  | Err _ => Exit 2
                  end
              end
        end
  | _ => Parsed fs
  end.
End Flag.

(** ** The servers of kafka and kafka-chans *)

Module KafkaServer.

(** What was handed to the client: topic and payload. *)
Definition KafkaProducer := list (string * string).

Definition NewKafkaProducer (client : option error) : outcome KafkaProducer :=
  match client with Some _ => Panic "kafka.NewProducer" | None => Ret [] end.

(** [topic] is the configured one; the client's answer is dropped. *)
Definition Produce (topic : string) (send : string → string → option error) (msg : string)
    (p : KafkaProducer) : KafkaProducer :=
  match send topic msg with Some _ => p | None => p ++ [(topic, msg)] end.

Section Wiring.
Context {C : Type}.

Record Server := mkServer { addr : string; producer : option KafkaProducer; consumer : option C }.

Definition NewServer (addr : string) : Server := mkServer addr None None.

(** The pointer to the flag is read before the arguments are parsed. *)
Definition addProducer (getenv : string → string) (args : list string) (client : option error)
    (fs : Flag.FlagSet) (s : Server) : outcome (Z + Server) :=
  let start := p ← NewKafkaProducer client; Ret (inr (mkServer (addr s) (Some p) (consumer s))) in
  if decide (getenv "SHOULD_PRODUCE" = "true")%string then start
  else
    fs ← Flag.Bool "SHOULD_PRODUCE" false fs;
    let shouldProduce := default false (fs !! "SHOULD_PRODUCE"%string) in
    match Flag.Parse args fs with
    | Flag.Exit code => Ret (inl code)
    | Flag.Parsed _ => if shouldProduce then start else Ret (inr s)
    end.

(** [newConsumer] is [NewKafkaConsumer]. *)
Definition addConsumer (newConsumer : outcome C) (s : Server) : outcome Server :=
  c ← newConsumer; Ret (mkServer (addr s) (producer s) (Some c)).

(** The set-up of [main]; the arguments are parsed after the consumer was made. *)
Definition main (conn : option error) (newConsumer : outcome C) (getenv : string → string)
    (args : list string) (client : option error) : outcome (Z + Server) :=
  match conn with
  | Some _ => Panic "unable to conn to db"
  | None => s ← addConsumer newConsumer (NewServer ":7576"); addProducer getenv args client ∅ s
  end.
End Wiring.
Arguments Server C : clear implicits.

(** [times]: the clock at each tick; an event that does not marshal is skipped. *)
Fixpoint produceMsgs {Rand} (Intn : Z → Rand → Z * Rand) (marshal : KafkaRepo.Event → result string)
    (topic : string) (send : string → string → option error) (times : list Z) (p : KafkaProducer)
    (r : Rand) : outcome (KafkaProducer * Rand) :=
  match times with
  | [] => Ret (p, r)
  | now :: times =>
      '(event, r) ← KafkaRepo.NewEvent Intn now r;
      match marshal event with
      | Err _ => produceMsgs Intn marshal topic send times p r
      | Ok b => produceMsgs Intn marshal topic send times (Produce topic send b p) r
      end
  end.

Section Handlers.
Context {Msg : Type}.

(** kafka-outbox/cmd/msg-server: the handler waits until the consumer is ready;
    its error is dropped. *)
Definition outbox_handleMsg (tx : TxAnswers) (reject : list InboxEvent → InboxEvent → option error)
    (nextval now : Z) (msg : OutboxConsumer.Message Event) :
    GO (Outbox.DB * KafkaConsumer Msg) unit := λ '(db, c),
  if KafkaConsumer.ReadyCH_closed c then (InboxService_Save tx reject nextval now msg ;;' go_ret tt) (db, c)
  else Block.
End Handlers.

(** The environment alone decides whether the server produces: the command's
    flag is read before it is parsed, so that no arguments turn it on.  A server
    that starts has its consumer. *)
Theorem producer_follows_environment {C} conn (newConsumer : outcome C) getenv args client s :
  main conn newConsumer getenv args client = Ret (inr s) →
  (∃ c, newConsumer = Ret c ∧ consumer s = Some c) ∧
  (producer s ≠ None ↔ getenv "SHOULD_PRODUCE"%string = "true"%string).
Proof.
  unfold main, addConsumer. destruct conn; [done|]. destruct newConsumer as [c| |]; [|done..].
  cbn [mbind outcome_bind]. unfold addProducer, NewKafkaProducer. case_decide as He.
  - destruct client; [done|]. intros [= <-]. split; [by exists c|done].
  - unfold Flag.Bool, mbind, outcome_bind. rewrite lookup_empty, lookup_insert_eq. simpl.
    destruct (Flag.Parse _ _); [done|]. intros [= <-]. split; [by exists c|]. naive_solver.
Qed.

Lemma the_flag_is_ignored {C} (c : C) getenv client :
  getenv "SHOULD_PRODUCE"%string ≠ "true"%string →
  main None (Ret c) getenv ["-SHOULD_PRODUCE"%string] client = Ret (inr (mkServer ":7576" None (Some c))).
Proof.
  intros He. unfold main, addConsumer, addProducer. cbn [mbind outcome_bind].
  rewrite decide_False by done. reflexivity.
Qed.

(** The ticker never panics: each tick makes one event with a key of 15 letters,
    and what marshals and is taken by the client is handed over once, in order. *)
Lemma produceMsgs_eq {Rand} (Intn : Z → Rand → Z * Rand) {HI : Keys.IntnLaw Intn} marshal topic send times :
  ∀ p r, ∃ evs r',
    produceMsgs Intn marshal topic send times p r = Ret (p ++ ((λ b, (topic, b)) <$>
      filter (λ b, send topic b = None)
        (omap (λ e, match marshal e with Ok b => Some b | Err _ => None end) evs)), r') ∧
    KafkaRepo.Timespamp <$> evs = times ∧ Forall (λ e, String.length (KafkaRepo.EventId e) = 15%nat) evs.
Proof.
  induction times as [|now times IH]; intros p r; simpl.
  { exists [], r. simpl. by rewrite app_nil_r. }
  destruct (NewEvent_eq Intn now r) as (e & r1 & -> & Hnow & Hlen). cbn [mbind outcome_bind].
  destruct (marshal e) as [b|err] eqn:Hm.
  - destruct (IH (Produce topic send b p) r1) as (evs & r' & -> & Ht & Hk).
    exists (e :: evs), r'. cbn [omap list_omap]. rewrite Hm, filter_cons. unfold Produce.
    split; [|split; [by rewrite fmap_cons, Hnow, Ht|by constructor]].
    destruct (send topic b) eqn:Hb; case_decide; try done. by rewrite <-app_assoc.
  - destruct (IH p r1) as (evs & r' & -> & Ht & Hk).
    exists (e :: evs), r'. cbn [omap list_omap]. rewrite Hm.
    split; [done|split; [by rewrite fmap_cons, Hnow, Ht|by constructor]].
Qed.
End KafkaServer.

Lemma producer_follows_environment_witness :
  (∃ c, Ret 5 = Ret c ∧ Some 5 = Some c) ∧
  (Some ([] : KafkaServer.KafkaProducer) ≠ None ↔ "true"%string = "true"%string).
Proof.
  apply (KafkaServer.producer_follows_environment None (Ret 5) (λ _, "true"%string) [] None
    (KafkaServer.mkServer ":7576" (Some []) (Some 5))). reflexivity.
Defined.

(** The same code in kafka-chans, where [main] is commented out. *)
Module ChansServer.
Definition Server := KafkaServer.Server.
Definition NewServer {C} := @KafkaServer.NewServer C.
Definition NewKafkaProducer := KafkaServer.NewKafkaProducer.
Definition Produce := KafkaServer.Produce (KafkaChans.DefaultTopic KafkaChans.NewKafkaConfig).
Definition addProducer {C} := @KafkaServer.addProducer C.
Definition addConsumer {C} := @KafkaServer.addConsumer C.
Definition produceMsgs {Rand} Intn marshal :=
  @KafkaServer.produceMsgs Rand Intn marshal (KafkaChans.DefaultTopic KafkaChans.NewKafkaConfig).
End ChansServer.

(** kafka-cdc/pkg/kafka/producer.go: every configured topic until one fails. *)
Module CdcProducer.
Definition Produce (send : string → option error) : list string * option error :=
  OutboxConsumer.produce_loop send (CdcConsumer.DefaultTopics CdcConsumer.NewKafkaConfig) [].

Lemma Produce_all send sent :
  Produce send = (sent, None) → sent = CdcConsumer.DefaultTopics CdcConsumer.NewKafkaConfig.
Proof. intros Hp%produce_loop_ok. done. Qed.
End CdcProducer.

(** ** Package net/http *)

Module Http.

(** A [ServeMux] whose patterns are exact paths. *)
Abbreviation ServeMux H := (gmap string H).

Definition HandleFunc {H} (pattern : string) (h : H) (mux : ServeMux H) : outcome (ServeMux H) :=
  match mux !! pattern with
  | Some _ => Panic "http: multiple registrations"
  | None => Ret (<[pattern := h]> mux)
  end.

Definition ends_with_slash (s : string) : bool :=
  match String.get (String.length s - 1) s with Some c => bool_decide (c = "/"%char) | None => false end.

(** [cleanPath]: a rooted, cleaned path that keeps its trailing slash. *)
Definition cleanPath (p : string) : string :=
  match p with
  | EmptyString => "/"
  | String c _ =>
      let p := if decide (c = "/"%char) then p else "/" +:+ p in
      let np := Clean p in
      if ends_with_slash p && negb (bool_decide (np = "/")) then np +:+ "/" else np
  end%string.

(** Whom a request for [path] reaches: paths that are not clean are redirected. *)
Inductive route H := Redirect (path : string) | NotFound | Handled (h : H).
Arguments Redirect {H} path.
Arguments NotFound {H}.
Arguments Handled {H} h.

Definition find {H} (mux : ServeMux H) (path : string) : route H :=
  if decide (cleanPath path = path) then
    match mux !! path with Some h => Handled h | None => NotFound end
  else Redirect (cleanPath path).

(** [ListenAndServe(addr, handler)]: nil is [DefaultServeMux]. *)
Definition serving {H} (DefaultServeMux : ServeMux H) (handler : option (ServeMux H)) : ServeMux H :=
  default DefaultServeMux handler.
End Http.

(** ** The payment servers of kafka-outbox and kafka-cdc *)

Module PaymentServer.
Section Server.
(** The service behind the server: [create answers] is [createPayment], given
    the answers of the database, the clock and the random numbers. *)
Context {DB Answers : Type} (create : Answers → DB → outcome (result Z * DB)).

Definition handler := Answers → DB → outcome (Z * DB).

(** The handler's error is only printed: the status is always 200. *)
Definition handleCreatePayment : handler := λ a db, '(_, db) ← create a db; Ret (200, db).

(** What happens to the server: a request comes, or its ticker fires. *)
Inductive event := Request (path : string) (a : Answers) | Tick (a : Answers).

Definition ServeHTTP (mux : Http.ServeMux handler) (path : string) : handler := λ a db,
  match Http.find mux path with
  | Http.Handled h => h a db
  | Http.Redirect _ => Ret (301, db)
  | Http.NotFound => Ret (404, db)
  end.

(** The statuses answered, and the database, after some events. *)
Fixpoint run (mux : Http.ServeMux handler) (evs : list event) (db : DB) : outcome (list Z * DB) :=
  match evs with
  | [] => Ret ([], db)
  | Request path a :: evs =>
      '(status, db) ← ServeHTTP mux path a db;
      '(statuses, db) ← run mux evs db;
      Ret (status :: statuses, db)
  | Tick a :: evs => '(_, db) ← create a db; run mux evs db
  end.

(** [main]: the route is registered on a mux of its own, and nil is served;
    nothing registers with the default mux. *)
Definition main (evs : list event) (db : DB) : outcome (list Z * DB) :=
  mux ← Http.HandleFunc "/payment" handleCreatePayment ∅;
  let _ := mux in
  run (Http.serving ∅ None) evs db.

(** The same server if it served the mux it made. *)
Definition main_with_mux (evs : list event) (db : DB) : outcome (list Z * DB) :=
  mux ← Http.HandleFunc "/payment" handleCreatePayment ∅;
  run (Http.serving ∅ (Some mux)) evs db.

Definition tick_of (e : event) : option Answers := match e with Tick a => Some a | Request _ _ => None end.
Definition path_of (e : event) : option string := match e with Request p _ => Some p | Tick _ => None end.
Definition unserved (path : string) : Z := if decide (Http.cleanPath path = path) then 404 else 301.

(** No request ever creates a payment: whatever is asked of the running server
    is answered 404 (or 301, when the path is not clean), and its database is
    the one that the ticker alone would make. *)
Theorem payment_route_never_runs (evs : list event) (db : DB) :
  main evs db =
    ('(_, db) ← run ∅ (Tick <$> omap tick_of evs) db; Ret (unserved <$> omap path_of evs, db)).
Proof.
  change (main evs db) with (run ∅ evs db). revert db. induction evs as [|[path a|a] evs IH]; intros db; simpl; [done|..].
  - unfold ServeHTTP, Http.find, unserved. case_decide; [rewrite lookup_empty|];
      simpl; rewrite IH; by destruct (run ∅ _ db) as [[]| |].
  - destruct (create a db) as [[r db1]| |]; [apply IH|done..].
Qed.

(** On the mux that was made, the request would create a payment, and answer
    200 even when it was not stored. *)
Lemma main_with_mux_serves a db r db' :
  create a db = Ret (r, db') → main_with_mux [Request "/payment" a] db = Ret ([200], db').
Proof.
  intros Hc. unfold main_with_mux, Http.serving, Http.HandleFunc, mbind, outcome_bind. rewrite lookup_empty.
  cbn [default run from_option id]. unfold ServeHTTP, Http.find. rewrite decide_True by done. rewrite lookup_insert_eq.
  unfold handleCreatePayment, mbind, outcome_bind. by rewrite Hc.
Qed.
End Server.

(** kafka-outbox: [amount] is [rand.Intn(100_000)]. *)
Record OutboxAnswers := mkAnswers {
  tx : TxAnswers; rejectP : list Outbox.Payment → Outbox.Payment → option error;
  rejectE : list Event → Event → option error; marshal : Outbox.Payment → result string;
  nextval : Z; eventId : string; amount : Z; now1 : Z; now2 : Z; now3 : Z }.

Definition createPayment (a : OutboxAnswers) (db : Outbox.DB) : outcome (result Z * Outbox.DB) :=
  let orderN := pretty (amount a) in
  let paym := Outbox.NewPayment (now1 a) (now2 a) orderN (amount a) "created" in
  '(r, (db, _)) ← Outbox.PaymentService_Save (tx a) (rejectP a) (rejectE a) (marshal a) (nextval a)
                    (eventId a) (now3 a) paym (db, tt);
  Ret (r, db).

Definition outbox_main := main createPayment.

(** kafka-cdc. *)
Record CdcAnswers := mkCdcAnswers {
  c_tx : TxAnswers; c_answer : list CdcPayment.Payments.Payment → CdcPayment.Payments.Payment →
    CdcPayment.Payments.insert_answer;
  c_amount : Z; c_now1 : Cdc.Time; c_now2 : Cdc.Time }.
Definition cdc_main := main (λ a,
  CdcPayment.Payments.createPayment (c_tx a) (c_answer a) (c_amount a) (c_now1 a) (c_now2 a)).
End PaymentServer.

(** ** Producers that start a goroutine per message *)

(** [ProduceData] of chat/with-loop-per-client/msg-producer.go and
    protocol-playground/data-receiver/msg-broker.go. *)
Module DataProducer.
Section Producer.
Context {Data : Type} (marshal : Data → result string) (unmarshal : string → result Data).

(** What comes on the client's [Events] channel. *)
Inductive report := Delivered (value : string) | Failed (value : string) | OtherEvent.
(** What is logged for a report; a value that does not parse is logged twice, the
    second time with what parsing left of it. *)
Inductive entry := DeliveryFailed (value : string) | Unparsed (value : string) | DeliveredData (d : option Data).

(** [loops]: the goroutines in [for e := range producer.Events()]; the channel
    holds the reports that none of them has taken. *)
Record KafkaProducer := mkProducer {
  handed : list string; loops : nat; reports : list report; taken : list report }.

Definition NewKafkaProducer (client : option error) : result KafkaProducer :=
  match client with Some err => Err err | None => Ok (mkProducer [] 0 [] []) end.

(** [send] is the answer of the client's [Produce]. *)
Definition ProduceData (send : string → option error) (data : Data) (p : KafkaProducer) :
    option error * KafkaProducer :=
  match marshal data with
  | Err err => (Some err, p)
  | Ok b =>
      match send b with
      | Some err => (Some err, p)
      | None => (None, mkProducer (handed p ++ [b]) (S (loops p)) (reports p) (taken p))
      end
  end.

(** One turn of a goroutine's loop. *)
Definition handle_report (e : report) : list entry :=
  match e with
  | Failed v => [DeliveryFailed v]
  | Delivered v => match unmarshal v with Ok d => [DeliveredData (Some d)] | Err _ => [Unparsed v; DeliveredData None] end
  | OtherEvent => []
  end.
Definition logged (p : KafkaProducer) : list entry := taken p ≫= handle_report.

(** Calls of [ProduceData], reports of the client on messages it was handed, and
    turns of the goroutines.  Nothing closes the producer. *)
Inductive step : KafkaProducer → KafkaProducer → Prop :=
| st_call p send data r p' : ProduceData send data p = (r, p') → step p p'
| st_report p e : step p (mkProducer (handed p) (loops p) (reports p ++ [e]) (taken p))
| st_turn h l e rest tk :
    (0 < l)%nat → step (mkProducer h l (e :: rest) tk) (mkProducer h l rest (tk ++ [e])).

(** The reports so far. *)
Definition came (p : KafkaProducer) : list report := taken p ++ reports p.

Lemma producer_step p p' : step p p' →
  (loops p = length (handed p) → loops p' = length (handed p')) ∧
  (loops p ≤ loops p')%nat ∧ came p `prefix_of` came p'.
Proof.
  intros [p1 send data r p2 Hp|p1 e|h l e rest tk _]; unfold came; simpl.
  - unfold ProduceData in Hp. repeat case_match; simplify_eq; try done.
    simpl. rewrite length_app. simpl. split_and!; [lia..|done].
  - split_and!; [done..|]. rewrite app_assoc. by apply prefix_app_r.
  - split_and!; [done..|]. by rewrite <-app_assoc.
Qed.

(** Each message handed to the client leaves one goroutine behind for the rest
    of the process; together they take every report once, in order, so that one
    of them would do. *)
Theorem event_goroutines_accumulate p p' :
  rtc step (mkProducer [] 0 [] []) p → rtc step p p' →
  loops p = length (handed p) ∧ (loops p ≤ loops p')%nat ∧ came p `prefix_of` came p'.
Proof.
  intros Hr Hr'. split.
  - eapply (rtc_invariant step (λ p, loops p = length (handed p))); [|exact Hr|done].
    intros a b Ha Hs. by apply (producer_step _ _ Hs).
  - eapply (rtc_invariant step (λ q, (loops p ≤ loops q)%nat ∧ came p `prefix_of` came q)); [|exact Hr'|done].
    intros a b [Hl Hc] (_ & Hl' & Hc')%producer_step. split; [lia|by etransitivity].
Qed.
End Producer.
End DataProducer.
