(* ===== verification/CdcWiring.v ===== *)
(** * How the CDC services are put together (kafka-cdc/)

    The configuration of the database connection (pkg/db/postgres), the texts of
    errors (pkg/errors), the events of the payment service's repository, the
    producer, and the start of the two servers (cmd/payment-server,
    cmd/inventory-server), which joins the registration of CdcInfra.v, the
    consumer of KafkaVariants.v and the server of Servers.v. *)

From S2P Require Import Prelude GoSem GoStrings KafkaTracker KafkaConsumer KafkaVariants Transactions KafkaEvents Cdc CdcPayment CdcInfra Servers.
From Stdlib Require Import Ascii.

(** ** The connection string *)

Module Postgres.

Record PostgresConfig := mkConfig {
  Host : string; Port : string; User : string; Password : string; DBName : string }.

(** [env] is the process's environment; a variable set to the empty string is
    set. *)
Definition getEnv (env : gmap string string) (key fallback : string) : string :=
  match env !! key with Some value => value | None => fallback end.

Definition NewPostgresConfig (env : gmap string string) (fallbackDBName : string) : PostgresConfig :=
  mkConfig (getEnv env "POSTGRES_HOSTS" "localhost") (getEnv env "POSTGRES_PORT" "5452")
    (getEnv env "POSTGRES_USER" "user") (getEnv env "POSTGRES_PASSWORD" "pass")
    (getEnv env "POSTGRES_DATABASE" fallbackDBName).

Definition GetDefaultConnString : string :=
  "host=localhost port=5452 user=user password=pass dbname=events sslmode=disable".
Definition GetConnString (options : PostgresConfig) : string :=
  "host=" +:+ Host options +:+ " port=" +:+ Port options +:+ " user=" +:+ User options +:+
  " password=" +:+ Password options +:+ " dbname=" +:+ DBName options +:+ " sslmode=disable".
Definition getDBConnString (opts : PostgresConfig) : string :=
  if decide (DBName opts = "") then GetDefaultConnString else GetConnString opts.

(** [Connect] is sqlx's. *)
Definition NewDBConn {DB} (Connect : string → result DB) (opts : PostgresConfig) : result DB :=
  Connect (getDBConnString opts).

Definition ErrDuplicateCode : string := "23505".
Definition IsDuplicateKeyErr (err : option error) : bool :=
  match err ≫= as_pq with Some code => bool_decide (code = ErrDuplicateCode) | None => false end.

(** The same of kafka-outbox. *)
Definition outbox_GetConnString (dbname : string) : string :=
  "host=localhost port=5432 user=user password=pass dbname=" +:+ dbname +:+ " sslmode=disable".
Definition outbox_getDBConnString (DBname : string) : string :=
  if decide (DBname = "")
  then "host=localhost port=5432 user=user password=pass dbname=events sslmode=disable"
  else outbox_GetConnString DBname.

(** *** Reading it back *)

Definition spaceless (s : string) : Prop := count_byte " " s = 0%nat.
Record plain (o : PostgresConfig) : Prop := {
  plain_host : spaceless (Host o); plain_port : spaceless (Port o); plain_user : spaceless (User o);
  plain_password : spaceless (Password o); plain_dbname : spaceless (DBName o) }.

Lemma Split_app_sep sep s rest : count_byte sep s = 0%nat →
  Split sep (s +:+ String sep rest) = s :: Split sep rest.
Proof.
  induction s as [|c s IH]; intros Hs; simpl in *; [by rewrite decide_True|].
  destruct (decide (c = sep)) as [->|Hne]; [lia|]. by rewrite IH.
Qed.

Lemma String_app_assoc (s1 s2 s3 : string) : s1 +:+ s2 +:+ s3 = (s1 +:+ s2) +:+ s3.
Proof. induction s1 as [|c s1 IH]; [done|]. exact (f_equal (String c) IH). Qed.

Lemma spaceless_field key s : spaceless key → spaceless s → spaceless (key +:+ s).
Proof. unfold spaceless. rewrite count_byte_app. lia. Qed.

(** The fields, as the driver takes them apart at spaces. *)
Definition fields (o : PostgresConfig) : list string :=
  [ "host=" +:+ Host o; "port=" +:+ Port o; "user=" +:+ User o; "password=" +:+ Password o;
    "dbname=" +:+ DBName o; "sslmode=disable" ].

Lemma Split_GetConnString o : plain o → Split " " (GetConnString o) = fields o.
Proof.
  intros [Hh Hp Hu Hw Hd].
  assert (∀ key v rest, spaceless key → spaceless v →
    Split " " (key +:+ v +:+ String " " rest) = (key +:+ v) :: Split " " rest) as Hf.
  { intros key v rest Hk Hv. rewrite String_app_assoc. apply Split_app_sep. by apply spaceless_field. }
  unfold GetConnString, fields.
  etransitivity; [apply (Hf "host=" (Host o)); done|f_equal].
  etransitivity; [apply (Hf "port=" (Port o)); done|f_equal].
  etransitivity; [apply (Hf "user=" (User o)); done|f_equal].
  etransitivity; [apply (Hf "password=" (Password o)); done|f_equal].
  etransitivity; [apply (Hf "dbname=" (DBName o)); done|f_equal].
Qed.

(** The connection string says what the configuration says: when no value has a
    space in it, the configuration can be read back from its fields.  Values are
    not quoted, so that with spaces two configurations may have one string. *)
Theorem conn_string_round_trip a b :
  plain a → plain b → GetConnString a = GetConnString b → a = b.
Proof.
  intros Ha Hb Heq. apply (f_equal (Split " ")) in Heq.
  rewrite !Split_GetConnString in Heq by done. unfold fields in Heq.
  destruct a, b. by simplify_eq/=.
Qed.

Example spaces_lose_fields :
  GetConnString (mkConfig "h port=1" "2" "u" "p" "d") = GetConnString (mkConfig "h" "1 port=2" "u" "p" "d").
Proof. reflexivity. Qed.

(** A database name that is set to the empty string is not replaced, and the
    string then is the default one, whatever else is configured. *)
Lemma empty_dbname_ignores_config env fallback :
  env !! "POSTGRES_DATABASE" = Some ""%string →
  getDBConnString (NewPostgresConfig env fallback) = GetDefaultConnString.
Proof. intros He. unfold getDBConnString, NewPostgresConfig, getEnv. simpl. by rewrite He. Qed.
End Postgres.

(** ** Texts of errors *)

(** [Error()] along the chain; [text] is that of the driver's errors. *)
Fixpoint Error (text : string → string) (err : error) : string :=
  match err with
  | ErrNew msg | ErrExt msg => msg
  | ErrWrap msg inner => msg +:+ Error text inner
  | ErrApp code msg (Some inner) => "[" +:+ pretty code +:+ "] " +:+ msg +:+ ": " +:+ Error text inner
  | ErrApp code msg None => "[" +:+ pretty code +:+ "] " +:+ msg
  | ErrPq code => text code
  end.
Definition Unwrap (err : error) : option error :=
  match err with ErrWrap _ inner => Some inner | ErrApp _ _ inner => inner | _ => None end.

(** What the constructors wrap is found again under their message. *)
Lemma Error_wraps text err :
  Error text (NewDuplicateKeyError err) = "[-1003] duplicate key violation: " +:+ Error text err ∧
  Error text (NewNonExistingKeyError err) = "[-1001] key does not exist: " +:+ Error text err ∧
  Error text (NewJSONParsingError err) = "[-1002] failed to parse JSON: " +:+ Error text err ∧
  Unwrap (NewDuplicateKeyError err) = Some err ∧ Unwrap (NewNonExistingKeyError err) = Some err ∧
  Unwrap (NewJSONParsingError err) = Some err.
Proof. done. Qed.

(** ** The payment service's events *)

Module PaymentEvents.
Definition EventStatus_Pending : string := "pending".
Definition EventParentType_Payment : string := "payment".
Record Event := mkEvent {
  EventId : string; EventType : string; Timespamp : Z; Status : string;
  ParentId : string; ParentType : string; ParentMetadata : string }.
Definition NewEvent {Rand} (Intn : Z → Rand → Z * Rand) (now : Z) (eventName parentId parentType parentMetadata : string)
    (r : Rand) : outcome (Event * Rand) :=
  '(id, r) ← CdcKeys.GenerateRandomString Intn 15 r;
  Ret (mkEvent id eventName now EventStatus_Pending parentId parentType parentMetadata, r).

(** An event is pending and has a key of fifteen letters or digits. *)
Lemma NewEvent_pending {Rand} (Intn : Z → Rand → Z * Rand) {HI : Keys.IntnLaw Intn} now name pid ptype meta r :
  ∃ e r', NewEvent Intn now name pid ptype meta r = Ret (e, r') ∧ Status e = EventStatus_Pending ∧
    String.length (EventId e) = 15%nat ∧ ParentId e = pid ∧ ParentMetadata e = meta.
Proof.
  unfold NewEvent, CdcKeys.GenerateRandomString. rewrite Keys.GenerateRandomString_eq by done.
  eexists _, _. split; [reflexivity|]. split; [done|]. cbn [EventId ParentId ParentMetadata Status].
  split; [|done]. rewrite Keys.of_draws_length. by apply Keys.draws_range.
Qed.
End PaymentEvents.

(** ** The producer *)

Module Producer.
(** The reports of the client, and what is logged for them. *)
Inductive report := Message (err : option error) | OtherReport.
Definition log_of (e : report) : option string :=
  match e with
  | Message (Some _) => Some "Delivery failed"%string
  | Message None => Some "Delivery success"%string
  | OtherReport => None
  end.
(** The goroutine that [NewKafkaProducer] starts logs each report of a message
    once. *)
Definition NewKafkaProducer (client : option error) : outcome (list report → list string) :=
  match client with Some _ => Panic "producer" | None => Ret (omap log_of) end.
End Producer.

(** ** The servers *)

Section Servers.
Import Connectors.
Context `{KafkaLib} {E : Type} (http : request → GO E answer)
  (Marshal : string → list (string * string) → result string).

Definition connectURL : string := "http://localhost:8083".
Definition DBTableName_Payment : string := "payment".
Definition DebPaymentTopic : string := "cdc.public." +:+ "payment".
Definition DebInventoryTopic : string := "cdc.public." +:+ "inventory".

(** What the constructor of the consumer meets. *)
Record consumer_answers := mkConsumer {
  encoder : option error; initTopic : string → outcome (option error); client : option error; subscribe : option error }.
Definition consumer (topics : list string) (a : consumer_answers) : outcome (option (KafkaConsumer CdcConsumer.KMessage)) :=
  CdcConsumer.NewKafkaConsumer topics (encoder a) (initTopic a) (client a) (subscribe a).

Definition lift {S A} (o : outcome A) : GO S A := λ s, a ← o; Ret (a, s).

(** cmd/payment-server: the consumer is made and dropped. *)
Definition payment_NewServer (a : consumer_answers) (DBName : string) : GO E unit :=
  err ←' RegisterConnector http Marshal connectURL (GetDebPaymentDBConnectorName DBName) DBName
           ("public." +:+ DBTableName_Payment) ;;
  match err with
  | Some _ => go_panic "debezium"
  | None => _ ←' lift (consumer [DebInventoryTopic] a) ;; go_ret tt
  end.

Definition payment_main (env : gmap string string) (Connect : string → result CdcPayment.Payments.DB)
    (a : consumer_answers) (evs : list (PaymentServer.event)) :
    GO E (list Z * CdcPayment.Payments.DB) :=
  let dbOpts := Postgres.NewPostgresConfig env "kafka_primary" in
  match Postgres.NewDBConn Connect dbOpts with
  | Err _ => go_panic "unable to conn to db"
  | Ok db => payment_NewServer a (Postgres.DBName dbOpts) ;;' lift (PaymentServer.cdc_main evs db)
  end.

(** cmd/inventory-server: a consumer that could not be made is nil, which its
    goroutines dereference; otherwise [main] waits for a context that nothing
    cancels. *)
Definition inventory_NewServer (a : consumer_answers) : outcome unit :=
  c ← consumer [DebPaymentTopic] a;
  match c with None => Panic "nil pointer dereference" | Some _ => Ret tt end.
Definition inventory_main {DB} (env : gmap string string) (Connect : string → result DB) (a : consumer_answers) :
    outcome unit :=
  let dbOpts := Postgres.NewPostgresConfig env "kafka_inventory" in
  match Postgres.NewDBConn Connect dbOpts with
  | Err _ => Panic "unable to conn to db"
  | Ok _ => _ ← inventory_NewServer a; Block
  end.

Lemma inventory_main_never_returns {DB} env (Connect : string → result DB) a :
  ∀ u, inventory_main env Connect a ≠ Ret u.
Proof.
  intros u. unfold inventory_main. destruct (Postgres.NewDBConn _ _); [|done].
  by destruct (inventory_NewServer a).
Qed.

(** The payment server serves only what Debezium watches: against any
    Connect server that keeps the interface, its start either panics (no
    database, no connector) or waits with the making of the consumer, or it
    serves, and then the connector of its database exists under its name. *)
Theorem payment_server_has_connector {named : string → option string} `{!ConnectServer http connectURL named}
    env Connect a evs e body :
  let dbOpts := Postgres.NewPostgresConfig env "kafka_primary" in
  let name := GetDebPaymentDBConnectorName (Postgres.DBName dbOpts) in
  Marshal name (config name (Postgres.DBName dbOpts) "public.payment") = Ok body → named body = Some name →
  match Postgres.NewDBConn Connect dbOpts with
  | Err _ => payment_main env Connect a evs e = Panic "unable to conn to db"
  | Ok db =>
      payment_main env Connect a evs e = Panic "debezium" ∨
      ∃ e', is_Some (connectors e' !! name) ∧ requests e' ≤ requests e + 32 ∧
        payment_main env Connect a evs e =
          (_ ← consumer [DebInventoryTopic] a; r ← PaymentServer.cdc_main evs db; Ret (r, e'))
  end.
Proof.
  intros dbOpts name Hbody Hnamed. unfold payment_main. fold dbOpts.
  destruct (Postgres.NewDBConn Connect dbOpts) as [db|]; [|done].
  destruct (RegisterConnector_spec Marshal name (Postgres.DBName dbOpts) "public.payment" body e Hbody Hnamed)
    as (r & e' & Hr & Hsome & _ & Hreq).
  assert (payment_NewServer a (Postgres.DBName dbOpts) e =
    match r with Some _ => Panic "debezium" | None => _ ← consumer [DebInventoryTopic] a; Ret (tt, e') end) as Hstart.
  { unfold payment_NewServer. rewrite (go_bind_ret _ _ _ _ _ Hr). destruct r; [done|].
    unfold lift, go_bind, go_ret, mbind, outcome_bind. by destruct (consumer _ a). }
  unfold go_bind. rewrite Hstart. destruct r as [err|]; [by left|].
  right. exists e'. split; [by apply Hsome|]. split; [done|].
  unfold lift, mbind, outcome_bind. destruct (consumer _ a); [|done..].
  by destruct (PaymentServer.cdc_main evs db).
Qed.
End Servers.

#[local] Instance kafka_lib_demo : KafkaLib.
Proof. refine {| OffsetBeginning := -2 |}. unfold min_int64. lia. Defined.
Definition demo_consumer : consumer_answers := mkConsumer None (λ _, Ret None) None None.
Definition empty_db : CdcPayment.Payments.DB := CdcPayment.Payments.mkDB [] [].

(** A Connect server that is still booting. *)
Lemma payment_server_has_connector_witness :
  let serve := payment_main (demo_http connectURL) demo_marshal ∅ (λ _, Ok empty_db) demo_consumer [] (mkConnect 3 ∅ 0) in
  serve = Panic "debezium" ∨
  ∃ e', is_Some (created e' !! "kafka_primary_conn"%string) ∧ served e' ≤ 32 ∧
    serve = (_ ← consumer [DebInventoryTopic] demo_consumer; r ← PaymentServer.cdc_main [] empty_db; Ret (r, e')).
Proof.
  exact (payment_server_has_connector (demo_http connectURL) demo_marshal (named := Some)
    (ConnectServer0 := demo_connect connectURL) ∅ (λ _, Ok empty_db) demo_consumer [] (mkConnect 3 ∅ 0)
    "kafka_primary_conn" eq_refl eq_refl).
Defined.

Example payment_server_serves :
  match payment_main (demo_http connectURL) demo_marshal ∅ (λ _, Ok empty_db) demo_consumer [] (mkConnect 3 ∅ 0) with
  | Ret (([], _), e) => served e =? 6
  | _ => false
  end = true.
Proof. vm_compute. reflexivity. Qed.
