(* ===== verification/ChatWorkers.v ===== *)
(** * The chat server with broadcast workers (chat/with-workers)

    One goroutine, [AcceptLoop], handles joins and departures one at a time; the
    clients are spread over workers by a hash of their identifier, and the
    number of workers follows the number of clients.  Clients, rooms and workers
    are shared by pointers in the code; here a client is its identifier, looked
    up in [objs], a room is its name in [rooms] (rooms are never removed) and a
    worker is its index (its [id]).  Loops over Go maps visit them in the order
    [elements] gives; the theorems do not depend on it. *)

From S2P Require Import Prelude GoSem.

(** ** Data *)

(** [rooms] is nil once the client has left; [worker] is the worker's index. *)
Record Client := mkClient { c_rooms : option (gset string); worker : option nat }.

Definition NewClient : Client := mkClient (Some ∅) None.

Record WSServer := mkSrv {
  clients : gset string;
  objs : gmap string Client;
  rooms : gmap string (gset string);
  workers : list (gset string);
  clientsPerWorker : Z;
  activeClients : Z;
}.

Definition NewWSServer (workerCount : nat) : WSServer :=
  mkSrv ∅ ∅ ∅ (replicate workerCount ∅) 50 0.

Definition set_workers (ws : list (gset string)) (o : gmap string Client) (s : WSServer) : WSServer :=
  mkSrv (clients s) o (rooms s) ws (clientsPerWorker s) (activeClients s).
Definition set_clients (c : gset string) (n : Z) (s : WSServer) : WSServer :=
  mkSrv c (objs s) (rooms s) (workers s) (clientsPerWorker s) n.
Definition set_rooms (r : gmap string (gset string)) (o : gmap string Client) (s : WSServer) : WSServer :=
  mkSrv (clients s) o r (workers s) (clientsPerWorker s) (activeClients s).

Definition set_worker (w : option nat) (c : Client) : Client := mkClient (c_rooms c) w.

(** ** Workers *)

(** [hash = hash*31 + uint32(cID[i])] over the bytes of the identifier. *)
Fixpoint hash_from (hash : Z) (cID : string) : Z :=
  match cID with
  | EmptyString => hash
  | String b cID => hash_from (uint32 (hash * 31 + Z.of_N (Ascii.N_of_ascii b))) cID
  end.

(** The index of the client's worker; the modulus is [uint32(len(workers))]. *)
Definition getWorker (cID : string) (s : WSServer) : outcome nat :=
  let n := uint32 (Z.of_nat (length (workers s))) in
  if n =? 0 then Panic "integer divide by zero"
  else Ret (Z.to_nat (hash_from 0 cID mod n)).

Definition addClientToWorker (cID : string) (s : WSServer) : outcome WSServer :=
  w ← getWorker cID s;
  Ret (set_workers (alter (union {[cID]}) w (workers s))
         (alter (set_worker (Some w)) cID (objs s)) s).

Definition removeClientFromWorker (cID : string) (s : WSServer) : outcome WSServer :=
  w ← getWorker cID s;
  Ret (set_workers (alter (λ cls, cls ∖ {[cID]}) w (workers s))
         (alter (set_worker None) cID (objs s)) s).

(** The body of the loops of [scaleUp] and [scaleDown]. *)
Definition move_client (cID : string) (s : WSServer) : outcome WSServer :=
  w ← getWorker cID s;
  match objs s !! cID ≫= worker with
  | None => Panic "nil pointer dereference"
  | Some old =>
      if decide (old = w) then Ret s
      else addClientToWorker cID
             (set_workers (alter (λ cls, cls ∖ {[cID]}) old (workers s)) (objs s) s)
  end.

Fixpoint move_clients (cIDs : list string) (s : WSServer) : outcome WSServer :=
  match cIDs with
  | [] => Ret s
  | cID :: cIDs => s ← move_client cID s; move_clients cIDs s
  end.

Definition scaleUp (s : WSServer) : outcome WSServer :=
  let s := set_workers (workers s ++ [∅]) (objs s) s in
  move_clients (elements (clients s)) s.

(** A worker that is cut off keeps its clients map, which nothing reads. *)
Definition scaleDown (lastIdx : Z) (s : WSServer) : outcome WSServer :=
  if lastIdx <? 0 then Panic "slice bounds out of range"
  else
    let s := set_workers (take (Z.to_nat lastIdx) (workers s)) (objs s) s in
    move_clients (elements (clients s)) s.

(** [float64(workers*perWorker)*0.5 < float64(clients)], exact for these
    sizes, is a comparison of integers. *)
Definition checkScaleUp (s : WSServer) : outcome WSServer :=
  let totalClients := Z.of_nat (size (clients s)) in
  let totalWorkers := Z.of_nat (length (workers s)) in
  if (clientsPerWorker s <? totalClients) &&
     (totalWorkers * clientsPerWorker s <? 2 * totalClients)
  then scaleUp s else Ret s.

Definition checkScaleDown (s : WSServer) : outcome WSServer :=
  let totalClients := Z.of_nat (size (clients s)) in
  let totalWorkers := Z.of_nat (length (workers s)) in
  if (clientsPerWorker s <? totalClients) &&
     (2 * totalClients <=? totalWorkers * clientsPerWorker s)
  then scaleDown (totalWorkers - 1) s else Ret s.

(** ** Handlers *)

Definition JoinServer (cID : string) (s : WSServer) : outcome WSServer :=
  if decide (cID ∈ clients s) then Ret s
  else
    s ← addClientToWorker cID s;
    checkScaleUp (set_clients ({[cID]} ∪ clients s) (activeClients s + 1) s).

(** The rooms a client is in, as it sees them. *)
Definition rooms_of (cID : string) (s : WSServer) : gset string :=
  default ∅ (objs s !! cID ≫= c_rooms).

Definition LeaveServer (cID : string) (s : WSServer) : outcome WSServer :=
  let s := if decide (cID ∈ clients s)
           then set_clients (clients s ∖ {[cID]}) (activeClients s - 1) s else s in
  let mine := rooms_of cID s in
  let s := set_rooms (map_imap (λ r m, Some (if decide (r ∈ mine) then m ∖ {[cID]} else m)) (rooms s))
             (alter (λ c, mkClient None (worker c)) cID (objs s)) s in
  s ← removeClientFromWorker cID s;
  checkScaleDown s.

(** Writing to the nil map of a client that has left panics. *)
Definition JoinRoom (cID roomID : string) (s : WSServer) : outcome WSServer :=
  s ← JoinServer cID s;
  match objs s !! cID ≫= c_rooms with
  | None => Panic "assignment to entry in nil map"
  | Some mine =>
      Ret (set_rooms (<[roomID := {[cID]} ∪ default ∅ (rooms s !! roomID)]> (rooms s))
             (alter (λ c, mkClient (Some ({[roomID]} ∪ mine)) (worker c)) cID (objs s)) s)
  end.

Definition LeaveRoom (cID roomID : string) (s : WSServer) : outcome WSServer :=
  match rooms s !! roomID with
  | None => Ret s
  | Some m =>
      Ret (set_rooms (<[roomID := m ∖ {[cID]}]> (rooms s))
             (alter (λ c, mkClient ((λ mine, mine ∖ {[roomID]}) <$> c_rooms c) (worker c)) cID (objs s)) s)
  end.

(** What [AcceptLoop] takes from its channels; [Connect] is [wsHandler] making
    a client of a new connection, before its join is handled. *)
Inductive ServerEvent :=
| Connect (cID : string)
| EvJoinServer (cID : string)
| EvLeaveServer (cID : string)
| EvJoinRoom (cID roomID : string)
| EvLeaveRoom (cID roomID : string).

Definition AcceptLoop (ev : ServerEvent) (s : WSServer) : outcome WSServer :=
  match ev with
  | Connect cID => Ret (set_workers (workers s) (<[cID := NewClient]> (objs s)) s)
  | EvJoinServer cID => JoinServer cID s
  | EvLeaveServer cID => LeaveServer cID s
  | EvJoinRoom cID roomID => JoinRoom cID roomID s
  | EvLeaveRoom cID roomID => LeaveRoom cID roomID s
  end.

(** *** Messages *)

(** What sending does: who is written to, and who is put on [leaveServerCH]
    because a write failed on a closed connection ([closed]). *)
Definition Sending : Type := list string * list string.

(** [SendRoomMsg] and [SendBroadcastMsg] of the server put the sender on the
    channel. *)
Definition send_directly (closed : string → bool) (sender : string) (cls : list string) : Sending :=
  (cls, (λ _, sender) <$> filter closed cls).

Definition SendBroadcastMsg (closed : string → bool) (sender : string) (s : WSServer) : Sending :=
  send_directly closed sender (elements (clients s ∖ {[sender]})).

(** [Worker.SendBroadcastMsg] puts the client whose connection is closed. *)
Definition Worker_SendBroadcastMsg (closed : string → bool) (sender : string) (w : gset string) :
    Sending :=
  let cls := elements (w ∖ {[sender]}) in (cls, filter closed cls).

Definition SendBroadcastMsgWorkers (closed : string → bool) (sender : string) (s : WSServer) :
    Sending :=
  (workers s ≫= (λ w, (Worker_SendBroadcastMsg closed sender w).1),
   workers s ≫= (λ w, (Worker_SendBroadcastMsg closed sender w).2)).

(** The members of the room but the sender. *)
Definition room_receivers (sender roomID : string) (s : WSServer) : option (list string) :=
  (λ m, elements (m ∖ {[sender]})) <$> rooms s !! roomID.

(** The sender's worker is looked up to be printed. *)
Definition SendRoomMsg (closed : string → bool) (sender roomID : string) (s : WSServer) :
    outcome Sending :=
  _ ← getWorker sender s;
  match room_receivers sender roomID s with
  | None => Ret ([], [])
  | Some cls => Ret (send_directly closed sender cls)
  end.

Definition Worker_SendRoomMsg (closed : string → bool) (cls : list string) (w : gset string) :
    Sending :=
  let workerClients := filter (λ c, c ∈ w) cls in (workerClients, filter closed workerClients).

Definition SendRoomMsgWorkers (closed : string → bool) (sender roomID : string) (s : WSServer) :
    Sending :=
  match room_receivers sender roomID s with
  | None => ([], [])
  | Some cls =>
      (workers s ≫= (λ w, (Worker_SendRoomMsg closed cls w).1),
       workers s ≫= (λ w, (Worker_SendRoomMsg closed cls w).2))
  end.

(** What a client's [readMsgLoop] reads: an error, one byte (a pong), bytes that
    do not parse, the JSON value null, which makes the message nil, or a
    message. *)
Inductive ReadInput :=
| ReadError | ReadPong | ReadBad | ReadNull | ReadMessage (msgType roomID : string).

(** What it does with it: it ends (the client leaves), goes on, or hands the
    message over. *)
Inductive ReadAction :=
| ToLeaveServer | ToJoinRoom | ToLeaveRoom | ToSendRoomMsg | ToBroadcast | Ignored.

Definition readMsgLoop (input : ReadInput) : outcome ReadAction :=
  match input with
  | ReadError => Ret ToLeaveServer
  | ReadPong => Ret Ignored
  | ReadBad => Ret Ignored
  | ReadNull => Panic "nil pointer dereference"
  | ReadMessage msgType roomID =>
      Ret (if decide (msgType = ""%string ∧ roomID ≠ ""%string) then Ignored
           else if decide (roomID ≠ ""%string) then
             if decide (msgType = "join-room"%string) then ToJoinRoom
             else if decide (msgType = "leave-room"%string) then ToLeaveRoom
             else if decide (msgType = "room-message"%string) then ToSendRoomMsg
             else Ignored
           else ToBroadcast)
  end.

(** ** Invariant *)

(** The worker a client belongs to among [n]. *)
Definition place (n : nat) (cID : string) : nat :=
  Z.to_nat (hash_from 0 cID mod Z.of_nat n).

(** Every client is in exactly the worker [pos] gives, which it points to. *)
Record placement (pos : string → nat) (ws : list (gset string)) (o : gmap string Client)
    (C : gset string) : Prop := {
  pl_ptr : ∀ c, c ∈ C → ∃ x, o !! c = Some x ∧ worker x = Some (pos c);
  pl_in : ∀ i w c, ws !! i = Some w → c ∈ w ↔ c ∈ C ∧ pos c = i;
}.

(** A client is in a room exactly when the room is among the client's. *)
Record room_inv (o : gmap string Client) (r : gmap string (gset string)) (C : gset string) : Prop := {
  ri_sym : ∀ n m c, r !! n = Some m →
    c ∈ m ↔ ∃ x mine, o !! c = Some x ∧ c_rooms x = Some mine ∧ n ∈ mine;
  ri_exists : ∀ c x mine n, o !! c = Some x → c_rooms x = Some mine → n ∈ mine → is_Some (r !! n);
  ri_joined : ∀ n m c, r !! n = Some m → c ∈ m → c ∈ C;
}.

Record wf (s : WSServer) : Prop := {
  wf_some : workers s ≠ [];
  wf_few : Z.of_nat (length (workers s)) < 2 ^ 32;
  wf_per : 0 < clientsPerWorker s;
  wf_place : placement (place (length (workers s))) (workers s) (objs s) (clients s);
  wf_active : activeClients s = Z.of_nat (size (clients s));
  wf_rooms : room_inv (objs s) (rooms s) (clients s);
}.

Lemma getWorker_ok cID s :
  workers s ≠ [] → Z.of_nat (length (workers s)) < 2 ^ 32 →
  getWorker cID s = Ret (place (length (workers s)) cID) ∧
  (place (length (workers s)) cID < length (workers s))%nat.
Proof.
  intros Hne Hlt. unfold getWorker, place, uint32.
  assert (0 < length (workers s))%nat by (destruct (workers s); [done|simpl; lia]).
  rewrite Z.mod_small by lia. destruct (_ =? 0) eqn:E; zbool; [lia|]. split; [done|].
  pose proof (Z.mod_pos_bound (hash_from 0 cID) (Z.of_nat (length (workers s)))). lia.
Qed.

Lemma lookup_alter_worker (f : gset string → gset string) (i j : nat) (ws : list (gset string)) w :
  alter f i ws !! j = Some w →
  ∃ w0, ws !! j = Some w0 ∧ w = if decide (i = j) then f w0 else w0.
Proof.
  destruct (decide (i = j)) as [<-|Hne]; intros Hw.
  - rewrite list_lookup_alter_eq in Hw. apply fmap_Some in Hw as (w0 & ? & ?). by exists w0.
  - rewrite list_lookup_alter_ne in Hw by done. by exists w.
Qed.

(** Adding a client that is in no worker, under a new position. *)
Lemma placement_add pos ws o C c i x :
  placement pos ws o C → c ∉ C → o !! c = Some x →
  placement (λ d, if decide (d = c) then i else pos d)
    (alter (union {[c]}) i ws) (alter (set_worker (Some i)) c o) ({[c]} ∪ C).
Proof.
  intros [Hptr Hin] Hc Hx. split.
  - intros d Hd. destruct (decide (d = c)) as [->|Hne].
    + exists (set_worker (Some i) x). by rewrite lookup_alter_eq, Hx.
    + rewrite lookup_alter_ne by done. apply Hptr. set_solver.
  - intros j w d Hw. apply lookup_alter_worker in Hw as (w0 & Hw0 & ->).
    specialize (Hin _ _ d Hw0). destruct (decide (d = c)) as [->|Hne], (decide (i = j)); set_solver.
Qed.

(** Moving a client from its worker to another. *)
Lemma placement_move pos ws o C c i x :
  placement pos ws o C → c ∈ C → o !! c = Some x → pos c ≠ i →
  placement (λ d, if decide (d = c) then i else pos d)
    (alter (union {[c]}) i (alter (λ w, w ∖ {[c]}) (pos c) ws))
    (alter (set_worker (Some i)) c o) C.
Proof.
  intros [Hptr Hin] Hc Hx Hi. split.
  - intros d Hd. destruct (decide (d = c)) as [->|Hne].
    + exists (set_worker (Some i) x). by rewrite lookup_alter_eq, Hx.
    + rewrite lookup_alter_ne by done. by apply Hptr.
  - intros j w d Hw. apply lookup_alter_worker in Hw as (w0 & Hw0 & ->).
    apply lookup_alter_worker in Hw0 as (w1 & Hw1 & ->).
    specialize (Hin _ _ d Hw1).
    destruct (decide (d = c)) as [->|Hne], (decide (i = j)), (decide (pos c = j)); set_solver.
Qed.

(** Removing a client. *)
Lemma placement_remove pos ws o C c :
  placement pos ws o C →
  placement pos (alter (λ w, w ∖ {[c]}) (pos c) ws) (alter (set_worker None) c o) (C ∖ {[c]}).
Proof.
  intros [Hptr Hin]. split.
  - intros d [Hd Hne]%elem_of_difference. rewrite lookup_alter_ne by set_solver. by apply Hptr.
  - intros j w d Hw. apply lookup_alter_worker in Hw as (w0 & Hw0 & ->).
    specialize (Hin _ _ d Hw0). destruct (decide (pos c = j)); [set_solver|].
    rewrite Hin. split; [|set_solver]. intros [??]. split; [|done]. set_solver.
Qed.

Lemma placement_ext pos1 pos2 ws o C :
  (∀ c, c ∈ C → pos1 c = pos2 c) → placement pos1 ws o C → placement pos2 ws o C.
Proof.
  intros Heq [Hptr Hin]. split.
  - intros c Hc. rewrite <- Heq by done. by apply Hptr.
  - intros i w c Hw. rewrite (Hin _ _ _ Hw). naive_solver.
Qed.

(** Client objects differ at most in their worker pointer. *)
Definition same_rooms (o o' : gmap string Client) : Prop :=
  ∀ c, c_rooms <$> o !! c = c_rooms <$> o' !! c.

Lemma same_rooms_alter o c w : same_rooms o (alter (set_worker w) c o).
Proof.
  intros d. destruct (decide (d = c)) as [->|].
  - rewrite lookup_alter_eq. by destruct (o !! c).
  - by rewrite lookup_alter_ne.
Qed.

Lemma same_rooms_inv o o' r C : same_rooms o o' → room_inv o r C → room_inv o' r C.
Proof.
  intros Hsr [Hsym Hex Hj].
  assert (∀ c x', o' !! c = Some x' → ∃ x, o !! c = Some x ∧ c_rooms x = c_rooms x') as Hb.
  { intros c x' Hx'. specialize (Hsr c). rewrite Hx' in Hsr. simpl in Hsr.
    apply fmap_Some in Hsr as (x & ? & ?). eauto. }
  assert (∀ c x, o !! c = Some x → ∃ x', o' !! c = Some x' ∧ c_rooms x' = c_rooms x) as Hf.
  { intros c x Hx. specialize (Hsr c). rewrite Hx in Hsr. simpl in Hsr. symmetry in Hsr.
    apply fmap_Some in Hsr as (x' & ? & ?). eauto. }
  split.
  - intros n m c Hm. rewrite (Hsym _ _ _ Hm). split.
    + intros (x & mine & Hx & Hr & Hn). destruct (Hf _ _ Hx) as (x' & ? & ?).
      exists x', mine. split; [done|]. split; [congruence|done].
    + intros (x & mine & Hx & Hr & Hn). destruct (Hb _ _ Hx) as (x' & ? & ?).
      exists x', mine. split; [done|]. split; [congruence|done].
  - intros c x mine n Hx Hr. destruct (Hb _ _ Hx) as (x' & ? & ?).
    eapply Hex; [done|congruence].
  - done.
Qed.

(** ** Moving clients between workers *)

Lemma set_workers_twice ws o ws' o' s :
  set_workers ws o (set_workers ws' o' s) = set_workers ws o s.
Proof. done. Qed.

Lemma same_rooms_trans o1 o2 o3 : same_rooms o1 o2 → same_rooms o2 o3 → same_rooms o1 o3.
Proof. intros H1 H2 c. by rewrite H1, H2. Qed.

Lemma move_client_ok pos c s :
  workers s ≠ [] → Z.of_nat (length (workers s)) < 2 ^ 32 →
  placement pos (workers s) (objs s) (clients s) → c ∈ clients s →
  ∃ ws o, move_client c s = Ret (set_workers ws o s) ∧ length ws = length (workers s) ∧
    same_rooms (objs s) o ∧
    placement (λ d, if decide (d = c) then place (length (workers s)) c else pos d)
      ws o (clients s).
Proof.
  intros Hne Hlt Hpl Hc. destruct (getWorker_ok c s Hne Hlt) as [Hw _].
  unfold move_client. rewrite Hw. simpl.
  destruct (pl_ptr _ _ _ _ Hpl c Hc) as (x & Hx & Hwk). rewrite Hx. simpl. rewrite Hwk.
  case_decide as Heq.
  - exists (workers s), (objs s). split; [by destruct s|]. split; [done|]. split; [done|].
    eapply placement_ext; [|done]. intros d _. simpl. case_decide; congruence.
  - unfold addClientToWorker.
    destruct (getWorker_ok c (set_workers (alter (λ cls, cls ∖ {[c]}) (pos c) (workers s)) (objs s) s))
      as [Hw' _]; simpl; [|by rewrite length_alter|].
    { intros Hnil. apply Hne. apply length_zero_iff_nil. by rewrite <- (length_alter (λ cls, cls ∖ {[c]}) _ (pos c)), Hnil. }
    rewrite Hw'. simpl. rewrite length_alter. eexists _, _. split; [reflexivity|].
    split; [by rewrite !length_alter|]. split; [apply same_rooms_alter|].
    by eapply placement_move.
Qed.

Lemma move_clients_ok l : ∀ pos s,
  workers s ≠ [] → Z.of_nat (length (workers s)) < 2 ^ 32 →
  placement pos (workers s) (objs s) (clients s) → (∀ c, c ∈ l → c ∈ clients s) →
  ∃ ws o, move_clients l s = Ret (set_workers ws o s) ∧ length ws = length (workers s) ∧
    same_rooms (objs s) o ∧
    placement (λ d, if decide (d ∈ l) then place (length (workers s)) d else pos d)
      ws o (clients s).
Proof.
  induction l as [|c l IH]; intros pos s Hne Hlt Hpl Hl; simpl.
  - exists (workers s), (objs s). split; [by destruct s|]. split; [done|]. split; [done|].
    eapply placement_ext; [|done]. done.
  - destruct (move_client_ok pos c s Hne Hlt Hpl) as (ws1 & o1 & -> & Hl1 & Hs1 & Hp1);
      [apply Hl; by left|]. simpl.
    destruct (IH (λ d, if decide (d = c) then place (length (workers s)) c else pos d)
      (set_workers ws1 o1 s)) as (ws2 & o2 & -> & Hl2 & Hs2 & Hp2); simpl.
    + intros ->. apply Hne. by apply length_zero_iff_nil.
    + by rewrite Hl1.
    + exact Hp1.
    + intros d Hd. apply Hl. by right.
    + exists ws2, o2. split; [done|]. split; [simpl in Hl2; congruence|].
      split; [by eapply same_rooms_trans|]. eapply placement_ext; [|exact Hp2].
      intros d _. simpl. rewrite Hl1. repeat case_decide; subst; try done; set_solver.
Qed.

(** What a resize keeps and establishes. *)
Record resized (s s' : WSServer) : Prop := {
  rs_clients : clients s' = clients s;
  rs_rooms : rooms s' = rooms s;
  rs_per : clientsPerWorker s' = clientsPerWorker s;
  rs_active : activeClients s' = activeClients s;
  rs_objs : same_rooms (objs s) (objs s');
  rs_some : workers s' ≠ [];
  rs_few : (length (workers s') ≤ S (length (workers s)))%nat;
  rs_place : placement (place (length (workers s'))) (workers s') (objs s') (clients s');
}.

Lemma resize_ok ws s :
  ws ≠ [] → Z.of_nat (length ws) < 2 ^ 32 → (length ws ≤ S (length (workers s)))%nat →
  (∃ pos, placement pos ws (objs s) (clients s)) →
  ∃ s', move_clients (elements (clients s)) (set_workers ws (objs s) s) = Ret s' ∧ resized s s'.
Proof.
  intros Hne Hlt Hle [pos Hpl].
  destruct (move_clients_ok (elements (clients s)) pos (set_workers ws (objs s) s))
    as (ws' & o' & -> & Hl & Hs & Hp); [done|done|done|simpl; set_solver|].
  rewrite set_workers_twice. eexists. split; [reflexivity|]. cbn [workers set_workers objs] in *.
  assert (ws' ≠ []) as Hne'.
  { intros ->. apply Hne. apply length_zero_iff_nil. by rewrite <- Hl. }
  split; simpl; try done.
  - simpl in Hl. lia.
  - rewrite Hl. eapply placement_ext; [|exact Hp]. intros c Hc. simpl.
    rewrite decide_True; [done|]. by apply elem_of_elements.
Qed.

Section Resize.
Context (s : WSServer) (Hwf_some : workers s ≠ []).
Hypothesis Hfew : Z.of_nat (length (workers s)) < 2 ^ 32 - 1.
Hypothesis Hper : 0 < clientsPerWorker s.
Hypothesis Hpl : placement (place (length (workers s))) (workers s) (objs s) (clients s).

Lemma resized_refl : resized s s.
Proof. split; try done. lia. Qed.

Lemma scaleUp_ok : ∃ s', scaleUp s = Ret s' ∧ resized s s'.
Proof.
  unfold scaleUp. cbn [clients set_workers].
  apply resize_ok; [by destruct (workers s)|rewrite length_app; simpl; lia|rewrite length_app; simpl; lia|].
  exists (place (length (workers s))). destruct Hpl as [Hptr Hin]. split; [done|].
  intros i w c Hw. apply lookup_app_Some in Hw as [Hw|[Hi Hw]]; [by apply Hin|].
  apply list_lookup_singleton_Some in Hw as [Hi0 <-].
  split; [set_solver|]. intros [_ Hp].
  destruct (getWorker_ok c s) as [_ Hlt]; [done|lia|]. lia.
Qed.

Lemma scaleDown_ok :
  (2 ≤ length (workers s))%nat →
  ∃ s', scaleDown (Z.of_nat (length (workers s)) - 1) s = Ret s' ∧ resized s s'.
Proof.
  intros H2. unfold scaleDown. destruct (_ <? 0) eqn:E; zbool; [lia|]. cbn [clients set_workers].
  assert (length (take (Z.to_nat (Z.of_nat (length (workers s)) - 1)) (workers s)) =
    length (workers s) - 1)%nat as Hlen by (rewrite length_take; lia).
  apply resize_ok; [|lia|lia|].
  - intros Hnil. rewrite Hnil in Hlen. simpl in Hlen. lia.
  - exists (place (length (workers s))). destruct Hpl as [Hptr Hin]. split; [done|].
    intros i w c Hw. apply lookup_take_Some in Hw as [Hw _]. by apply Hin.
Qed.

Lemma checkScaleUp_ok : ∃ s', checkScaleUp s = Ret s' ∧ resized s s'.
Proof.
  unfold checkScaleUp. case_match; [apply scaleUp_ok|]. exists s. split; [done|apply resized_refl].
Qed.

(** A scale-down only happens with three workers or more. *)
Lemma checkScaleDown_ok : ∃ s', checkScaleDown s = Ret s' ∧ resized s s'.
Proof.
  unfold checkScaleDown. case_match eqn:E; [|exists s; split; [done|apply resized_refl]].
  zbool. apply scaleDown_ok. nia.
Qed.
End Resize.

Lemma resized_wf s s' :
  resized s s' → Z.of_nat (length (workers s)) < 2 ^ 32 - 1 → 0 < clientsPerWorker s →
  activeClients s = Z.of_nat (size (clients s)) → room_inv (objs s) (rooms s) (clients s) → wf s'.
Proof.
  intros [Hc Hr Hp Ha Ho Hs Hf Hpl] Hfew Hper Hact Hri.
  split; [done|lia|by rewrite Hp|done|by rewrite Ha, Hc|].
  rewrite Hr, Hc. by eapply same_rooms_inv.
Qed.

(** ** The handlers *)

Section Handlers.
Context (s : WSServer) (Hwf : wf s).
Hypothesis Hfew : Z.of_nat (length (workers s)) < 2 ^ 32 - 1.

Lemma JoinServer_ok cID :
  is_Some (objs s !! cID) →
  ∃ s', JoinServer cID s = Ret s' ∧ wf s' ∧ cID ∈ clients s' ∧ rooms s' = rooms s ∧
    same_rooms (objs s) (objs s').
Proof.
  intros [x Hx]. pose proof Hwf as [Hs Hf Hp Hpl Ha Hri]. unfold JoinServer. case_decide as Hin.
  { by exists s. }
  unfold addClientToWorker. destruct (getWorker_ok cID s Hs Hf) as [-> _]. simpl.
  set (s1 := set_clients _ _ _).
  assert (room_inv (objs s1) (rooms s1) (clients s1)) as Hri1.
  { assert (room_inv (objs s) (rooms s) ({[cID]} ∪ clients s)) as H'.
    { destruct Hri as [Hsym Hex Hj]. split; [done|done|]. intros n m c Hm Hc.
      apply elem_of_union_r. by eapply Hj. }
    eapply same_rooms_inv; [|exact H']. apply same_rooms_alter. }
  assert (length (workers s1) = length (workers s)) as Hl1 by (simpl; by rewrite length_alter).
  destruct (checkScaleUp_ok s1) as (s' & Hs' & Hres).
  - intros Hnil. apply Hs. apply length_zero_iff_nil. rewrite <- Hl1. by rewrite Hnil.
  - by rewrite Hl1.
  - pose proof (placement_add _ _ _ _ cID (place (length (workers s)) cID) x Hpl Hin Hx) as Hadd.
    rewrite Hl1. eapply placement_ext; [|exact Hadd].
    intros c _. simpl. by destruct (decide (c = cID)) as [->|].
  - exists s'. split; [done|]. split; [|split; [|split]].
    + eapply resized_wf; [done|by rewrite Hl1|done| |done]. simpl.
      rewrite Ha, size_union by set_solver. rewrite size_singleton. lia.
    + rewrite (rs_clients _ _ Hres). simpl. set_solver.
    + by rewrite (rs_rooms _ _ Hres).
    + eapply same_rooms_trans; [|exact (rs_objs _ _ Hres)]. apply same_rooms_alter.
Qed.

Lemma placement_objs pos ws o o' C :
  (∀ c, c ∈ C → worker <$> o !! c = worker <$> o' !! c) →
  placement pos ws o C → placement pos ws o' C.
Proof.
  intros Heq [Hptr Hin]. split; [|done]. intros c Hc.
  destruct (Hptr c Hc) as (x & Hx & Hw). specialize (Heq c Hc). rewrite Hx in Heq.
  symmetry in Heq. apply fmap_Some in Heq as (x' & ? & ?). exists x'. split; [done|congruence].
Qed.

(** A departure takes the client out of every room. *)
Lemma room_inv_leave cID :
  room_inv (alter (λ c, mkClient None (worker c)) cID (objs s))
    (map_imap (λ r m, Some (if decide (r ∈ rooms_of cID s) then m ∖ {[cID]} else m)) (rooms s))
    (clients s ∖ {[cID]}).
Proof.
  destruct (wf_rooms s Hwf) as [Hsym Hex Hj].
  assert (∀ n m, (map_imap (λ r m, Some (if decide (r ∈ rooms_of cID s) then m ∖ {[cID]} else m))
      (rooms s)) !! n = Some m →
      ∃ m0, rooms s !! n = Some m0 ∧ cID ∉ m ∧
      ∀ c, c ≠ cID → c ∈ m ↔ c ∈ m0) as Hroom.
  { intros n m Hm. rewrite map_lookup_imap in Hm. apply bind_Some in Hm as (m0 & Hm0 & [= <-]).
    exists m0. split; [done|]. case_decide as Hin; [set_solver|]. split; [|done].
    intros Hc. apply Hin. apply (Hsym _ _ _ Hm0) in Hc as (x & mine & Hx & Hr & Hn).
    unfold rooms_of. rewrite Hx. simpl. by rewrite Hr. }
  split.
  - intros n m c Hm. destruct (Hroom _ _ Hm) as (m0 & Hm0 & Hni & Heq).
    destruct (decide (c = cID)) as [->|Hne].
    + split; [done|]. intros (x & mine & Hx & Hr & _). rewrite lookup_alter_eq in Hx.
      apply fmap_Some in Hx as (x0 & _ & ->). done.
    + rewrite Heq, (Hsym _ _ _ Hm0) by done. by rewrite lookup_alter_ne.
  - intros c x mine n Hx Hr Hn. destruct (decide (c = cID)) as [->|Hne].
    + rewrite lookup_alter_eq in Hx. apply fmap_Some in Hx as (x0 & _ & ->). done.
    + rewrite lookup_alter_ne in Hx by done. rewrite map_lookup_imap.
      destruct (Hex _ _ _ _ Hx Hr Hn) as [m0 ->]. simpl. by eexists.
  - intros n m c Hm Hc. destruct (Hroom _ _ Hm) as (m0 & Hm0 & Hni & Heq).
    destruct (decide (c = cID)) as [->|Hne]; [done|].
    apply Heq in Hc; [|done]. pose proof (Hj _ _ _ Hm0 Hc). set_solver.
Qed.

Lemma LeaveServer_ok cID :
  ∃ s', LeaveServer cID s = Ret s' ∧ wf s' ∧ objs s' !! cID ≫= c_rooms = None ∧
    (is_Some (objs s !! cID) → is_Some (objs s' !! cID)) ∧
    (length (workers s') ≤ S (length (workers s)))%nat.
Proof.
  pose proof Hwf as [Hs Hf Hp Hpl Ha Hri]. unfold LeaveServer, removeClientFromWorker.
  set (s1 := if decide (cID ∈ clients s) then _ else s).
  assert (clients s1 = clients s ∖ {[cID]} ∧ activeClients s1 = Z.of_nat (size (clients s ∖ {[cID]})) ∧
    objs s1 = objs s ∧ rooms s1 = rooms s ∧ workers s1 = workers s ∧
    clientsPerWorker s1 = clientsPerWorker s) as (Hc1 & Ha1 & Ho1 & Hr1 & Hw1 & Hp1).
  { unfold s1. case_decide as Hin; simpl; (split; [set_solver|]); (split; [|done]); rewrite Ha.
    - rewrite size_difference by set_solver. rewrite size_singleton.
      assert (size (clients s) ≠ 0)%nat; [|lia]. intros H0. apply size_empty_inv in H0. set_solver.
    - do 2 f_equal. set_solver. }
  assert (rooms_of cID s1 = rooms_of cID s) as Hro by (unfold rooms_of; by rewrite Ho1).
  rewrite Hro, Hr1, Ho1.
  match goal with |- context [ getWorker cID ?x ] => destruct (getWorker_ok cID x) as [-> _] end;
    simpl; rewrite ?Hw1; [done|done|].
  match goal with |- context [ checkScaleDown ?x ] => destruct (checkScaleDown_ok x) as (s' & Hs' & Hres) end;
    simpl; rewrite ?length_alter; [| done| by rewrite Hp1| |].
  - intros Hnil. apply Hs. apply length_zero_iff_nil.
    by rewrite <- (length_alter (λ cls, cls ∖ {[cID]}) (workers s) (place (length (workers s)) cID)), Hnil.
  - rewrite Hc1. eapply placement_objs; [|apply placement_remove, Hpl].
    intros c [_ Hne]%elem_of_difference.
    by rewrite !lookup_alter_ne by set_solver.
  - exists s'. split; [done|]. split; [eapply resized_wf; [done|..]; simpl|].
    + by rewrite length_alter.
    + by rewrite Hp1.
    + by rewrite Hc1.
    + rewrite Hc1. eapply same_rooms_inv; [|apply room_inv_leave]. apply same_rooms_alter.
    + pose proof (rs_few _ _ Hres) as Hlen. pose proof (rs_objs _ _ Hres cID) as Hsr. simpl in *.
      rewrite length_alter in Hlen. rewrite !lookup_alter_eq in Hsr.
      destruct (objs s !! cID) as [x|], (objs s' !! cID) as [x'|]; simplify_eq/=;
        (split; [done|]); (split; [|done]); intros [? ?]; simplify_eq; by eexists.
Qed.

Lemma LeaveRoom_ok cID r : ∃ s', LeaveRoom cID r s = Ret s' ∧ wf s'.
Proof.
  pose proof Hwf as [Hs Hf Hp Hpl Ha [Hsym Hex Hj]]. unfold LeaveRoom.
  destruct (rooms s !! r) as [m|] eqn:Hm; [|by exists s].
  eexists. split; [reflexivity|]. split; simpl; try done.
  - eapply placement_objs; [|exact Hpl]. intros c _. destruct (decide (c = cID)) as [->|].
    + rewrite lookup_alter_eq. by destruct (objs s !! cID).
    + by rewrite lookup_alter_ne.
  - split.
    + intros n m' c Hm'. apply lookup_insert_Some in Hm' as [[<- <-]|[Hn Hm']];
        destruct (decide (c = cID)) as [->|Hne].
      * split; [set_solver|]. intros (x & mine & Hx & Hr & Hn). rewrite lookup_alter_eq in Hx.
        apply fmap_Some in Hx as (x0 & _ & ->). simpl in Hr.
        apply fmap_Some in Hr as (mine0 & _ & ->). set_solver.
      * rewrite lookup_alter_ne by done. rewrite <- (Hsym _ _ _ Hm). set_solver.
      * rewrite (Hsym _ _ _ Hm'), lookup_alter_eq. split.
        -- intros (x & mine & Hx & Hr & Hin). rewrite Hx. simpl. eexists _, _.
           split; [done|]. simpl. rewrite Hr. split; [done|]. set_solver.
        -- intros (x & mine & Hx & Hr & Hin). apply fmap_Some in Hx as (x0 & Hx0 & ->).
           simpl in Hr. apply fmap_Some in Hr as (mine0 & Hr0 & ->).
           exists x0, mine0. split; [done|]. split; [done|]. set_solver.
      * rewrite lookup_alter_ne by done. by apply Hsym.
    + intros c x mine n Hx Hr Hn. destruct (decide (n = r)) as [->|Hne];
        [rewrite lookup_insert_eq; by eexists|rewrite lookup_insert_ne by done].
      destruct (decide (c = cID)) as [->|Hc].
      * rewrite lookup_alter_eq in Hx. apply fmap_Some in Hx as (x0 & Hx0 & ->).
        simpl in Hr. apply fmap_Some in Hr as (mine0 & Hr0 & ->).
        eapply Hex; [done|done|set_solver].
      * rewrite lookup_alter_ne in Hx by done. by eapply Hex.
    + intros n m' c Hm' Hc. apply lookup_insert_Some in Hm' as [[<- <-]|[Hn Hm']].
      * eapply Hj; [exact Hm|set_solver].
      * by eapply Hj.
Qed.

Lemma JoinRoom_ok cID r :
  is_Some (objs s !! cID) →
  match objs s !! cID ≫= c_rooms with
  | Some _ => ∃ s', JoinRoom cID r s = Ret s' ∧ wf s'
  | None => JoinRoom cID r s = Panic "assignment to entry in nil map"
  end.
Proof.
  intros Hc. destruct (JoinServer_ok cID Hc) as (s1 & Hj1 & Hwf1 & Hin & Hr1 & Hsr).
  unfold JoinRoom. rewrite Hj1. simpl. specialize (Hsr cID).
  destruct Hc as [x Hx]. rewrite Hx in *. simpl in *.
  symmetry in Hsr. apply fmap_Some in Hsr as (x1 & Hx1 & Heq).
  rewrite Hx1, Heq. simpl. destruct (c_rooms x1) as [mine|] eqn:Hm; [|done].
  destruct Hwf1 as [Hs Hf Hp Hpl Ha [Hsym Hex Hj]].
  eexists. split; [reflexivity|]. split; simpl; try done.
  - eapply placement_objs; [|exact Hpl]. intros c _. destruct (decide (c = cID)) as [->|].
    + by rewrite lookup_alter_eq, Hx1.
    + by rewrite lookup_alter_ne.
  - split.
    + intros n m' c Hm'. apply lookup_insert_Some in Hm' as [[<- <-]|[Hn Hm']];
        destruct (decide (c = cID)) as [->|Hne].
      * split; [|set_solver]. intros _. rewrite lookup_alter_eq, Hx1. simpl.
        eexists _, _. split; [done|]. simpl. split; [done|]. set_solver.
      * rewrite lookup_alter_ne by done. destruct (rooms s1 !! r) as [m0|] eqn:Hm0; simpl.
        -- rewrite <- (Hsym _ _ _ Hm0). set_solver.
        -- split; [set_solver|]. intros (y & mine' & Hy & Hr & Hin').
           destruct (Hex _ _ _ _ Hy Hr Hin'). congruence.
      * rewrite (Hsym _ _ _ Hm'), lookup_alter_eq, Hx1. simpl. split.
        -- intros (y & mine' & [= <-] & Hr & Hin'). eexists _, _. split; [done|]. simpl.
           split; [done|]. rewrite Hm in Hr. injection Hr as <-. set_solver.
        -- intros (y & mine' & [= <-] & Hr & Hin'). simpl in Hr. injection Hr as <-.
           exists x1, mine. split; [done|]. split; [done|]. set_solver.
      * rewrite lookup_alter_ne by done. by apply Hsym.
    + intros c y mine' n Hy Hr Hn. destruct (decide (n = r)) as [->|Hne];
        [rewrite lookup_insert_eq; by eexists|rewrite lookup_insert_ne by done].
      destruct (decide (c = cID)) as [->|Hc].
      * rewrite lookup_alter_eq, Hx1 in Hy. simpl in Hy. injection Hy as <-. simpl in Hr.
        injection Hr as <-. eapply Hex; [done|done|set_solver].
      * rewrite lookup_alter_ne in Hy by done. by eapply Hex.
    + intros n m' c Hm' Hc. apply lookup_insert_Some in Hm' as [[<- <-]|[Hn Hm']].
      * destruct (decide (c = cID)) as [->|]; [done|].
        destruct (rooms s1 !! r) as [m0|] eqn:Hm0; simpl in Hc; [|set_solver].
        eapply Hj; [exact Hm0|set_solver].
      * by eapply Hj.
Qed.
End Handlers.

(** ** Properties *)

(** Events about clients that are connected; a new connection has a fresh
    identifier. *)
Definition enabled (ev : ServerEvent) (s : WSServer) : Prop :=
  match ev with
  | Connect cID => objs s !! cID = None
  | EvJoinServer cID | EvLeaveServer cID | EvJoinRoom cID _ | EvLeaveRoom cID _ =>
      is_Some (objs s !! cID)
  end.

(** The one event that fails. *)
Definition late_join (ev : ServerEvent) (s : WSServer) : Prop :=
  match ev with
  | EvJoinRoom cID _ => objs s !! cID ≫= c_rooms = None
  | _ => False
  end.

#[export] Instance late_join_dec ev s : Decision (late_join ev s).
Proof. destruct ev; apply _. Defined.

Lemma wf_init n : Z.of_nat (S n) < 2 ^ 32 → wf (NewWSServer (S n)).
Proof.
  intros Hn. split; simpl; try done.
  - by rewrite length_replicate.
  - split; [set_solver|]. intros i w c Hw.
    assert (w = ∅) as ->; [|set_solver].
    change (∅ :: replicate n ∅) with (replicate (S n) (∅ : gset string)) in Hw.
    by apply lookup_replicate in Hw as [-> _].
Qed.

Lemma wf_connect cID s : wf s → objs s !! cID = None →
  wf (set_workers (workers s) (<[cID := NewClient]> (objs s)) s).
Proof.
  intros [Hs Hf Hp Hpl Ha [Hsym Hex Hj]] Hnone. split; simpl; try done.
  - eapply placement_objs; [|exact Hpl]. intros c Hc. rewrite lookup_insert_ne; [done|].
    intros ->. destruct (pl_ptr _ _ _ _ Hpl c Hc) as (x & ? & _). congruence.
  - split; [|  |done].
    + intros n m c Hm. rewrite (Hsym _ _ _ Hm). destruct (decide (c = cID)) as [->|Hne].
      * rewrite lookup_insert_eq, Hnone. split; [naive_solver|].
        intros (x & mine & [= <-] & [= <-] & ?). set_solver.
      * by rewrite lookup_insert_ne.
    + intros c x mine n Hx Hr Hn. destruct (decide (c = cID)) as [->|Hne].
      * rewrite lookup_insert_eq in Hx. by simplify_eq/=.
      * rewrite lookup_insert_ne in Hx by done. by eapply Hex.
Qed.

(** C11. The server's invariant (which a new server with at least one worker has)
    is kept by every event the accept loop handles, scaling the workers up or down
    included: there is always a worker, each joined client is
    in exactly one worker, the one its identifier hashes to and the one it points
    to, the client counter is right, and a client is in a room exactly when the
    room is among the client's, and only joined clients are in rooms.  The single
    event that fails is a join-room handled after the client's departure: it
    panics. *)
Theorem accept_loop_invariant (s : WSServer) (ev : ServerEvent) :
  wf s → Z.of_nat (length (workers s)) < 2 ^ 32 - 1 → enabled ev s →
  if decide (late_join ev s)
  then AcceptLoop ev s = Panic "assignment to entry in nil map"
  else ∃ s', AcceptLoop ev s = Ret s' ∧ wf s'.
Proof.
  intros Hwf Hfew Hen. destruct (decide (late_join ev s)) as [Hl|Hl];
    destruct ev as [c|c|c|c r|c r]; try done; simpl in *.
  - pose proof (JoinRoom_ok s Hwf Hfew c r Hen) as Hj. by rewrite Hl in Hj.
  - eexists. split; [done|]. by apply wf_connect.
  - destruct (JoinServer_ok s Hwf Hfew c Hen) as (s' & ? & ? & _). by exists s'.
  - destruct (LeaveServer_ok s Hwf Hfew c) as (s' & ? & ? & _). by exists s'.
  - pose proof (JoinRoom_ok s Hwf Hfew c r Hen) as Hj. by destruct (objs s !! c ≫= c_rooms).
  - by apply LeaveRoom_ok.
Qed.

Lemma accept_loop_invariant_witness :
  let s := set_workers (workers (NewWSServer 1)) {["a" := NewClient]}%string (NewWSServer 1) in
  if decide (late_join (EvJoinRoom "a" "r") s)
  then AcceptLoop (EvJoinRoom "a" "r") s = Panic "assignment to entry in nil map"
  else ∃ s', AcceptLoop (EvJoinRoom "a" "r") s = Ret s' ∧ wf s'.
Proof.
  apply (accept_loop_invariant (set_workers (workers (NewWSServer 1))
    {["a" := NewClient]}%string (NewWSServer 1)) (EvJoinRoom "a" "r")).
  - apply (wf_connect "a" (NewWSServer 1)); [apply wf_init; vm_compute; reflexivity|reflexivity].
  - vm_compute. reflexivity.
  - eexists. reflexivity.
Defined.

(** Lists drawn from disjoint sets have no repetition. *)
Lemma NoDup_disjoint_bind (f : gset string → list string) (ws : list (gset string)) :
  (∀ w, NoDup (f w)) → (∀ w c, c ∈ f w → c ∈ w) →
  (∀ i j w1 w2 c, ws !! i = Some w1 → ws !! j = Some w2 → c ∈ w1 → c ∈ w2 → i = j) →
  NoDup (ws ≫= f).
Proof.
  intros Hf Hsub. induction ws as [|w ws IH]; intros Hd; [constructor|]. simpl.
  apply NoDup_app. split; [done|]. split.
  - intros c Hc Hin. apply list_elem_of_bind in Hin as (w' & Hc' & Hw').
    apply list_elem_of_lookup in Hw' as [j Hj].
    assert (0%nat = S j); [|done]. by apply (Hd 0%nat (S j) w w' c); auto.
  - apply IH. intros i j w1 w2 c H1 H2 Hc1 Hc2.
    assert (S i = S j) by (by apply (Hd (S i) (S j) w1 w2 c)). lia.
Qed.

Lemma filter_bind (P : string → bool) {A} (f : A → list string) l :
  filter P (l ≫= f) = l ≫= (λ x, filter P (f x)).
Proof. induction l as [|x l IH]; [done|]. cbn. by rewrite filter_app, IH. Qed.

Lemma fmap_const {A B} (b : B) (l : list A) : (λ _, b) <$> l = replicate (length l) b.
Proof. induction l as [|x l IH]; [done|]. cbn. by rewrite IH. Qed.

Section Messages.
Context (s : WSServer) (Hwf : wf s).

Lemma workers_disjoint i j w1 w2 c :
  workers s !! i = Some w1 → workers s !! j = Some w2 → c ∈ w1 → c ∈ w2 → i = j.
Proof.
  intros H1 H2 Hc1 Hc2. apply (pl_in _ _ _ _ (wf_place s Hwf)) with (c := c) in H1, H2.
  naive_solver.
Qed.

Lemma in_some_worker c : c ∈ clients s → ∃ w, w ∈ workers s ∧ c ∈ w.
Proof.
  intros Hc. destruct (getWorker_ok c s (wf_some s Hwf) (wf_few s Hwf)) as [_ Hlt].
  apply lookup_lt_is_Some in Hlt as [w Hw]. exists w.
  split; [by eapply list_elem_of_lookup_2|].
  by apply (pl_in _ _ _ _ (wf_place s Hwf) _ _ c Hw).
Qed.

Lemma worker_client c w : w ∈ workers s → c ∈ w → c ∈ clients s.
Proof.
  intros Hw Hc. apply list_elem_of_lookup in Hw as [i Hw].
  by apply (pl_in _ _ _ _ (wf_place s Hwf) _ _ c Hw) in Hc as [? _].
Qed.

(** The broadcast's receivers, worker by worker. *)
Lemma broadcast_receivers sender :
  workers s ≫= (λ w, elements (w ∖ {[sender]})) ≡ₚ elements (clients s ∖ {[sender]}).
Proof.
  apply NoDup_Permutation; [|apply NoDup_elements|].
  - apply NoDup_disjoint_bind; [intros w; apply NoDup_elements|set_solver|apply workers_disjoint].
  - intros c. rewrite list_elem_of_bind. split.
    + intros (w & Hc & Hw). apply elem_of_elements. apply elem_of_elements in Hc.
      assert (c ∈ clients s) by (apply (worker_client c w); set_solver). set_solver.
    + intros Hc. apply elem_of_elements in Hc.
      destruct (in_some_worker c) as (w & Hw & Hcw); [set_solver|].
      exists w. split; [|done]. apply elem_of_elements. set_solver.
Qed.

(** The members of a room, worker by worker. *)
Lemma room_receivers_split sender roomID cls :
  room_receivers sender roomID s = Some cls →
  workers s ≫= (λ w, filter (λ c, c ∈ w) cls) ≡ₚ cls.
Proof.
  intros Hcls. apply fmap_Some in Hcls as (m & Hm & ->).
  apply NoDup_Permutation; [|apply NoDup_elements|].
  - apply NoDup_disjoint_bind; [| |apply workers_disjoint].
    + intros w. apply NoDup_filter, NoDup_elements.
    + intros w c Hc. by apply list_elem_of_filter in Hc as [? _].
  - intros c. rewrite list_elem_of_bind. split.
    + intros (w & Hc & Hw). by apply list_elem_of_filter in Hc as [_ ?].
    + intros Hc. assert (c ∈ m) as Hin by (apply elem_of_elements in Hc; set_solver).
      destruct (in_some_worker c) as (w & Hw & Hcw).
      { by eapply (ri_joined _ _ _ (wf_rooms s Hwf)). }
      exists w. split; [|done]. by apply list_elem_of_filter.
Qed.


(** The crash: once the accept loop has handled a client's departure, a
    join-room message of that client still waiting in its channel makes the
    server panic. *)
Theorem join_room_after_leave_panics (cID roomID : string) :
  is_Some (objs s !! cID) → Z.of_nat (length (workers s)) < 2 ^ 32 - 2 →
  ∃ s', AcceptLoop (EvLeaveServer cID) s = Ret s' ∧
    AcceptLoop (EvJoinRoom cID roomID) s' = Panic "assignment to entry in nil map".
Proof.
  intros Hc Hlen. destruct (LeaveServer_ok s Hwf ltac:(lia) cID) as (s' & Hs' & Hwf' & Hn & Hk & Hl).
  exists s'. split; [done|].
  pose proof (JoinRoom_ok s' Hwf' ltac:(lia) cID roomID (Hk Hc)) as Hj. by rewrite Hn in Hj.
Qed.
End Messages.

Definition one_client : WSServer :=
  set_workers [∅] {["a" := NewClient]}%string (NewWSServer 1).

Lemma one_client_wf : wf one_client.
Proof. apply (wf_connect "a" (NewWSServer 1)); [apply wf_init; vm_compute; reflexivity|reflexivity]. Qed.

(** Two clients, both in the room "r"; the connection of "b" is closed. *)
Definition two_clients : WSServer :=
  set_workers [∅] (<["b" := NewClient]> {["a" := NewClient]})%string (NewWSServer 1).
Definition two_in_room : outcome WSServer :=
  s ← JoinRoom "a" "r" two_clients; JoinRoom "b" "r" s.

Lemma two_clients_wf : wf two_clients.
Proof. apply (wf_connect "b" one_client); [apply one_client_wf|reflexivity]. Qed.

Lemma two_in_room_wf : ∃ s, two_in_room = Ret s ∧ wf s.
Proof.
  pose proof (JoinRoom_ok two_clients two_clients_wf ltac:(vm_compute; reflexivity) "a" "r"
    ltac:(by eexists)) as H1.
  destruct H1 as (s1 & H1 & Hwf1). unfold two_in_room. rewrite H1. cbn [mbind outcome_bind].
  assert (length (workers s1) = 1%nat ∧ objs s1 !! "b"%string = Some NewClient) as [Hl Hb].
  { vm_compute in H1. simplify_eq. split; vm_compute; reflexivity. }
  pose proof (JoinRoom_ok s1 Hwf1 ltac:(rewrite Hl; vm_compute; reflexivity) "b" "r"
    ltac:(rewrite Hb; by eexists)) as H2. rewrite Hb in H2.
  destruct H2 as (s2 & H2 & Hwf2). by exists s2.
Qed.


Lemma join_room_after_leave_panics_witness :
  ∃ s', AcceptLoop (EvLeaveServer "a") one_client = Ret s' ∧
    AcceptLoop (EvJoinRoom "a" "r") s' = Panic "assignment to entry in nil map".
Proof.
  apply (join_room_after_leave_panics one_client one_client_wf "a" "r");
    [eexists; reflexivity|vm_compute; reflexivity].
Defined.
