(* ===== verification/ChatRooms.v ===== *)
(** * The chat server over Kafka (chat/with-loop-per-client)

    Clients send to the server through Kafka, except room joins and departures;
    [consumerReqMsgLoop] puts what comes back in the channels [AcceptLoop]
    serves.  Each room keeps its last messages in a ring buffer.  A client is
    its identifier; the maps hold pointers, which can be nil ([false]). *)

From S2P Require Import Prelude GoSem.

(** ** ring-buffer.go *)

(** Positions and counts are small non-negative integers. *)
Record RespMsg := mkResp {
  resp_MsgType : string; resp_Data : string; SenderID : string; resp_RoomID : string;
  ErrCode : Z; resp_Offset : Z }.

Module Ring.
Record RingBuffer := mkRing {
  buffer : list (option RespMsg); size : nat; head : nat; count : nat }.

Definition NewRingBuffer (size : nat) : RingBuffer := mkRing (replicate size None) size 0 0.

(** [rb.buffer[i]], and the use of a message that may be nil. *)
Definition at_index (rb : RingBuffer) (i : nat) : outcome (option RespMsg) :=
  match buffer rb !! i with
  | Some m => Ret m
  | None => Panic "index out of range"
  end.

Definition Push (msg : RespMsg) (rb : RingBuffer) : outcome RingBuffer :=
  _ ← at_index rb (head rb);
  Ret (mkRing (<[head rb := Some msg]> (buffer rb)) (size rb)
         ((head rb + 1) mod size rb)
         (if (count rb <? size rb)%nat then count rb + 1 else count rb)%nat).

Definition oldestIdx (rb : RingBuffer) : nat := (head rb + size rb - count rb) mod size rb.

(** [result[i] = rb.buffer[(start + i) % size]] for [n] messages. *)
Fixpoint collect (rb : RingBuffer) (start n : nat) : outcome (list (option RespMsg)) :=
  match n with
  | O => Ret []
  | S n =>
      m ← at_index rb (start mod size rb);
      l ← collect rb (S start) n;
      Ret (m :: l)
  end.

Definition GetAll (rb : RingBuffer) : outcome (list (option RespMsg)) :=
  if (count rb =? 0)%nat then Ret [] else collect rb (oldestIdx rb) (count rb).

(** The search loop; [idx] is the same in every iteration, as the code has
    it. *)
Fixpoint find_start (rb : RingBuffer) (offset : Z) (i n : nat) (startPos : option nat) :
    outcome (option nat) :=
  match n with
  | O => Ret startPos
  | S n =>
      m ← at_index rb ((oldestIdx rb + 1) mod size rb);
      match m with
      | None => Panic "nil pointer dereference"
      | Some m => find_start rb offset (S i) n (if offset <? resp_Offset m then Some i else startPos)
      end
  end.

Definition GetFromOffset (offset : Z) (rb : RingBuffer) : outcome (list (option RespMsg)) :=
  if (count rb =? 0)%nat then Ret []
  else
    startPos ← find_start rb offset 0 (count rb) None;
    match startPos with
    | None => Ret []
    | Some startPos => collect rb (oldestIdx rb + startPos) (count rb - startPos)
    end.
End Ring.
Import Ring.

(** ** The server *)

Record ReqMsg := mkReq {
  MsgType : string; ClientID : string; Data : string; RoomID : string; Offset : Z }.

Definition NewReqMsg (msgType rID data : string) : ReqMsg := mkReq msgType "" data rID 0.

Definition NewRespMsg (msg : ReqMsg) : RespMsg :=
  mkResp (MsgType msg) (Data msg) (ClientID msg) (RoomID msg) 0 (Offset msg).

Definition MsgType_Broadcast : string := "broadcast".
Definition MsgType_RoomJoin : string := "room-join".
Definition MsgType_RoomLeave : string := "room-leave".
Definition MsgType_RoomMsg : string := "room-message".
Definition MsgType_Replay : string := "replay".
Definition MaxMsgStoredPerRoom : nat := 64.

Record Room := mkRoom {
  r_clients : gmap string bool; msgBuffer : RingBuffer; clientsCount : Z }.

Definition NewRoom : Room := mkRoom ∅ (NewRingBuffer MaxMsgStoredPerRoom) 0.

(** The channels hold 64 messages each. *)
Record Server := mkServer {
  clients : gmap string bool;
  rooms : gmap string Room;
  roomsCount : Z;
  broadcastCH : list ReqMsg;
  roomJoinCH : list ReqMsg;
  roomLeaveCH : list ReqMsg;
  roomMsgCH : list ReqMsg;
  replayMsgCH : list ReqMsg;
}.

Definition NewServer : Server := mkServer ∅ ∅ 0 [] [] [] [] [].

Definition set_clients (c : gmap string bool) (s : Server) : Server :=
  mkServer c (rooms s) (roomsCount s) (broadcastCH s) (roomJoinCH s) (roomLeaveCH s)
    (roomMsgCH s) (replayMsgCH s).
Definition set_rooms (r : gmap string Room) (n : Z) (s : Server) : Server :=
  mkServer (clients s) r n (broadcastCH s) (roomJoinCH s) (roomLeaveCH s)
    (roomMsgCH s) (replayMsgCH s).
Definition set_channels (b j l m r : list ReqMsg) (s : Server) : Server :=
  mkServer (clients s) (rooms s) (roomsCount s) b j l m r.

(** A send on a channel of capacity 64. *)
Definition send (msg : ReqMsg) (ch : list ReqMsg) : outcome (list ReqMsg) :=
  if (length ch <? 64)%nat then Ret (ch ++ [msg]) else Block.

(** [ToKafka]: the message went to the producer instead. *)
Definition produceReqMsg (msg : ReqMsg) (s : Server) : outcome (Server * bool) :=
  if decide (MsgType msg = MsgType_RoomJoin) then
    ch ← send msg (roomJoinCH s);
    Ret (set_channels (broadcastCH s) ch (roomLeaveCH s) (roomMsgCH s) (replayMsgCH s) s, false)
  else if decide (MsgType msg = MsgType_RoomLeave) then
    ch ← send msg (roomLeaveCH s);
    Ret (set_channels (broadcastCH s) (roomJoinCH s) ch (roomMsgCH s) (replayMsgCH s) s, false)
  else Ret (s, true).

(** One message of [consumerReqMsgLoop]. *)
Definition consumerReqMsgLoop (msg : ReqMsg) (s : Server) : outcome Server :=
  if decide (MsgType msg = MsgType_Broadcast) then
    ch ← send msg (broadcastCH s);
    Ret (set_channels ch (roomJoinCH s) (roomLeaveCH s) (roomMsgCH s) (replayMsgCH s) s)
  else if decide (MsgType msg = MsgType_RoomMsg) then
    ch ← send msg (roomMsgCH s);
    Ret (set_channels (broadcastCH s) (roomJoinCH s) (roomLeaveCH s) ch (replayMsgCH s) s)
  else if decide (MsgType msg = MsgType_Replay) then
    ch ← send msg (replayMsgCH s);
    Ret (set_channels (broadcastCH s) (roomJoinCH s) (roomLeaveCH s) (roomMsgCH s) ch s)
  else Ret s.

Definition joinServer (cID : string) (s : Server) : Server :=
  set_clients (<[cID := true]> (clients s)) s.

Definition leaveServer (cID : string) (s : Server) : Server :=
  set_rooms ((λ r, mkRoom (delete cID (r_clients r)) (msgBuffer r) (clientsCount r)) <$> rooms s)
    (roomsCount s) (set_clients (delete cID (clients s)) s).

(** A client that is not in the map is looked up as nil and stored as such. *)
Definition joinRoom (msg : ReqMsg) (s : Server) : Server :=
  let cID := ClientID msg in
  let c := default false (clients s !! cID) in
  let s := set_clients (<[cID := c]> (clients s)) s in
  let '(room, n) := match rooms s !! RoomID msg with
                    | Some room => (room, roomsCount s)
                    | None => (NewRoom, roomsCount s + 1)
                    end in
  set_rooms (<[RoomID msg := mkRoom (<[cID := c]> (r_clients room)) (msgBuffer room)
                               (clientsCount room + 1)]> (rooms s)) n s.

Definition leaveRoom (msg : ReqMsg) (s : Server) : Server :=
  match rooms s !! RoomID msg with
  | None => s
  | Some room =>
      set_rooms (<[RoomID msg := mkRoom (delete (ClientID msg) (r_clients room)) (msgBuffer room)
                                   (clientsCount room - 1)]> (rooms s)) (roomsCount s) s
  end.

(** [sendMsg]: the clients that are sent the message; the first nil one makes
    it panic. *)
Definition sendMsg (cls : gmap string bool) : outcome (list string) :=
  if decide (map_Forall (λ _ c, c = true) cls) then Ret (elements (dom cls))
  else Panic "nil pointer dereference".

Definition sendBroadcastMsg (msg : ReqMsg) (s : Server) : outcome (list string) :=
  sendMsg (delete (ClientID msg) (clients s)).

Definition sendRoomMsg (msg : ReqMsg) (s : Server) : outcome (Server * list string) :=
  match rooms s !! RoomID msg with
  | None => Ret (s, [])
  | Some r =>
      let cls := delete (ClientID msg) (r_clients r) in
      buf ← Push (NewRespMsg msg) (msgBuffer r);
      let s := set_rooms (<[RoomID msg := mkRoom (r_clients r) buf (clientsCount r)]> (rooms s))
                 (roomsCount s) s in
      if decide (cls = ∅) then Ret (s, [])
      else sent ← sendMsg cls; Ret (s, sent)
  end.

(** Everybody in the room is sent each replayed message. *)
Definition sendRoomMsgReplay (msg : ReqMsg) (s : Server) :
    outcome (list (option RespMsg) * list string) :=
  match rooms s !! RoomID msg with
  | None => Ret ([], [])
  | Some r =>
      msgs ← GetFromOffset (Offset msg) (msgBuffer r);
      if decide (msgs = [] ∨ r_clients r = ∅) then Ret (msgs, [])
      else sent ← sendMsg (r_clients r); Ret (msgs, sent)
  end.

(** The answer to a test request: [r.msgBuffer] is read without the test of
    [r] that guards the counter. *)
Definition test_request (roomID : string) (s : Server) :
    outcome (Z * list (option RespMsg)) :=
  match rooms s !! roomID with
  | None => Panic "nil pointer dereference"
  | Some r => l ← GetAll (msgBuffer r); Ret (clientsCount r, l)
  end.

(** What [AcceptLoop]'s [select] can take. Two of its cases receive from
    [roomMsgCH], the second treating the message as a replay request; none
    receives from [replayMsgCH]. *)
Inductive AcceptEvent :=
| AcJoinServer (cID : string)
| AcLeaveServer (cID : string)
| AcRoomJoin
| AcRoomLeave
| AcBroadcast
| AcRoomMsg
| AcRoomMsgReplay
| AcTest (roomID : string).

Definition AcceptLoop (ev : AcceptEvent) (s : Server) : outcome Server :=
  match ev with
  | AcJoinServer cID => Ret (joinServer cID s)
  | AcLeaveServer cID => Ret (leaveServer cID s)
  | AcRoomJoin =>
      match roomJoinCH s with
      | [] => Block
      | msg :: rest => Ret (joinRoom msg
          (set_channels (broadcastCH s) rest (roomLeaveCH s) (roomMsgCH s) (replayMsgCH s) s))
      end
  | AcRoomLeave =>
      match roomLeaveCH s with
      | [] => Block
      | msg :: rest => Ret (leaveRoom msg
          (set_channels (broadcastCH s) (roomJoinCH s) rest (roomMsgCH s) (replayMsgCH s) s))
      end
  | AcBroadcast =>
      match broadcastCH s with
      | [] => Block
      | msg :: rest =>
          _ ← sendBroadcastMsg msg s;
          Ret (set_channels rest (roomJoinCH s) (roomLeaveCH s) (roomMsgCH s) (replayMsgCH s) s)
      end
  | AcRoomMsg =>
      match roomMsgCH s with
      | [] => Block
      | msg :: rest =>
          '(s, _) ← sendRoomMsg msg s;
          Ret (set_channels (broadcastCH s) (roomJoinCH s) (roomLeaveCH s) rest (replayMsgCH s) s)
      end
  | AcRoomMsgReplay =>
      match roomMsgCH s with
      | [] => Block
      | msg :: rest =>
          _ ← sendRoomMsgReplay msg s;
          Ret (set_channels (broadcastCH s) (roomJoinCH s) (roomLeaveCH s) rest (replayMsgCH s) s)
      end
  | AcTest roomID => _ ← test_request roomID s; Ret s
  end.

(** *** Reading from Kafka (msg-consumer.go, [ReadMessageLoop]) *)

(** One iteration: [decode] is [json.Unmarshal]; the message's offset is the
    record's. *)
Definition ReadMessageLoop (decode : string → result ReqMsg)
    (read : result (string * Z)) : option ReqMsg :=
  match read with
  | Err _ => None
  | Ok (value, off) =>
      match decode value with
      | Err _ => None
      | Ok data => Some (mkReq (MsgType data) (ClientID data) (Data data) (RoomID data) off)
      end
  end.

(** ** backpressure.go *)

Inductive BPStrategy := BPStrategy_Drop | BPStrategy_Block | BPStrategy_SlowDown.
Definition DefaultBackPressureStrategy := BPStrategy_Drop.
Definition MaxBackPressureQueueSize : Z := 500.

(** A client's queue: what [msgCH] (capacity 64) holds, and its counters;
    [dropped] is how many signals the server's [droppedCH] (capacity 64) holds. *)
Record ClientQueue := mkQueue {
  msgCH : list RespMsg; queueSize : Z; droppedMsgCount : Z; dropped : nat }.

(** [Block]: the send waits for the client's writer. [timeout]: whether the
    100 ms pass first. *)
Definition handleBackpressure (strategy : BPStrategy) (timeout : bool) (msg : RespMsg)
    (q : ClientQueue) : outcome ClientQueue :=
  let room := (length (msgCH q) <? 64)%nat in
  let enqueue := if room then Ret (mkQueue (msgCH q ++ [msg]) (queueSize q + 1)
                                     (droppedMsgCount q) (dropped q))
                 else Block in
  let drop := if (dropped q <? 64)%nat
              then Ret (mkQueue (msgCH q) (queueSize q) (droppedMsgCount q + 1) (S (dropped q)))
              else Block in
  match strategy with
  | BPStrategy_SlowDown => if room then enqueue else if timeout then drop else Block
  | BPStrategy_Drop => if MaxBackPressureQueueSize <=? queueSize q then drop else enqueue
  | BPStrategy_Block => enqueue
  end.

(** The client's [writeMsgLoop] takes a message. *)
Definition write_msg (q : ClientQueue) : outcome (RespMsg * ClientQueue) :=
  match msgCH q with
  | [] => Block
  | msg :: rest => Ret (msg, mkQueue rest (queueSize q - 1) (droppedMsgCount q) (dropped q))
  end.

(** ** throttler.go *)

(** [exited]: [leak] has returned and closed both channels. *)
Record Throttler := mkThrottler {
  inputCH : list ReqMsg; outputCH : list ReqMsg; exited : bool; rate : Z }.

(** [time.Second / time.Duration(msgPerSec)]. *)
Definition NewThrottler (msgPerSec : Z) : outcome Throttler :=
  if msgPerSec =? 0 then Panic "integer divide by zero"
  else Ret (mkThrottler [] [] false (Z.quot 1000000000 msgPerSec)).

(** [inputCH] holds one message; a send on a closed channel panics. *)
Definition Allow (msg : ReqMsg) (t : Throttler) : outcome (bool * Throttler) :=
  if exited t then Panic "send on closed channel"
  else if (length (inputCH t) <? 1)%nat
  then Ret (true, mkThrottler (inputCH t ++ [msg]) (outputCH t) false (rate t))
  else Ret (false, t).

(** What [leak] waits for. *)
Inductive LeakEvent := LeakTick | LeakExit.

(** A tick passes one message on, when there is one. *)
Definition leak (ev : LeakEvent) (t : Throttler) : outcome Throttler :=
  if exited t then Block
  else match ev with
  | LeakExit => Ret (mkThrottler (inputCH t) (outputCH t) true (rate t))
  | LeakTick =>
      match inputCH t with
      | [] => Ret t
      | msg :: rest =>
          if (length (outputCH t) <? 64)%nat
          then Ret (mkThrottler rest (outputCH t ++ [msg]) false (rate t))
          else Block
      end
  end.

(** ** The ring buffer *)

Section RingFacts.
Context (s : nat) (s_pos : (0 < s)%nat).

(** The buffer after the messages [ms], oldest first, were pushed. *)
Record ring_rep (rb : RingBuffer) (ms : list RespMsg) : Prop := {
  rr_len : length (buffer rb) = s;
  rr_size : size rb = s;
  rr_head : head rb = (length ms mod s)%nat;
  rr_count : count rb = (length ms `min` s)%nat;
  rr_some : ∀ k m, ms !! k = Some m → (length ms ≤ k + s)%nat →
    buffer rb !! (k mod s)%nat = Some (Some m);
  rr_none : ∀ j, (length ms ≤ j < s)%nat → buffer rb !! j = Some None;
}.

Fixpoint push_all (ms : list RespMsg) (rb : RingBuffer) : outcome RingBuffer :=
  match ms with
  | [] => Ret rb
  | m :: ms => rb ← Push m rb; push_all ms rb
  end.

Lemma mod_distinct (k n : nat) : (k < n < k + s)%nat → (k mod s ≠ n mod s)%nat.
Proof.
  intros Hk Heq. pose proof (Nat.div_mod_eq k s). pose proof (Nat.div_mod_eq n s).
  assert (n - k = s * (n / s) - s * (k / s))%nat as Hd by lia.
  rewrite <- Nat.mul_sub_distr_l in Hd.
  destruct (n / s - k / s)%nat; [lia|]. nia.
Qed.

Lemma ring_init : ring_rep (NewRingBuffer s) [].
Proof.
  split; simpl; try done.
  - apply length_replicate.
  - by rewrite Nat.Div0.mod_0_l.
  - intros j Hj. apply lookup_replicate_2. lia.
Qed.

Lemma ring_push rb ms m : ring_rep rb ms →
  ∃ rb', Push m rb = Ret rb' ∧ ring_rep rb' (ms ++ [m]).
Proof.
  intros [Hlen Hsize Hhead Hcount Hsome Hnone]. unfold Push, at_index.
  assert (head rb < s)%nat as Hh by (rewrite Hhead; apply Nat.mod_upper_bound; lia).
  destruct (lookup_lt_is_Some_2 (buffer rb) (head rb)) as [x Hx]; [lia|].
  rewrite Hx. simpl. eexists. split; [reflexivity|].
  split; simpl; rewrite ?length_app, ?length_insert, ?Hsize; simpl; try done.
  - rewrite Hhead. by rewrite Nat.Div0.add_mod_idemp_l.
  - rewrite Hcount. case_match eqn:E; [apply Nat.ltb_lt in E|apply Nat.ltb_ge in E]; lia.
  - intros k m' Hk Hle. apply lookup_snoc_Some in Hk as [[Hlt Hk]|[-> ->]].
    + rewrite list_lookup_insert_ne; [by apply Hsome; [|lia]|].
      rewrite Hhead. apply not_eq_sym, mod_distinct. lia.
    + rewrite Hhead. apply list_lookup_insert_eq. rewrite Hlen, <- Hhead. done.
  - intros j Hj. rewrite list_lookup_insert_ne; [apply Hnone; lia|].
    rewrite Hhead, Nat.mod_small; lia.
Qed.

Lemma ring_push_all ms : ∀ rb ms0, ring_rep rb ms0 →
  ∃ rb', push_all ms rb = Ret rb' ∧ ring_rep rb' (ms0 ++ ms).
Proof.
  induction ms as [|m ms IH]; intros rb ms0 Hrr; simpl.
  - exists rb. by rewrite app_nil_r.
  - destruct (ring_push rb ms0 m Hrr) as (rb1 & -> & H1). simpl.
    destruct (IH _ _ H1) as (rb2 & -> & H2). exists rb2. split; [done|].
    by rewrite <- app_assoc in H2.
Qed.

Lemma oldest_mod rb ms : ring_rep rb ms →
  oldestIdx rb = ((length ms - length ms `min` s) mod s)%nat.
Proof.
  intros [_ Hsize Hhead Hcount _ _]. unfold oldestIdx. rewrite Hsize, Hhead, Hcount.
  destruct (le_lt_dec s (length ms)) as [Hge|Hlt].
  - rewrite Nat.min_r by lia.
    replace (length ms mod s + s - s)%nat with (length ms mod s)%nat by lia.
    rewrite Nat.Div0.mod_mod. replace (length ms) with (length ms - s + 1 * s)%nat at 1 by lia.
    by rewrite Nat.Div0.mod_add.
  - rewrite Nat.min_l by lia. rewrite (Nat.mod_small (length ms)) by lia.
    replace (length ms + s - length ms)%nat with s by lia.
    rewrite Nat.Div0.mod_same. by rewrite Nat.sub_diag, Nat.Div0.mod_0_l.
Qed.

Lemma mod_S_eq (a b : nat) : (a mod s = b mod s → S a mod s = S b mod s)%nat.
Proof.
  intros H. rewrite <- (Nat.add_1_r a), <- (Nat.add_1_r b), (Nat.Div0.add_mod a 1 s), H,
    <- Nat.Div0.add_mod. reflexivity.
Qed.

Lemma collect_ok rb ms c : ring_rep rb ms → ∀ start k,
  (start mod s = k mod s)%nat → (k + c ≤ length ms ≤ k + s)%nat →
  collect rb start c = Ret (Some <$> take c (drop k ms)).
Proof.
  intros Hrr. induction c as [|c IH]; intros start k Hmod Hk; [by rewrite take_0|].
  simpl. destruct (lookup_lt_is_Some_2 ms k) as [m Hm]; [lia|].
  unfold at_index. rewrite (rr_size _ _ Hrr), Hmod, (rr_some _ _ Hrr k m Hm) by lia. simpl.
  rewrite (IH (S start) (S k)); [|by apply mod_S_eq|lia].
  simpl. by rewrite (drop_S _ _ _ Hm).
Qed.

(** The position of the oldest message kept. *)
Definition oldest_of (ms : list RespMsg) : nat := (length ms - length ms `min` s)%nat.

Lemma GetAll_ok rb ms : ring_rep rb ms → GetAll rb = Ret (Some <$> drop (oldest_of ms) ms).
Proof.
  intros Hrr. unfold GetAll. rewrite (rr_count _ _ Hrr). unfold oldest_of.
  case_match eqn:E; [apply Nat.eqb_eq in E|apply Nat.eqb_neq in E].
  - destruct ms; [done|]. simpl in E. destruct s; [lia|done].
  - rewrite (collect_ok rb ms _ Hrr _ (length ms - length ms `min` s)%nat); [|by rewrite (oldest_mod _ _ Hrr), Nat.Div0.mod_mod|lia].
    rewrite take_ge; [done|]. rewrite length_drop. lia.
Qed.

(** C23. The ring buffer of a room keeps the last [size] messages: after any
    sequence of pushes into a new buffer of positive size, [GetAll] returns
    exactly the most recent ones, at most [size] of them, oldest first, and no
    push fails. *)
Theorem ring_buffer_keeps_latest (ms : list RespMsg) :
  ∃ rb, push_all ms (NewRingBuffer s) = Ret rb ∧
    GetAll rb = Ret (Some <$> drop (length ms - s) ms).
Proof.
  destruct (ring_push_all ms _ [] ring_init) as (rb & Hp & Hrr). exists rb. split; [done|].
  rewrite (GetAll_ok _ _ Hrr). unfold oldest_of. simpl. by replace (length ms - length ms `min` s)%nat with (length ms - s)%nat by lia.
Qed.

(** The search looks at the second oldest message in every iteration. *)
Lemma find_start_same rb offset m n : ∀ i p,
  at_index rb ((oldestIdx rb + 1) mod size rb) = Ret (Some m) →
  find_start rb offset i n p =
    Ret (if (0 <? n)%nat && (offset <? resp_Offset m) then Some (i + n - 1)%nat else p).
Proof.
  induction n as [|n IH]; intros i p Hat; [done|]. cbn [find_start].
  rewrite Hat. simpl. rewrite IH by done.
  destruct (offset <? resp_Offset m); [|by rewrite andb_false_r].
  rewrite andb_true_r. destruct n; simpl; do 2 f_equal; lia.
Qed.

Lemma second_index rb ms : ring_rep rb ms →
  ((oldestIdx rb + 1) mod size rb = (oldest_of ms + 1) mod s)%nat.
Proof.
  intros Hrr. rewrite (rr_size _ _ Hrr), (oldest_mod _ _ Hrr).
  by rewrite Nat.Div0.add_mod_idemp_l.
Qed.

(** [GetFromOffset], in a buffer of at least two slots, does not return
    the kept messages after [offset]: with one message it fails on a nil slot;
    with two or more it compares [offset] with the second oldest kept message
    only, and returns the newest message alone when that one is later, and
    nothing otherwise. *)
Theorem GetFromOffset_returns_newest_only (ms : list RespMsg) (offset : Z)
    (m second newest : RespMsg) :
  (2 ≤ s)%nat → (2 ≤ length ms)%nat →
  ms !! S (oldest_of ms) = Some second → last ms = Some newest →
  (∃ rb, push_all ms (NewRingBuffer s) = Ret rb ∧
    GetFromOffset offset rb = Ret (if offset <? resp_Offset second then [Some newest] else [])) ∧
  (∃ rb, push_all [m] (NewRingBuffer s) = Ret rb ∧
    GetFromOffset offset rb = Panic "nil pointer dereference").
Proof.
  intros Hs Hms Hsec Hlast. split.
  - destruct (ring_push_all ms _ [] ring_init) as (rb & Hp & Hrr). exists rb. split; [done|].
    simpl in Hrr. unfold GetFromOffset. rewrite (rr_count _ _ Hrr).
    destruct (_ =? 0)%nat eqn:E; [apply Nat.eqb_eq in E; lia|].
    rewrite (find_start_same rb offset second).
    + rewrite (proj2 (Nat.ltb_lt _ _)) by lia. simpl. destruct (offset <? resp_Offset second); [|done].
      simpl. rewrite (collect_ok rb ms _ Hrr _ (length ms - 1)%nat).
      * replace (length ms `min` s - (length ms `min` s - 1))%nat with 1%nat by lia.
        rewrite last_lookup, <- Nat.sub_1_r in Hlast.
        by rewrite (drop_S _ _ _ Hlast).
      * rewrite (oldest_mod _ _ Hrr), Nat.Div0.add_mod_idemp_l. f_equal. lia.
      * lia.
    + unfold at_index. rewrite (second_index _ _ Hrr), Nat.add_1_r.
      rewrite (rr_some _ _ Hrr _ _ Hsec); [done|]. unfold oldest_of. lia.
  - destruct (ring_push_all [m] _ [] ring_init) as (rb & Hp & Hrr). exists rb. split; [done|].
    simpl in Hrr. unfold GetFromOffset. rewrite (rr_count _ _ Hrr).
    assert (length [m] `min` s = 1)%nat as Hc by (change (length [m]) with 1%nat; lia).
    rewrite Hc. cbn [Nat.eqb find_start].
    unfold at_index. rewrite (second_index _ _ Hrr). unfold oldest_of. rewrite Hc.
    assert ((length [m] - 1 + 1) mod s = 1)%nat as ->
      by (change (length [m]) with 1%nat; rewrite Nat.mod_small; lia).
    by rewrite (rr_none _ _ Hrr 1%nat) by (simpl; lia).
Qed.
End RingFacts.

Definition demo_msg (o : Z) : RespMsg := mkResp "room-message" "hi" "c" "r" 0 o.

Lemma ring_buffer_keeps_latest_witness :
  ∃ rb, push_all [demo_msg 1; demo_msg 2; demo_msg 3] (NewRingBuffer 2) = Ret rb ∧
    GetAll rb = Ret [Some (demo_msg 2); Some (demo_msg 3)].
Proof. apply (ring_buffer_keeps_latest 2 ltac:(lia) [demo_msg 1; demo_msg 2; demo_msg 3]). Defined.

Lemma GetFromOffset_returns_newest_only_witness :
  (∃ rb, push_all [demo_msg 1; demo_msg 2; demo_msg 3] (NewRingBuffer 64) = Ret rb ∧
    GetFromOffset 0 rb = Ret [Some (demo_msg 3)]) ∧
  (∃ rb, push_all [demo_msg 1] (NewRingBuffer 64) = Ret rb ∧
    GetFromOffset 0 rb = Panic "nil pointer dereference").
Proof.
  apply (GetFromOffset_returns_newest_only 64 ltac:(lia) [demo_msg 1; demo_msg 2; demo_msg 3] 0
    (demo_msg 1) (demo_msg 2) (demo_msg 3)); [lia|simpl; lia|reflexivity|reflexivity].
Defined.

(** ** The server *)

(** Steps of the server's goroutines. *)
Inductive chat_step : Server → Server → Prop :=
| cs_accept s ev s' : AcceptLoop ev s = Ret s' → chat_step s s'
| cs_produce s msg s' b : produceReqMsg msg s = Ret (s', b) → chat_step s s'
| cs_consume s msg s' : consumerReqMsgLoop msg s = Ret s' → chat_step s s'.

Lemma send_prefix msg ch ch' : send msg ch = Ret ch' → ch `prefix_of` ch'.
Proof. unfold send. case_match; [|done]. intros [= <-]. by exists [msg]. Qed.

Lemma sendRoomMsg_replay msg s s' l : sendRoomMsg msg s = Ret (s', l) → replayMsgCH s' = replayMsgCH s.
Proof.
  unfold sendRoomMsg. destruct (rooms s !! RoomID msg); [|naive_solver].
  destruct (Push _ _) as [buf| |]; simpl; [|done..]. case_decide; [naive_solver|].
  destruct (sendMsg _); naive_solver.
Qed.

Lemma chat_step_replay s s' : chat_step s s' → replayMsgCH s `prefix_of` replayMsgCH s'.
Proof.
  destruct 1 as [s ev s' Hs|s msg s' b Hs|s msg s' Hs].
  - destruct ev as [| | | | | | |roomID]; simpl in Hs.
    + by simplify_eq.
    + by simplify_eq.
    + destruct (roomJoinCH s); simplify_eq. unfold joinRoom. by case_match.
    + destruct (roomLeaveCH s); simplify_eq. unfold leaveRoom. by case_match.
    + destruct (broadcastCH s); simplify_eq.
      destruct (sendBroadcastMsg r s); by simplify_eq/=.
    + destruct (roomMsgCH s) as [|msg rest]; simplify_eq.
      destruct (sendRoomMsg msg s) as [[s1 l]| |] eqn:Hm; simplify_eq/=.
      by rewrite (sendRoomMsg_replay _ _ _ _ Hm).
    + destruct (roomMsgCH s) as [|msg rest]; simplify_eq.
      destruct (sendRoomMsgReplay msg s); by simplify_eq/=.
    + destruct (test_request roomID s); by simplify_eq/=.
  - unfold produceReqMsg in Hs. repeat case_decide.
    + destruct (send msg _); by simplify_eq/=.
    + destruct (send msg _); by simplify_eq/=.
    + by simplify_eq.
  - unfold consumerReqMsgLoop in Hs. repeat case_decide.
    + destruct (send msg _); by simplify_eq/=.
    + destruct (send msg _); by simplify_eq/=.
    + destruct (send msg _) as [ch| |] eqn:Hch; simplify_eq/=. by eapply send_prefix.
    + by simplify_eq.
Qed.

(** Replay requests are never served: in every run of the server's
    goroutines the requests waiting in the replay channel stay there, and once
    64 of them wait, the loop that reads from Kafka blocks on the next one, so
    no message of any kind reaches the clients any more. *)
Theorem replay_requests_block (s s' : Server) (msg : ReqMsg) :
  rtc chat_step s s' → MsgType msg = MsgType_Replay →
  replayMsgCH s `prefix_of` replayMsgCH s' ∧
  (length (replayMsgCH s) = 64%nat → consumerReqMsgLoop msg s' = Block).
Proof.
  intros Hrtc Hmsg.
  assert (replayMsgCH s `prefix_of` replayMsgCH s') as Hp.
  { induction Hrtc as [|a b c Hab _ IH]; [done|]. etrans; [by apply chat_step_replay|done]. }
  split; [done|]. intros Hlen. apply prefix_length in Hp.
  unfold consumerReqMsgLoop. rewrite Hmsg. simpl.
  unfold send. rewrite (proj2 (Nat.ltb_ge _ _)) by lia. done.
Qed.

Lemma replay_requests_block_witness :
  let s := set_channels [] [] [] [] (replicate 64 (NewReqMsg "replay" "r" "")) NewServer in
  replayMsgCH s `prefix_of` replayMsgCH s ∧
  (length (replayMsgCH s) = 64%nat → consumerReqMsgLoop (NewReqMsg "replay" "r" "") s = Block).
Proof.
  apply (replay_requests_block (set_channels [] [] [] [] (replicate 64 (NewReqMsg "replay" "r" "")) NewServer)
    (set_channels [] [] [] [] (replicate 64 (NewReqMsg "replay" "r" "")) NewServer)
    (NewReqMsg "replay" "r" "")); [apply rtc_refl|reflexivity].
Defined.

(** A room-join handled after the client has left (or naming an unknown
    client) stores a nil client in the server's map, and any broadcast by
    another client then panics. *)
Theorem join_of_unknown_client_breaks_broadcast (s : Server) (join msg : ReqMsg) :
  clients s !! ClientID join = None → ClientID msg ≠ ClientID join →
  sendBroadcastMsg msg (joinRoom join s) = Panic "nil pointer dereference".
Proof.
  intros Hnone Hne. unfold sendBroadcastMsg, sendMsg. rewrite decide_False; [done|].
  intros Hall. assert (clients (joinRoom join s) !! ClientID join = Some false) as Hc.
  { unfold joinRoom. rewrite Hnone. simpl.
    destruct (rooms s !! RoomID join); simpl; by rewrite lookup_insert_eq. }
  specialize (Hall (ClientID join) false). rewrite lookup_delete_ne in Hall by done.
  by specialize (Hall Hc).
Qed.

Lemma join_of_unknown_client_breaks_broadcast_witness :
  sendBroadcastMsg (mkReq "broadcast" "b" "hi" "" 0)
    (joinRoom (mkReq "room-join" "a" "" "r" 0) (leaveServer "a" (joinServer "a" NewServer))) =
  Panic "nil pointer dereference".
Proof.
  apply (join_of_unknown_client_breaks_broadcast (leaveServer "a" (joinServer "a" NewServer))
    (mkReq "room-join" "a" "" "r" 0) (mkReq "broadcast" "b" "hi" "" 0)); [reflexivity|discriminate].
Defined.
