(* ===== verification/ChatClientLoop.v ===== *)
(** * The chat server with a loop per client (chat/client-loop)

    Each client has its own goroutine, and joins and departures come both from
    these and from [RegisterLoop].  The server's mutex is explicit, because
    [SendRoomMSG] has a path that returns with it held; the mutexes of clients
    and rooms are released on every path, so what they protect changes
    atomically. *)

From S2P Require Import Prelude GoSem GoStrings.
From Stdlib Require Import Ascii.

(** ** Data *)

Record WSServer := mkSrv {
  Clients : gset string;
  Rooms : gmap string (gset string);
  c_rooms : gmap string (gset string);
  BroadcastWorkers : list (list string);
  mu : RWMutex;
}.

(** [c_rooms] holds the [rooms] map of every client object; one that was just
    made has no entry. *)
Definition NewWSServer : WSServer := mkSrv ∅ ∅ ∅ [] unlocked.

(** [initBroadcastHub]: the workers start with no client. *)
Definition initBroadcastHub (numWorkers : nat) (s : WSServer) : WSServer :=
  mkSrv (Clients s) (Rooms s) (c_rooms s)
    (BroadcastWorkers s ++ replicate numWorkers []) (mu s).

Definition set_Clients (c : gset string) (s : WSServer) : WSServer :=
  mkSrv c (Rooms s) (c_rooms s) (BroadcastWorkers s) (mu s).
Definition set_membership (r c : gmap string (gset string)) (s : WSServer) : WSServer :=
  mkSrv (Clients s) r c (BroadcastWorkers s) (mu s).
Definition set_BroadcastWorkers (w : list (list string)) (s : WSServer) : WSServer :=
  mkSrv (Clients s) (Rooms s) (c_rooms s) w (mu s).

Definition with_mu (op : RWMutex → outcome RWMutex) : GO WSServer unit := λ s,
  match op (mu s) with
  | Ret m => Ret (tt, mkSrv (Clients s) (Rooms s) (c_rooms s) (BroadcastWorkers s) m)
  | Panic e => Panic e
  | Block => Block
  end.

(** The rooms a client is in, as it sees them; the members of a room. *)
Definition rooms_of (c : string) (s : WSServer) : gset string := default ∅ (c_rooms s !! c).
Definition members (r : string) (s : WSServer) : gset string := default ∅ (Rooms s !! r).

(** ** Operations *)

(** [worker] is the broadcast worker that takes the client from [clientCH]. *)
Definition RegisterBroadcast (worker : nat) (client : string) : GO WSServer unit :=
  with_mu Lock ;;'
  go_modify (λ s, set_Clients ({[client]} ∪ Clients s) s) ;;'
  with_mu Unlock ;;'
  s ←' go_get ;;
  match BroadcastWorkers s !! worker with
  | None => go_block
  | Some cls => go_put (set_BroadcastWorkers (<[worker := cls ++ [client]]> (BroadcastWorkers s)) s)
  end.

(** The broadcast workers keep the client. *)
Definition Unregister (c : string) : GO WSServer unit :=
  with_mu Lock ;;'
  s ←' go_get ;;
  if decide (c ∈ Clients s) then
    go_put (set_Clients (Clients s ∖ {[c]}) s) ;;'
    with_mu Unlock ;;'
    go_modify (λ s,
      let roomsToLeave := rooms_of c s in
      set_membership
        (map_imap (λ r m, Some (if decide (r ∈ roomsToLeave) then m ∖ {[c]} else m)) (Rooms s))
        (<[c := ∅]> (c_rooms s)) s)
  else with_mu Unlock.

Definition JoinRoom (client roomID : string) : GO WSServer unit :=
  with_mu Lock ;;'
  s ←' go_get ;;
  (match Rooms s !! roomID with
   | None => go_put (set_membership (<[roomID := ∅]> (Rooms s)) (c_rooms s) s)
   | Some _ => go_ret tt
   end) ;;'
  with_mu Unlock ;;'
  go_modify (λ s, set_membership (<[roomID := {[client]} ∪ members roomID s]> (Rooms s))
    (<[client := {[roomID]} ∪ rooms_of client s]> (c_rooms s)) s).

(** The inner [client] of a non-member is nil and is dereferenced by the log
    call, and so is the room that does not exist. *)
Definition LeaveRoom (client roomID : string) : GO WSServer unit :=
  with_mu RLock ;;'
  s ←' go_get ;;
  with_mu RUnlock ;;'
  match Rooms s !! roomID with
  | None =>
      go_modify (λ s, set_membership (Rooms s)
        (<[client := rooms_of client s ∖ {[roomID]}]> (c_rooms s)) s) ;;'
      go_panic "nil pointer dereference"
  | Some m =>
      if decide (client ∈ m) then
        go_modify (λ s, set_membership (<[roomID := m ∖ {[client]}]> (Rooms s))
          (<[client := rooms_of client s ∖ {[roomID]}]> (c_rooms s)) s)
      else go_panic "nil pointer dereference"
  end.

(** Who is sent the message; a missing room returns before [RUnlock]. *)
Definition SendRoomMSG (clientID roomID : string) : GO WSServer (result (list string)) :=
  with_mu RLock ;;'
  s ←' go_get ;;
  match Rooms s !! roomID with
  | None => go_ret (Err (ErrNew "roomID does not exist, cannot send msg"))
  | Some m =>
      with_mu RUnlock ;;'
      if decide (clientID ∈ m) then go_ret (Ok (elements (m ∖ {[clientID]})))
      else go_ret (Err (ErrNew "cliendID does not belong to this roomID"))
  end.

(** [BroadcastMSG] hands the message to every worker, which sends it to each of
    its clients ([handleBroadcast]). *)
Definition BroadcastMSG (s : WSServer) : list string := concat (BroadcastWorkers s).

(** *** Commands *)

Inductive RegisterCmd :=
| RegisterCmd_RegisterBroadcast | RegisterCmd_RegisterRoom
| RegisterCmd_UnregisterRoom | RegisterCmd_Unregister.

Record RegisterPayload := mkPayload { p_client : string; p_cmd : RegisterCmd; p_roomID : string }.

(** One payload of [RegisterLoop]. *)
Definition RegisterLoop (worker : nat) (v : RegisterPayload) : GO WSServer unit :=
  match p_cmd v with
  | RegisterCmd_RegisterBroadcast => RegisterBroadcast worker (p_client v)
  | RegisterCmd_RegisterRoom => JoinRoom (p_client v) (p_roomID v)
  | RegisterCmd_Unregister => Unregister (p_client v)
  | RegisterCmd_UnregisterRoom => LeaveRoom (p_client v) (p_roomID v)
  end.

(** What a client's [readMsgLoop] meets: the server's context is done, the ping
    ticker fires, or something comes from [msgChan], which may be closed. *)
Inductive ClientMSG :=
| SvrDone | PingTick
| MsgBroadcast | MsgRoomMessage (roomID : string) | MsgJoinRoom (roomID : string)
| MsgLeaveRoom (roomID : string) | MsgPing | MsgOther | MsgClosed.

(** One iteration: what is sent on [registerCH], and the ping counter when the
    loop goes on ([None] when it returns). *)
Definition readMsgLoop (c : string) (pingCount : Z) (msg : ClientMSG) :
    GO WSServer (list RegisterPayload * option Z) :=
  match msg with
  | SvrDone => go_ret ([], None)
  | PingTick =>
      let count := int32 (pingCount - 1) in
      go_ret ([], if count <? -2 then None else Some count)
  | MsgBroadcast => go_ret ([], Some pingCount)
  | MsgRoomMessage r => SendRoomMSG c r ;;' go_ret ([], Some pingCount)
  | MsgJoinRoom r => JoinRoom c r ;;' go_ret ([], Some pingCount)
  | MsgLeaveRoom r => LeaveRoom c r ;;' go_ret ([], Some pingCount)
  | MsgPing => go_ret ([], Some (int32 (pingCount + 1)))
  | MsgOther => go_ret ([], Some pingCount)
  | MsgClosed => go_ret ([mkPayload c RegisterCmd_Unregister ""], None)
  end.

Record ParsedCMD := mkCmd { msgType : string; roomID : string }.

(** The cases of "broadcast" and "direct" are empty and leave the [switch]. *)
Definition parseURLToCmd (val : string) : outcome (result ParsedCMD) :=
  let res := Split "/" val in
  let invalid := Ret (Err (ErrNew "invalid msgType, params combination")) in
  let with_room t :=
    match res !! 2%nat with
    | None => Panic "index out of range"
    | Some r => if decide (r = ""%string) then Ret (Err (ErrNew "roomID required"))
                else Ret (Ok (mkCmd t r))
    end in
  match res with
  | _ :: t :: _ =>
      if decide (t = "broadcast"%string) then invalid
      else if decide (t = "direct"%string) then invalid
      else if decide (t = "room-message"%string) then Ret (Ok (mkCmd t ""))
      else if decide (t = "join-room"%string) then with_room t
      else if decide (t = "leave-room"%string) then with_room t
      else Ret (Ok (mkCmd "" ""))
  | _ => invalid
  end.

(** What is sent on [registerCH]; the case of "broadcast" is empty. *)
Definition processCMD (client : string) (cmd : ParsedCMD) : list RegisterPayload :=
  if decide (msgType cmd = "join-room"%string)
  then [mkPayload client RegisterCmd_RegisterRoom (roomID cmd)]
  else if decide (msgType cmd = "leave-room"%string)
  then [mkPayload client RegisterCmd_UnregisterRoom (roomID cmd)]
  else if decide (msgType cmd = "broadcast"%string) then []
  else [mkPayload client RegisterCmd_RegisterBroadcast ""].

(** ** Membership *)

(** Rooms and clients agree on who is where. *)
Definition consistent (s : WSServer) : Prop :=
  (∀ c r, r ∈ rooms_of c s ↔ c ∈ members r s).

Lemma JoinRoom_eq client r s : mu s = unlocked →
  JoinRoom client r s = Ret (tt,
    set_membership (<[r := {[client]} ∪ members r s]> (Rooms s))
      (<[client := {[r]} ∪ rooms_of client s]> (c_rooms s)) s).
Proof.
  intros Hm. destruct s as [C R cr B m]. simpl in Hm. subst.
  unfold JoinRoom, go_bind, with_mu, go_get, go_modify, go_put, go_ret, members. simpl.
  destruct (R !! r) as [x|] eqn:Hr; simpl.
  - rewrite Hr. done.
  - rewrite lookup_insert_eq. simpl. by rewrite insert_insert_eq.
Qed.

Lemma Unregister_eq c s : mu s = unlocked →
  Unregister c s = Ret (tt,
    if decide (c ∈ Clients s) then
      set_membership
        (map_imap (λ r m, Some (if decide (r ∈ rooms_of c s) then m ∖ {[c]} else m)) (Rooms s))
        (<[c := ∅]> (c_rooms s)) (set_Clients (Clients s ∖ {[c]}) s)
    else s).
Proof.
  intros Hm. destruct s as [C R cr B m]. simpl in Hm. subst.
  unfold Unregister, go_bind, with_mu, go_get, go_modify, go_put. simpl. by case_decide.
Qed.

Lemma LeaveRoom_eq client r s : mu s = unlocked →
  LeaveRoom client r s =
    if decide (client ∈ members r s) then Ret (tt,
      set_membership (<[r := members r s ∖ {[client]}]> (Rooms s))
        (<[client := rooms_of client s ∖ {[r]}]> (c_rooms s)) s)
    else Panic "nil pointer dereference".
Proof.
  intros Hm. destruct s as [C R cr B m]. simpl in Hm. subst.
  unfold LeaveRoom, go_bind, with_mu, go_get, go_modify, members. simpl.
  destruct (R !! r) as [x|] eqn:Hr; simpl; [by case_decide|].
  by case_decide; [set_solver|].
Qed.

(** The membership part of the operations. *)
Lemma consistent_join client r s : consistent s →
  consistent (set_membership (<[r := {[client]} ∪ members r s]> (Rooms s))
      (<[client := {[r]} ∪ rooms_of client s]> (c_rooms s)) s).
Proof.
  intros Hc c r'. specialize (Hc c r'). unfold rooms_of, members in *. simpl in *.
  destruct (decide (c = client)) as [->|], (decide (r' = r)) as [->|];
    rewrite ?lookup_insert_eq, ?lookup_insert_ne by done; simpl; set_solver.
Qed.

Lemma consistent_leave client r s : consistent s →
  consistent (set_membership (<[r := members r s ∖ {[client]}]> (Rooms s))
      (<[client := rooms_of client s ∖ {[r]}]> (c_rooms s)) s).
Proof.
  intros Hc c r'. specialize (Hc c r'). unfold rooms_of, members in *. simpl in *.
  destruct (decide (c = client)) as [->|], (decide (r' = r)) as [->|];
    rewrite ?lookup_insert_eq, ?lookup_insert_ne by done; simpl; set_solver.
Qed.

Lemma consistent_unregister c s C : consistent s →
  consistent (set_membership
    (map_imap (λ r m, Some (if decide (r ∈ rooms_of c s) then m ∖ {[c]} else m)) (Rooms s))
    (<[c := ∅]> (c_rooms s)) (set_Clients C s)).
Proof.
  intros Hc d r. pose proof (Hc d r) as Hdr. pose proof (Hc c r) as Hcr.
  unfold rooms_of, members in *. simpl in *. rewrite map_lookup_imap.
  destruct (Rooms s !! r) as [m|] eqn:Hr; simpl in *.
  - destruct (decide (d = c)) as [->|];
      rewrite ?lookup_insert_eq, ?lookup_insert_ne by done; simpl; case_decide; set_solver.
  - destruct (decide (d = c)) as [->|];
      rewrite ?lookup_insert_eq, ?lookup_insert_ne by done; simpl; set_solver.
Qed.

(** C24. Rooms and clients agree on who is in which room, on every branch: with
    the server's mutex free, joining a room adds both sides; leaving one removes
    both sides when the client is a member and panics when it is not (or the room
    does not exist); unregistering a registered client takes it out of every room
    and empties its own list; the mutex is free again whenever the call
    returns. *)
Theorem membership_consistent (s : WSServer) (c r : string) :
  mu s = unlocked → consistent s →
  (∃ s', JoinRoom c r s = Ret (tt, s') ∧ consistent s' ∧ mu s' = unlocked ∧ c ∈ members r s') ∧
  (if decide (c ∈ members r s)
   then ∃ s', LeaveRoom c r s = Ret (tt, s') ∧ consistent s' ∧ mu s' = unlocked ∧
          c ∉ members r s'
   else LeaveRoom c r s = Panic "nil pointer dereference") ∧
  (∃ s', Unregister c s = Ret (tt, s') ∧ consistent s' ∧ mu s' = unlocked ∧ c ∉ Clients s' ∧
     (c ∈ Clients s → ∀ r, c ∉ members r s')).
Proof.
  intros Hm Hc. split; [|split].
  - rewrite JoinRoom_eq by done. eexists. split; [reflexivity|].
    split; [by apply consistent_join|]. split; [done|].
    unfold members. simpl. rewrite lookup_insert_eq. simpl. set_solver.
  - rewrite LeaveRoom_eq by done. destruct (decide (c ∈ members r s)); [|done].
    eexists. split; [reflexivity|]. split; [by apply consistent_leave|]. split; [done|].
    unfold members. simpl. rewrite lookup_insert_eq. simpl. set_solver.
  - rewrite Unregister_eq by done. eexists. split; [reflexivity|].
    destruct (decide (c ∈ Clients s)) as [Hin|Hni]; [|done].
    pose proof (consistent_unregister c s (Clients s ∖ {[c]}) Hc) as Hc'.
    split; [done|]. split; [done|]. split; [simpl; set_solver|].
    intros _ r'. rewrite <- (Hc' c r'). unfold rooms_of. simpl. rewrite lookup_insert_eq. set_solver.
Qed.

Lemma membership_consistent_witness :
  (∃ s', JoinRoom "a" "r" NewWSServer = Ret (tt, s') ∧ consistent s' ∧ mu s' = unlocked ∧
     "a"%string ∈ members "r" s') ∧
  (if decide ("a"%string ∈ members "r" NewWSServer)
   then ∃ s', LeaveRoom "a" "r" NewWSServer = Ret (tt, s') ∧ consistent s' ∧ mu s' = unlocked ∧
          "a"%string ∉ members "r" s'
   else LeaveRoom "a" "r" NewWSServer = Panic "nil pointer dereference") ∧
  (∃ s', Unregister "a" NewWSServer = Ret (tt, s') ∧ consistent s' ∧ mu s' = unlocked ∧
     "a"%string ∉ Clients s' ∧ ("a"%string ∈ Clients NewWSServer → ∀ r, "a"%string ∉ members r s')).
Proof.
  apply (membership_consistent NewWSServer "a" "r"); [reflexivity|].
  intros c r. split; intros Hin; (vm_compute in Hin; discriminate Hin).
Defined.

(** ** The leaked read lock *)

(** The steps of the clients' goroutines and of the register loop. *)
Inductive loop_step : WSServer → WSServer → Prop :=
| ls_read s c n msg ps s' : readMsgLoop c n msg s = Ret (ps, s') → loop_step s s'
| ls_register s w v s' : RegisterLoop w v s = Ret (tt, s') → loop_step s s'.

Definition leaked (s : WSServer) : Prop := writer (mu s) = false ∧ (0 < readers (mu s))%nat.

Lemma lock_leaked {A} (k : unit → GO WSServer A) s : leaked s → go_bind (with_mu Lock) k s = Block.
Proof. intros [_ Hr]. unfold go_bind, with_mu. by rewrite Lock_reader_blocks. Qed.

Lemma leaked_LeaveRoom c r s s' : leaked s → LeaveRoom c r s = Ret (tt, s') → leaked s'.
Proof.
  intros [Hw Hr] Hs. unfold LeaveRoom, go_bind, with_mu, go_get, RLock in Hs. rewrite Hw in Hs.
  simpl in Hs. destruct (Rooms s !! r) as [m|]; [|done]. case_decide; [|done].
  unfold go_modify in Hs. simplify_eq. by split.
Qed.

Lemma leaked_SendRoomMSG c r s x s' : leaked s → SendRoomMSG c r s = Ret (x, s') → leaked s'.
Proof.
  intros [Hw Hr] Hs. unfold SendRoomMSG, go_bind, with_mu, go_get, RLock, go_ret in Hs.
  rewrite Hw in Hs. simpl in Hs. destruct (Rooms s !! r) as [m|]; simpl in Hs.
  - case_decide; simplify_eq; by split.
  - simplify_eq. split; simpl; [done|lia].
Qed.

Lemma leaked_loop_step s s' : leaked s → loop_step s s' → leaked s'.
Proof.
  intros Hl Hs. destruct Hs as [s c n msg ps s' Hs|s w v s' Hs].
  - destruct msg; simpl in Hs; unfold go_ret in Hs; simplify_eq; try done.
    + apply go_bind_inv in Hs as (x & s1 & H1 & Hs). simplify_eq. by eapply leaked_SendRoomMSG.
    + unfold JoinRoom, go_bind at 1 in Hs. by rewrite lock_leaked in Hs.
    + apply go_bind_inv in Hs as ([] & s1 & H1 & Hs). simplify_eq. by eapply leaked_LeaveRoom.
  - destruct (p_cmd v) eqn:Hv; unfold RegisterLoop in Hs; rewrite Hv in Hs.
    + unfold RegisterBroadcast in Hs. by rewrite lock_leaked in Hs.
    + unfold JoinRoom in Hs. by rewrite lock_leaked in Hs.
    + by eapply leaked_LeaveRoom.
    + unfold Unregister in Hs. by rewrite lock_leaked in Hs.
Qed.

(** A message to a room that does not exist returns with the server's read
    lock held: in every run from there, no client can ever join a room, register
    or unregister again. *)
Theorem missing_room_blocks_the_server (s s1 s2 : WSServer) (clientID roomID : string)
    (x : result (list string)) (c r : string) (w : nat) :
  writer (mu s) = false → Rooms s !! roomID = None →
  SendRoomMSG clientID roomID s = Ret (x, s1) → rtc loop_step s1 s2 →
  JoinRoom c r s2 = Block ∧ Unregister c s2 = Block ∧ RegisterBroadcast w c s2 = Block.
Proof.
  intros Hw Hnone Hsend Hrtc.
  assert (leaked s2) as Hl.
  { apply (rtc_invariant loop_step leaked s1 s2); [apply leaked_loop_step|done|].
    unfold SendRoomMSG, go_bind, with_mu, go_get, RLock, go_ret in Hsend.
    rewrite Hw in Hsend. simpl in Hsend. rewrite Hnone in Hsend. simplify_eq.
    split; simpl; [done|lia]. }
  unfold JoinRoom, Unregister, RegisterBroadcast. by rewrite !lock_leaked.
Qed.

Lemma missing_room_blocks_the_server_witness :
  let s1 := mkSrv ∅ ∅ ∅ [] (mkMutex false 1) in
  JoinRoom "b" "r" s1 = Block ∧ Unregister "b" s1 = Block ∧ RegisterBroadcast 0 "b" s1 = Block.
Proof.
  apply (missing_room_blocks_the_server NewWSServer (mkSrv ∅ ∅ ∅ [] (mkMutex false 1))
    (mkSrv ∅ ∅ ∅ [] (mkMutex false 1)) "a" "r" (Err (ErrNew "roomID does not exist, cannot send msg")) "b" "r" 0);
    [reflexivity|reflexivity|reflexivity|apply rtc_refl].
Defined.
