(* ===== verification/ChatFlow.v ===== *)
(** * Flow control of the chat server over Kafka

    throttler.go with its goroutine, its ticker and the loop that takes what it
    lets through ([acceptThrottledMsgLoop]), and the broadcast of backpressure.go
    over the queues of ChatRooms.v.  The callers of both are commented out in
    server.go; times are nanoseconds since the throttler was made. *)

From S2P Require Import Prelude GoSem ChatRooms.

(** ** The throttler *)

Definition with_output (out : list ReqMsg) (t : Throttler) : Throttler := mkThrottler (inputCH t) out (exited t) (rate t).
Definition with_input (ins : list ReqMsg) (t : Throttler) : Throttler := mkThrottler ins (outputCH t) (exited t) (rate t).

(** [leak] at a tick: the message it takes out of [inputCH], if one is there.
    It holds it until [outputCH] has room. *)
Definition leak_receive (t : Throttler) : option ReqMsg * Throttler :=
  match inputCH t with [] => (None, t) | msg :: rest => (Some msg, with_input rest t) end.
Definition leak_send (msg : ReqMsg) (t : Throttler) : outcome Throttler :=
  if (length (outputCH t) <? 64)%nat then Ret (with_output (outputCH t ++ [msg]) t) else Block.

(** With room in [outputCH] the two halves are [leak]'s one step. *)
Lemma leak_halves t : exited t = false → (length (outputCH t) < 64)%nat →
  leak LeakTick t = match leak_receive t with (None, t) => Ret t | (Some msg, t) => leak_send msg t end.
Proof.
  intros He Hl. unfold leak, leak_receive, leak_send. rewrite He. destruct (inputCH t); [done|].
  simpl. rewrite (proj2 (Nat.ltb_lt _ _) Hl). destruct t; simpl in *. by subst.
Qed.

(** What [acceptThrottledMsgLoop] waits for; it yields the message for the
    handler, and whether the loop goes on. *)
Inductive AcceptEvent := AcClientDone | AcOutput.
Definition acceptThrottledMsgLoop (ev : AcceptEvent) (done : bool) (t : Throttler) :
    outcome (option ReqMsg * bool * Throttler) :=
  match ev with
  | AcClientDone => if done then Ret (None, false, t) else Block
  | AcOutput =>
      match outputCH t with
      | msg :: rest => Ret (Some msg, true, with_output rest t)
      | [] => if exited t then Ret (None, false, t) else Block
      end
  end.

(** The client with its throttler: what [leak] holds, what [Allow] was asked and
    answered, what was handled, how often the ticker fired, the time, and the two
    ends. *)
Record World := mkWorld {
  thr : Throttler; hold : option ReqMsg; allowed : list ReqMsg; refused : list ReqMsg; handled : list ReqMsg;
  ticks : nat; now : Z; accepting : bool; client_done : bool }.

Definition start (t : Throttler) : World := mkWorld t None [] [] [] 0 0 true false.

(** The k-th tick of a ticker comes no earlier than k times its period. *)
Inductive step : World → World → Prop :=
| w_time t h al re ha k n n' acc d : n ≤ n' → step (mkWorld t h al re ha k n acc d) (mkWorld t h al re ha k n' acc d)
| w_allow t h al re ha k n acc d msg b t' :
    Allow msg t = Ret (b, t') →
    step (mkWorld t h al re ha k n acc d)
      (mkWorld t' h (if b : bool then al ++ [msg] else al) (if b then re else re ++ [msg]) ha k n acc d)
| w_tick t h' t' al re ha k n acc d :
    exited t = false → Z.of_nat (S k) * rate t ≤ n → leak_receive t = (h', t') →
    step (mkWorld t None al re ha k n acc d) (mkWorld t' h' al re ha (S k) n acc d)
| w_send t msg t' al re ha k n acc d :
    leak_send msg t = Ret t' →
    step (mkWorld t (Some msg) al re ha k n acc d) (mkWorld t' None al re ha k n acc d)
| w_exit t t' al re ha k n acc d :
    leak LeakExit t = Ret t' → step (mkWorld t None al re ha k n acc d) (mkWorld t' None al re ha k n acc d)
| w_done t h al re ha k n acc : step (mkWorld t h al re ha k n acc false) (mkWorld t h al re ha k n acc true)
| w_accept ev t h al re ha k n d m go t' :
    acceptThrottledMsgLoop ev d t = Ret (m, go, t') →
    step (mkWorld t h al re ha k n true d) (mkWorld t' h al re (ha ++ option_list m) k n go d).

Record paced (r : Z) (w : World) : Prop := {
  pa_rate : rate (thr w) = r;
  pa_order : allowed w = handled w ++ outputCH (thr w) ++ option_list (hold w) ++ inputCH (thr w);
  pa_ticks : (length (handled w) + length (outputCH (thr w)) + length (option_list (hold w)) ≤ ticks w)%nat;
  pa_time : Z.of_nat (ticks w) * r ≤ now w;
  pa_input : (length (inputCH (thr w)) ≤ 1)%nat;
  pa_output : (length (outputCH (thr w)) ≤ 64)%nat;
  pa_hold : is_Some (hold w) → exited (thr w) = false;
  pa_end : accepting w = false → client_done w = true ∨ exited (thr w) = true ∧ outputCH (thr w) = [] }.

Lemma paced_step r w w' : 0 ≤ r → paced r w → step w w' → paced r w'.
Proof.
  intros Hr [Hrate Hord Htk Htime Hin Hout Hh Hend] Hs.
  destruct Hs as [t h al re ha k n n' acc d Hn|t h al re ha k n acc d msg b t' Ha|t h' t' al re ha k n acc d He Ht Hl
    |t msg t' al re ha k n acc d Hl|t t' al re ha k n acc d Hl|t h al re ha k n acc|ev t h al re ha k n d m go t' Ha]; simpl in *.
  - split; simpl; done || lia.
  - unfold Allow in Ha. destruct (exited t) eqn:He; [done|].
    destruct (Nat.ltb_spec (length (inputCH t)) 1) as [Hlt|]; simplify_eq/=.
    2: { split; simpl; try done. intros Hacc. destruct (Hend Hacc) as [|[? ?]]; [by left|done]. }
    split; simpl; try done.
    + by rewrite <-!app_assoc.
    + rewrite length_app. simpl. lia.
  - unfold leak_receive in Hl. destruct (inputCH t) as [|m rest] eqn:Hi; simplify_eq/=.
    + split; simpl; rewrite ?Hi; done || lia.
    + split; simpl; try done; lia.
  - unfold leak_send in Hl. destruct (Nat.ltb_spec (length (outputCH t)) 64) as [Hlt|]; simplify_eq/=.
    specialize (Hh ltac:(by eexists)).
    split; simpl; try done; try (rewrite length_app; simpl; lia).
    + by rewrite <-!app_assoc.
    + intros Hacc. destruct (Hend Hacc) as [|[? ?]]; [by left|congruence].
  - unfold leak in Hl. destruct (exited t) eqn:He; simplify_eq/=. split; simpl; try done.
    intros Hacc. destruct (Hend Hacc) as [|[? ?]]; [by left|done].
  - split; simpl; try done. by left.
  - unfold acceptThrottledMsgLoop in Ha. destruct ev.
    + destruct d; simplify_eq/=. rewrite app_nil_r. split; simpl; try done. by left.
    + destruct (outputCH t) as [|m0 rest] eqn:Ho.
      * destruct (exited t) eqn:He; simplify_eq/=. rewrite app_nil_r. split; simpl; rewrite ?Ho; first [done|simpl; lia|by right|by rewrite He].
      * simplify_eq/=. split; simpl; try done; try (rewrite ?length_app; simpl; lia).
        by rewrite <-!app_assoc.
Qed.

Lemma start_paced m t : NewThrottler m = Ret t → paced (Z.quot 1000000000 m) (start t).
Proof. unfold NewThrottler. case_match; intros; simplify_eq/=. split; simpl; first [done|lia]. Qed.

Lemma reach_paced m t w : 0 < m → NewThrottler m = Ret t → rtc step (start t) w → paced (Z.quot 1000000000 m) w.
Proof.
  intros Hm Ht Hrun. eapply rtc_invariant; [|exact Hrun|by apply start_paced].
  intros a b. apply paced_step. apply Z.quot_pos; lia.
Qed.

(** *** Everything allowed is passed on *)

(** Turns of the accept loop empty [outputCH]. *)
Lemma drain out : ∀ t h al re ha k n,
  outputCH t = out →
  rtc step (mkWorld t h al re ha k n true false)
           (mkWorld (with_output [] t) h al re (ha ++ out) k n true false).
Proof.
  induction out as [|m out IH]; intros t h al re ha k n Ho.
  - rewrite app_nil_r. replace (with_output [] t) with t; [apply rtc_refl|]. destruct t; simpl in *. by subst.
  - eapply rtc_l; [apply (w_accept AcOutput); simpl; rewrite Ho; reflexivity|]. simpl.
    replace (ha ++ m :: out) with ((ha ++ [m]) ++ out) by by rewrite <-app_assoc.
    exact (IH (with_output out t) h al re (ha ++ [m]) k n eq_refl).
Qed.

(** What [leak] holds is passed on once [outputCH] is empty. *)
Lemma release t msg al re ha k n : outputCH t = [] →
  rtc step (mkWorld t (Some msg) al re ha k n true false) (mkWorld t None al re (ha ++ [msg]) k n true false).
Proof.
  intros Ho. eapply rtc_l; [apply w_send; unfold leak_send; rewrite Ho; reflexivity|].
  assert (with_output [] (with_output [msg] t) = t) as Ht by (destruct t; simpl in *; by subst).
  pose proof (drain [msg] (with_output [msg] t) None al re ha k n eq_refl) as Hd. by rewrite Ht in Hd.
Qed.


(** One message was let in at a hundred messages a second. *)
Definition hello : ReqMsg := NewReqMsg "room-message" "r" "hello".
Definition one_allowed : World :=
  mkWorld (mkThrottler [hello] [] false 10000000) None [hello] [] [] 0 0 true false.


(** A message that comes while another waits is refused. *)
Example second_message_refused (msg1 msg2 : ReqMsg) t :
  exited t = false → inputCH t = [] →
  ∃ t', Allow msg1 t = Ret (true, t') ∧ Allow msg2 t' = Ret (false, t').
Proof. intros He Hi. unfold Allow. rewrite He, Hi. eexists. split; [reflexivity|done]. Qed.

(** After the end of the throttler a message panics. *)
Lemma allow_after_exit_panics msg t t' : leak LeakExit t = Ret t' → Allow msg t' = Panic "send on closed channel".
Proof. unfold leak. destruct (exited t); intros; by simplify_eq/=. Qed.

(** ** Backpressure *)

Definition with_dropped (n : nat) (q : ClientQueue) : ClientQueue := mkQueue (msgCH q) (queueSize q) (droppedMsgCount q) n.

(** The clients in the order of the map's iteration, each with its strategy and
    whether its time runs out; the server's [droppedCH] is shared. *)
Fixpoint send_all (resp : RespMsg) (cls : list (BPStrategy * bool * ClientQueue)) (droppedCH : nat) :
    outcome (list ClientQueue * nat) :=
  match cls with
  | [] => Ret ([], droppedCH)
  | (strategy, timeout, q) :: cls =>
      q ← handleBackpressure strategy timeout resp (with_dropped droppedCH q);
      '(qs, droppedCH) ← send_all resp cls (dropped q);
      Ret (q :: qs, droppedCH)
  end.
Definition backpressureSendMsg (msg : ReqMsg) (cls : list (BPStrategy * bool * ClientQueue)) (droppedCH : nat) :
    outcome (list ClientQueue * nat) :=
  send_all (NewRespMsg msg) cls droppedCH.

(** The counter of a queue that only these two operations change. *)
Definition counted (q : ClientQueue) : Prop := queueSize q = Z.of_nat (length (msgCH q)) ∧ (length (msgCH q) ≤ 64)%nat.

Lemma counted_write q msg q' : counted q → write_msg q = Ret (msg, q') → counted q'.
Proof.
  intros [Hs Hl] Hw. unfold write_msg in Hw. destruct (msgCH q) as [|m rest] eqn:Hq; simplify_eq/=.
  split; simpl; lia.
Qed.

(** A queue holds 64 messages and its counter counts them: [BPStrategy_Drop],
    which drops from 500 on, never drops; like [BPStrategy_Block] it delivers, or
    waits when the queue is full. *)
Lemma drop_never_drops timeout msg q : counted q →
  handleBackpressure BPStrategy_Drop timeout msg q = handleBackpressure BPStrategy_Block timeout msg q ∧
  (handleBackpressure BPStrategy_Drop timeout msg q = Block ↔ length (msgCH q) = 64%nat) ∧
  ∀ q', handleBackpressure BPStrategy_Drop timeout msg q = Ret q' →
    counted q' ∧ msgCH q' = msgCH q ++ [msg] ∧ dropped q' = dropped q.
Proof.
  intros [Hs Hl]. unfold handleBackpressure, MaxBackPressureQueueSize.
  destruct (Z.leb_spec 500 (queueSize q)); [lia|].
  destruct (Nat.ltb_spec (length (msgCH q)) 64).
  - split; [done|]. split; [split; [done|lia]|]. intros q' Hq. simplify_eq/=. split; [|done].
    split; simpl; rewrite length_app; simpl; lia.
  - split; [done|]. split; [split; [lia|done]|done].
Qed.

(** With room everywhere each client gets the message once and nothing is
    dropped; the first full queue of a client that waits stops the broadcast for
    those after it. *)
Theorem broadcast_waits_for_the_slowest resp before timeout q after d :
  Forall (λ c, counted c.2 ∧ (length (msgCH c.2) < 64)%nat) before →
  counted q → length (msgCH q) = 64%nat →
  (∃ qs, send_all resp before d = Ret (qs, d) ∧ msgCH <$> qs = (λ c, msgCH c.2 ++ [resp]) <$> before) ∧
  send_all resp (before ++ (BPStrategy_Drop, timeout, q) :: after) d = Block.
Proof.
  intros Hb Hq Hfull. induction Hb as [|[[st to] q0] before [[Hs Hl] Hroom] _ (IH1 & IH2)].
  - split; [by exists []|]. cbn [app send_all].
    destruct (drop_never_drops timeout resp (with_dropped d q) Hq) as (_ & Hblock & _).
    by rewrite (proj2 Hblock Hfull).
  - assert (∃ q1, handleBackpressure st to resp (with_dropped d q0) = Ret q1 ∧ dropped q1 = d ∧
      msgCH q1 = msgCH q0 ++ [resp]) as (q1 & Hq1 & Hd1 & Hm1).
    { unfold handleBackpressure, MaxBackPressureQueueSize. simpl in *.
      destruct (Nat.ltb_spec (length (msgCH q0)) 64); [|lia]. destruct (Z.leb_spec 500 (queueSize q0)); [lia|].
      destruct st; by eexists. }
    destruct IH1 as (qs & Hqs & Hms). simpl. rewrite Hq1. simpl. rewrite Hd1, Hqs, IH2. split; [|done].
    exists (q1 :: qs). split; [done|]. rewrite !fmap_cons, Hms, Hm1. done.
Qed.
