(* ===== verification/ChatConn.v ===== *)
(** * Connections and shutdown of the chat servers

    What the goroutines of one connection do in each chat server, as step
    relations over the points where they can be interleaved, and how the
    servers shut down:
    - [PerClient] (chat/with-loop-per-client/server.go): [writeMsgLoop],
      [readMsgLoop] and [initPing] around the client's queue;
    - [ClientLoop] (chat/client-loop/chat-client-loop.go): [wsAcceptLoop] with
      its reader, and [RegisterLoop] at the end of the server;
    - [Workers] (chat/with-workers/chat-server-loop.go): the two shutdown
      loops over the server of ChatWorkers.v.
    What the network delivers and when timers fire is left open. *)

From S2P Require Import Prelude GoSem ChatWorkers ChatClientLoop.

(** ** A connection of the server with a loop per client *)

Module PerClient.
Section Connection.
Context {Msg : Type} (ping : Msg).

(** [writeMsgLoop]: before the test of the counter, in the [select], writing,
    and returned (its deferred calls close the connection). *)
Inductive writer := WTest | WSelect | WWrite (m : Msg) | WReturned.
(** [readMsgLoop]: reading, handing a message to the producer, before the two
    deferred operations, and returned. *)
Inductive reader := RRead | RProduce (m : Msg) | RClose | RLeave | RReturned.
(** [initPing]: in its [select], asleep, sending, and returned. *)
Inductive pinger := PSelect | PSleep | PSend | PReturned.

Record conn := mkConn {
  w : writer; r : reader; p : pinger;
  msgCH : list Msg; done : bool; pongCounter : Z; queueSize : Z; closed : bool;
  (** what happened so far: everything put into the queue, everything written,
      what the client sent, the ticks and pongs, the departures reported *)
  put : list Msg; written : list Msg; produced : list Msg;
  ticks : Z; pongs : Z; leaves : Z }.

Definition NewClient : conn :=
  mkConn WTest RRead PSelect [] false 0 0 false [] [] [] 0 0 0.

(** The capacity of [msgCH]. *)
Definition msg_cap : nat := 64.

Definition set_w (x : writer) (cl : bool) (c : conn) : conn :=
  mkConn x (r c) (p c) (msgCH c) (done c) (pongCounter c) (queueSize c) cl
    (put c) (written c) (produced c) (ticks c) (pongs c) (leaves c).
Definition set_r (x : reader) (c : conn) : conn :=
  mkConn (w c) x (p c) (msgCH c) (done c) (pongCounter c) (queueSize c) (closed c)
    (put c) (written c) (produced c) (ticks c) (pongs c) (leaves c).
Definition set_p (x : pinger) (c : conn) : conn :=
  mkConn (w c) (r c) x (msgCH c) (done c) (pongCounter c) (queueSize c) (closed c)
    (put c) (written c) (produced c) (ticks c) (pongs c) (leaves c).
Definition enqueue (m : Msg) (c : conn) : conn :=
  mkConn (w c) (r c) (p c) (msgCH c ++ [m]) (done c) (pongCounter c) (queueSize c) (closed c)
    (put c ++ [m]) (written c) (produced c) (ticks c) (pongs c) (leaves c).

(** The counter is an [atomic.Int64]. *)
Definition tick (c : conn) : conn :=
  mkConn WTest (r c) (p c) (msgCH c) (done c) (int64 (pongCounter c + 1)) (queueSize c) (closed c)
    (put c) (written c) (produced c) (ticks c + 1) (pongs c) (leaves c).
Definition pong (c : conn) : conn :=
  mkConn (w c) (r c) (p c) (msgCH c) (done c) (int64 (pongCounter c - 1)) (queueSize c) (closed c)
    (put c) (written c) (produced c) (ticks c) (pongs c + 1) (leaves c).
Definition take_msg (m : Msg) (rest : list Msg) (c : conn) : conn :=
  mkConn (WWrite m) (r c) (p c) rest (done c) (pongCounter c) (int64 (queueSize c - 1)) (closed c)
    (put c) (written c) (produced c) (ticks c) (pongs c) (leaves c).
Definition write (m : Msg) (c : conn) : conn :=
  mkConn WTest (r c) (p c) (msgCH c) (done c) (pongCounter c) (queueSize c) (closed c)
    (put c) (written c ++ [m]) (produced c) (ticks c) (pongs c) (leaves c).
Definition produce (m : Msg) (c : conn) : conn :=
  mkConn (w c) RRead (p c) (msgCH c) (done c) (pongCounter c) (queueSize c) (closed c)
    (put c) (written c) (produced c ++ [m]) (ticks c) (pongs c) (leaves c).
Definition close_done (c : conn) : conn :=
  mkConn (w c) RLeave (p c) (msgCH c) true (pongCounter c) (queueSize c) (closed c)
    (put c) (written c) (produced c) (ticks c) (pongs c) (leaves c).
Definition leave (c : conn) : conn :=
  mkConn (w c) RReturned (p c) (msgCH c) (done c) (pongCounter c) (queueSize c) (closed c)
    (put c) (written c) (produced c) (ticks c) (pongs c) (leaves c + 1).

(** [writeMsgLoop] *)
Inductive writer_step : conn → conn → Prop :=
| write_give_up c : w c = WTest → 2 < pongCounter c → writer_step c (set_w WReturned true c)
| write_test c : w c = WTest → pongCounter c ≤ 2 → writer_step c (set_w WSelect (closed c) c)
| write_tick c : w c = WSelect → writer_step c (tick c)
| write_done c : w c = WSelect → done c = true → writer_step c (set_w WReturned true c)
| write_take c m rest : w c = WSelect → msgCH c = m :: rest → writer_step c (take_msg m rest c)
| write_ok c m : w c = WWrite m → closed c = false → writer_step c (write m c)
| write_err c m : w c = WWrite m → writer_step c (set_w WReturned true c).

(** [readMsgLoop] *)
Inductive reader_step : conn → conn → Prop :=
| read_err c : r c = RRead → reader_step c (set_r RClose c)
| read_pong c : r c = RRead → reader_step c (pong c)
| read_bad c : r c = RRead → reader_step c c
| read_msg c m : r c = RRead → reader_step c (set_r (RProduce m) c)
| read_produce c m : r c = RProduce m → reader_step c (produce m c)
| read_close c : r c = RClose → done c = false → reader_step c (close_done c)
| read_leave c : r c = RLeave → reader_step c (leave c).

(** [initPing] *)
Inductive pinger_step : conn → conn → Prop :=
| ping_done c : p c = PSelect → done c = true → pinger_step c (set_p PReturned c)
| ping_sleep c : p c = PSelect → done c = false → pinger_step c (set_p PSleep c)
| ping_wake c : p c = PSleep → pinger_step c (set_p PSend c)
| ping_send c : p c = PSend → (length (msgCH c) < msg_cap)%nat →
    pinger_step c (set_p PSelect (enqueue ping c)).

(** A message of the server's [sendMsg]. *)
Inductive server_step : conn → conn → Prop :=
| server_send c m : (length (msgCH c) < msg_cap)%nat → server_step c (enqueue m c).

Definition step (c c' : conn) : Prop :=
  writer_step c c' ∨ reader_step c c' ∨ pinger_step c c' ∨ server_step c c'.

(** Closing a channel twice panics. *)
Definition close_panics (c : conn) : Prop := r c = RClose ∧ done c = true.

(** *** Invariant *)

(** What the writer holds. *)
Definition in_hand (c : conn) : list Msg := match w c with WWrite m => [m] | _ => [] end.

(** Until the writer returns, what was put is what was written, what it holds
    and what waits; then the rest is lost. *)
Definition queue_ok (c : conn) : Prop :=
  (w c ≠ WReturned → put c = written c ++ in_hand c ++ msgCH c) ∧
  written c `prefix_of` put c ∧ (length (msgCH c) ≤ msg_cap)%nat.

(** The counter is the ticks not answered, at most three (two when the writer
    is past its test). *)
Definition ping_ok (c : conn) : Prop :=
  0 ≤ ticks c ∧ 0 ≤ pongs c ∧
  (pongs c < 2 ^ 62 → pongCounter c = ticks c - pongs c ∧ ticks c ≤ pongs c + 3 ∧
     (w c = WSelect → ticks c ≤ pongs c + 2)).

(** [done] is closed once, and then the departure is reported once. *)
Definition leave_ok (c : conn) : Prop :=
  done c = match r c with RLeave | RReturned => true | _ => false end ∧
  leaves c = match r c with RReturned => 1 | _ => 0 end.

Ltac conn_step Hs :=
  destruct Hs as [Hs|[Hs|[Hs|Hs]]]; destruct Hs; simpl in *;
  repeat match goal with H : w _ = _ |- _ => rewrite H in * | H : r _ = _ |- _ => rewrite H in * end.

Lemma enqueue_ok m c : queue_ok c → (length (msgCH c) < msg_cap)%nat → queue_ok (enqueue m c).
Proof.
  unfold queue_ok, in_hand. intros (Hf & Hp & Hcap) Hlt. simpl. split_and!.
  - intros Hw. rewrite (Hf Hw), <-!app_assoc. done.
  - by apply prefix_app_r.
  - rewrite length_app. simpl. lia.
Qed.

Lemma queue_step c c' : queue_ok c → step c c' → queue_ok c'.
Proof.
  intros Hq Hs. pose proof Hq as (Hf & Hp & Hcap). unfold in_hand in Hf.
  conn_step Hs; try done; try specialize (Hf ltac:(done)); try by apply enqueue_ok.
  all: unfold queue_ok, in_hand; simpl in *; split_and!; try done; try (by intros _).
  - intros _. by rewrite Hf, H0.
  - rewrite H0 in Hcap. simpl in Hcap. lia.
  - intros _. by rewrite Hf, <-app_assoc.
  - rewrite Hf. exists (msgCH c). by rewrite <-app_assoc.
Qed.

Lemma ping_step c c' : ping_ok c → step c c' → ping_ok c'.
Proof.
  unfold ping_ok. intros (Ht & Hp & Hc) Hs. conn_step Hs; try done; split_and!; try lia;
    intros Hlt; destruct (Hc ltac:(lia)) as (Heq & Hle & Hle2); try rewrite Heq in *;
    rewrite ?int64_id by (unfold min_int64, max_int64; try specialize (Hle2 eq_refl); lia);
    split_and!; try done; try specialize (Hle2 eq_refl); lia.
Qed.

Lemma leave_step c c' : leave_ok c → step c c' → leave_ok c'.
Proof. unfold leave_ok. intros [Hd Hl] Hs. conn_step Hs; try done. split; [done|lia].
Qed.

(** C20. In every interleaving of a connection's three goroutines with the
    server: until the writer returns, everything queued for the client is
    written in order, held or waiting; the client never sees anything else;
    [done] is closed at most once and the departure reported at most once; and
    after three unanswered ticks the writer closes the connection. *)
Theorem connection_correct c :
  rtc step NewClient c →
  (w c ≠ WReturned → put c = written c ++ in_hand c ++ msgCH c) ∧ written c `prefix_of` put c ∧
  ¬ close_panics c ∧ leaves c ≤ 1 ∧
  (pongs c < 2 ^ 62 → ticks c ≤ pongs c + 3 ∧
     (ticks c = pongs c + 3 → ∀ c', writer_step c c' → w c = WTest → closed c' = true)).
Proof.
  intros Hrun.
  assert (queue_ok c) as (Hf & Hp & _).
  { eapply rtc_invariant; [apply queue_step|exact Hrun|]. split_and!; simpl; [done..|lia]. }
  assert (ping_ok c) as (_ & _ & Hc).
  { eapply rtc_invariant; [apply ping_step|exact Hrun|]. split_and!; simpl; lia. }
  assert (leave_ok c) as [Hd Hl].
  { eapply rtc_invariant; [apply leave_step|exact Hrun|]. by split. }
  split_and!; [done..| | |].
  - intros [Hr Hdone]. by rewrite Hd, Hr in Hdone.
  - rewrite Hl. destruct (r c); lia.
  - intros Hlt. destruct (Hc Hlt) as (Heq & Hle & _). split; [done|].
    intros H3 c' Hs Hw. destruct Hs; simpl; try congruence; lia.
Qed.

(** *** The pinger outlives its connection *)

Definition stuck (c : conn) : Prop :=
  w c = WReturned ∧ p c = PSend ∧ (msg_cap ≤ length (msgCH c))%nat.

Lemma stuck_step c c' : stuck c → step c c' → stuck c'.
Proof. intros (Hw & Hp & Hl) Hs. unfold stuck. conn_step Hs; try congruence; try lia; done. Qed.

(** The end of a connection whose queue is full. *)
Lemma full_queue_end c :
  w c = WTest → r c = RRead → p c = PSelect → done c = false → pongCounter c ≤ 2 →
  ∃ c', rtc step c c' ∧ w c' = WReturned ∧ r c' = RReturned ∧ p c' = PSend ∧ msgCH c' = msgCH c.
Proof.
  destruct c as [wc rc pc q d pc' qs cl pt wr pr ti po le]. simpl. intros -> -> -> -> Hp.
  eexists. split.
  - eapply rtc_l; [right; right; left; by eapply ping_sleep|].
    eapply rtc_l; [right; right; left; by eapply ping_wake|].
    eapply rtc_l; [left; by eapply write_test|].
    eapply rtc_l; [right; left; by eapply read_err|].
    eapply rtc_l; [right; left; by eapply read_close|].
    eapply rtc_l; [right; left; by eapply read_leave|].
    eapply rtc_l; [left; by eapply write_done|]. apply rtc_refl.
  - done.
Qed.

Lemma fill n c :
  (length (msgCH c) + n ≤ msg_cap)%nat →
  ∃ c', rtc step c c' ∧ w c' = w c ∧ r c' = r c ∧ p c' = p c ∧ done c' = done c ∧
    pongCounter c' = pongCounter c ∧ length (msgCH c') = (length (msgCH c) + n)%nat.
Proof.
  revert c. induction n as [|n IH]; intros c Hn.
  - exists c. split; [apply rtc_refl|]. split_and!; [done..|lia].
  - destruct (IH (enqueue ping c)) as (c' & Hrun & Hrest); simpl in *; rewrite length_app in *; simpl in *; [lia|].
    exists c'. split; [|destruct Hrest as (? & ? & ? & ? & ? & ?); split_and!; [done..|lia]].
    eapply rtc_l; [|exact Hrun]. right. right. right. apply server_send. unfold msg_cap in *. lia.
Qed.

(** A connection that ends while its queue is full leaves the ping
    goroutine sending forever, and whatever the server sends to it afterwards
    blocks too. *)
Theorem ping_goroutine_leaks :
  ∃ c, rtc step NewClient c ∧ w c = WReturned ∧ r c = RReturned ∧
    ∀ c', rtc step c c' → p c' = PSend ∧ ∀ m c'', ¬ (c'' = enqueue m c' ∧ server_step c' c'').
Proof.
  destruct (fill msg_cap NewClient) as (c1 & Hrun1 & Hw & Hr & Hp & Hd & Hpc & Hlen); [done|].
  destruct (full_queue_end c1) as (c & Hrun & Hw' & Hr' & Hp' & Hq);
    [rewrite ?Hw, ?Hr, ?Hp, ?Hd, ?Hpc; done..|].
  exists c. split; [by etransitivity|]. split; [done|]. split; [done|]. intros c' Hrun'.
  assert (stuck c') as (_ & Hps & Hfull).
  { eapply rtc_invariant; [apply stuck_step|exact Hrun'|]. unfold stuck. rewrite Hq, Hlen. simpl. auto. }
  split; [done|]. intros m c'' [-> Hs]. inversion Hs as [? ? Hlt]. lia.
Qed.
End Connection.
End PerClient.

Section PerClientWitness.
Import PerClient.

(** A message arrives, is taken and written; the ticker fires once. *)
Definition one_message : conn :=
  mkConn WTest RRead PSelect [] false 1 (-1) false [7%nat] [7%nat] [] 1 0 0.

Lemma connection_correct_witness :
  rtc (step 0%nat) NewClient one_message ∧ put one_message = [7%nat] ∧ leaves one_message ≤ 1 ∧
  ticks one_message ≤ pongs one_message + 3.
Proof.
  assert (rtc (step 0%nat) NewClient one_message) as Hrun.
  { eapply rtc_l; [right; right; right; apply (server_send _ 7%nat); simpl; unfold msg_cap; lia|].
    eapply rtc_l; [left; by apply write_test|].
    eapply rtc_l; [left; by eapply write_take|].
    eapply rtc_l; [left; by eapply write_ok|].
    eapply rtc_l; [left; by apply write_test|].
    eapply rtc_l; [left; by apply write_tick|]. apply rtc_refl. }
  destruct (connection_correct 0%nat one_message Hrun) as (Hput & _ & _ & Hl & Hp).
  split; [exact Hrun|]. split; [apply Hput; discriminate|]. split; [exact Hl|].
  apply Hp. simpl. lia.
Defined.
End PerClientWitness.

(** ** The connection of the server with a broadcast hub *)

Module ClientLoop.
Section Connection.
Context {Msg : Type}.

(** The reading goroutine of [wsAcceptLoop]: reading, offering a message to
    [readCH] (which it does not wait for), sending its error, and returned,
    with both channels closed. *)
Inductive reader := RRead | ROffer (m : Msg) | RErr | RReturned.
(** The loop of [wsAcceptLoop] itself: in its [select], sending what it took
    (nothing, once [readCH] is closed and empty), and returned, with [msgChan]
    closed. *)
Inductive forwarder := FSelect | FSend (b : option Msg) | FReturned.

Record conn := mkConn {
  r : reader; f : forwarder;
  readCH : list Msg; readErrCH : nat; msgChan : list (option Msg); closed : bool;
  (** what was read so far, what [readMsgLoop] took, and what was dropped *)
  was_read : list Msg; handled : list (option Msg); dropped : list Msg }.

Definition start : conn := mkConn RRead FSelect [] 0 [] false [] [] [].

(** [readCH] and [msgChan] hold 64 messages, [readErrCH] 16 errors. *)
Inductive step : conn → conn → Prop :=
| reader_msg m fw rd er ch cl l h d :
    step (mkConn RRead fw rd er ch cl l h d) (mkConn (ROffer m) fw rd er ch cl (l ++ [m]) h d)
| reader_err fw rd er ch cl l h d :
    step (mkConn RRead fw rd er ch cl l h d) (mkConn RErr fw rd er ch cl l h d)
| reader_offer m fw rd er ch cl l h d : (length rd < 64)%nat →
    step (mkConn (ROffer m) fw rd er ch cl l h d) (mkConn RRead fw (rd ++ [m]) er ch cl l h d)
| reader_full m fw rd er ch cl l h d : (64 ≤ length rd)%nat →
    step (mkConn (ROffer m) fw rd er ch cl l h d) (mkConn RRead fw rd er ch true l h (d ++ [m]))
| reader_return fw rd er ch cl l h d : (er < 16)%nat →
    step (mkConn RErr fw rd er ch cl l h d) (mkConn RReturned fw rd (S er) ch cl l h d)
| forward_err rr rd er ch cl l h d :
    step (mkConn rr FSelect rd (S er) ch cl l h d) (mkConn rr FReturned rd er ch cl l h d)
| forward_err_closed rd ch cl l h d :
    step (mkConn RReturned FSelect rd 0 ch cl l h d) (mkConn RReturned FReturned rd 0 ch cl l h d)
| forward_take m rr rd er ch cl l h d :
    step (mkConn rr FSelect (m :: rd) er ch cl l h d) (mkConn rr (FSend (Some m)) rd er ch cl l h d)
| forward_closed er ch cl l h d :
    step (mkConn RReturned FSelect [] er ch cl l h d) (mkConn RReturned (FSend None) [] er ch cl l h d)
| forward_send b rr rd er ch cl l h d : (length ch < 64)%nat →
    step (mkConn rr (FSend b) rd er ch cl l h d) (mkConn rr FSelect rd er (ch ++ [b]) cl l h d)
| handle b rr fw rd er ch cl l h d :
    step (mkConn rr fw rd er (b :: ch) cl l h d) (mkConn rr fw rd er ch cl l (h ++ [b]) d).

(** The messages on their way to [readMsgLoop]. *)
Definition on_the_way (c : conn) : list Msg :=
  omap id (msgChan c) ++ (match f c with FSend (Some m) => [m] | _ => [] end) ++ readCH c ++
  (match r c with ROffer m => [m] | _ => [] end).

(** Nothing is reordered or invented; nothing is lost before the loop returns
    or a full [readCH] made it drop a message and close the connection. *)
Definition in_order (c : conn) : Prop :=
  omap id (handled c) ++ on_the_way c `sublist_of` was_read c ∧
  (dropped c = [] → omap id (handled c) ++ on_the_way c = was_read c) ∧
  (dropped c ≠ [] → closed c = true).

Lemma in_order_step c c' : in_order c → step c c' → in_order c'.
Proof.
  unfold in_order, on_the_way. intros (Hsub & Heq & Hcl) Hs. destruct Hs; simpl in *;
    rewrite ?omap_app, ?app_nil_r, <-?app_assoc in *; simpl in *; try (by split_and!).
  - split_and!; [|intros Hd; by rewrite <-(Heq Hd), <-!app_assoc|done].
    rewrite !app_assoc in *. by apply sublist_app.
  - split_and!; [|by destruct d|done]. etrans; [|exact Hsub].
    rewrite !app_assoc. by apply sublist_inserts_r.
  - by destruct b; split_and!.
Qed.

(** In every interleaving of the reader, the accept loop and the handler
    of a connection, the messages handled are messages read, in order and at
    most once; while none was dropped they are the first ones read, and the
    connection of a client whose message was dropped is closed. *)
Theorem accept_loop_in_order c :
  rtc step start c →
  omap id (handled c) `sublist_of` was_read c ∧
  (dropped c = [] → omap id (handled c) `prefix_of` was_read c) ∧
  (dropped c ≠ [] → closed c = true).
Proof.
  intros Hrun. assert (in_order c) as (Hsub & Heq & Hcl).
  { eapply rtc_invariant; [apply in_order_step|exact Hrun|]. by split_and!. }
  split_and!; [|intros Hd; rewrite <-(Heq Hd); by apply prefix_app_r|done].
  etrans; [|exact Hsub]. by apply sublist_inserts_r.
Qed.

(** The [select] may see the error before a message that was read earlier: the
    loop returns and the message is never handled. *)
Lemma read_message_lost (m : Msg) :
  ∃ c, rtc step start c ∧ was_read c = [m] ∧ dropped c = [] ∧
    ∀ c', rtc step c c' → handled c' = [].
Proof.
  exists (mkConn RReturned FReturned [m] 0 [] false [m] [] []). split_and!; [|done..|].
  - eapply rtc_l; [apply (reader_msg m)|]. eapply rtc_l; [apply reader_offer; simpl; lia|].
    eapply rtc_l; [apply reader_err|]. eapply rtc_l; [apply reader_return; lia|].
    eapply rtc_l; [apply forward_err|]. apply rtc_refl.
  - intros c' Hrun.
    assert (r c' = RReturned ∧ f c' = FReturned ∧ msgChan c' = [] ∧ handled c' = []) as Hend.
    { eapply (rtc_invariant step (λ c, r c = RReturned ∧ f c = FReturned ∧ msgChan c = [] ∧ handled c = []));
        [|exact Hrun|done]. intros a b (? & ? & ? & ?) Hs. by destruct Hs; simplify_eq/=. }
    tauto.
Qed.
End Connection.
End ClientLoop.

Section ClientLoopWitness.
Import ClientLoop.

Definition one_handled : conn := mkConn RErr FSelect [] 0 [] false [5%nat] [Some 5%nat] [].

Lemma accept_loop_in_order_witness :
  rtc step start one_handled ∧ omap id (handled one_handled) `prefix_of` was_read one_handled.
Proof.
  assert (rtc step start one_handled) as Hrun.
  { eapply rtc_l; [apply (reader_msg 5%nat)|]. eapply rtc_l; [apply reader_offer; simpl; lia|].
    eapply rtc_l; [apply forward_take|]. eapply rtc_l; [apply forward_send; simpl; lia|].
    eapply rtc_l; [apply handle|]. eapply rtc_l; [apply reader_err|]. apply rtc_refl. }
  split; [exact Hrun|]. by apply (accept_loop_in_order one_handled Hrun).
Defined.
End ClientLoopWitness.

(** *** Requests and failed writes *)

Module ClientServer.

(** What the close codes of a failed write make the server do. *)
Definition initUnregisterOnError (close_code : option Z) (c : string) : list RegisterPayload :=
  match close_code with
  | Some code => if (code =? 1000) || (code =? 1001) || (code =? 1006)
                 then [mkPayload c RegisterCmd_Unregister ""] else []
  | None => []
  end.

(** [Ping] answers a client; [write_err] is the close code of a failed write,
    if it failed. *)
Definition Ping (write_err : option (option Z)) (c : string) : list RegisterPayload :=
  match write_err with Some code => initUnregisterOnError code c | None => [] end.

(** A worker writes a broadcast to each of its clients and goes on after an
    error. *)
Definition handleBroadcast (fails : string → bool) (clients : list string) : list string :=
  filter (λ c, fails c = false) clients.

(** The handler of a new connection: what it answers or makes the server do. *)
Inductive ws_result := BadRequest (err : error) | ServerExit | Serving (sent : list RegisterPayload).
Definition handleWS (uri : string) (upgrade_failed : bool) (wsID : string) : outcome ws_result :=
  parsed ← parseURLToCmd uri;
  match parsed with
  | Err err => Ret (BadRequest err)
  | Ok cmd => if upgrade_failed : bool then Ret ServerExit else Ret (Serving (processCMD wsID cmd))
  end.

(** A client that asks for a plain connection takes part in broadcasts, one that
    names a room joins it, and nothing else is registered. *)
Lemma handleWS_registers uri wsID sent :
  handleWS uri false wsID = Ret (Serving sent) →
  sent = [] ∨ ∃ cmd room, sent = [mkPayload wsID cmd room] ∧
    (cmd = RegisterCmd_RegisterBroadcast ∨ cmd = RegisterCmd_RegisterRoom ∨
     cmd = RegisterCmd_UnregisterRoom).
Proof.
  unfold handleWS. destruct (parseURLToCmd uri) as [[cmd|e]| |]; simpl; try done.
  unfold processCMD. intros H. repeat case_decide; simplify_eq/=; naive_solver.
Qed.

(** A send on [registerCH], which [RegisterLoop] closes when the server stops. *)
Definition send_register (register_closed : bool) (v : RegisterPayload) : outcome unit :=
  if register_closed then Panic "send on closed channel" else Ret tt.

(** A client whose connection ends after that makes the process panic. *)
Lemma late_unregister_panics c pingCount s :
  ∃ v, ChatClientLoop.readMsgLoop c pingCount MsgClosed s = Ret (([v], None), s) ∧
    send_register true v = Panic "send on closed channel".
Proof. by eexists. Qed.

End ClientServer.

(** ** Shutdown of the server with workers *)

Module Workers.
Import ChatWorkers.

(** What the loops receive: a departure, the timer of 60 seconds, or the
    channel that says the wait group is done. *)
Inductive event := Leave (cID : string) | Timeout | WaitDone.

(** [ShutdownLoop]: the wait group is never added to, so that [WaitDone] comes
    at once. *)
Fixpoint ShutdownLoop (evs : list event) (s : WSServer) : outcome WSServer :=
  match evs with
  | [] => Block
  | Leave cID :: evs => s ← LeaveServer cID s; ShutdownLoop evs s
  | Timeout :: evs => ShutdownLoop evs s
  | WaitDone :: _ => Ret s
  end.

Fixpoint ShutdownLoopAtomic (evs : list event) (s : WSServer) : outcome WSServer :=
  match evs with
  | [] => Block
  | Timeout :: _ => Ret s
  | WaitDone :: evs => ShutdownLoopAtomic evs s
  | Leave cID :: evs =>
      s ← LeaveServer cID s;
      if activeClients s =? 0 then Ret s else ShutdownLoopAtomic evs s
  end.

(** A departure takes one client away and adds no worker. *)
Definition kept (s s' : WSServer) : Prop :=
  clients s' = clients s ∧ length (workers s') = length (workers s).

Lemma move_client_kept cID s s' : move_client cID s = Ret s' → kept s s'.
Proof.
  unfold move_client, addClientToWorker, kept. destruct (getWorker cID s) as [i| |]; simpl; try done.
  destruct (objs s !! cID ≫= worker) as [old|]; [|done]. case_decide; [by intros [= <-]|].
  destruct (getWorker cID _) as [j| |]; simpl; try done. intros [= <-]. simpl. by rewrite !length_alter.
Qed.

Lemma move_clients_kept l : ∀ s s', move_clients l s = Ret s' → kept s s'.
Proof.
  induction l as [|c l IH]; intros s s'; simpl; [by intros [= <-]|].
  destruct (move_client c s) as [s1| |] eqn:E; simpl; try done. intros H.
  destruct (IH _ _ H) as [? ?], (move_client_kept _ _ _ E) as [? ?]. split; congruence.
Qed.

Lemma LeaveServer_kept cID s s' :
  LeaveServer cID s = Ret s' →
  clients s' = clients s ∖ {[cID]} ∧ (length (workers s') ≤ length (workers s))%nat.
Proof.
  unfold LeaveServer, removeClientFromWorker, checkScaleDown, scaleDown.
  set (s1 := if decide (cID ∈ clients s) then _ else s).
  assert (clients s1 = clients s ∖ {[cID]} ∧ workers s1 = workers s) as [Hc1 Hw1].
  { unfold s1. case_decide; simpl; [done|]. split; [set_solver|done]. }
  destruct (getWorker cID _) as [i| |]; simpl; try done. rewrite <-Hc1, <-Hw1. intros H.
  repeat case_match; simplify_eq/=; rewrite ?length_alter; [|done].
  apply move_clients_kept in H as [Hc Hl]. simpl in *. rewrite length_take, length_alter in Hl.
  split; [done|lia].
Qed.

(** Shutting down a server with clients: once every client has left, in
    any order and with repeated departures, the shutdown loop returns, with
    nobody left and the server still well formed. *)
Theorem shutdown_drains l s :
  wf s → Z.of_nat (length (workers s)) < 2 ^ 32 - 1 → clients s ≠ ∅ → clients s ⊆ list_to_set l →
  ∃ s', ShutdownLoopAtomic (Leave <$> l) s = Ret s' ∧ clients s' = ∅ ∧ wf s'.
Proof.
  revert s. induction l as [|c l IH]; intros s Hwf Hfew Hne Hsub; simpl in *; [set_solver|].
  destruct (LeaveServer_ok s Hwf Hfew c) as (s1 & Hleave & Hwf1 & _).
  destruct (LeaveServer_kept _ _ _ Hleave) as [Hc1 Hl1]. rewrite Hleave. simpl.
  rewrite (wf_active _ Hwf1). destruct (Z.eqb_spec (Z.of_nat (size (clients s1))) 0) as [H0|H0].
  - exists s1. split; [done|]. split; [|done]. apply leibniz_equiv, size_empty_iff. lia.
  - apply IH; [done|lia| |set_solver]. intros E. rewrite E, size_empty in H0. done.
Qed.

(** With nobody connected no departure comes and only the timer ends the loop. *)
Lemma shutdown_of_idle_server_waits s : ShutdownLoopAtomic [] s = Block.
Proof. done. Qed.
End Workers.

Definition one_joined : ChatWorkers.WSServer :=
  match ChatWorkers.JoinServer "a" one_client with Ret s => s | _ => one_client end.

Lemma one_joined_wf : ChatWorkers.wf one_joined.
Proof.
  destruct (JoinServer_ok one_client one_client_wf ltac:(vm_compute; reflexivity) "a"
    ltac:(vm_compute; by eexists)) as (s' & E & Hwf & _).
  unfold one_joined. by rewrite E.
Qed.

Lemma shutdown_drains_witness :
  ChatWorkers.clients one_joined = {["a"%string]} ∧
  ∃ s', Workers.ShutdownLoopAtomic [Workers.Leave "a"] one_joined = Ret s' ∧
    ChatWorkers.clients s' = ∅ ∧ ChatWorkers.wf s'.
Proof.
  split; [vm_compute; reflexivity|].
  apply (Workers.shutdown_drains ["a"%string] one_joined one_joined_wf).
  - vm_compute. reflexivity.
  - apply (bool_decide_unpack _). vm_compute. exact I.
  - apply (bool_decide_unpack _). vm_compute. exact I.
Defined.
