(* ===== verification/ChatHandlers.v ===== *)
(** * Handlers of the chat servers

    What surrounds the accept loops: the HTTP handlers that make clients of
    connections, the reading goroutine of each connection as the source of the
    loop's events, and the readiness of the Kafka consumer.
    - [WithWorkers] (chat/with-workers): all connections at once over the server
      of ChatWorkers.v;
    - [LoopPerClient] (chat/with-loop-per-client). *)

From S2P Require Import Prelude GoSem ChatRooms ChatWorkers.

Module WithWorkers.

(** ** Data *)

(** A message has a client once [readMsgLoop] has set it. *)
Record Message := mkMessage { RoomID : string; Data : string; MsgType : string; m_Client : option string }.
Definition NewMessage (c : string) : Message := mkMessage "" "" "" (Some c).

Record Response := mkResponse {
  r_RoomID : string; r_Data : string; r_MsgType : string; SenderID : string }.
Definition NewResponse (msg : Message) : outcome Response :=
  match m_Client msg with
  | Some id => Ret (mkResponse (RoomID msg) (Data msg) (MsgType msg) id)
  | None => Panic "nil pointer dereference"
  end.

Definition GetClientCount (s : WSServer) : Z := activeClients s.

(** ** Connections *)

(** [wsHandler]: a failed upgrade is logged, and the handler goes on with a nil
    connection. *)
Inductive socket := NilConn | Conn.
Definition wsHandler (upgrade_failed : bool) (cID : string) : socket * list ServerEvent :=
  (if upgrade_failed then NilConn else Conn, [Connect cID; EvJoinServer cID]).

(** What one turn of [readMsgLoop] sends to the accept loop. *)
Definition event_of (cID : string) (input : ReadInput) (a : ReadAction) : option ServerEvent :=
  match a, input with
  | ToLeaveServer, _ => Some (EvLeaveServer cID)
  | ToJoinRoom, ReadMessage _ r => Some (EvJoinRoom cID r)
  | ToLeaveRoom, ReadMessage _ r => Some (EvLeaveRoom cID r)
  | _, _ => None
  end.

(** A turn: the event and whether the loop has returned.  Reading from a nil
    connection dereferences it, in a goroutine, and the deferred call that closes
    it does so again. *)
Definition read_turn (conn : socket) (cID : string) (input : ReadInput) :
    outcome (option ServerEvent * bool) :=
  match conn with
  | NilConn => Panic "nil pointer dereference"
  | Conn => a ← readMsgLoop input;
            Ret (event_of cID input a, match a with ToLeaveServer => true | _ => false end)
  end.

(** Where a connection is: its client was made, it reads, it has left. *)
Inductive phase := Joining | Reading | Gone.

Record System := mkSystem { server : WSServer; conns : gmap string phase }.

Definition start (workerCount : nat) : System := mkSystem (NewWSServer workerCount) ∅.

(** Connections come, each under a fresh identifier; clients join; turns of
    their loops are handled by the accept loop.  Writing to clients does not
    fail here, and nobody sends the JSON value null. *)
Inductive step : System → System → Prop :=
| st_connect s cs c s' :
    cs !! c = None → objs s !! c = None → AcceptLoop (Connect c) s = Ret s' →
    step (mkSystem s cs) (mkSystem s' (<[c := Joining]> cs))
| st_join s cs c s' :
    cs !! c = Some Joining → AcceptLoop (EvJoinServer c) s = Ret s' →
    step (mkSystem s cs) (mkSystem s' (<[c := Reading]> cs))
| st_silent s cs c input stop :
    cs !! c = Some Reading → read_turn Conn c input = Ret (None, stop) →
    step (mkSystem s cs) (mkSystem s cs)
| st_read s cs c input ev stop s' :
    cs !! c = Some Reading → read_turn Conn c input = Ret (Some ev, stop) →
    AcceptLoop ev s = Ret s' →
    step (mkSystem s cs) (mkSystem s' (if stop : bool then <[c := Gone]> cs else cs)).

(** ** What the events change *)

(** The rooms of a client object, nil once it has left. *)
Definition view (s : WSServer) (c : string) : option (gset string) := objs s !! c ≫= c_rooms.

Definition kept (s s' : WSServer) : Prop :=
  clients s' = clients s ∧ same_rooms (objs s) (objs s').

#[local] Instance kept_preorder : PreOrder kept.
Proof.
  split; [done|]. intros a b c [Hab ?] [Hbc ?]. split; [by rewrite Hbc|]. by eapply same_rooms_trans.
Qed.

Lemma kept_view s s' c : kept s s' → view s' c = view s c.
Proof.
  intros [_ Hr]. unfold view. specialize (Hr c).
  destruct (objs s !! c), (objs s' !! c); by simplify_eq/=.
Qed.

Lemma kept_set_workers ws c f s : kept s (set_workers ws (alter (set_worker f) c (objs s)) s).
Proof. split; [done|]. apply same_rooms_alter. Qed.

Lemma addClientToWorker_kept c s s' : addClientToWorker c s = Ret s' → kept s s'.
Proof.
  unfold addClientToWorker. destruct (getWorker c s); simpl; [|done..]. intros [= <-]. apply kept_set_workers.
Qed.

Lemma removeClientFromWorker_kept c s s' : removeClientFromWorker c s = Ret s' → kept s s'.
Proof.
  unfold removeClientFromWorker. destruct (getWorker c s); simpl; [|done..]. intros [= <-]. apply kept_set_workers.
Qed.

Lemma serving_clients_kept l s s' : move_clients l s = Ret s' → kept s s'.
Proof.
  revert s. induction l as [|c l IH]; intros s; simpl; [by intros [= <-]|].
  destruct (move_client c s) as [s1| |] eqn:Hm; simpl; try done. intros Hs%IH. etransitivity; [|exact Hs].
  unfold move_client in Hm. destruct (getWorker c s) as [i| |]; simpl in Hm; try done.
  destruct (objs s !! c ≫= worker) as [old|]; [|done]. case_decide; [by simplify_eq|].
  by apply addClientToWorker_kept in Hm as [? ?].
Qed.

Lemma checkScale_kept s s' : checkScaleUp s = Ret s' ∨ checkScaleDown s = Ret s' → kept s s'.
Proof.
  unfold checkScaleUp, checkScaleDown, scaleUp, scaleDown.
  intros [Hs|Hs]; repeat case_match; simplify_eq; try done;
    by apply serving_clients_kept in Hs as [? ?].
Qed.

Lemma JoinServer_view c s s' : JoinServer c s = Ret s' →
  clients s' = {[c]} ∪ clients s ∧ ∀ d, view s' d = view s d.
Proof.
  unfold JoinServer. case_decide as Hin; [intros [= <-]; split; [set_solver|done]|].
  destruct (addClientToWorker c s) as [s1| |] eqn:Ha; simpl; try done.
  intros Hs. pose proof (checkScale_kept _ _ (or_introl Hs)) as Hk.
  pose proof (addClientToWorker_kept _ _ _ Ha) as Hk1. split.
  - destruct Hk as [-> _], Hk1 as [Hc _]. simpl. by rewrite Hc.
  - intros d. by rewrite (kept_view _ _ _ Hk), <-(kept_view _ _ _ Hk1).
Qed.

Lemma LeaveServer_view c s s' : LeaveServer c s = Ret s' →
  clients s' = clients s ∖ {[c]} ∧ ∀ d, d ≠ c → view s' d = view s d.
Proof.
  unfold LeaveServer. set (s0 := if decide (c ∈ clients s) then _ else s).
  assert (clients s0 = clients s ∖ {[c]} ∧ objs s0 = objs s) as [Hc0 Ho0].
  { unfold s0. case_decide; simpl; [done|]. split; [set_solver|done]. }
  destruct (removeClientFromWorker c _) as [s1| |] eqn:Hr; simpl; try done.
  intros Hs. apply removeClientFromWorker_kept in Hr. pose proof (checkScale_kept _ _ (or_intror Hs)) as Hk.
  split.
  - destruct Hk as [-> _], Hr as [-> _]. done.
  - intros d Hd. rewrite (kept_view _ _ _ Hk), (kept_view _ _ _ Hr). unfold view. simpl.
    by rewrite lookup_alter_ne, Ho0.
Qed.

Lemma alter_view d c (g : Client → Client) (o : gmap string Client) :
  (∀ x, is_Some (c_rooms x) → is_Some (c_rooms (g x))) →
  is_Some (o !! d ≫= c_rooms) → is_Some (alter g c o !! d ≫= c_rooms).
Proof.
  intros Hg Ho. destruct (decide (d = c)) as [->|]; [|by rewrite lookup_alter_ne].
  rewrite lookup_alter_eq. destruct (o !! c); [|by destruct Ho]. by apply Hg.
Qed.

(** A client object loses its rooms only when its own departure is handled. *)
Lemma event_view ev s s' d : AcceptLoop ev s = Ret s' → ev ≠ EvLeaveServer d →
  is_Some (view s d) → is_Some (view s' d).
Proof.
  intros Hs Hne Hd. destruct ev as [c|c|c|c r|c r]; simpl in Hs.
  - injection Hs as <-. unfold view. simpl. destruct (decide (d = c)) as [->|].
    + rewrite lookup_insert_eq. by eexists.
    + by rewrite lookup_insert_ne.
  - apply JoinServer_view in Hs as [_ Hv]. by rewrite Hv.
  - apply LeaveServer_view in Hs as [_ Hv]. rewrite Hv; [done|]. congruence.
  - unfold JoinRoom in Hs. destruct (JoinServer c s) as [s1| |] eqn:Hj; simpl in Hs; try done.
    apply JoinServer_view in Hj as [_ Hv]. destruct (objs s1 !! c ≫= c_rooms); [|done].
    injection Hs as <-. apply alter_view; [by eexists|]. change (is_Some (view s1 d)). by rewrite Hv.
  - unfold LeaveRoom in Hs. destruct (rooms s !! r); [|by injection Hs as <-]. injection Hs as <-.
    apply alter_view; [|done]. intros x [mine Hx]. simpl. rewrite Hx. by eexists.
Qed.

Definition joined (ev : ServerEvent) (C : gset string) : gset string :=
  match ev with
  | EvJoinServer c | EvJoinRoom c _ => {[c]} ∪ C
  | EvLeaveServer c => C ∖ {[c]}
  | Connect _ | EvLeaveRoom _ _ => C
  end.

Lemma event_clients ev s s' : AcceptLoop ev s = Ret s' → clients s' = joined ev (clients s).
Proof.
  intros Hs. destruct ev as [c|c|c|c r|c r]; simpl in *.
  - by injection Hs as <-.
  - by apply JoinServer_view in Hs as [? _].
  - by apply LeaveServer_view in Hs as [? _].
  - unfold JoinRoom in Hs. destruct (JoinServer c s) as [s1| |] eqn:Hj; simpl in Hs; try done.
    apply JoinServer_view in Hj as [Hc _]. destruct (objs s1 !! c ≫= c_rooms); [|done]. by injection Hs as <-.
  - unfold LeaveRoom in Hs. destruct (rooms s !! r); by injection Hs as <-.
Qed.

(** ** The system of all connections *)

Definition few (s : WSServer) : Prop := Z.of_nat (length (workers s)) < 2 ^ 32 - 1.

Definition phase_ok (s : WSServer) (c : string) (ph : phase) : Prop :=
  match ph with
  | Joining => is_Some (view s c) ∧ c ∉ clients s
  | Reading => is_Some (view s c) ∧ c ∈ clients s
  | Gone => c ∉ clients s
  end.

Record system_ok (y : System) : Prop := {
  so_wf : wf (server y);
  so_clients c : c ∈ clients (server y) → is_Some (conns y !! c);
  so_phase c ph : conns y !! c = Some ph → phase_ok (server y) c ph }.

(** Who an event is about. *)
Definition subject (ev : ServerEvent) : string :=
  match ev with
  | Connect c | EvJoinServer c | EvLeaveServer c | EvJoinRoom c _ | EvLeaveRoom c _ => c
  end.

(** The accept loop handles every event about a client that has not left. *)
Lemma event_runs ev s : wf s → few s → is_Some (view s (subject ev)) → (∀ c, ev ≠ Connect c) →
  ∃ s', AcceptLoop ev s = Ret s' ∧ wf s'.
Proof.
  unfold view. intros Hwf Hfew Hv Hne. assert (is_Some (objs s !! subject ev)) as Ho
    by (destruct (objs s !! subject ev); [by eexists|by destruct Hv]).
  destruct ev as [c|c|c|c r|c r]; simpl in *; [by destruct (Hne c)|..].
  - destruct (JoinServer_ok s Hwf Hfew c Ho) as (s' & ? & ? & _). by exists s'.
  - destruct (LeaveServer_ok s Hwf Hfew c) as (s' & ? & ? & _). by exists s'.
  - pose proof (JoinRoom_ok s Hwf Hfew c r Ho) as Hj. destruct Hv as [x Hx]. by rewrite Hx in Hj.
  - apply LeaveRoom_ok; done.
Qed.

(** The events of a turn are about its client, and only the last one is its
    departure. *)
Lemma read_turn_event c input ev stop :
  read_turn Conn c input = Ret (Some ev, stop) →
  subject ev = c ∧ if stop then ev = EvLeaveServer c
                   else (∀ d, ev ≠ EvLeaveServer d) ∧ ∀ d, ev ≠ Connect d ∧ ev ≠ EvJoinServer d.
Proof.
  simpl. destruct input as [| | | |ty r]; simpl; intros Hr; simplify_eq/=; [done|].
  repeat case_decide; by simplify_eq/=.
Qed.

(** Events of [c] leave the other connections' phases as they are. *)
Lemma phase_other ev s s' d ph :
  AcceptLoop ev s = Ret s' → d ≠ subject ev → phase_ok s d ph → phase_ok s' d ph.
Proof.
  intros Hs Hne Hp. pose proof (event_clients _ _ _ Hs) as Hc.
  assert (d ∈ clients s' ↔ d ∈ clients s) as Hin by (rewrite Hc; destruct ev; simpl in *; set_solver).
  assert (is_Some (view s d) → is_Some (view s' d)) as Hv
    by (apply (event_view ev); [done|]; intros ->; done).
  destruct ph; simpl in *; rewrite Hin; naive_solver.
Qed.

Lemma system_step ev s s' cs ph : system_ok (mkSystem s cs) → wf s' → AcceptLoop ev s = Ret s' →
  phase_ok s' (subject ev) ph → system_ok (mkSystem s' (<[subject ev := ph]> cs)).
Proof.
  intros [_ Hcl Hph] Hwf Hs Hp. split; simpl in *; [done|..].
  - intros c Hc. destruct (decide (c = subject ev)) as [->|Hne].
    + rewrite lookup_insert_eq. by eexists.
    + rewrite lookup_insert_ne by done. apply Hcl. rewrite (event_clients _ _ _ Hs) in Hc.
      destruct ev; simpl in *; set_solver.
  - intros c ph' [[<- <-]|[Hne Hc]]%lookup_insert_Some; [done|]. eapply phase_other; [done|done|by apply Hph].
Qed.

Lemma system_ok_step y y' : system_ok y → few (server y) → step y y' → system_ok y'.
Proof.
  intros Hok Hfew Hs. pose proof Hok as [Hwf Hcl Hph].
  destruct Hs as [s cs c s' Hc Ho Hs|s cs c s' Hc Hs|s cs c input stop Hc Hr|s cs c input ev stop s' Hc Hr Hs];
    simpl in *.
  - apply (system_step (Connect c) s); [done| |done|]; injection Hs as <-; [by apply wf_connect|].
    simpl. unfold view. simpl. rewrite lookup_insert_eq. split; [by eexists|].
    intros Hin. apply Hcl in Hin as [? ?]. congruence.
  - destruct (Hph c _ Hc) as [Hv _].
    destruct (event_runs (EvJoinServer c) s Hwf Hfew Hv ltac:(done)) as (s1 & Hs1 & Hwf1).
    simpl in Hs, Hs1. assert (s1 = s') as -> by congruence. apply (system_step (EvJoinServer c) s); [done..|].
    apply JoinServer_view in Hs as [Hcs Hv']. simpl. rewrite Hcs, Hv'. split; [done|set_solver].
  - done.
  - destruct (Hph c _ Hc) as [Hv Hin]. apply read_turn_event in Hr as [<- Hev].
    destruct (event_runs ev s Hwf Hfew Hv) as (s1 & Hs1 & Hwf1).
    { intros d ->. destruct stop; [done|]. destruct Hev as [_ Hev]. by destruct (Hev d). }
    assert (s1 = s') as -> by congruence. destruct stop.
    + apply (system_step ev s); [done..|]. simpl. rewrite (event_clients _ _ _ Hs), Hev. simpl. set_solver.
    + rewrite <-(insert_id cs (subject ev) Reading) by done. apply (system_step ev s); [done..|].
      destruct Hev as [Hl _]. split; [by eapply event_view|]. rewrite (event_clients _ _ _ Hs).
      destruct ev; simpl in *; [set_solver..|by destruct (Hl cID)|set_solver|set_solver].
Qed.

(** Steps of the system while the number of workers fits the code's [uint32]. *)
Definition sys_step (y y' : System) : Prop := few (server y) ∧ step y y'.


(** A failed upgrade is not the end of the handler: its client joins with a nil
    connection, and the first turn of its loop ends the process. *)
Lemma failed_upgrade_crashes (c : string) (input : ReadInput) :
  (wsHandler true c).2 = (wsHandler false c).2 ∧
  read_turn (wsHandler true c).1 c input = Panic "nil pointer dereference".
Proof. done. Qed.
End WithWorkers.

Section WithWorkersWitness.
Import WithWorkers.

(** A client connects and joins. *)
Definition demo_connected : WSServer :=
  set_workers [∅] {["a"%string := NewClient]} (NewWSServer 1).
Definition demo_joined : WSServer :=
  match JoinServer "a" demo_connected with Ret s => s | _ => demo_connected end.

Lemma demo_connections_run :
  rtc sys_step (start 1) (mkSystem demo_joined (<["a"%string := Reading]> {["a"%string := Joining]})).
Proof.
  eapply rtc_l; [split; [vm_compute; reflexivity|by apply (st_connect (NewWSServer 1) ∅ "a" demo_connected)]|].
  eapply rtc_l; [split; [vm_compute; reflexivity|by apply (st_join demo_connected _ "a" demo_joined)]|].
  apply rtc_refl.
Qed.

End WithWorkersWitness.

(** ** The server with a loop per client *)

Module LoopPerClient.

(** [GetHostName]: the consumer group is the pod's name. *)
Definition GetHostName (getenv : string → string) : string :=
  if decide (getenv "HOSTNAME" = "")%string then "local_cg" else getenv "HOSTNAME".

(** [readyCheck]: [answer] is what the client's [Assignment] says. *)
Definition readyCheck {TP} (answer : result (list TP)) : result bool :=
  match answer with
  | Err err => Err err
  | Ok assignment => Ok (negb (bool_decide (length assignment = 0%nat)))
  end.

(** The consumer's flag, and whether [readyCH] is closed. *)
Record KafkaConsumer := mkConsumer { IsReady : bool; readyCH_closed : bool }.

(** The deferred function runs however the loop ends. *)
Definition declare_ready (c : KafkaConsumer) : outcome KafkaConsumer :=
  if readyCH_closed c then Panic "close of closed channel" else Ret (mkConsumer true true).

(** One answer per turn; a turn without an answer waits. *)
Fixpoint checkReadyToAccept {TP} (answers : list (result (list TP))) (c : KafkaConsumer) :
    outcome (option error * KafkaConsumer) :=
  match answers with
  | [] => Block
  | answer :: answers =>
      match readyCheck answer with
      | Err err => c ← declare_ready c; Ret (Some err, c)
      | Ok true => c ← declare_ready c; Ret (None, c)
      | Ok false => checkReadyToAccept answers c
      end
  end.

(** The check ends at the first answer that is an error or an assignment, and
    reports which; but the consumer is declared ready in both cases. *)
Lemma checkReadyToAccept_correct {TP} (before : list (result (list TP))) answer after :
  Forall (λ a, a = Ok []) before → answer ≠ Ok [] →
  checkReadyToAccept (before ++ answer :: after) (mkConsumer false false) =
    Ret (match answer with Err err => Some err | Ok _ => None end, mkConsumer true true).
Proof.
  intros Hb Ha. induction Hb as [|a before -> _ IH]; [|exact IH]. simpl.
  destruct answer as [[|x l]|err]; done.
Qed.

(** [handleWS]: a failed upgrade ends the handler; otherwise the client joins. *)
Definition handleWS (upgrade_failed : bool) (cID : string) : list ChatRooms.AcceptEvent :=
  if upgrade_failed then [] else [ChatRooms.AcJoinServer cID].

(** [GetTestResult] asks the accept loop. *)
Definition GetTestResult (roomID : string) (s : ChatRooms.Server) :
    outcome (Z * list (option ChatRooms.RespMsg)) :=
  _ ← ChatRooms.AcceptLoop (ChatRooms.AcTest roomID) s; ChatRooms.test_request roomID s.

(** A handler either changes nothing or adds its client. *)
Lemma handleWS_joins upgrade_failed cID s :
  ∃ s', foldl (λ r ev, s ← r; ChatRooms.AcceptLoop ev s) (Ret s) (handleWS upgrade_failed cID) = Ret s' ∧
  s' = if upgrade_failed then s else ChatRooms.joinServer cID s.
Proof. destruct upgrade_failed; by eexists. Qed.
End LoopPerClient.
