(* ===== verification/ChatHub.v ===== *)
(** * The broadcast hub of chat/client-loop

    [initBroadcastHub] starts workers, each with two goroutines:
    [acceptClientLoop] takes registered clients from the channel they share, and
    [handleBroadcast] writes each message of the worker's own channel to the
    clients it finds.  [BroadcastMSG] runs in a goroutine per message and hands
    the message to one worker after the other.  All of them interleave at the
    points where they wait.  A write to a connection takes some time but ends,
    well or not: an error is logged and the loop goes on. *)

From S2P Require Import Prelude GoSem.

Section Hub.
Context {Msg : Type}.

(** ** Workers *)

(** Where [handleBroadcast] is: at the receive, or in its loop over the clients,
    which [range] evaluated when the loop began. *)
Inductive handler := HWait | HSend (m : Msg) (rest : list string).

(** [accepting]: the client [acceptClientLoop] has received and not yet added.
    The last four fields are history: the messages sent to the worker, those it
    received, how many these were when a client was added, and what was written
    to whom. *)
Record BroadcastWorker := mkBW {
  clients : list string; accepting : option string; msgCh : list Msg; state : handler;
  pushed : list Msg; taken : list Msg; since : gmap string nat; wrote : list (string * Msg) }.

Definition NewBroadcastWorker : BroadcastWorker := mkBW [] None [] HWait [] [] ∅ [].

(** The capacities of [msgCh] and [clientCH]. *)
Definition msg_cap : nat := 64.
Definition client_cap : nat := 16.

Definition receive_client (c : string) (w : BroadcastWorker) : BroadcastWorker :=
  mkBW (clients w) (Some c) (msgCh w) (state w) (pushed w) (taken w) (since w) (wrote w).
Definition add_client (c : string) (w : BroadcastWorker) : BroadcastWorker :=
  mkBW (clients w ++ [c]) None (msgCh w) (state w) (pushed w) (taken w)
    (<[c := length (taken w)]> (since w)) (wrote w).
Definition push_msg (m : Msg) (w : BroadcastWorker) : BroadcastWorker :=
  mkBW (clients w) (accepting w) (msgCh w ++ [m]) (state w) (pushed w ++ [m]) (taken w)
    (since w) (wrote w).
Definition take_msg (m : Msg) (rest : list Msg) (w : BroadcastWorker) : BroadcastWorker :=
  mkBW (clients w) (accepting w) rest (HSend m (clients w)) (pushed w) (taken w ++ [m])
    (since w) (wrote w).
Definition write_msg (m : Msg) (c : string) (rest : list string) (w : BroadcastWorker) :
    BroadcastWorker :=
  mkBW (clients w) (accepting w) (msgCh w) (HSend m rest) (pushed w) (taken w) (since w)
    (wrote w ++ [(c, m)]).
Definition end_loop (w : BroadcastWorker) : BroadcastWorker :=
  mkBW (clients w) (accepting w) (msgCh w) HWait (pushed w) (taken w) (since w) (wrote w).

(** [acceptClientLoop], with the channel before and after. *)
Inductive acceptClientLoop : list string → BroadcastWorker → list string → BroadcastWorker → Prop :=
| ac_receive c ch w : accepting w = None → acceptClientLoop (c :: ch) w ch (receive_client c w)
| ac_add ch w c : accepting w = Some c → acceptClientLoop ch w ch (add_client c w).

Inductive handleBroadcast : BroadcastWorker → BroadcastWorker → Prop :=
| hb_take w m q : state w = HWait → msgCh w = m :: q → handleBroadcast w (take_msg m q w)
| hb_write w m c rest : state w = HSend m (c :: rest) → handleBroadcast w (write_msg m c rest w)
| hb_end w m : state w = HSend m [] → handleBroadcast w (end_loop w).

(** ** The hub *)

(** A goroutine of [BroadcastMSG] is its message and the number of workers it
    has sent it to; [registered] is every client sent to [clientCH] so far. *)
Record Hub := mkHub {
  clientCH : list string; BroadcastWorkers : list BroadcastWorker;
  senders : list (Msg * nat); registered : list string }.

Definition initBroadcastHub (numWorkers : nat) : Hub :=
  mkHub [] (replicate numWorkers NewBroadcastWorker) [] [].

Definition RegisterBroadcast (c : string) (h : Hub) : Hub :=
  mkHub (clientCH h ++ [c]) (BroadcastWorkers h) (senders h) (registered h ++ [c]).
Definition BroadcastMSG (m : Msg) (h : Hub) : Hub :=
  mkHub (clientCH h) (BroadcastWorkers h) (senders h ++ [(m, 0%nat)]) (registered h).

(** The goroutines of the hub. *)
Inductive hub_goroutine : Hub → Hub → Prop :=
| hg_send ch l1 w l2 s1 m s2 rg :
    (length (msgCh w) < msg_cap)%nat →
    hub_goroutine (mkHub ch (l1 ++ w :: l2) (s1 ++ (m, length l1) :: s2) rg)
      (mkHub ch (l1 ++ push_msg m w :: l2) (s1 ++ (m, S (length l1)) :: s2) rg)
| hg_accept ch ch' l1 w w' l2 sn rg :
    acceptClientLoop ch w ch' w' →
    hub_goroutine (mkHub ch (l1 ++ w :: l2) sn rg) (mkHub ch' (l1 ++ w' :: l2) sn rg)
| hg_handle ch l1 w w' l2 sn rg :
    handleBroadcast w w' →
    hub_goroutine (mkHub ch (l1 ++ w :: l2) sn rg) (mkHub ch (l1 ++ w' :: l2) sn rg).

(** Clients register, each under its own fresh identifier, and messages come. *)
Inductive hub_step : Hub → Hub → Prop :=
| hs_register h c :
    c ∉ registered h → (length (clientCH h) < client_cap)%nat → hub_step h (RegisterBroadcast c h)
| hs_broadcast h m : hub_step h (BroadcastMSG m h)
| hs_go h h' : hub_goroutine h h' → hub_step h h'.

(** ** Invariants of a worker *)

(** What was written to [c], and what the current loop has still to write. *)
Definition to (c : string) (w : BroadcastWorker) : list Msg :=
  snd <$> filter (λ x, x.1 = c) (wrote w).
Definition due (c : string) (w : BroadcastWorker) : list Msg :=
  match state w with HSend m rest => if decide (c ∈ rest) then [m] else [] | HWait => [] end.
Definition holds (w : BroadcastWorker) : list string := option_list (accepting w) ++ clients w.

Record worker_ok (w : BroadcastWorker) : Prop := {
  ok_queue : pushed w = taken w ++ msgCh w;
  ok_loop m rest : state w = HSend m rest → rest ⊆ clients w ∧ NoDup rest;
  ok_sent c : match since w !! c with
    | Some k => c ∈ clients w ∧ (k ≤ length (taken w))%nat ∧ to c w ++ due c w = drop k (taken w)
    | None => c ∉ clients w ∧ to c w = []
    end }.

Lemma worker_ok_new : worker_ok NewBroadcastWorker.
Proof. split; [done..|]. intros c. simpl. rewrite lookup_empty. split; [apply not_elem_of_nil|done]. Qed.

Lemma due_nil c w : worker_ok w → c ∉ clients w → due c w = [].
Proof.
  intros Hok Hc. unfold due. destruct (state w) as [|m rest] eqn:Hs; [done|].
  destruct (ok_loop w Hok _ _ Hs) as [Hsub _]. rewrite decide_False; [done|]. set_solver.
Qed.

Lemma worker_ok_receive c w : worker_ok w → worker_ok (receive_client c w).
Proof. intros []. by split. Qed.

Lemma worker_ok_push m w : worker_ok w → worker_ok (push_msg m w).
Proof. intros [Hq ??]. split; simpl; [|done..]. by rewrite Hq, app_assoc. Qed.

Lemma worker_ok_add c w : worker_ok w → c ∉ clients w → worker_ok (add_client c w).
Proof.
  intros Hok Hc. pose proof (due_nil c w Hok Hc) as Hdue. pose proof Hok as [Hq Hl Hs]. split; simpl.
  - done.
  - intros m rest Hst. destruct (Hl m rest Hst). split; [set_solver|done].
  - intros d. specialize (Hs d). destruct (decide (d = c)) as [->|Hne].
    + rewrite lookup_insert_eq. split; [set_solver|]. split; [done|]. rewrite drop_all.
      destruct (since w !! c); [by destruct Hs|]. destruct Hs as [_ Hto].
      change (to c w ++ due c w = []). by rewrite Hto, Hdue.
    + rewrite lookup_insert_ne by done. destruct (since w !! d); [|set_solver].
      destruct Hs as (? & ? & ?). split; [set_solver|done].
Qed.

Lemma to_write c m d w : to c (write_msg m d [] w) = to c w ++ (if decide (d = c) then [m] else []).
Proof.
  unfold to. simpl. rewrite filter_app, fmap_app. f_equal. rewrite filter_cons, filter_nil. simpl. by repeat case_decide.
Qed.

Lemma worker_ok_handle w w' : NoDup (clients w) → worker_ok w → handleBroadcast w w' → worker_ok w'.
Proof.
  intros Hnd [Hq Hl Hs] Hh. destruct Hh as [w m q Hst Hch|w m d rest Hst|w m Hst]; split; simpl.
  - by rewrite Hq, Hch, <-app_assoc.
  - intros ?? [= <- <-]. done.
  - intros c. specialize (Hs c). unfold due in *. rewrite Hst in Hs. simpl. destruct (since w !! c) as [k|].
    + destruct Hs as (Hc & Hk & Hto). split; [done|]. split; [rewrite length_app; lia|].
      rewrite decide_True by done. rewrite drop_app_le by done. rewrite <-Hto, app_nil_r. done.
    + done.
  - done.
  - intros ?? [= <- <-]. destruct (Hl _ _ Hst) as [Hsub [? ?]%NoDup_cons]. split; [set_solver|done].
  - intros c. specialize (Hs c). destruct (Hl _ _ Hst) as [Hsub [Hd Hrest]%NoDup_cons].
    unfold due in *. rewrite Hst in Hs. simpl in *.
    change (to c (write_msg m d rest w)) with (to c (write_msg m d [] w)). rewrite to_write.
    destruct (since w !! c) as [k|].
    + destruct Hs as (Hc & Hk & Hto). split; [done|]. split; [done|]. rewrite <-Hto, <-app_assoc. f_equal.
      repeat case_decide; subst; set_solver.
    + destruct Hs as [Hc ->]. split; [done|]. rewrite decide_False; [done|]. set_solver.
  - done.
  - done.
  - intros c. specialize (Hs c). unfold due in *. rewrite Hst in Hs. simpl in *.
    by destruct (since w !! c).
Qed.

(** ** The invariant of the hub *)

(** The workers that the goroutine [x] has sent its message to. *)
Definition sent_to (i : nat) (h : Hub) : list Msg := fst <$> filter (λ x, (i < x.2)%nat) (senders h).

Record hub_ok (n : nat) (h : Hub) : Prop := {
  ho_length : length (BroadcastWorkers h) = n;
  ho_workers : Forall worker_ok (BroadcastWorkers h);
  ho_placed : registered h ≡ₚ clientCH h ++ mjoin (holds <$> BroadcastWorkers h);
  ho_nodup : NoDup (registered h);
  ho_pushed i w : BroadcastWorkers h !! i = Some w → pushed w ≡ₚ sent_to i h }.

Lemma placed_split l1 w l2 :
  mjoin (holds <$> l1 ++ w :: l2) ≡ₚ holds w ++ mjoin (holds <$> l1 ++ l2).
Proof.
  rewrite !fmap_app, !join_app. cbn. rewrite (app_assoc (mjoin _)), (Permutation_app_comm (mjoin _) (holds w)).
  by rewrite <-app_assoc.
Qed.

Lemma lookup_replaced {A} (l1 l2 : list A) w w' i x :
  (l1 ++ w' :: l2) !! i = Some x →
  (i = length l1 ∧ x = w') ∨ (i ≠ length l1 ∧ (l1 ++ w :: l2) !! i = Some x).
Proof.
  destruct (decide (i < length l1)%nat) as [Hlt|Hge].
  - rewrite !lookup_app_l by done. right. split; [lia|done].
  - rewrite !lookup_app_r by lia. destruct (i - length l1)%nat eqn:Hi; simpl.
    + intros [= <-]. left. split; [lia|done].
    + right. split; [lia|done].
Qed.

(** A worker that the hub holds has no client twice. *)
Lemma hub_worker_nodup n ch l1 w l2 sn rg :
  hub_ok n (mkHub ch (l1 ++ w :: l2) sn rg) → NoDup (ch ++ holds w) ∧ worker_ok w.
Proof.
  intros [_ Hw Hp Hnd _]. simpl in *. split; [|by apply Forall_app in Hw as [_ [? _]%Forall_cons]].
  rewrite Hp, placed_split, app_assoc in Hnd. by apply NoDup_app in Hnd as [? _].
Qed.

Lemma sent_to_step i s1 m k s2 ch ws rg ch' ws' rg' :
  sent_to i (mkHub ch ws (s1 ++ (m, S k) :: s2) rg) ≡ₚ
  sent_to i (mkHub ch' ws' (s1 ++ (m, k) :: s2) rg') ++ (if decide (i = k) then [m] else []).
Proof.
  unfold sent_to. simpl. rewrite !filter_app, !filter_cons, !fmap_app. simpl.
  destruct (decide (i < S k)%nat), (decide (i < k)%nat), (decide (i = k)); try lia;
    rewrite ?app_nil_r; simpl; [done| |done].
  by rewrite <-app_assoc, (Permutation_app_comm _ [m]).
Qed.

(** One worker is replaced, the clients stay where they are or move from the
    channel to it, and nothing is sent. *)
Lemma hub_ok_worker n ch ch' l1 w w' l2 sn rg :
  hub_ok n (mkHub ch (l1 ++ w :: l2) sn rg) → worker_ok w' → pushed w' = pushed w →
  ch' ++ holds w' ≡ₚ ch ++ holds w → hub_ok n (mkHub ch' (l1 ++ w' :: l2) sn rg).
Proof.
  intros [Hlen Hw Hp Hnd Hpu] Hok Hpush Hperm. split; simpl in *.
  - by rewrite length_app in *.
  - apply Forall_app in Hw as [? [? ?]%Forall_cons]. by apply Forall_app_2; [|apply Forall_cons].
  - by rewrite Hp, !placed_split, !app_assoc, Hperm.
  - done.
  - intros i x [[-> ->]|[_ Hi]]%(lookup_replaced l1 l2 w); [|by apply Hpu].
    rewrite Hpush. apply Hpu. by apply list_lookup_middle.
Qed.

Lemma acceptClientLoop_ok ch w ch' w' :
  acceptClientLoop ch w ch' w' → NoDup (ch ++ holds w) → worker_ok w →
  worker_ok w' ∧ pushed w' = pushed w ∧ ch' ++ holds w' ≡ₚ ch ++ holds w.
Proof.
  intros [c ch0 w0 Ha|ch0 w0 c Ha] Hnd Hok; unfold holds in *; rewrite Ha in *; simpl in *.
  - split; [by apply worker_ok_receive|]. split; [done|]. by rewrite <-Permutation_middle.
  - split; [apply worker_ok_add; [done|]|].
    + apply NoDup_app in Hnd as (_ & _ & [? _]%NoDup_cons). done.
    + split; [done|]. by rewrite (Permutation_app_comm (clients w0)).
Qed.

Lemma handleBroadcast_ok w w' :
  handleBroadcast w w' → pushed w' = pushed w ∧ holds w' = holds w ∧ clients w' = clients w.
Proof. by intros []. Qed.

Lemma hub_goroutine_ok n h h' : hub_ok n h → hub_goroutine h h' → hub_ok n h'.
Proof.
  intros Hok Hg. destruct Hg as [ch l1 w l2 s1 m s2 rg Hcap|ch ch' l1 w w' l2 sn rg Ha|ch l1 w w' l2 sn rg Hh];
    destruct (hub_worker_nodup _ _ _ _ _ _ _ Hok) as [Hnd Hw].
  - pose proof Hok as [Hlen Hws Hp Hn Hpu]. split; simpl in *.
    + by rewrite length_app in *.
    + apply Forall_app in Hws as [? [_ ?]%Forall_cons]. apply Forall_app_2; [done|].
      apply Forall_cons. split; [by apply worker_ok_push|done].
    + rewrite placed_split in *. done.
    + done.
    + intros i x Hi. rewrite sent_to_step. apply (lookup_replaced l1 l2 w) in Hi as [[-> ->]|[Hne Hi]].
      * rewrite decide_True by done. simpl. f_equiv. apply Hpu. by apply list_lookup_middle.
      * rewrite decide_False, app_nil_r by done. exact (Hpu _ _ Hi).
  - destruct (acceptClientLoop_ok _ _ _ _ Ha Hnd Hw) as (? & ? & ?). by eapply hub_ok_worker.
  - destruct (handleBroadcast_ok _ _ Hh) as (Hpu & Hho & _). eapply hub_ok_worker; [done| |done|by rewrite Hho].
    eapply worker_ok_handle; [|done..]. apply NoDup_app in Hnd as (_ & _ & Hnd). unfold holds in Hnd.
    by apply NoDup_app in Hnd as (_ & _ & ?).
Qed.

Lemma hub_ok_init n : hub_ok n (initBroadcastHub n).
Proof.
  split; simpl.
  - apply length_replicate.
  - apply Forall_replicate, worker_ok_new.
  - induction n as [|n IH]; [done|]. cbn. exact IH.
  - apply NoDup_nil_2.
  - intros i w [-> _]%lookup_replicate. done.
Qed.

Lemma hub_ok_step n h h' : hub_ok n h → hub_step h h' → hub_ok n h'.
Proof.
  intros Hok Hs. destruct Hs as [h c Hc _|h m|h h' Hg]; [..|by eapply hub_goroutine_ok];
    destruct Hok as [Hlen Hw Hp Hnd Hpu]; split; simpl; try done.
  - rewrite Hp at 1. rewrite <-!app_assoc. f_equiv. apply Permutation_app_comm.
  - apply NoDup_app. split_and!; [done| |apply NoDup_singleton]. set_solver.
  - intros i w Hi. rewrite (Hpu i w Hi). unfold sent_to. simpl. rewrite filter_app, fmap_app.
    simpl. by rewrite app_nil_r.
Qed.

Lemma hub_reachable n h : rtc hub_step (initBroadcastHub n) h → hub_ok n h.
Proof. intros Hr. eapply rtc_invariant; [apply hub_ok_step|exact Hr|apply hub_ok_init]. Qed.

(** ** Who receives what *)

(** Everything written to [c], by whichever worker. *)
Definition received (c : string) (h : Hub) : list Msg := mjoin (to c <$> BroadcastWorkers h).
Definition members (h : Hub) : list string := mjoin (clients <$> BroadcastWorkers h).

Definition idle (w : BroadcastWorker) : Prop := accepting w = None ∧ msgCh w = [] ∧ state w = HWait.
(** Every client is with a worker, every message was handed over and handled. *)
Record quiescent (h : Hub) : Prop := {
  q_clients : clientCH h = [];
  q_senders : Forall (λ x, (length (BroadcastWorkers h) ≤ x.2)%nat) (senders h);
  q_workers : Forall idle (BroadcastWorkers h) }.

Definition grows (w w' : BroadcastWorker) : Prop :=
  pushed w `prefix_of` pushed w' ∧ ∀ c k, since w !! c = Some k → since w' !! c = Some k.

#[local] Instance grows_preorder : PreOrder grows.
Proof.
  split; [done|]. intros w1 w2 w3 [? ?] [? ?]. split; [by etransitivity|auto].
Qed.

Lemma hub_goroutine_grows n h h' i w :
  hub_ok n h → hub_goroutine h h' → BroadcastWorkers h !! i = Some w →
  ∃ w', BroadcastWorkers h' !! i = Some w' ∧ grows w w'.
Proof.
  intros Hok Hg. assert (Hrep : ∀ (l1 : list BroadcastWorker) w0 w1 l2, grows w0 w1 →
    (l1 ++ w0 :: l2) !! i = Some w → ∃ w', (l1 ++ w1 :: l2) !! i = Some w' ∧ grows w w').
  { intros l1 w0 w1 l2 Hgr [[-> ->]|[_ Hi]]%(lookup_replaced l1 l2 w1);
      [exists w1; by rewrite list_lookup_middle|by exists w]. }
  destruct Hg as [ch l1 w0 l2 s1 m s2 rg _|ch ch' l1 w0 w' l2 sn rg Ha|ch l1 w0 w' l2 sn rg Hh];
    destruct (hub_worker_nodup _ _ _ _ _ _ _ Hok) as [Hnd [_ _ Hs]]; apply Hrep.
  - split; [by apply prefix_app_r|done].
  - destruct Ha as [c ch0 w0 _|ch0 w0 c Ha]; [done|]. split; [done|]. intros d k Hd. simpl.
    rewrite lookup_insert_ne; [done|]. intros ->. specialize (Hs d). rewrite Hd in Hs.
    unfold holds in Hnd. rewrite Ha in Hnd. apply NoDup_app in Hnd as (_ & _ & [Hc _]%NoDup_cons). by destruct Hs.
  - by destruct Hh.
Qed.

Lemma hub_run_grows n h h' i w :
  hub_ok n h → rtc hub_step h h' → BroadcastWorkers h !! i = Some w →
  ∃ w', BroadcastWorkers h' !! i = Some w' ∧ grows w w'.
Proof.
  intros Hok Hr. revert w Hok. induction Hr as [h|h1 h2 h3 Hs _ IH]; intros w Hok Hi; [by exists w|].
  assert (∃ w2, BroadcastWorkers h2 !! i = Some w2 ∧ grows w w2) as (w2 & Hi2 & Hg2).
  { destruct Hs; [by exists w..|by eapply hub_goroutine_grows]. }
  destruct (IH w2) as (w3 & Hi3 & Hg3); [by eapply hub_ok_step|done|].
  exists w3. split; [done|]. by etransitivity.
Qed.

(** Only the worker that has a client writes to it. *)
Lemma received_by_its_worker n h i w c :
  hub_ok n h → BroadcastWorkers h !! i = Some w → c ∈ clients w → received c h = to c w.
Proof.
  intros [_ Hw Hp Hnd _] Hi Hc. unfold received. rewrite Hp in Hnd.
  apply list_elem_of_split_length in Hi as (l1 & l2 & Hl & _). rewrite Hl in *.
  apply NoDup_app in Hnd as (_ & _ & Hnd). rewrite placed_split in Hnd.
  apply NoDup_app in Hnd as (_ & Hdis & _).
  assert (Hnone : ∀ l, Forall worker_ok l → (∀ x, x ∈ l → c ∉ clients x) → mjoin (to c <$> l) = []).
  { intros l Hok Hx. induction Hok as [|x l [_ _ Hs] _ IH]; [done|].
    change (to c x ++ mjoin (to c <$> l) = []). rewrite IH by set_solver. rewrite app_nil_r. specialize (Hs c). destruct (since x !! c); [|by destruct Hs].
    destruct (Hx x ltac:(by left)). by destruct Hs. }
  assert (Hother : ∀ x, x ∈ l1 ++ l2 → c ∉ clients x).
  { intros x Hx Hin. apply (Hdis c); [unfold holds; set_solver|]. apply list_elem_of_join.
    exists (holds x). split; [unfold holds; set_solver|]. by apply list_elem_of_fmap_2. }
  apply Forall_app in Hw as [? [_ ?]%Forall_cons]. rewrite fmap_app, join_app. cbn.
  rewrite !Hnone; [by rewrite app_nil_r|done|set_solver|done|set_solver].
Qed.

(** At rest a client has received what its worker was sent after adding it, in
    the order in which it was sent. *)
Lemma quiescent_received n h i w c :
  hub_ok n h → quiescent h → BroadcastWorkers h !! i = Some w → c ∈ clients w →
  ∃ k, since w !! c = Some k ∧ received c h = drop k (pushed w) ∧ pushed w ≡ₚ fst <$> senders h.
Proof.
  intros Hok [_ Hsn Hidle] Hi Hc. rewrite (received_by_its_worker _ _ _ _ _ Hok Hi Hc).
  destruct Hok as [Hlen Hw _ _ Hpu]. pose proof (Hpu i w Hi) as Hperm.
  rewrite Forall_lookup in Hw, Hidle. destruct (Hw i w Hi) as [Hq _ Hs]. destruct (Hidle i w Hi) as (_ & Hch & Hst).
  specialize (Hs c). unfold due in Hs. rewrite Hst in Hs. rewrite Hch, app_nil_r in Hq.
  destruct (since w !! c) as [k|]; [|by destruct Hs]. destruct Hs as (_ & _ & Hto). rewrite app_nil_r in Hto.
  exists k. split; [done|]. split; [by rewrite Hto, Hq|]. rewrite Hperm. unfold sent_to. f_equiv.
  apply lookup_lt_Some in Hi. rewrite filter_all; [done|].
  eapply Forall_impl; [exact Hsn|]. simpl. lia.
Qed.

(** C13. The broadcast hub, over every interleaving of registrations, broadcasts
    and the hub's goroutines.  The registered clients are divided among the
    workers and the channels: none is lost and none is served twice.  A client
    that a worker has when a message (that was not sent before) is broadcast is
    written that message exactly once, by the time the hub has come to rest;
    whatever it is written comes in the order of its worker's channel. *)
Theorem broadcast_reaches_each_once `{EqDecision Msg} (n : nat) (h h' : Hub) (m : Msg) (c : string) :
  rtc hub_step (initBroadcastHub n) h → c ∈ members h → m ∉ fst <$> senders h →
  rtc hub_step (BroadcastMSG m h) h' →
  (registered h' ≡ₚ clientCH h' ++ mjoin (holds <$> BroadcastWorkers h') ∧ NoDup (registered h')) ∧
  (quiescent h' → filter (λ x, x = m) (fst <$> senders h') = [m] →
   filter (λ x, x = m) (received c h') = [m]).
Proof.
  intros Hr (cs & Hc & (w & -> & Hw)%list_elem_of_fmap)%list_elem_of_join Hm Hrun.
  pose proof (hub_reachable _ _ Hr) as Hok. assert (hub_ok n h') as Hok'.
  { eapply rtc_invariant; [apply hub_ok_step|exact Hrun|]. eapply hub_ok_step, hs_broadcast. exact Hok. }
  split; [by destruct Hok'|]. intros Hq Hone. apply list_elem_of_lookup in Hw as [i Hi].
  assert (hub_ok n (BroadcastMSG m h)) as Hokm by by eapply hub_ok_step, hs_broadcast.
  destruct (hub_run_grows _ _ _ _ _ Hokm Hrun Hi) as (w' & Hi' & [l Hl] & Hsince).
  destruct Hok as [_ Hws _ _ Hpu]. rewrite Forall_lookup in Hws. destruct (Hws i w Hi) as [Hqu _ Hs].
  specialize (Hs c). destruct (since w !! c) as [k|] eqn:Hk; [|by destruct Hs]. destruct Hs as (_ & Hle & _).
  destruct (quiescent_received _ _ _ _ c Hok' Hq Hi') as (k' & Hk' & -> & Hperm).
  { pose proof (ho_workers _ _ Hok') as Hws'. rewrite Forall_lookup in Hws'. destruct (Hws' i w' Hi') as [_ _ Hs'].
    specialize (Hs' c). rewrite (Hsince c k Hk) in Hs'. by destruct Hs'. }
  rewrite (Hsince c k Hk) in Hk'. injection Hk' as <-.
  assert (Hp : filter (λ x, x = m) (pushed w') = [m]) by (apply Permutation_singleton_r; by rewrite Hperm, Hone).
  assert (Hnone : m ∉ pushed w).
  { intros Hx. apply Hm. rewrite (Hpu i w Hi) in Hx.
    apply list_elem_of_fmap in Hx as (y & -> & [_ Hy]%list_elem_of_filter). by apply list_elem_of_fmap_2. }
  rewrite Hl in *. rewrite drop_app_le by (rewrite Hqu, length_app; lia). rewrite filter_app in *.
  rewrite (filter_none _ (pushed w)) in Hp by (apply Forall_forall; intros x Hx ->; done).
  rewrite (filter_none _ (drop k (pushed w))); [done|].
  apply Forall_forall. intros x Hx ->. apply Hnone. rewrite <-(take_drop k (pushed w)). set_solver.
Qed.

(** ** Progress *)

Definition loop_work (w : BroadcastWorker) : nat :=
  match state w with HWait => 0 | HSend _ rest => S (length rest) end.
Definition worker_work (r : nat) (w : BroadcastWorker) : nat :=
  (length (msgCh w) * (r + 2) + loop_work w + length (option_list (accepting w)))%nat.
Definition senders_work (n r : nat) (l : list (Msg * nat)) : nat :=
  sum_list_with (λ x, (n - x.2) * (r + 3))%nat l.
(** The steps the goroutines have still to make, at most. *)
Definition work (h : Hub) : nat :=
  (senders_work (length (BroadcastWorkers h)) (length (registered h)) (senders h) +
  sum_list_with (worker_work (length (registered h))) (BroadcastWorkers h) + 2 * length (clientCH h))%nat.

Lemma sum_list_with_split {A} (g : A → nat) l1 x l2 :
  sum_list_with g (l1 ++ x :: l2) = (g x + sum_list_with g (l1 ++ l2))%nat.
Proof. rewrite !sum_list_with_app. simpl. lia. Qed.

Lemma acceptClientLoop_work r ch w ch' w' : acceptClientLoop ch w ch' w' →
  (worker_work r w' + 2 * length ch' < worker_work r w + 2 * length ch)%nat.
Proof. intros [c ch0 w0 Ha|ch0 w0 c Ha]; unfold worker_work, loop_work; rewrite Ha; simpl; lia. Qed.

Lemma handleBroadcast_work r w w' : (length (clients w) ≤ r)%nat → handleBroadcast w w' →
  (worker_work r w' < worker_work r w)%nat.
Proof.
  intros Hr Hh. revert Hr. destruct Hh as [w0 m q Hst Hch|w0 m c rest Hst|w0 m Hst]; intros Hr;
    unfold worker_work, loop_work; rewrite Hst; simpl; [rewrite Hch; simpl|..]; lia.
Qed.

Lemma hub_goroutine_work n h h' : hub_ok n h → hub_goroutine h h' → (work h' < work h)%nat.
Proof.
  intros Hok Hg. destruct Hg as [ch l1 w l2 s1 m s2 rg Hcap|ch ch' l1 w w' l2 sn rg Ha|ch l1 w w' l2 sn rg Hh];
    unfold work, senders_work; simpl; rewrite !length_app, !sum_list_with_split; simpl.
  - replace (length l1 + S (length l2) - length l1)%nat with (S (length l2)) by lia.
    replace (length l1 + S (length l2) - S (length l1))%nat with (length l2) by lia.
    unfold worker_work, loop_work. simpl. rewrite length_app. simpl. lia.
  - pose proof (acceptClientLoop_work (length rg) _ _ _ _ Ha). lia.
  - enough (worker_work (length rg) w' < worker_work (length rg) w)%nat by lia.
    apply handleBroadcast_work; [|done]. destruct Hok as [_ _ Hp _ _]. simpl in Hp.
    rewrite Hp, placed_split. unfold holds. rewrite !length_app. lia.
Qed.

(** A worker whose queue is not empty, or whose loop has begun, can go on. *)
Lemma handler_moves w : msgCh w ≠ [] ∨ state w ≠ HWait → ∃ w', handleBroadcast w w'.
Proof.
  intros Hw. destruct (state w) as [|m [|c rest]] eqn:Hst.
  - destruct Hw as [Hw|]; [|done]. destruct (msgCh w) eqn:Hch; [done|]. eexists. by eapply hb_take.
  - eexists. by eapply hb_end.
  - eexists. by eapply hb_write.
Qed.

Lemma worker_moves ch l1 w l2 sn rg : ¬ idle w →
  ∃ h', hub_goroutine (mkHub ch (l1 ++ w :: l2) sn rg) h'.
Proof.
  intros Hw. destruct (accepting w) as [c|] eqn:Ha.
  { eexists. by eapply hg_accept, ac_add. }
  assert (msgCh w ≠ [] ∨ state w ≠ HWait) as Hm.
  { destruct (msgCh w) eqn:Hch; [|by left]. right. intros Hst. by destruct Hw. }
  destruct (handler_moves w Hm) as [w' ?]. eexists. by eapply hg_handle.
Qed.

Lemma idle_dec w : idle w ∨ ¬ idle w.
Proof.
  unfold idle. destruct (accepting w), (msgCh w), (state w); try (by right; intros (?&?&?)). by left.
Qed.

(** While there is work, some goroutine can go on. *)
Lemma hub_moves n h : (0 < n)%nat → hub_ok n h → quiescent h ∨ ∃ h', hub_goroutine h h'.
Proof.
  intros Hn Hok. pose proof (ho_length _ _ Hok) as Hlen. destruct h as [ch ws sn rg]. simpl in Hlen.
  assert (Forall idle ws ∨ ∃ l1 w l2, ws = l1 ++ w :: l2 ∧ ¬ idle w) as [Hidle|(l1 & w & l2 & -> & Hw)].
  { clear. induction ws as [|w ws [IH|(l1 & v & l2 & -> & Hv)]]; [by left|..].
    - destruct (idle_dec w); [left; by constructor|]. right. by exists [], w, ws.
    - right. by exists (w :: l1), v, l2. }
  2: { right. by apply worker_moves. }
  destruct ch as [|c ch].
  - destruct (decide (Forall (λ x : Msg * nat, length ws ≤ x.2)%nat sn)) as [Hs|Hs]; [left; by split|].
    apply not_Forall_Exists in Hs; [|apply _].
    apply Exists_exists in Hs as ([m k] & Hin & Hk). simpl in Hk. right.
    apply list_elem_of_split in Hin as (s1 & s2 & ->).
    destruct (lookup_lt_is_Some_2 ws k ltac:(lia)) as [w Hw].
    rewrite Forall_lookup in Hidle. destruct (Hidle k w Hw) as (_ & Hch & _).
    apply list_elem_of_split_length in Hw as (l1 & l2 & -> & ->).
    eexists. apply hg_send. rewrite Hch. simpl. unfold msg_cap. lia.
  - destruct ws as [|w ws]; [simpl in Hlen; lia|]. apply Forall_cons in Hidle as [(Ha & _ & _) _].
    right. eexists. by apply (hg_accept (c :: ch) ch []), ac_receive.
Qed.

(** C33. The hub comes to rest by itself: from every state it can reach, its
    goroutines (at least one worker was started) make at most [work h] steps
    before something registers or is broadcast, whatever their interleaving, and
    they only stop when every client is with a worker, every message has been
    handed to every worker, and every worker has handled all it was sent. *)
Theorem hub_comes_to_rest (n : nat) (h h' : Hub) (k : nat) :
  (0 < n)%nat → rtc hub_step (initBroadcastHub n) h → nsteps hub_goroutine k h h' →
  (k + work h' ≤ work h)%nat ∧ (quiescent h' ∨ ∃ h'', hub_goroutine h' h'').
Proof.
  intros Hn Hok%hub_reachable Hk. induction Hk as [h|k h h1 h2 Hs _ IH].
  - split; [lia|]. by eapply hub_moves.
  - pose proof (hub_goroutine_work _ _ _ Hok Hs). destruct IH as [Hw Hm]; [by eapply hub_goroutine_ok|].
    split; [lia|done].
Qed.
End Hub.

(** ** A concrete run *)

(** One worker; a client registers and is added; a message is broadcast and
    written. *)
Definition demo_hub1 : Hub (Msg := string) :=
  mkHub [] [mkBW ["a"%string] None [] HWait [] [] (<["a"%string := 0%nat]> ∅) []] [] ["a"%string].
Definition demo_hub2 : Hub (Msg := string) :=
  mkHub [] [mkBW ["a"%string] None [] HWait ["hi"%string] ["hi"%string] (<["a"%string := 0%nat]> ∅)
    [("a", "hi")%string]] [("hi"%string, 1%nat)] ["a"%string].

Definition demo_worker : BroadcastWorker (Msg := string) :=
  add_client "a" (receive_client "a" NewBroadcastWorker).

Lemma demo_hub1_run : rtc hub_step (initBroadcastHub 1) demo_hub1.
Proof.
  set (w0 := receive_client "a" NewBroadcastWorker : BroadcastWorker (Msg := string)).
  eapply rtc_l; [apply (hs_register _ "a"); [apply not_elem_of_nil|apply le_n_S, Nat.le_0_l]|].
  eapply rtc_l; [apply hs_go, (hg_accept ["a"%string] [] [] NewBroadcastWorker w0 []), ac_receive; done|].
  eapply rtc_l; [apply hs_go, (hg_accept [] [] [] w0 demo_worker []), ac_add; done|]. apply rtc_refl.
Qed.

Lemma demo_hub2_run : rtc hub_step (BroadcastMSG "hi"%string demo_hub1) demo_hub2.
Proof.
  set (w1 := push_msg "hi"%string demo_worker). set (w2 := take_msg "hi"%string [] w1).
  set (w3 := write_msg "hi"%string "a"%string [] w2).
  eapply rtc_l; [apply hs_go, (hg_send [] [] demo_worker [] [] "hi"%string []), le_n_S, Nat.le_0_l|].
  eapply rtc_l; [apply hs_go, (hg_handle [] [] w1 w2 []), (hb_take w1 "hi"%string []); done|].
  eapply rtc_l; [apply hs_go, (hg_handle [] [] w2 w3 []), (hb_write w2 "hi"%string "a"%string []); done|].
  eapply rtc_l; [apply hs_go, (hg_handle [] [] w3 (end_loop w3) []), (hb_end w3 "hi"%string); done|].
  apply rtc_refl.
Qed.

Lemma broadcast_reaches_each_once_witness :
  filter (λ x, x = "hi"%string) (received "a" demo_hub2) = ["hi"%string].
Proof.
  apply (proj2 (broadcast_reaches_each_once 1 demo_hub1 demo_hub2 "hi" "a" demo_hub1_run
    (list_elem_of_here _ _) (not_elem_of_nil _) demo_hub2_run)); [|reflexivity].
  split; [reflexivity|by repeat constructor|by repeat constructor].
Defined.

Lemma hub_comes_to_rest_witness :
  (0 + work demo_hub1 ≤ work demo_hub1)%nat ∧ (quiescent demo_hub1 ∨ ∃ h'', hub_goroutine demo_hub1 h'').
Proof.
  apply (hub_comes_to_rest 1 demo_hub1 demo_hub1 0); [apply le_n|exact demo_hub1_run|constructor].
Defined.
