(* ===== verification/Playground.v ===== *)
(** * The protocol playground (protocol-playground/)

    The file upload over a gRPC client stream (file-sender/main.go and
    invoicer/transport/grpc/grpc-server.go) and the in-memory event bus of the
    data aggregator (data-aggregator/event-bus.go). *)

From S2P Require Import Prelude GoSem GoStrings.
From Stdlib Require Import Ascii.
From Stdlib.Strings Require Import Byte.

(** ** File upload *)

Module Upload.

(** [shared.FileChunk] and [shared.FileUploadResponse], the fields used. *)
Record FileChunk := mkChunk {
  Filename : string; Content : list byte; ChunkIndex : Z; TotalSize : Z }.

Record FileUploadResponse := mkResponse {
  Success : bool; Message : string; SavePath : string; BytesReceived : Z }.

(** What the environment answers: the error of the i-th [Read] of the file,
    how many bytes it may return, and the error of the i-th [Send]. *)
Record ClientEnv := mkClientEnv {
  read_err : nat → option error; read_max : nat → nat; send_err : nat → option error }.

(** How many bytes the i-th [Read] into the 64-byte buffer returns when [rest]
    is left: at least one, unless the file is at its end. *)
Definition read_count (env : ClientEnv) (i : nat) (rest : list byte) : nat :=
  Nat.min (length rest) (Nat.min 64 (Nat.max 1 (read_max env i))).

(** The loop of the client's [UploadFile]: the chunks sent, and the error it
    stops on. Sending serialises the chunk, so that the reuse of the buffer by
    the next [Read] does not change what was sent. [Block]: out of fuel. *)
Fixpoint send_loop (fuel : nat) (env : ClientEnv) (filename : string) (filesize : Z)
    (i : nat) (rest : list byte) (chunkIndex : Z) : outcome (list FileChunk * option error) :=
  match fuel with
  | O => Block
  | S fuel =>
      match read_err env i with
      | Some e => Ret ([], Some (ErrNew "err reading file"))
      | None =>
          if decide (rest = []) then Ret ([], None)
          else
            let n := read_count env i rest in
            let chunk := mkChunk filename (take n rest) chunkIndex
                           (if chunkIndex =? 0 then filesize else 0) in
            match send_err env i with
            | Some e => Ret ([], Some (ErrNew "failed to send chunk GRPC"))
            | None =>
                '(sent, err) ← send_loop fuel env filename filesize (S i) (drop n rest)
                                 (int64 (chunkIndex + 1));
                Ret (chunk :: sent, err)
            end
      end
  end.

(** Each iteration but the last takes at least one byte. *)
Definition send_fuel (content : list byte) : nat := S (length content).

(** The files of the server: [os.Create] makes an empty one, and writes
    append to it. *)
Abbreviation FileSystem := (gmap string (list byte)) (only parsing).

(** What the server's stream yields. *)
Inductive Recv := RecvChunk (chunk : FileChunk) | RecvEOF | RecvErr.

(** The errors of [os.Create], of the i-th write with the number of bytes it
    wrote all the same, and of [Close]. *)
Record ServerEnv := mkServerEnv {
  ts : string; create_err : string → option error;
  write_err : nat → option (error * nat); close_err : option error }.

(** The name the file is saved under, below [uploadDir]. *)
Definition save_path (uploadDir filename ts : string) : string :=
  let ext := Ext filename in
  let fileNameNotExt := default ""%string (Split "." filename !! 0%nat) in
  JoinPath [uploadDir; fileNameNotExt +:+ "_" +:+ ts +:+ ext].

Definition uploadDir : string := "./".

(** The server's [UploadFile] from its [i]-th [Recv] on. [file]: whether the
    file is open. [Block]: it waits for the stream. *)
Fixpoint UploadFile (env : ServerEnv) (recvs : list Recv) (i : nat) (file : bool)
    (filePath : string) (bytesRec : Z) (fs : FileSystem) :
    outcome (result FileUploadResponse * FileSystem) :=
  match recvs with
  | [] => Block
  | RecvEOF :: _ =>
      match (if file then close_err env else None) with
      | Some e => Ret (Err e, fs)
      | None => Ret (Ok (mkResponse true "file uploaded" filePath bytesRec), fs)
      end
  | RecvErr :: _ => Ret (Err (ErrNew "error receiveing file chunks"), fs)
  | RecvChunk chunk :: recvs =>
      let filePath := if file then filePath
                      else save_path uploadDir (Filename chunk) (ts env) in
      match (if file then None else create_err env filePath) with
      | Some e => Ret (Err (ErrNew "couldn't create file"), fs)
      | None =>
          let fs := if file then fs else <[filePath := []]> fs in
          let write k := alter (λ old, old ++ take k (Content chunk)) filePath fs in
          match write_err env i with
          | Some (_, k) => Ret (Err (ErrNew "error writing file chunk"), write k)
          | None =>
              UploadFile env recvs (S i) true filePath
                (int64 (bytesRec + Z.of_nat (length (Content chunk))))
                (write (length (Content chunk)))
          end
      end
  end.

(** A whole session: the client sends its chunks and closes the stream (which
    fails on the server's side when the client stopped on an error), the
    server runs on what was sent, and the client compares the sizes; the
    client's error, what it logs about the sizes, and the server's files. *)
Definition upload_session (cenv : ClientEnv) (senv : ServerEnv) (filename : string)
    (content : list byte) (fs : FileSystem) :
    outcome (option error * option bool * result FileUploadResponse * FileSystem) :=
  let filesize := Z.of_nat (length content) in
  '(chunks, err) ← send_loop (send_fuel content) cenv filename filesize 0 content 0;
  let ending := match err with Some _ => RecvErr | None => RecvEOF end in
  '(resp, fs) ← UploadFile senv ((RecvChunk <$> chunks) ++ [ending]) 0 false "" 0 fs;
  match err, resp with
  | Some e, _ => Ret (Some e, None, resp, fs)
  | None, Err e => Ret (Some (ErrNew "GRPC file streaming server failed"), None, resp, fs)
  | None, Ok r => Ret (None, Some (BytesReceived r =? filesize), resp, fs)
  end.

End Upload.

(** *** Round trip *)

Section UploadFacts.
Import Upload.

Definition no_client_errors (env : ClientEnv) : Prop :=
  ∀ i, read_err env i = None ∧ send_err env i = None.
Definition no_server_errors (env : ServerEnv) : Prop :=
  (∀ p, create_err env p = None) ∧ (∀ i, write_err env i = None) ∧ close_err env = None.

(** The bytes of the chunks. *)
Definition payload (chunks : list FileChunk) : list byte := concat (Content <$> chunks).

Lemma read_count_bounds env i rest :
  rest ≠ [] → (0 < read_count env i rest ≤ length rest)%nat ∧ (read_count env i rest ≤ 64)%nat.
Proof. unfold read_count. destruct rest; [done|]. cbn [length]. lia. Qed.

(** The client's loop ends; what it sent is a prefix of the file, and all of
    it when it stopped without an error. *)
Lemma send_loop_prefix env filename filesize fuel i rest ci :
  (length rest < fuel)%nat →
  ∃ chunks err tail, send_loop fuel env filename filesize i rest ci = Ret (chunks, err) ∧
    rest = payload chunks ++ tail ∧ (err = None → tail = []) ∧
    Forall (λ c, Filename c = filename ∧ (0 < length (Content c) ≤ 64)%nat) chunks ∧
    (no_client_errors env → err = None).
Proof.
  revert i rest ci. induction fuel as [|fuel IH]; intros i rest ci Hf; [lia|].
  cbn [send_loop]. destruct (read_err env i) eqn:Er.
  { exists [], (Some (ErrNew "err reading file")), rest. split_and!; [done|done|done|by constructor|].
    intros He. destruct (He i). congruence. }
  destruct (decide (rest = [])) as [->|Hne]; [by exists [], None, []; split_and!|].
  cbv zeta. destruct (read_count_bounds env i rest Hne) as [Hn H64].
  destruct (send_err env i) eqn:Es.
  { exists [], (Some (ErrNew "failed to send chunk GRPC")), rest.
    split_and!; [done|done|done|by constructor|]. intros He. destruct (He i). congruence. }
  destruct (IH (S i) (drop (read_count env i rest) rest) (int64 (ci + 1)))
    as (chunks & err & tail & Hrun & Hrest & Htail & Hall & Hok); [rewrite length_drop; lia|].
  rewrite Hrun. eexists (_ :: chunks), err, tail. split_and!; [reflexivity| |done| |done].
  - unfold payload. cbn [fmap list_fmap concat Content]. rewrite <- (assoc_L (++)).
    fold (payload chunks). rewrite <- Hrest. by rewrite take_drop.
  - constructor; [|done]. cbn. rewrite length_take. split; [done|lia].
Qed.

Lemma alter_app_app (fs : FileSystem) p (a b : list byte) :
  alter (λ old, old ++ b) p (alter (λ old, old ++ a) p fs) = alter (λ old, old ++ (a ++ b)) p fs.
Proof.
  apply map_eq. intros q. destruct (decide (p = q)) as [<-|].
  - rewrite !lookup_alter_eq. destruct (fs !! p); simpl; [by rewrite (assoc_L (++))|done].
  - by rewrite !lookup_alter_ne.
Qed.

Lemma alter_app_nil (fs : FileSystem) p :
  alter (λ old : list byte, old ++ []) p fs = fs.
Proof.
  apply map_eq. intros q. destruct (decide (p = q)) as [<-|].
  - rewrite lookup_alter_eq. destruct (fs !! p); simpl; [by rewrite app_nil_r|done].
  - by rewrite lookup_alter_ne.
Qed.

(** With the file open, the server appends a prefix of what it receives, and
    all of it when it answers success, which it only does at the end of the
    stream. *)
Lemma UploadFile_open env chunks ending i path b fs :
  0 ≤ b → b + Z.of_nat (length (payload chunks)) ≤ max_int64 →
  ending = RecvEOF ∨ ending = RecvErr →
  ∃ resp k, UploadFile env ((RecvChunk <$> chunks) ++ [ending]) i true path b fs =
      Ret (resp, alter (λ old, old ++ take k (payload chunks)) path fs) ∧
    (∀ r, resp = Ok r → ending = RecvEOF ∧ take k (payload chunks) = payload chunks ∧
       r = mkResponse true "file uploaded" path (b + Z.of_nat (length (payload chunks)))) ∧
    (no_server_errors env → ending = RecvEOF → is_ok resp = true).
Proof.
  revert i b fs. induction chunks as [|c chunks IH]; intros i b fs Hb Hlen Hend.
  - cbn in Hlen. destruct Hend as [-> | ->]; cbn.
    + destruct (close_err env) as [e|] eqn:Ec.
      * exists (Err e), 0%nat. rewrite alter_app_nil. split_and!; try done.
        intros (_ & _ & Hc). congruence.
      * eexists (Ok _), 0%nat. rewrite alter_app_nil. split_and!; [reflexivity| |done].
        intros r [= <-]. split_and!; [done..|]. do 2 f_equal. lia.
    + eexists (Err _), 0%nat. rewrite alter_app_nil. split_and!; [reflexivity|done|done].
  - unfold payload in Hlen |- *. cbn in Hlen |- *. fold (payload chunks) in Hlen |- *.
    rewrite length_app in Hlen. destruct (write_err env i) as [[e k]|] eqn:Ew.
    + assert (take k (Content c) =
        take (Nat.min k (length (Content c))) (Content c ++ payload chunks)) as Htake.
      { rewrite take_app_le by lia.
        destruct (decide (k ≤ length (Content c))%nat); [by rewrite Nat.min_l|].
        rewrite Nat.min_r, !take_ge by lia. done. }
      eexists (Err _), (Nat.min k (length (Content c))).
      rewrite <- Htake. split_and!; [done|done|].
      * intros (_ & Hw & _). specialize (Hw i). congruence.
    + rewrite int64_id by (unfold min_int64; lia).
      destruct (IH (S i) (b + Z.of_nat (length (Content c)))
        (alter (λ old, old ++ take (length (Content c)) (Content c)) path fs))
        as (resp & k & Hrun & Hok & Hsucc); [lia..|done|].
      exists resp, (length (Content c) + k)%nat. rewrite Hrun. split_and!.
      * rewrite alter_app_app, (take_ge (Content c)) by lia.
        by rewrite take_app_add.
      * intros r Hr. destruct (Hok r Hr) as (? & Hk & ->).
        rewrite take_app_add, Hk, length_app. split_and!; [done..|]. f_equal. lia.
      * done.
Qed.

Lemma insert_alter_app (fs : gmap string (list byte)) p (a : list byte) :
  alter (λ old, old ++ a) p (<[p := []]> fs) = <[p := a]> fs.
Proof. by rewrite alter_insert_eq. Qed.

(** The same from the start of the stream, where the first chunk makes the
    file. *)
Lemma UploadFile_start env filename chunks ending fs :
  let path := save_path uploadDir filename (ts env) in
  Z.of_nat (length (payload chunks)) ≤ max_int64 →
  ending = RecvEOF ∨ ending = RecvErr →
  Forall (λ c, Filename c = filename ∧ (0 < length (Content c) ≤ 64)%nat) chunks →
  ∃ resp fs', UploadFile env ((RecvChunk <$> chunks) ++ [ending]) 0 false "" 0 fs =
      Ret (resp, fs') ∧
    (fs' = fs ∨ ∃ k, fs' = <[path := take k (payload chunks)]> fs) ∧
    (∀ r, resp = Ok r → ending = RecvEOF ∧
       if decide (payload chunks = [])
       then fs' = fs ∧ r = mkResponse true "file uploaded" "" 0
       else fs' = <[path := payload chunks]> fs ∧
            r = mkResponse true "file uploaded" path (Z.of_nat (length (payload chunks)))) ∧
    (no_server_errors env → ending = RecvEOF → is_ok resp = true).
Proof.
  intros path Hlen Hend Hall. destruct chunks as [|c chunks].
  - destruct Hend as [-> | ->]; cbn; eexists _, fs; split_and!; try done; try (by left).
    by intros r [= <-].
  - apply Forall_cons in Hall as [[Hname Hc] _].
    cbn [fmap list_fmap app UploadFile]. rewrite Hname. fold path.
    destruct (create_err env path) as [e|] eqn:Ecreate.
    { eexists (Err _), fs. split_and!; [done|by left|done|].
      intros (Hcr & _). specialize (Hcr path). congruence. }
    destruct (UploadFile_open env (c :: chunks) ending 0 path 0 (<[path := []]> fs))
      as (resp & k & Hup & Hok & Hsucc); [lia..|done|].
    cbn [fmap list_fmap app UploadFile] in Hup. rewrite Hup, insert_alter_app.
    eexists resp, _. split_and!; [done|by right; exists k| |done].
    intros r Hr. destruct (Hok r Hr) as (-> & -> & ->). split; [done|].
    rewrite decide_False; [done|]. intros Hnil%(f_equal length).
    unfold payload in Hnil. cbn in Hnil. rewrite length_app in Hnil. lia.
Qed.

(** C21. An upload session always ends, whatever short reads the client makes
    and whatever errors it and the server meet.  The server's files either are
    as before or hold, under the name derived from the file's, a prefix of the
    file's bytes, nothing else changing; when the client reports no error the
    stored file is complete (for an empty file no file is made, although the
    server answers success), the sizes match and the server's answer says so;
    and without errors the client reports none. *)
Theorem upload_session_correct (cenv : ClientEnv) (senv : ServerEnv) (filename : string)
    (content : list byte) (fs : gmap string (list byte)) :
  Z.of_nat (length content) ≤ max_int64 →
  let path := save_path uploadDir filename (ts senv) in
  ∃ cerr matches resp fs',
    upload_session cenv senv filename content fs = Ret (cerr, matches, resp, fs') ∧
    (fs' = fs ∨ ∃ k, fs' = <[path := take k content]> fs) ∧
    (cerr = None → matches = Some true ∧
       if decide (content = [])
       then fs' = fs ∧ resp = Ok (mkResponse true "file uploaded" "" 0)
       else fs' = <[path := content]> fs ∧
            resp = Ok (mkResponse true "file uploaded" path (Z.of_nat (length content)))) ∧
    (no_client_errors cenv → no_server_errors senv → cerr = None).
Proof.
  intros Hlen path. unfold upload_session.
  destruct (send_loop_prefix cenv filename (Z.of_nat (length content)) (send_fuel content)
    0 content 0) as (chunks & err & tail & -> & Hcontent & Htail & Hall & Hnoerr);
    [unfold send_fuel; lia|].
  cbn [mbind outcome_bind].
  set (ending := match err with Some _ => RecvErr | None => RecvEOF end).
  destruct (UploadFile_start senv filename chunks ending fs)
    as (resp & fs' & -> & Hfs & Hok & Hsucc); [| |done|].
  { rewrite Hcontent, length_app in Hlen. lia. }
  { subst ending. destruct err; auto. }
  cbn [mbind outcome_bind]. fold path in Hfs, Hok.
  assert (fs' = fs ∨ ∃ k, fs' = <[path := take k content]> fs) as Hfs'.
  { destruct Hfs as [|[k ->]]; [by left|right].
    exists (Nat.min k (length (payload chunks))). rewrite Hcontent, take_app_le by lia.
    destruct (decide (k ≤ length (payload chunks))%nat); [by rewrite Nat.min_l|].
    rewrite Nat.min_r, !take_ge by lia. done. }
  destruct err as [e|].
  { eexists _, _, _, fs'. split_and!; [done..|]. intros Hc. by specialize (Hnoerr Hc). }
  specialize (Htail eq_refl). subst tail. rewrite app_nil_r in Hcontent. subst content.
  destruct resp as [r|e]; eexists _, _, _, fs'; (split_and!; [done|done| |]); [|done|done|].
  - intros _. destruct (Hok r eq_refl) as [_ Hr]. destruct (decide _) as [Hnil|].
    + destruct Hr as [-> ->]. by rewrite Hnil.
    + destruct Hr as [-> ->]. cbn. by rewrite Z.eqb_refl.
  - intros _ Hs. by specialize (Hsucc Hs eq_refl).
Qed.

(** C35. Where uploads are saved: whatever name a client sends, the path the
    server makes of it stays below the upload directory: it is relative, and
    none of its elements is empty, "." or "..".  (The timestamp is digits and
    underscores.) *)
Theorem upload_path_stays_inside (filename ts : string) :
  count_byte "." ts = 0%nat →
  ∃ comps, save_path uploadDir filename ts = Join "/" comps ∧ comps ≠ [] ∧
    Forall (λ c, c ≠ "" ∧ c ≠ "." ∧ c ≠ ".." ∧ count_byte "/" c = 0%nat)%string comps.
Proof.
  intros Hts. unfold save_path.
  set (stem := default ""%string (Split "." filename !! 0%nat)).
  assert (count_byte "." stem = 0)%nat as Hstem.
  { subst stem. destruct (Split_cons_inv "." filename) as (p & ps & Hs).
    apply (Split_count_head "." filename). by rewrite Hs. }
  set (f := stem +:+ "_" +:+ ts +:+ Ext filename).
  assert (count_byte "." f ≤ 1)%nat as Hdots.
  { subst f. rewrite !count_byte_app, Hstem, Hts. pose proof (Ext_dots filename). simpl. lia. }
  assert (0 < count_byte "_" f)%nat as Hund by (subst f; rewrite !count_byte_app; simpl; lia).
  assert (Forall (λ p, p ≠ "..")%string (Split "/" f)) as Hnodd.
  { apply Forall_forall. intros p Hp ->. rewrite (Split_count "/") in Hdots by done.
    pose proof (sum_list_elem _ _ (list_elem_of_fmap_2 (count_byte ".") _ _ Hp)) as Hsum.
    change (count_byte "." "..") with 2%nat in Hsum. lia. }
  exists (filter (λ p, p ≠ "" ∧ p ≠ ".")%string (Split "/" f)).
  assert (filter (λ p, p ≠ "" ∧ p ≠ ".")%string (Split "/" f) ≠ []) as Hne.
  { rewrite (Split_count "/") in Hund by done.
    apply sum_list_pos in Hund as (n & Hn & Hpos).
    apply list_elem_of_fmap in Hn as (p & -> & Hp).
    intros Hnil. apply (not_elem_of_nil p). rewrite <- Hnil.
    apply list_elem_of_filter. split; [|done]. split; intros ->; simpl in Hpos; lia. }
  split_and!; [|done|].
  - apply JoinPath_dot_slash; [|done..]. intros Hf. rewrite Hf in Hund. simpl in Hund. lia.
  - apply Forall_forall. intros p [Hp Hin]%list_elem_of_filter.
    pose proof (proj1 (Forall_forall _ _) Hnodd _ Hin).
    pose proof (proj1 (Forall_forall _ _) (Split_count_sep "/" f) _ Hin). naive_solver.
Qed.
End UploadFacts.

Definition demo_client : Upload.ClientEnv :=
  Upload.mkClientEnv (λ _, None) (λ i, S i) (λ _, None).
Definition demo_server : Upload.ServerEnv :=
  Upload.mkServerEnv "5_1" (λ _, None) (λ _, None) None.

Example upload_ex :
  Upload.upload_session demo_client demo_server "a/report.tar.gz" (replicate 100 x61) ∅ =
  Ret (None, Some true,
    Ok (Upload.mkResponse true "file uploaded" "a/report_5_1.gz" 100),
    {["a/report_5_1.gz"%string := replicate 100 x61]}).
Proof. vm_compute. reflexivity. Qed.

Lemma upload_session_correct_witness :
  Z.of_nat (length (replicate 100 x61)) ≤ max_int64 ∧
  ∃ cerr matches resp fs',
    Upload.upload_session demo_client demo_server "r.xlsx" (replicate 100 x61) ∅ =
      Ret (cerr, matches, resp, fs') ∧ cerr = None.
Proof.
  split; [vm_compute; congruence|].
  destruct (upload_session_correct demo_client demo_server "r.xlsx" (replicate 100 x61) ∅)
    as (cerr & matches & resp & fs' & Hrun & _ & _ & Hok); [vm_compute; congruence|].
  exists cerr, matches, resp, fs'. split; [exact Hrun|]. apply Hok; repeat split.
Defined.

Lemma upload_path_stays_inside_witness :
  count_byte "." "5_1" = 0%nat ∧
  ∃ comps, Upload.save_path Upload.uploadDir "../../etc/passwd" "5_1" = Join "/" comps ∧
    comps ≠ [] ∧ Forall (λ c, c ≠ "..")%string comps.
Proof.
  split; [reflexivity|].
  destruct (upload_path_stays_inside "../../etc/passwd" "5_1" eq_refl) as (comps & H & Hne & Hall).
  exists comps. split; [exact H|]. split; [exact Hne|].
  eapply Forall_impl; [exact Hall|]. intros c Hc. exact (proj1 (proj2 (proj2 Hc))).
Defined.

(** ** The event bus *)

Module EventBus.
Section Bus.
(** The event type is a pointer; [nil] is its zero value. *)
Context {T : Type} (nil : T).

(** Where a goroutine running [processEvent] stands: at its [select], inside
    the handler, or returned. *)
Inductive Proc := PIdle | PHandling (v : T) | PExited.

(** A handler is a name; [dataCH] is what the channel (capacity 32) holds. *)
Record EventBusSub := mkSub {
  dataCH : list T; closed : bool; ctxDone : bool; handler : nat; procs : list Proc }.

Definition NewEventBusSub (handler : nat) : EventBusSub := mkSub [] false false handler [].

(** [subMap] and [subs] share the subscriptions. *)
Record InMemoryAggregatorEventBus := mkBus {
  subMap : gmap string EventBusSub; subs : list string; isActive : bool }.

Definition NewInMemoryAggregatorEventBus : InMemoryAggregatorEventBus := mkBus ∅ [] true.

Definition set_sub (topic : string) (sub : EventBusSub) (eb : InMemoryAggregatorEventBus) : InMemoryAggregatorEventBus :=
  mkBus (<[topic := sub]> (subMap eb)) (subs eb) (isActive eb).

(** [Publish]; the flag says whether the topic had a subscriber. *)
Definition Publish (topic : string) (data : T) (eb : InMemoryAggregatorEventBus) : outcome (InMemoryAggregatorEventBus * bool) :=
  match subMap eb !! topic with
  | None => Ret (eb, false)
  | Some sub =>
      if closed sub then Panic "send on closed channel"
      else if (length (dataCH sub) <? 32)%nat then
        Ret (set_sub topic (mkSub (dataCH sub ++ [data]) false (ctxDone sub) (handler sub)
                              (procs sub)) eb, true)
      else Block
  end.

(** [Subscribe] starts one more goroutine on the topic's subscription. *)
Definition Subscribe (topic : string) (h : nat) (eb : InMemoryAggregatorEventBus) : InMemoryAggregatorEventBus :=
  match subMap eb !! topic with
  | Some sub =>
      set_sub topic (mkSub (dataCH sub) (closed sub) (ctxDone sub) h (procs sub ++ [PIdle])) eb
  | None =>
      mkBus (<[topic := mkSub [] false false h [PIdle]]> (subMap eb)) (subs eb ++ [topic])
        (isActive eb)
  end.

(** What a [processEvent] goroutine can do: take an event (a closed empty
    channel yields nil), see its handler return, leave on its context. *)
Inductive ProcEvent := PrTake | PrReturn | PrDone.

(** One step of the goroutine [i] of the subscription, with the call of the
    handler it makes. *)
Definition processEvent (ev : ProcEvent) (topic : string) (i : nat) (eb : InMemoryAggregatorEventBus) :
    outcome (InMemoryAggregatorEventBus * option (nat * T)) :=
  match subMap eb !! topic with
  | None => Block
  | Some sub =>
      let step d c p := mkSub d c (ctxDone sub) (handler sub) (<[i := p]> (procs sub)) in
      match procs sub !! i, ev with
      | Some PIdle, PrTake =>
          match dataCH sub with
          | v :: rest =>
              Ret (set_sub topic (step rest (closed sub) (PHandling v)) eb, Some (handler sub, v))
          | [] =>
              if closed sub
              then Ret (set_sub topic (step [] true (PHandling nil)) eb, Some (handler sub, nil))
              else Block
          end
      | Some (PHandling v), PrReturn =>
          Ret (set_sub topic (step (dataCH sub) (closed sub) PIdle) eb, None)
      | Some PIdle, PrDone =>
          if ctxDone sub then
            if closed sub then Panic "close of closed channel"
            else Ret (mkBus (<[topic := step (dataCH sub) true PExited]> (subMap eb))
                        (subs eb) false, None)
          else Block
      | _, _ => Block
      end
  end.

(** [Close] cancels the context of every subscription. *)
Definition cancel (topic : string) (eb : InMemoryAggregatorEventBus) : InMemoryAggregatorEventBus :=
  match subMap eb !! topic with
  | None => eb
  | Some sub =>
      set_sub topic (mkSub (dataCH sub) (closed sub) true (handler sub) (procs sub)) eb
  end.

Definition Close (eb : InMemoryAggregatorEventBus) : InMemoryAggregatorEventBus := foldl (λ eb topic, cancel topic eb) eb (subs eb).

Definition IsActive (eb : InMemoryAggregatorEventBus) : bool := isActive eb.

(** *** Executions *)

(** A run with a record of what each topic accepted and of the handler calls,
    oldest first. *)
Record System := mkSystem {
  bus : InMemoryAggregatorEventBus; published : list (string * T); called : list (string * (nat * T)) }.

Definition init : System := mkSystem NewInMemoryAggregatorEventBus [] [].

(** The steps of a program that subscribes at most once to a topic. *)
Inductive bus_step : System → System → Prop :=
| step_publish s t v eb ok :
    Publish t v (bus s) = Ret (eb, ok) →
    bus_step s (mkSystem eb (if ok then published s ++ [(t, v)] else published s) (called s))
| step_subscribe s t h :
    subMap (bus s) !! t = None →
    bus_step s (mkSystem (Subscribe t h (bus s)) (published s) (called s))
| step_process s ev t i eb call :
    processEvent ev t i (bus s) = Ret (eb, call) →
    bus_step s (mkSystem eb (published s)
      (match call with Some c => called s ++ [(t, c)] | None => called s end))
| step_close s : bus_step s (mkSystem (Close (bus s)) (published s) (called s)).

(** What concerns one topic. *)
Definition on_topic {A} (t : string) (l : list (string * A)) : list A :=
  snd <$> filter (λ x, x.1 = t) l.
End Bus.
End EventBus.

Section BusFacts.
Import EventBus.
Context {T : Type} (nil : T).
Implicit Types (eb : @InMemoryAggregatorEventBus T) (s : @System T).

Definition cancelled (done : bool) (sub : @EventBusSub T) : EventBusSub :=
  mkSub (dataCH sub) (closed sub) (ctxDone sub || done) (handler sub) (procs sub).

Lemma foldl_cancel_lookup l eb t :
  subMap (foldl (λ eb topic, cancel topic eb) eb l) !! t =
    cancelled (bool_decide (t ∈ l)) <$> subMap eb !! t.
Proof.
  revert eb. induction l as [|u l IH]; intros eb; cbn [foldl].
  - destruct (subMap eb !! t) as [[]|]; simpl; [|done].
    unfold cancelled. simpl. by rewrite orb_false_r.
  - rewrite IH. unfold cancel. destruct (decide (t = u)) as [->|Hne].
    + rewrite (bool_decide_true (u ∈ u :: l)) by (by left).
      destruct (subMap eb !! u) as [sub|] eqn:Hu; [|by rewrite Hu].
      unfold set_sub. cbn [subMap]. rewrite lookup_insert_eq. cbn.
      unfold cancelled. cbn. by rewrite orb_true_r.
    + rewrite (bool_decide_ext (t ∈ u :: l) (t ∈ l)) by (rewrite elem_of_cons; naive_solver).
      destruct (subMap eb !! u); [|done]. unfold set_sub. cbn [subMap].
      by rewrite lookup_insert_ne.
Qed.

Lemma Close_lookup eb t :
  subMap (Close eb) !! t = cancelled (bool_decide (t ∈ subs eb)) <$> subMap eb !! t.
Proof. apply foldl_cancel_lookup. Qed.

Lemma on_topic_snoc {A} t u (l : list (string * A)) a :
  on_topic t (l ++ [(u, a)]) = if decide (u = t) then on_topic t l ++ [a] else on_topic t l.
Proof.
  unfold on_topic. rewrite filter_app, fmap_app. destruct (decide (u = t)).
  - by rewrite filter_cons_True.
  - rewrite filter_cons_False by done. by rewrite filter_nil, app_nil_r.
Qed.

(** One goroutine serves the subscription, which alone closes its channel; what
    was published is what the handler was called on, then what is queued. *)
Record sub_inv (sub : @EventBusSub T) (pub : list T) (calls : list (nat * T)) : Prop := {
  si_one : ∃ p, procs sub = [p] ∧ (closed sub = true ↔ p = PExited);
  si_order : pub = (snd <$> calls) ++ dataCH sub;
  si_handler : Forall (λ c, c.1 = handler sub) calls;
}.

Definition bus_inv s : Prop := ∀ t,
  match subMap (bus s) !! t with
  | Some sub => sub_inv sub (on_topic t (published s)) (on_topic t (called s))
  | None => on_topic t (published s) = [] ∧ on_topic t (called s) = []
  end.

(** What a step of a goroutine of a topic does to that topic's subscription,
    the other topics being untouched. *)
Lemma processEvent_inv ev t i eb eb' call sub pub calls :
  processEvent nil ev t i eb = Ret (eb', call) →
  subMap eb !! t = Some sub → sub_inv sub pub calls →
  ∃ sub', subMap eb' = <[t := sub']> (subMap eb) ∧
    sub_inv sub' pub (calls ++ option_list call).
Proof.
  intros Hstep Hsub [(p & Hp & Hcl) Hord Hh]. unfold processEvent in Hstep.
  rewrite Hsub, Hp in Hstep. destruct i as [|i]; [|by destruct ev].
  destruct p, ev; try done; cbn in Hstep.
  - destruct (dataCH sub) as [|v rest] eqn:Hd.
    { destruct (closed sub); [|done]. discriminate (proj1 Hcl eq_refl). }
    simplify_eq. eexists. split; [done|]. split; cbn.
    + exists (PHandling v). split; [done|]. split; [intros Hc; discriminate (proj1 Hcl Hc)|done].
    + rewrite fmap_app. cbn. by rewrite <- (assoc_L (++)).
    + apply Forall_app. split; [done|]. by repeat constructor.
  - destruct (ctxDone sub); [|done]. destruct (closed sub); [done|]. simplify_eq.
    eexists. split; [done|]. rewrite app_nil_r. split; cbn; [by exists PExited|done|done].
  - simplify_eq. eexists. split; [done|]. rewrite app_nil_r. split; cbn; [|done|done].
    exists PIdle. split; [done|]. split; [intros Hc; discriminate (proj1 Hcl Hc)|done].
Qed.

Lemma processEvent_none ev t i eb eb' call :
  processEvent nil ev t i eb = Ret (eb', call) → is_Some (subMap eb !! t).
Proof. unfold processEvent. destruct (subMap eb !! t); [by eauto|done]. Qed.

Lemma on_topic_option t u (l : list (string * (nat * T))) (c : option (nat * T)) :
  on_topic t (match c with Some c => l ++ [(u, c)] | None => l end) =
    if decide (u = t) then on_topic t l ++ option_list c else on_topic t l.
Proof.
  destruct c as [c|]; [apply on_topic_snoc|]. rewrite app_nil_r. by destruct (decide _).
Qed.

Lemma bus_step_inv s s' : bus_inv s → bus_step nil s s' → bus_inv s'.
Proof.
  intros Hinv Hstep t. specialize (Hinv t).
  destruct Hstep as [s u v eb ok Hp|s u h Hu|s ev u i eb call Hp|s]; cbn [bus published called].
  - unfold Publish in Hp. destruct (subMap (bus s) !! u) as [sub|] eqn:Hu; [|by simplify_eq].
    destruct (closed sub) eqn:Hcl; [done|]. destruct (_ <? _)%nat; [|done]. simplify_eq.
    cbn [set_sub subMap]. rewrite on_topic_snoc. destruct (decide (u = t)) as [->|Hne].
    + rewrite lookup_insert_eq. rewrite Hu in Hinv. destruct Hinv as [Hone Hord Hh].
      split; cbn; [by rewrite <- Hcl| |done]. by rewrite Hord, (assoc_L (++)).
    + by rewrite lookup_insert_ne.
  - unfold Subscribe. rewrite Hu. cbn [subMap]. destruct (decide (u = t)) as [->|Hne].
    + rewrite lookup_insert_eq. rewrite Hu in Hinv. destruct Hinv as [Hpub Hcall].
      split; cbn; [by exists PIdle|by rewrite Hpub, Hcall|by rewrite Hcall].
    + by rewrite lookup_insert_ne.
  - destruct (processEvent_none _ _ _ _ _ _ Hp) as [sub Hu]. rewrite on_topic_option.
    destruct (decide (u = t)) as [->|Hne].
    + rewrite Hu in Hinv. destruct (processEvent_inv _ _ _ _ _ _ _ _ _ Hp Hu Hinv)
        as (sub' & -> & Hsub'). by rewrite lookup_insert_eq.
    + assert (subMap eb !! t = subMap (bus s) !! t) as ->; [|done].
      unfold processEvent in Hp. rewrite Hu in Hp.
      repeat case_go; simplify_eq; unfold set_sub; cbn [subMap]; by rewrite lookup_insert_ne.
  - rewrite Close_lookup. destruct (subMap (bus s) !! t) as [sub|]; [|done].
    cbn. by destruct Hinv.
Qed.

(** C22. A program that subscribes at most once to a topic gets its events in
    order, each once: in every interleaving of publications, handler
    goroutines, new subscriptions and the closing of the bus, what a
    subscribed topic accepted is exactly what its handler was called on so far
    followed by what is queued, every call went to the handler of the
    subscription, and no goroutine of the bus can panic. *)
Theorem event_bus_in_order s t sub :
  rtc (bus_step nil) init s → subMap (bus s) !! t = Some sub →
  on_topic t (published s) = (snd <$> on_topic t (called s)) ++ dataCH sub ∧
  Forall (λ c, c.1 = handler sub) (on_topic t (called s)) ∧
  ∀ ev i e, processEvent nil ev t i (bus s) ≠ Panic e.
Proof.
  intros Hrun Hsub.
  assert (bus_inv s) as Hinv.
  { eapply rtc_invariant; [|exact Hrun|].
    - intros a b Ha Hab. by eapply bus_step_inv.
    - intros u. cbn. by rewrite lookup_empty. }
  specialize (Hinv t). rewrite Hsub in Hinv. destruct Hinv as [(p & Hp & Hcl) Hord Hh].
  split_and!; [done|done|]. intros ev i e He. unfold processEvent in He.
  rewrite Hsub, Hp in He. destruct i as [|i]; [|by destruct ev]. cbn in He.
  destruct p, ev; try done; repeat case_go; simplify_eq.
  by discriminate (proj1 Hcl eq_refl).
Qed.

(** A cancelled goroutine that finds the channel open leaves and closes it; one
    that finds it closed panics. *)
Lemma processEvent_done eb t i sub :
  subMap eb !! t = Some sub → procs sub !! i = Some PIdle → ctxDone sub = true →
  if closed sub then processEvent nil PrDone t i eb = Panic "close of closed channel"
  else ∃ eb', processEvent nil PrDone t i eb = Ret (eb', None) ∧
    subMap eb' !! t = Some (mkSub (dataCH sub) true true (handler sub) (<[i := PExited]> (procs sub))).
Proof.
  intros Hsub Hi Hdone. unfold processEvent. rewrite Hsub, Hi, Hdone.
  destruct (closed sub); [done|]. eexists. split; [done|]. cbn [subMap].
  by rewrite lookup_insert_eq.
Qed.

(** Closing the bus: once the goroutine of a topic has left, publishing on
    the topic panics instead of reporting that there is no subscriber; and a
    topic whose handler was overwritten by a second [Subscribe] has two
    goroutines, of which the second to leave panics. *)
Theorem closing_the_bus_panics eb t h1 h2 v :
  subMap eb !! t = None → t ∉ subs eb →
  (∃ eb', processEvent nil PrDone t 0 (Close (Subscribe t h1 eb)) = Ret (eb', None) ∧
     Publish t v eb' = Panic "send on closed channel") ∧
  (∃ eb', processEvent nil PrDone t 0 (Close (Subscribe t h2 (Subscribe t h1 eb))) =
       Ret (eb', None) ∧
     processEvent nil PrDone t 1 eb' = Panic "close of closed channel").
Proof.
  intros Ht Hsubs. set (eb1 := Subscribe t h1 eb).
  assert (subMap eb1 !! t = Some (mkSub [] false false h1 [PIdle]) ∧ t ∈ subs eb1) as [H1 Hin].
  { subst eb1. unfold Subscribe. rewrite Ht. cbn [subMap subs].
    rewrite lookup_insert_eq. split; [done|set_solver]. }
  set (eb2 := Subscribe t h2 eb1).
  assert (subMap eb2 !! t = Some (mkSub [] false false h2 [PIdle; PIdle]) ∧ t ∈ subs eb2)
    as [H2 Hin2].
  { subst eb2. unfold Subscribe. rewrite H1. unfold set_sub. cbn [subMap subs].
    by rewrite lookup_insert_eq. }
  split.
  - destruct (processEvent_done (Close eb1) t 0 (mkSub [] false true h1 [PIdle]))
      as (eb' & Hrun & Hsub); [by rewrite Close_lookup, H1, bool_decide_true|done..|].
    exists eb'. split; [done|]. unfold Publish. by rewrite Hsub.
  - destruct (processEvent_done (Close eb2) t 0 (mkSub [] false true h2 [PIdle; PIdle]))
      as (eb' & Hrun & Hsub); [by rewrite Close_lookup, H2, bool_decide_true|done..|].
    exists eb'. split; [done|]. by apply (processEvent_done eb' t 1 _ Hsub).
Qed.
End BusFacts.

(** A bus with one topic, one event taken and one queued. *)
Lemma event_bus_in_order_witness :
  ∃ (s : @EventBus.System Z) sub,
    rtc (EventBus.bus_step 0) EventBus.init s ∧
    EventBus.subMap (EventBus.bus s) !! "t"%string = Some sub ∧
    EventBus.on_topic "t" (EventBus.published s) = [5; 6] ∧
    EventBus.on_topic "t" (EventBus.published s) =
      (snd <$> EventBus.on_topic "t" (EventBus.called s)) ++ EventBus.dataCH sub.
Proof.
  eexists _, _.
  match goal with |- ?A ∧ ?B ∧ ?C ∧ ?D => assert (A ∧ B ∧ C) as (Ha & Hb & Hc) end.
  { split_and!.
    - eapply rtc_l; [apply EventBus.step_subscribe with (t := "t"%string) (h := 1%nat); reflexivity|].
      eapply rtc_l; [apply EventBus.step_publish with (t := "t"%string) (v := 5); reflexivity|].
      eapply rtc_l; [apply EventBus.step_publish with (t := "t"%string) (v := 6); reflexivity|].
      eapply rtc_l; [apply EventBus.step_process with (ev := EventBus.PrTake) (t := "t"%string)
        (i := 0%nat); reflexivity|].
      apply rtc_refl.
    - reflexivity.
    - reflexivity. }
  exact (conj Ha (conj Hb (conj Hc (proj1 (event_bus_in_order 0 _ "t" _ Ha Hb))))).
Defined.

Lemma closing_the_bus_panics_witness :
  EventBus.subMap (@EventBus.NewInMemoryAggregatorEventBus Z) !! "t"%string = None ∧
  ∃ eb', EventBus.processEvent 0 EventBus.PrDone "t" 1 eb' = Panic "close of closed channel".
Proof.
  split; [reflexivity|].
  destruct (closing_the_bus_panics 0 EventBus.NewInMemoryAggregatorEventBus "t" 1 2 7)
    as [_ (eb' & _ & H)]; [reflexivity|apply not_elem_of_nil|].
  exists eb'. exact H.
Defined.
