(* ===== verification/Aggregator.v ===== *)
(** * The data aggregator and the invoicer (protocol-playground/)

    data-aggregator/service.go and store.go, the transports between the two
    programs (transport/grpc/grpc-client.go, transport/http/http-client.go,
    invoicer/transport/grpc/grpc-server.go, invoicer/transport/http/http-server.go)
    and invoicer/invoice-service.go; the reading loops of the aggregator's
    Kafka consumer (msg-broker.go) and of the receiver (data-receiver/main.go).
    Generated identifiers, the clock, what the network does and what JSON
    decodes to are arguments. *)

From S2P Require Import Prelude GoSem GoFloat.
From Stdlib Require Import SpecFloat.

(** ** Data (shared/types.go) *)

Record Distance := mkDistance { D_ID : string; Value : float64; Timestamp : Z }.
Record Invoice := mkInvoice { I_ID : string; Amount : float64; Category : string }.
Record SensorData := mkSensorData { SensorID : string; Lat : float64; Lng : float64 }.

Definition CategoryDistance : string := "distance".
Definition NewInvoice (uuid : string) (amount : float64) (category : string) : Invoice :=
  mkInvoice uuid amount category.

(** The zero value of [shared.Distance]. *)
Definition Distance_zero : Distance := mkDistance "" (S754_zero false) 0.

(** ** The store *)

Definition InMemoryStore : Type := list Distance.
Definition NewInMemoryStore : InMemoryStore := [].
Definition Insert (d : Distance) (s : InMemoryStore) : string * InMemoryStore := (D_ID d, s ++ [d]).
Fixpoint GetDistance (id : string) (s : InMemoryStore) : Distance :=
  match s with
  | [] => Distance_zero
  | v :: s => if decide (D_ID v = id) then v else GetDistance id s
  end.

(** ** The invoice service *)

Definition InvoiceService : Type := list Invoice.
Definition NewInvoiceService : InvoiceService := [].
Definition Invoice_DefaultRate : float64 := float_of_Z 2.
Definition SaveInvoice (uuid : string) (d : Distance) (svc : InvoiceService) : Invoice * InvoiceService :=
  let amount := fmul (Value d) Invoice_DefaultRate in
  let inv := NewInvoice uuid amount CategoryDistance in
  (inv, svc ++ [inv]).
Fixpoint GetInvoice (id : string) (svc : InvoiceService) : result Invoice :=
  match svc with
  | [] => Err (ErrNew ("invoice with ID: " +:+ id +:+ " does not exists"))
  | v :: svc => if decide (I_ID v = id) then Ok v else GetInvoice id svc
  end.

(** ** gRPC *)

Module Grpc.

(** [shared.DistanceProto] (the timestamp is an [int32]), [shared.InvoiceProto]
    and [shared.SaveInvoiceResponse]. *)
Record DistanceProto := mkDistanceProto { P_ID : string; P_Value : float64; P_Timestamp : Z }.
Record InvoiceProto := mkInvoiceProto { IP_ID : string; IP_Amount : float64; IP_Category : string }.
Record SaveInvoiceResponse := mkSaveResponse { Success : bool; Msg : string }.

(** What happens to a call: it reaches the server and the answer comes back; it
    does not reach the server; or the answer is lost. *)
Inductive net := Delivered | NotSent (e : error) | NoReply (e : error).

(** The server's handlers.  The distance of a request may be missing: its
    getters then give zero values, the direct access to [Timestamp] panics. *)
Definition GetID (p : option DistanceProto) : string := from_option P_ID "" p.
Definition GetValue (p : option DistanceProto) : float64 := from_option P_Value (S754_zero false) p.
Definition Server_SaveInvoice (uuid : string) (req : option DistanceProto) (svc : InvoiceService) :
    outcome (result SaveInvoiceResponse * InvoiceService) :=
  timestamp ← match req with
              | None => Panic "invalid memory address or nil pointer dereference"
              | Some p => Ret (P_Timestamp p)
              end;
  let d := mkDistance (GetID req) (GetValue req) timestamp in
  let '(i, svc) := SaveInvoice uuid d svc in
  Ret (Ok (mkSaveResponse true (Category i)), svc).
Definition Server_GetInvoice (id : string) (svc : InvoiceService) : result InvoiceProto :=
  match GetInvoice id svc with
  | Ok inv => Ok (mkInvoiceProto (I_ID inv) (Amount inv) (Category inv))
  | Err _ => Err (ErrNew "invoice does not exist")
  end.

(** The client's calls; [status] is the error the library makes of a handler's
    error. *)
Definition to_proto (d : Distance) : DistanceProto :=
  mkDistanceProto (D_ID d) (Value d) (int32 (Timestamp d)).
Definition Client_SaveInvoice (status : error → error) (n : net) (uuid : string) (d : Distance)
    (svc : InvoiceService) : outcome (option error * InvoiceService) :=
  match n with
  | NotSent e => Ret (Some e, svc)
  | NoReply e => '(_, svc) ← Server_SaveInvoice uuid (Some (to_proto d)) svc; Ret (Some e, svc)
  | Delivered =>
      '(resp, svc) ← Server_SaveInvoice uuid (Some (to_proto d)) svc;
      Ret (match resp with
           | Err e => Some (status e)
           | Ok resp => if Success resp then None else Some (ErrNew (Msg resp))
           end, svc)
  end.
Definition Client_GetInvoice (status : error → error) (n : net) (id : string) (svc : InvoiceService) :
    result Invoice :=
  match n with
  | NotSent e | NoReply e => Err e
  | Delivered =>
      match Server_GetInvoice id svc with
      | Err e => Err (status e)
      | Ok p => Ok (mkInvoice (IP_ID p) (IP_Amount p) (IP_Category p))
      end
  end.

(** The server's end of the bidirectional stream: it sends back what it
    receives until [Recv] fails; [send_err i] is the error of the i-th [Send]
    (only logged). *)
Inductive recv (A : Type) := RMsg (a : A) | RErr (e : error).
Arguments RMsg {A} a.
Arguments RErr {A} e.
Fixpoint SensorDataStream (send_err : nat → bool) (i : nat) (recvs : list (recv SensorData)) :
    outcome (error * list SensorData) :=
  match recvs with
  | [] => Block
  | RErr e :: _ => Ret (e, [])
  | RMsg data :: recvs =>
      '(e, sent) ← SensorDataStream send_err (S i) recvs;
      Ret (e, if send_err i then sent else data :: sent)
  end.

(** The client's [AcceptWSLoop] ranges over [dataCH] until it is closed, and
    closes it again when it returns. *)
Definition AcceptWSLoop (data : list SensorData) (closed : bool) : outcome unit :=
  if closed then Panic "close of closed channel" else Block.

(** What the client's [Recv] can answer: a message (with or without headers),
    a status, or an error that is not a status, as [io.EOF] is. *)
Inductive server_answer := SMsg (headers_ok : bool) | SStatus (code : Z) | SNotStatus.
Definition Unavailable : Z := 14.
Definition DeadlineExceeded : Z := 4.
Fixpoint ReadServerLoop (answers : list server_answer) : outcome unit :=
  match answers with
  | [] => Block
  | SNotStatus :: answers => ReadServerLoop answers
  | SStatus code :: answers =>
      if (code =? Unavailable) || (code =? DeadlineExceeded) then Ret tt
      else ReadServerLoop answers
  | SMsg _ :: answers => ReadServerLoop answers
  end.

End Grpc.

(** ** HTTP *)

Module Http.

(** A response: the status and the headers as they were at [WriteHeader] (later
    changes of the header map are not sent), and the bodies written. *)
Record Response := mkResponse { status : option Z; sent : list (string * string);
  header : list (string * string); body : list string }.
Definition no_response : Response := mkResponse None [] [] [].
Definition WriteHeader (code : Z) (w : Response) : Response :=
  match status w with
  | Some _ => w
  | None => mkResponse (Some code) (header w) (header w) (body w)
  end.
Definition HeaderAdd (k v : string) (w : Response) : Response :=
  mkResponse (status w) (sent w) (header w ++ [(k, v)]) (body w).
Definition Write (s : string) (w : Response) : Response :=
  let w := WriteHeader 200 w in mkResponse (status w) (sent w) (header w) (body w ++ [s]).
Definition writeJSON (code : Z) (v : string) (w : Response) : Response :=
  Write v (HeaderAdd "Content-Type" "applicaiton/json" (WriteHeader code w)).

(** The server's handler: [read_err] is the error of reading the body, [parsed]
    what [json.Unmarshal] left in the distance and whether it failed, and [enc]
    the JSON of an invoice. *)
Definition Server_SaveInvoice (enc : Invoice → string) (method : string) (read_err : bool)
    (parsed : Distance * bool) (uuid : string) (w : Response) (svc : InvoiceService) :
    Response * InvoiceService :=
  if decide (method = "POST") then
    let w := if read_err then writeJSON 400 "Invalid payload" w else w in
    let '(d, json_err) := parsed in
    let w := if json_err : bool then writeJSON 400 "Invalid payload" w else w in
    let '(invoice, svc) := SaveInvoice uuid d svc in
    (writeJSON 200 (enc invoice) w, svc)
  else (writeJSON 404 (method +:+ " does not exist") w, svc).

(** The client's call over the answer of [http.Post]. *)
Definition Client_SaveInvoice (marshal_err : option error) (post : result Z) : option error :=
  match marshal_err with
  | Some e => Some e
  | None =>
      match post with
      | Err _ => None
      | Ok code => if code =? 200 then None else Some (ErrNew ("response is non 200 status, received " +:+ pretty code))
      end
  end.

(** The aggregator's handlers (data-aggregator/handlers.go). *)
Definition handleGetDistance (enc : Distance → string) (id : string) (s : InMemoryStore) : Response :=
  writeJSON 200 (enc (GetDistance id s)) no_response.
Definition handleGetInvoice (enc : Invoice → string) (inv : result Invoice) : Response :=
  match inv with
  | Err _ => writeJSON 400 "request failed to fetch invoice" no_response
  | Ok d => writeJSON 200 (enc d) no_response
  end.

End Http.

(** ** The aggregator *)

(** [math.Pow(x, 2)]: the mantissa in [0.5, 1) squared and normalised, then
    scaled. *)
Definition Pow2 (x : float64) : float64 :=
  match x with
  | S754_nan => S754_nan
  | S754_zero _ => S754_zero false
  | S754_infinity _ => S754_infinity false
  | S754_finite _ _ _ =>
      let '(x1, xe) := SFfrexp prec emax x in
      let x1 := fmul x1 x1 in
      let xe := 2 * xe in
      let '(x1, xe) := if fltb x1 (float_of_dyadic 1 (-1)) then (fadd x1 x1, xe - 1) else (x1, xe) in
      SFldexp prec emax (fmul (float_of_Z 1) x1) xe
  end.

Definition Point : Type := float64 * float64.
Definition getDistanceBetweenPoints (p1 p2 : Point) : float64 :=
  fsqrt (fadd (Pow2 (fsub p1.1 p2.1)) (Pow2 (fsub p1.2 p2.2))).

(** [points] is a Go array of two points, zero at the start; the store is
    shared with the HTTP handlers. *)
Record AggregatorService := mkAggregator { points : Point * Point; store : InMemoryStore }.
Definition origin : Point := (S754_zero false, S754_zero false).
Definition NewAggregatorService (store : InMemoryStore) : AggregatorService :=
  mkAggregator (origin, origin) store.

(** The length of the array [points]. *)
Definition len_points : Z := 2.

(** [AggregateDistance] with its call of the invoicer (over gRPC), whose error
    it ignores. *)
Definition AggregateDistance (status : error → error) (now : Z) (n : Grpc.net) (uuid : string)
    (data : SensorData) : GO (AggregatorService * InvoiceService) (option error) := λ '(svc, inv),
  if len_points =? 0 then
    Ret (None, (mkAggregator ((Lat data, Lng data), (points svc).2) (store svc), inv))
  else
    let p1 := (points svc).1 in
    let p0 := (Lat data, Lng data) in
    let distance := getDistanceBetweenPoints p0 p1 in
    let d := mkDistance "" distance now in
    let '(_, s) := Insert d (store svc) in
    '(_, inv) ← Grpc.Client_SaveInvoice status n uuid d inv;
    Ret (None, (mkAggregator (p0, p1) s, inv)).

(** The handler of the other domain event: it fails at random ([rand.Intn(10)]
    below 5), and changes nothing. *)
Definition ProcessSensorDataForPayment (errVal : Z) (d : SensorData) : option error :=
  if errVal <? 5 then Some (ErrNew "random error for testing in ProcessSensorDataForPayment") else None.

(** A sequence of sensor events, each with the reading of the clock, the fate of
    the call and the identifier generated for it. *)
Record sensor_event := mkEvent { at_time : Z; network : Grpc.net; new_uuid : string; sensor : SensorData }.
Definition aggregate_all (status : error → error) (evs : list sensor_event) :
    GO (AggregatorService * InvoiceService) unit :=
  go_for evs (λ e,
    AggregateDistance status (at_time e) (network e) (new_uuid e) (sensor e) ;;' go_ret tt).

Example Pow2_example : Pow2 (float_of_Z (-3)) = float_of_Z 9.
Proof. vm_compute. reflexivity. Qed.

(** ** Reading loops *)

Module Loops.

(** The aggregator's Kafka consumer: whether the bus is active, and what
    [ReadMessage] answers. *)
Inductive message := MErr | MValue (topic : string) (value : string).
Definition AggregateDistanceDomainEvent : string := "aggregate-distance-domain-event".
Definition CalculatePaymentDomainEvent : string := "calculate-payment-domain-event".
Definition Kafka_DefaultTopic : string := "sensor_data3".
Definition mapTopicToDomainEvent (topic : string) : result (list string) :=
  if decide (topic = Kafka_DefaultTopic)
  then Ok [AggregateDistanceDomainEvent; CalculatePaymentDomainEvent]
  else Err (ErrNew "domain event for kafka topic does not exist").

(** A message that was read: the data and the events to publish it under. *)
Definition read_one (decode : string → option SensorData) (topic value : string) :
    option (SensorData * list string) :=
  match decode value with
  | None => None
  | Some data =>
      match mapTopicToDomainEvent topic with Err _ => None | Ok events => Some (data, events) end
  end.

(** [ReadMessageLoop]: the publications it starts (each in a goroutine of its
    own, so that their order is lost); the process exits when it returns. *)
Fixpoint ReadMessageLoop (decode : string → option SensorData) (answers : list (bool * message)) :
    outcome (list (string * SensorData)) :=
  match answers with
  | [] => Block
  | (false, _) :: _ => Ret []
  | (true, MErr) :: answers => ReadMessageLoop decode answers
  | (true, MValue topic value) :: answers =>
      rest ← ReadMessageLoop decode answers;
      Ret (match read_one decode topic value with
           | None => rest
           | Some (data, events) => ((λ e, (e, data)) <$> events) ++ rest
           end)
  end.

(** The receiver's websocket: a message, the close of the connection with its
    code, or another error. *)
Inductive ws_read := WMsg (bytes : string) | WClosed (code : Z) | WErr.
Definition CloseGoingAway : Z := 1001.
Definition CloseAbnormalClosure : Z := 1006.
Definition IsUnexpectedCloseError (r : ws_read) : bool :=
  match r with
  | WClosed code => negb ((code =? CloseGoingAway) || (code =? CloseAbnormalClosure))
  | _ => false
  end.

(** [acceptWSLoop]: what it hands to the producer. *)
Fixpoint acceptWSLoop (decode : string → option SensorData) (reads : list ws_read) :
    outcome (list SensorData) :=
  match reads with
  | [] => Block
  | WMsg b :: reads =>
      rest ← acceptWSLoop decode reads;
      Ret (match decode b with Some sd => sd :: rest | None => rest end)
  | r :: reads => if IsUnexpectedCloseError r then acceptWSLoop decode reads else Ret []
  end.

End Loops.


(** ** Theorems *)

(** What a run leaves, from the point the service holds at its start. *)
Definition point (d : SensorData) : Point := (Lat d, Lng d).
Fixpoint distances (prev : Point) (evs : list sensor_event) : list Distance :=
  match evs with
  | [] => []
  | e :: evs =>
      mkDistance "" (getDistanceBetweenPoints (point (sensor e)) prev) (at_time e)
        :: distances (point (sensor e)) evs
  end.
Definition sent_call (n : Grpc.net) : bool := match n with Grpc.NotSent _ => false | _ => true end.
Definition invoice_of (e : sensor_event) (d : Distance) : list Invoice :=
  if sent_call (network e)
  then [mkInvoice (new_uuid e) (fmul (Value d) (float_of_Z 2)) "distance"] else [].
Definition invoices (prev : Point) (evs : list sensor_event) : list Invoice :=
  mjoin (zip_with invoice_of evs (distances prev evs)).

Lemma AggregateDistance_run status e svc inv :
  let d := mkDistance "" (getDistanceBetweenPoints (point (sensor e)) (points svc).1) (at_time e) in
  AggregateDistance status (at_time e) (network e) (new_uuid e) (sensor e) (svc, inv)
  = Ret (None, (mkAggregator (point (sensor e), (points svc).1) (store svc ++ [d]),
                inv ++ invoice_of e d)).
Proof.
  unfold AggregateDistance, invoice_of. destruct (network e); simpl; [done| |done].
  by rewrite app_nil_r.
Qed.

Lemma aggregate_all_run status evs svc inv :
  ∃ last, aggregate_all status evs (svc, inv)
    = Ret (tt, (mkAggregator last (store svc ++ distances (points svc).1 evs),
                inv ++ invoices (points svc).1 evs)).
Proof.
  revert svc inv. induction evs as [|e evs IH]; intros svc inv.
  - exists (points svc). unfold invoices. simpl. rewrite !app_nil_r. by destruct svc.
  - unfold aggregate_all in *. simpl. unfold go_bind. rewrite AggregateDistance_run. simpl.
    edestruct IH as [last ->]. exists last. unfold invoices. simpl.
    by rewrite <-!app_assoc.
Qed.

Lemma GetDistance_no_id prev evs id : id ≠ "" → GetDistance id (distances prev evs) = Distance_zero.
Proof.
  intros Hid. revert prev. induction evs as [|e evs IH]; intros prev; [done|]. simpl.
  by case_decide; [congruence|apply IH].
Qed.

Lemma GetInvoice_In id svc v : v ∈ svc → NoDup (I_ID <$> svc) → I_ID v = id → GetInvoice id svc = Ok v.
Proof.
  intros Hv Hnd <-. induction svc as [|w svc IH]; [by apply elem_of_nil in Hv|].
  rewrite fmap_cons in Hnd. apply NoDup_cons in Hnd as [Hw Hnd]. simpl.
  apply elem_of_cons in Hv as [->|Hv]; [by rewrite decide_True|].
  rewrite decide_False; [by apply IH|]. intros E. apply Hw. rewrite E. by apply list_elem_of_fmap_2.
Qed.

Lemma GetInvoice_None id svc : id ∉ (I_ID <$> svc) → is_ok (GetInvoice id svc) = false.
Proof.
  induction svc as [|w svc IH]; [done|]. rewrite fmap_cons, not_elem_of_cons. simpl. intros [? ?].
  rewrite decide_False by done. by apply IH.
Qed.

Lemma GetInvoice_inv id svc v : GetInvoice id svc = Ok v → v ∈ svc ∧ I_ID v = id.
Proof.
  induction svc as [|w svc IH]; [done|]. simpl. case_decide; [|set_solver]. intros [= <-]. set_solver.
Qed.

(** The point the i-th event is compared with: that of the event before it,
    whatever its sensor, and the origin for the first. *)
Definition previous (evs : list sensor_event) (i : nat) : Point :=
  match i with O => origin | S j => from_option (point ∘ sensor) origin (evs !! j) end.

Lemma distances_lookup prev evs i e :
  evs !! i = Some e →
  distances prev evs !! i = Some (mkDistance "" (getDistanceBetweenPoints (point (sensor e))
    (match i with O => prev | S j => from_option (point ∘ sensor) prev (evs !! j) end)) (at_time e)).
Proof.
  revert prev i. induction evs as [|e' evs IH]; intros prev [|i]; simpl; [done..|congruence|].
  intros He. rewrite (IH _ _ He). destruct i as [|i]; [done|]. simpl.
  by destruct (evs !! i) eqn:E; [|apply lookup_lt_Some in He; apply lookup_ge_None in E; lia].
Qed.

Lemma length_distances prev evs : length (distances prev evs) = length evs.
Proof. revert prev. by induction evs; intros; simpl; f_equal. Qed.

Lemma invoices_ids prev evs :
  I_ID <$> invoices prev evs = new_uuid <$> filter (λ e, sent_call (network e) = true) evs.
Proof.
  revert prev. induction evs as [|e evs IH]; intros prev; [done|]. unfold invoices in *. simpl.
  rewrite fmap_app, IH. unfold invoice_of. rewrite filter_cons.
  by destruct (sent_call (network e)).
Qed.

Lemma invoices_In prev evs i e d :
  evs !! i = Some e → distances prev evs !! i = Some d → sent_call (network e) = true →
  mkInvoice (new_uuid e) (fmul (Value d) (float_of_Z 2)) "distance" ∈ invoices prev evs.
Proof.
  intros He Hd Hs. unfold invoices. apply list_elem_of_join.
  exists (invoice_of e d). split; [unfold invoice_of; rewrite Hs; set_solver|].
  apply list_elem_of_lookup. exists i. rewrite lookup_zip_with, He. simpl. by rewrite Hd.
Qed.

Lemma invoices_NoDup prev evs : NoDup (new_uuid <$> evs) → NoDup (I_ID <$> invoices prev evs).
Proof.
  intros Hnd. rewrite invoices_ids. eapply sublist_NoDup; [exact Hnd|].
  apply fmap_sublist, sublist_filter.
Qed.

(** What a client is told about the invoice of an event. *)
Lemma invoice_fetched status prev evs i e d :
  NoDup (new_uuid <$> evs) → evs !! i = Some e → distances prev evs !! i = Some d →
  if sent_call (network e)
  then Grpc.Client_GetInvoice status Grpc.Delivered (new_uuid e) (invoices prev evs)
       = Ok (mkInvoice (new_uuid e) (fmul (Value d) (float_of_Z 2)) "distance")
  else is_ok (Grpc.Client_GetInvoice status Grpc.Delivered (new_uuid e) (invoices prev evs)) = false.
Proof.
  intros Hnd He Hd. unfold Grpc.Client_GetInvoice, Grpc.Server_GetInvoice.
  destruct (sent_call (network e)) eqn:Hs.
  - by erewrite GetInvoice_In; [|by eapply invoices_In|by apply invoices_NoDup|done].
  - pose proof (GetInvoice_None (new_uuid e) (invoices prev evs)) as Hn.
    destruct (GetInvoice (new_uuid e) (invoices prev evs)) as [v|]; [|done]. exfalso.
    assert (Hnot : new_uuid e ∉ (I_ID <$> invoices prev evs)); [|by specialize (Hn Hnot)].
    rewrite invoices_ids. intros (e' & E & He')%list_elem_of_fmap.
    apply list_elem_of_filter in He' as [Hs' [j Hj]%list_elem_of_lookup].
    assert (i = j) as <-; [|congruence].
    eapply (NoDup_lookup (new_uuid <$> evs)); [done|..]; rewrite list_lookup_fmap;
      [by rewrite He|rewrite Hj; simpl; by rewrite E].
Qed.

(** C19. Sensor events through the aggregator and the invoicing service, with
    calls that may be refused or lose their reply: every event is stored once,
    with the distance from the point before it (the first one from the origin)
    and its time; an invoice of twice that distance can be fetched under the
    id the server drew exactly when the call reached the server; and no stored
    distance is ever found by a sensor id, for none is recorded. *)
Theorem aggregation_pipeline_correct status evs :
  NoDup (new_uuid <$> evs) →
  ∃ svc inv,
    aggregate_all status evs (NewAggregatorService NewInMemoryStore, NewInvoiceService)
      = Ret (tt, (svc, inv)) ∧
    length (store svc) = length evs ∧
    (∀ i e, evs !! i = Some e → ∃ d, store svc !! i = Some d ∧
       d = mkDistance "" (getDistanceBetweenPoints (point (sensor e)) (previous evs i)) (at_time e) ∧
       if sent_call (network e)
       then Grpc.Client_GetInvoice status Grpc.Delivered (new_uuid e) inv
            = Ok (mkInvoice (new_uuid e) (fmul (Value d) (float_of_Z 2)) "distance")
       else is_ok (Grpc.Client_GetInvoice status Grpc.Delivered (new_uuid e) inv) = false) ∧
    (∀ id, id ≠ "" → GetDistance id (store svc) = Distance_zero).
Proof.
  intros Hnd. destruct (aggregate_all_run status evs
    (NewAggregatorService NewInMemoryStore) NewInvoiceService) as [last Hrun].
  exists (mkAggregator last (distances origin evs)), (invoices origin evs).
  split; [exact Hrun|]. cbn [store]. split_and!.
  - apply length_distances.
  - intros i e He. pose proof (distances_lookup origin evs i e He) as Hd.
    eexists. split; [exact Hd|]. split; [done|]. exact (invoice_fetched status _ _ _ _ _ Hnd He Hd).
  - intros id Hid. by apply GetDistance_no_id.
Qed.

Definition at_ (lat lng : Z) : SensorData := mkSensorData "s" (float_of_Z lat) (float_of_Z lng).
Definition three_events : list sensor_event :=
  [ mkEvent 10 Grpc.Delivered "a" (at_ 3 4); mkEvent 11 (Grpc.NotSent (ErrNew "refused")) "b" (at_ 6 8);
    mkEvent 12 (Grpc.NoReply (ErrNew "lost")) "c" (at_ 6 8) ].

Lemma aggregation_pipeline_correct_witness :
  ∃ svc inv,
    aggregate_all id three_events (NewAggregatorService NewInMemoryStore, NewInvoiceService)
      = Ret (tt, (svc, inv)) ∧
    length (store svc) = 3%nat ∧
    store svc !! 0%nat = Some (mkDistance "" (float_of_Z 5) 10) ∧
    Grpc.Client_GetInvoice id Grpc.Delivered "a" inv
      = Ok (mkInvoice "a" (float_of_Z 10) "distance") ∧
    is_ok (Grpc.Client_GetInvoice id Grpc.Delivered "b" inv) = false.
Proof.
  destruct (aggregation_pipeline_correct id three_events) as (svc & inv & Hrun & Hlen & Hall & _).
  { apply (bool_decide_unpack _). vm_compute. exact I. }
  exists svc, inv. split; [exact Hrun|]. split; [exact Hlen|].
  destruct (Hall 0%nat _ eq_refl) as (d & Hd & -> & Hinv).
  destruct (Hall 1%nat _ eq_refl) as (d' & _ & _ & Hinv').
  split; [rewrite Hd; vm_compute; reflexivity|].
  split; [|exact Hinv']. etransitivity; [exact Hinv|]. vm_compute. reflexivity.
Defined.

(** An HTTP request whose body cannot be read or parsed is answered 400
    and invoiced all the same, the headers never reach the client, the HTTP
    client reports no error for a failed request, and a gRPC request without a
    distance makes the server panic. *)
Theorem bad_payloads_are_invoiced enc method d uuid svc read_err json_err :
  let '(w, svc') := Http.Server_SaveInvoice enc method read_err (d, json_err) uuid Http.no_response svc in
  let inv := mkInvoice uuid (fmul (Value d) (float_of_Z 2)) "distance" in
  Http.sent w = [] ∧
  (method = "POST" → svc' = svc ++ [inv]) ∧
  (method ≠ "POST" → svc' = svc ∧ Http.status w = Some 404) ∧
  (method = "POST" → read_err || json_err = true →
     Http.status w = Some 400 ∧ last (Http.body w) = Some (enc inv)) ∧
  (method = "POST" → read_err || json_err = false →
     Http.status w = Some 200 ∧ Http.body w = [enc inv]) ∧
  (∀ e, Http.Client_SaveInvoice None (Err e) = None) ∧
  Grpc.Server_SaveInvoice uuid None svc = Panic "invalid memory address or nil pointer dereference".
Proof.
  unfold Http.Server_SaveInvoice. case_decide; [destruct read_err, json_err|];
    cbn -[fmul float_of_Z]; split_and!; done.
Qed.

(** The client's reading loop ends exactly with a status that says the server is
    away; [io.EOF], which every [Recv] answers once the stream is over, makes it
    spin. *)
Lemma ReadServerLoop_ends answers :
  Grpc.ReadServerLoop answers = Ret tt ↔
  ∃ code, Grpc.SStatus code ∈ answers ∧ (code = Grpc.Unavailable ∨ code = Grpc.DeadlineExceeded).
Proof.
  induction answers as [|[] answers IH]; simpl.
  - split; [done|]. intros (? & Hc & _). by apply elem_of_nil in Hc.
  - rewrite IH. set_solver.
  - destruct ((code =? Grpc.Unavailable) || (code =? Grpc.DeadlineExceeded)) eqn:E.
    + split; [|done]. intros _. exists code. split; [set_solver|].
      apply orb_true_iff in E as [E|E]; apply Z.eqb_eq in E; [by left|by right].
    + apply orb_false_iff in E as [E1%Z.eqb_neq E2%Z.eqb_neq]. rewrite IH. set_solver.
  - rewrite IH. set_solver.
Qed.

Lemma ReadServerLoop_spins n : Grpc.ReadServerLoop (replicate n Grpc.SNotStatus) = Block.
Proof. by induction n. Qed.

(** The client's timestamp is cut to 32 bits: it survives up to 2038. *)
Lemma to_proto_timestamp d :
  Grpc.P_Timestamp (Grpc.to_proto d) = Timestamp d ↔ - 2 ^ 31 ≤ Timestamp d < 2 ^ 31.
Proof. simpl. unfold int32. Z.to_euclidean_division_equations. lia. Qed.

(** A sensor that does not move adds nothing. *)
Lemma no_move_no_distance lat lng :
  is_finite lat = true → is_finite lng = true →
  getDistanceBetweenPoints (lat, lng) (lat, lng) = S754_zero false.
Proof.
  intros H1 H2. unfold getDistanceBetweenPoints. simpl.
  assert (E : ∀ x, is_finite x = true → Pow2 (fsub x x) = S754_zero false); [|by rewrite !E].
  intros x Hx. assert (fsub x x = S754_zero false) as ->; [|done].
  destruct x as [s|s| |s m e]; try done; [by destruct s|].
  unfold fsub, SFsub. cbv zeta. set (b := Z.min e e). set (a := (shl_align m e b).1).
  destruct s; unfold cond_Zopp;
    [replace (- Z.pos a - - Z.pos a) with 0 by lia|replace (Z.pos a - Z.pos a) with 0 by lia]; done.
Qed.
