(* ===== verification/AggregatorFlow.v ===== *)
(** * The aggregator, from Kafka to the invoices

    The process that data-aggregator/main.go puts together: the loop that reads
    messages and starts a goroutine per publication (msg-broker.go), the event
    bus (event-bus.go, Playground.v) and the service that handles the events
    (service.go, Aggregator.v), in every interleaving. *)

From S2P Require Import Prelude GoSem GoFloat Playground Aggregator.
Import EventBus Loops.

Section Flow.
Context (decode : string → option SensorData) (status : error → error).

(** The subscriptions of [main], by name of the handler. *)
Definition h_payment : nat := 1.
Definition h_aggregate : nat := 2.
Definition subscriptions : list (string * nat) :=
  [(CalculatePaymentDomainEvent, h_payment); (AggregateDistanceDomainEvent, h_aggregate)].

(** Events are pointers: [None] is nil. *)
Abbreviation Event := (option SensorData).

(** What was read, the goroutines in [Publish], the bus with its record, the
    publications without a subscriber, the events that were aggregated, and the
    state of the service and of the invoicer. *)
Record Flow := mkFlow {
  readings : list SensorData; publishing : list (string * Event);
  system : System (T := Event); dropped : list (string * Event);
  handled : list sensor_event; service : AggregatorService; invoicer : InvoiceService }.

Definition start : Flow :=
  mkFlow [] [] init [] [] (NewAggregatorService NewInMemoryStore) NewInvoiceService.

(** The handler that a [processEvent] goroutine calls; [e] holds what it draws
    besides the data. *)
Definition call_handler (e : sensor_event) (errVal : Z) (call : option (nat * Event)) :
    GO (AggregatorService * InvoiceService) (list sensor_event) :=
  match call with
  | None => go_ret []
  | Some (_, None) => go_panic "invalid memory address or nil pointer dereference"
  | Some (h, Some data) =>
      if decide (h = h_aggregate) then
        AggregateDistance status (at_time e) (network e) (new_uuid e) data ;;'
        go_ret [mkEvent (at_time e) (network e) (new_uuid e) data]
      else let _ := ProcessSensorDataForPayment errVal data in go_ret []
  end.

Inductive step : Flow → Flow → Prop :=
| fl_read f topic value data events :
    IsActive (bus (system f)) = true → read_one decode topic value = Some (data, events) →
    step f (mkFlow (readings f ++ [data]) (publishing f ++ ((λ e, (e, Some data)) <$> events))
              (system f) (dropped f) (handled f) (service f) (invoicer f))
| fl_publish f l1 t v l2 eb ok :
    publishing f = l1 ++ (t, v) :: l2 → Publish t v (bus (system f)) = Ret (eb, ok) →
    step f (mkFlow (readings f) (l1 ++ l2)
              (mkSystem eb (if ok : bool then published (system f) ++ [(t, v)] else published (system f))
                 (called (system f)))
              (if ok then dropped f else dropped f ++ [(t, v)]) (handled f) (service f) (invoicer f))
| fl_process f ev t i eb call e errVal evs svc inv :
    processEvent None ev t i (bus (system f)) = Ret (eb, call) →
    call_handler e errVal call (service f, invoicer f) = Ret (evs, (svc, inv)) →
    step f (mkFlow (readings f) (publishing f)
              (mkSystem eb (published (system f))
                 (match call with Some c => called (system f) ++ [(t, c)] | None => called (system f) end))
              (dropped f) (handled f ++ evs) svc inv)
| fl_subscribe f t h :
    (t, h) ∈ subscriptions → subMap (bus (system f)) !! t = None →
    step f (mkFlow (readings f) (publishing f)
              (mkSystem (Subscribe t h (bus (system f))) (published (system f)) (called (system f)))
              (dropped f) (handled f) (service f) (invoicer f))
| fl_close f :
    step f (mkFlow (readings f) (publishing f)
              (mkSystem (Close (bus (system f))) (published (system f)) (called (system f)))
              (dropped f) (handled f) (service f) (invoicer f)).

(** The bus's part of a step is one of the bus. *)
Lemma step_bus f f' : step f f' → rtc (bus_step None) (system f) (system f').
Proof.
  intros Hs. destruct Hs; simpl; try done; apply rtc_once.
  - by apply step_publish.
  - by apply step_process with ev i.
  - by apply step_subscribe.
  - apply step_close.
Qed.

(** Handlers stay the ones that [main] subscribed. *)
Definition handlers_ok (eb : InMemoryAggregatorEventBus (T := Event)) : Prop :=
  ∀ t sub, subMap eb !! t = Some sub → (t, handler sub) ∈ subscriptions.

Lemma handlers_set eb t sub sub' : handlers_ok eb → subMap eb !! t = Some sub →
  handler sub' = handler sub → ∀ l a, handlers_ok (mkBus (<[t := sub']> (subMap eb)) l a).
Proof.
  intros Hok Ht Hh l a u s. simpl. rewrite lookup_insert_Some. intros [[<- <-]|[_ Hu]]; [|by apply Hok].
  rewrite Hh. by apply Hok.
Qed.

Lemma step_handlers f f' : handlers_ok (bus (system f)) → step f f' → handlers_ok (bus (system f')).
Proof.
  intros Hok Hs. destruct Hs as [|f l1 t v l2 eb ok _ Hp|f ev t i eb call e errVal evs svc inv Hp _|f t h Hin Ht|];
    simpl; [done|..].
  - unfold Publish in Hp. destruct (subMap _ !! t) as [sub|] eqn:Ht; [|by simplify_eq].
    repeat case_match; simplify_eq; unfold set_sub; by apply (handlers_set _ _ _ _ Hok Ht).
  - unfold processEvent in Hp. destruct (subMap _ !! t) as [sub|] eqn:Ht; [|done].
    repeat case_match; simplify_eq; unfold set_sub; by apply (handlers_set _ _ _ _ Hok Ht).
  - intros u sub. unfold Subscribe. rewrite Ht. simpl. rewrite lookup_insert_Some.
    intros [[<- <-]|[_ Hu]]; [done|by apply Hok].
  - intros u sub. rewrite Close_lookup. destruct (subMap _ !! u) as [sub0|] eqn:Hu; [|done].
    simpl. intros [= <-]. exact (Hok u sub0 Hu).
Qed.

Abbreviation A := AggregateDistanceDomainEvent.

(** Readings are being published, accepted or dropped; what the aggregating
    handler was called on went through the service, in that order. *)
Record flow_inv (f : Flow) : Prop := {
  fi_bus : bus_inv (system f);
  fi_handlers : handlers_ok (bus (system f));
  fi_once : Some <$> readings f ≡ₚ
    on_topic A (published (system f)) ++ on_topic A (publishing f) ++ on_topic A (dropped f);
  fi_calls : Some ∘ sensor <$> handled f = snd <$> on_topic A (called (system f));
  fi_service : aggregate_all status (handled f) (NewAggregatorService NewInMemoryStore, NewInvoiceService) =
    Ret (tt, (service f, invoicer f)) }.

Lemma go_for_snoc {S X} (body : X → GO S unit) (l : list X) (x : X) s s1 :
  go_for l body s = Ret (tt, s1) → go_for (l ++ [x]) body s = body x s1.
Proof.
  revert s. induction l as [|y l IH]; intros s; simpl; unfold go_bind, go_ret.
  - intros [= ->]. destruct (body x s1) as [[[] ?]| |]; done.
  - destruct (body y s) as [[[] s2]| |]; [|done..]. apply IH.
Qed.

Lemma on_topic_app {X} t (l l' : list (string * X)) : on_topic t (l ++ l') = on_topic t l ++ on_topic t l'.
Proof. unfold on_topic. by rewrite filter_app, fmap_app. Qed.

(** A call of the handlers of topic [t]. *)
Lemma call_handler_inv eb t i ev eb' call e errVal evs svc inv svc' inv' :
  handlers_ok eb → processEvent None ev t i eb = Ret (eb', call) →
  call_handler e errVal call (svc, inv) = Ret (evs, (svc', inv')) →
  (if decide (t = A) then Some ∘ sensor <$> evs = snd <$> option_list call else evs = []) ∧
  (evs = [] ∧ svc' = svc ∧ inv' = inv ∨
   ∃ ev, evs = [ev] ∧ AggregateDistance status (at_time ev) (network ev) (new_uuid ev) (sensor ev) (svc, inv) =
           Ret (None, (svc', inv'))).
Proof.
  intros Hok Hp Hc. destruct call as [[h v]|]; simpl in Hc.
  2:{ injection Hc as <- <- <-. split; [by case_decide|by left]. }
  assert ((t, h) ∈ subscriptions) as Hin.
  { clear Hc. unfold processEvent in Hp. destruct (subMap eb !! t) as [sub|] eqn:Ht; [|done].
    specialize (Hok t sub Ht). repeat case_match; simplify_eq; exact Hok. }
  destruct v as [data|]; [|done]. unfold subscriptions in Hin.
  apply elem_of_cons in Hin as [[= -> ->]|[= -> ->]%list_elem_of_singleton].
  - change (go_ret [] (svc, inv) = Ret (evs, (svc', inv'))) in Hc. injection Hc as <- <- <-. split; [done|by left].
  - change ((AggregateDistance status (at_time e) (network e) (new_uuid e) data ;;'
      go_ret [mkEvent (at_time e) (network e) (new_uuid e) data]) (svc, inv) = Ret (evs, (svc', inv'))) in Hc.
    pose proof (AggregateDistance_run status (mkEvent (at_time e) (network e) (new_uuid e) data) svc inv) as Hr.
    cbn [sensor at_time network new_uuid] in Hr. cbv zeta in Hr.
    rewrite (go_bind_ret _ _ _ _ _ Hr) in Hc. injection Hc as <- <- <-. split; [done|right]. by eexists.
Qed.

Lemma flow_inv_step f f' : flow_inv f → step f f' → flow_inv f'.
Proof.
  intros [Hb Hh Ho Hc Hsv] Hs.
  assert (bus_inv (system f')) as Hb'.
  { eapply (rtc_invariant (bus_step None) bus_inv); [|by apply step_bus|exact Hb].
    intros a b Ha Hab. by eapply bus_step_inv. }
  pose proof (step_handlers f f' Hh Hs) as Hh'. split; [done|done|..].
  - destruct Hs as [f topic value data events Hact Hr|f l1 t v l2 eb ok Hpub Hp| | |]; cbn [readings publishing system dropped handled service invoicer published called bus]; try done.
    + unfold read_one, mapTopicToDomainEvent in Hr. destruct (decode value); [|done].
      case_decide; [|done]. simplify_eq. rewrite fmap_app, on_topic_app, Ho.
      change (on_topic A (_ <$> _)) with [Some data]. cbn. solve_Permutation.
    + rewrite Hpub, !on_topic_app in Ho. rewrite on_topic_app.
      change ((t, v) :: l2) with ([(t, v)] ++ l2) in Ho. rewrite on_topic_app in Ho.
      rewrite Ho. pose proof (on_topic_snoc A t [] v) as Hv. cbn [app] in Hv. rewrite Hv.
      destruct ok; rewrite on_topic_snoc; destruct (decide (t = A)); cbn [app]; solve_Permutation.
  - destruct Hs as [| |f ev t i eb call e errVal evs svc inv Hp Hcall| |]; cbn [readings publishing system dropped handled service invoicer published called bus]; try done.
    destruct (call_handler_inv _ _ _ _ _ _ _ _ _ _ _ _ _ Hh Hp Hcall) as [Ht _].
    rewrite on_topic_option, fmap_app, Hc. destruct (decide (t = A)).
    + by rewrite fmap_app, Ht.
    + by rewrite Ht, app_nil_r.
  - destruct Hs as [| |f ev t i eb call e errVal evs svc inv Hp Hcall| |]; cbn [readings publishing system dropped handled service invoicer published called bus]; try done.
    destruct (call_handler_inv _ _ _ _ _ _ _ _ _ _ _ _ _ Hh Hp Hcall) as [_ [(-> & -> & ->)|(x & -> & Hx)]].
    + by rewrite app_nil_r.
    + unfold aggregate_all in *. rewrite (go_for_snoc _ _ _ _ _ Hsv). by rewrite (go_bind_ret _ _ _ _ _ Hx).
Qed.

Lemma flow_reachable f : rtc step start f → flow_inv f.
Proof.
  intros Hrun. eapply (rtc_invariant step); [apply flow_inv_step|exact Hrun|]. split; [|intros t sub|done..].
  - intros t. simpl. by rewrite lookup_empty.
  - simpl. by rewrite lookup_empty.
Qed.

End Flow.

(** ** Two readings whose publications overtake each other *)

Definition two_points (v : string) : option SensorData := Some (at_ 0 (if decide (v = "a")%string then 1 else 3)).
Definition a_reading : SensorData := at_ 0 1.
Definition b_reading : SensorData := at_ 0 3.

Definition same_status (e : error) : error := e.

(** The bus and the service after each step of the run below. *)
Abbreviation Bus := (InMemoryAggregatorEventBus (T := option SensorData)).
Definition publish_on (d : SensorData) (eb : Bus) : Bus :=
  match Publish AggregateDistanceDomainEvent (Some d) eb with Ret (eb, _) => eb | _ => eb end.
Definition process_on (ev : ProcEvent) (eb : Bus) : Bus :=
  match processEvent None ev AggregateDistanceDomainEvent 0 eb with Ret (eb, _) => eb | _ => eb end.
Definition draw : sensor_event := mkEvent 0 (Grpc.NotSent (ErrExt "down")) "u" a_reading.
Definition aggregate_on (d : SensorData) (s : AggregatorService) : AggregatorService :=
  match AggregateDistance same_status 0 (network draw) "u" d (s, []) with Ret (_, (s, _)) => s | _ => s end.

Definition bus0 : Bus := Subscribe AggregateDistanceDomainEvent h_aggregate NewInMemoryAggregatorEventBus.
Definition bus1 : Bus := publish_on b_reading bus0.
Definition bus2 : Bus := publish_on a_reading bus1.
Definition bus3 : Bus := process_on PrTake bus2.
Definition bus4 : Bus := process_on PrReturn bus3.
Definition bus5 : Bus := process_on PrTake bus4.
Definition service1 : AggregatorService := aggregate_on b_reading (NewAggregatorService NewInMemoryStore).
Definition service2 : AggregatorService := aggregate_on a_reading service1.
Definition taken_event (d : SensorData) : sensor_event := mkEvent 0 (network draw) "u" d.
Definition pub (d : SensorData) : string * option SensorData := (AggregateDistanceDomainEvent, Some d).
Definition pay (d : SensorData) : string * option SensorData := (CalculatePaymentDomainEvent, Some d).
Definition called_with (d : SensorData) : string * (nat * option SensorData) :=
  (AggregateDistanceDomainEvent, (h_aggregate, Some d)).

Definition overtaken : Flow :=
  mkFlow [a_reading; b_reading] [pay a_reading; pay b_reading]
    (mkSystem bus5 [pub b_reading; pub a_reading] [called_with b_reading; called_with a_reading]) []
    [taken_event b_reading; taken_event a_reading] service2 [].

Lemma order_is_lost_run : rtc (step two_points same_status) start overtaken.
Proof.
  set (A := AggregateDistanceDomainEvent). set (both := [a_reading; b_reading]). set (pays := [pay a_reading; pay b_reading]).
  eapply rtc_l; [apply (fl_subscribe two_points same_status start A h_aggregate); [set_solver|reflexivity]|].
  change (Subscribe _ _ _) with bus0.
  eapply rtc_l; [eapply (fl_read two_points same_status _ Kafka_DefaultTopic "a" a_reading [A; CalculatePaymentDomainEvent]);
    vm_compute; reflexivity|].
  eapply rtc_l; [eapply (fl_read two_points same_status _ Kafka_DefaultTopic "b" b_reading [A; CalculatePaymentDomainEvent]);
    vm_compute; reflexivity|].
  eapply rtc_l; [apply (fl_publish two_points same_status _ [pub a_reading; pay a_reading] A (Some b_reading)
    [pay b_reading] bus1 true); [reflexivity|vm_compute; reflexivity]|].
  eapply rtc_l; [apply (fl_publish two_points same_status _ [] A (Some a_reading) pays bus2 true);
    [reflexivity|vm_compute; reflexivity]|].
  eapply rtc_l; [apply (fl_process two_points same_status _ PrTake A 0 bus3 (Some (h_aggregate, Some b_reading)) draw 9
    [taken_event b_reading] service1 []); vm_compute; reflexivity|].
  eapply rtc_l; [apply (fl_process two_points same_status _ PrReturn A 0 bus4 None draw 9 [] service1 []);
    vm_compute; reflexivity|].
  eapply rtc_l; [apply (fl_process two_points same_status _ PrTake A 0 bus5 (Some (h_aggregate, Some a_reading)) draw 9
    [taken_event a_reading] service2 []); vm_compute; reflexivity|].
  apply rtc_refl.
Qed.

(** The publications run in goroutines of their own, so that readings can be
    aggregated in another order than they were read in; then the distances
    stored are not those between consecutive readings. *)
Lemma order_is_lost :
  ∃ f, rtc (step two_points same_status) start f ∧
    ∀ evs, sensor <$> evs = readings f → Value <$> store (service f) ≠ Value <$> distances origin evs.
Proof.
  exists overtaken. split; [exact order_is_lost_run|].
  intros evs He. destruct evs as [|e1 [|e2 [|e3 evs]]]; try done.
  injection He as H1 H2. simpl distances. rewrite H1, H2. intros Hd.
  apply (f_equal head) in Hd. revert Hd. vm_compute. discriminate.
Qed.

