(* ===== verification/SensorPipeline.v ===== *)
(** * Sensor readings, from the websockets to the invoicer and back

    protocol-playground: [handleWS] of the aggregator (data-aggregator/handlers.go)
    reads readings from any number of websockets into one channel,
    [AcceptWSLoop] sends them on a gRPC stream, the invoicer's
    [SensorDataStream] hands them to its service and sends them back, and the
    aggregator's [ReadServerLoop] receives them.  The goroutines interleave at
    their sends and receives; a gRPC stream keeps the order of what it takes;
    any send may fail. *)

From S2P Require Import Prelude GoSem.

Section Pipeline.
(** [decode] is what [json.Unmarshal] leaves in the fresh reading, whose error is
    not looked at: the zero reading when nothing could be parsed. *)
Context {Payload Reading : Type} (decode : Payload → Reading).

(** A connection's goroutine: in [ReadMessage], in the send on [dataCH], returned. *)
Inductive conn := CRead | CPut (d : Reading) | CReturned.

(** A reading with the connection it came from. *)
Definition item : Type := string * Reading.

(** [upstream] and [downstream] are the two directions of the gRPC stream.  The
    last fields are history: what each connection read, what the service was
    handed, what the sender failed to send, and what came back. *)
Record State := mkState {
  conns : gmap string conn; dataCH : list item; sending : option item; upstream : list item;
  replying : option item; downstream : list item;
  reads : gmap string (list Payload); handled : list item; failed : list item; returned : list item }.

Definition start : State := mkState ∅ [] None [] None [] ∅ [] [] [].

(** The capacity of [dataCH]. *)
Definition data_cap : nat := 128.

Definition log_read (c : string) (p : Payload) (r : gmap string (list Payload)) : gmap string (list Payload) :=
  <[c := default [] (r !! c) ++ [p]]> r.

(** [handleWS]: a new connection; a message is read, parsed, and put on the
    channel; a read error ends the goroutine. *)
Inductive handleWS : State → State → Prop :=
| ws_open cs ch sd up rp dn rd hd fl rt c :
    cs !! c = None → rd !! c = None →
    handleWS (mkState cs ch sd up rp dn rd hd fl rt) (mkState (<[c := CRead]> cs) ch sd up rp dn rd hd fl rt)
| ws_read cs ch sd up rp dn rd hd fl rt c p :
    cs !! c = Some CRead →
    handleWS (mkState cs ch sd up rp dn rd hd fl rt)
      (mkState (<[c := CPut (decode p)]> cs) ch sd up rp dn (log_read c p rd) hd fl rt)
| ws_put cs ch sd up rp dn rd hd fl rt c d :
    cs !! c = Some (CPut d) → (length ch < data_cap)%nat →
    handleWS (mkState cs ch sd up rp dn rd hd fl rt)
      (mkState (<[c := CRead]> cs) (ch ++ [(c, d)]) sd up rp dn rd hd fl rt)
| ws_error cs ch sd up rp dn rd hd fl rt c :
    cs !! c = Some CRead →
    handleWS (mkState cs ch sd up rp dn rd hd fl rt) (mkState (<[c := CReturned]> cs) ch sd up rp dn rd hd fl rt).

(** [AcceptWSLoop]: the error of a send is logged. *)
Inductive AcceptWSLoop : State → State → Prop :=
| al_take cs x ch up rp dn rd hd fl rt :
    AcceptWSLoop (mkState cs (x :: ch) None up rp dn rd hd fl rt) (mkState cs ch (Some x) up rp dn rd hd fl rt)
| al_sent cs ch x up rp dn rd hd fl rt :
    AcceptWSLoop (mkState cs ch (Some x) up rp dn rd hd fl rt) (mkState cs ch None (up ++ [x]) rp dn rd hd fl rt)
| al_failed cs ch x up rp dn rd hd fl rt :
    AcceptWSLoop (mkState cs ch (Some x) up rp dn rd hd fl rt) (mkState cs ch None up rp dn rd hd (fl ++ [x]) rt).

(** The invoicer's [SensorDataStream]: the error of a reply is logged. *)
Inductive SensorDataStream : State → State → Prop :=
| sd_recv cs ch sd x up dn rd hd fl rt :
    SensorDataStream (mkState cs ch sd (x :: up) None dn rd hd fl rt)
      (mkState cs ch sd up (Some x) dn rd (hd ++ [x]) fl rt)
| sd_replied cs ch sd up x dn rd hd fl rt :
    SensorDataStream (mkState cs ch sd up (Some x) dn rd hd fl rt)
      (mkState cs ch sd up None (dn ++ [x]) rd hd fl rt)
| sd_lost cs ch sd up x dn rd hd fl rt :
    SensorDataStream (mkState cs ch sd up (Some x) dn rd hd fl rt) (mkState cs ch sd up None dn rd hd fl rt).

(** [ReadServerLoop] of the aggregator. *)
Inductive ReadServerLoop : State → State → Prop :=
| rs_recv cs ch sd up rp x dn rd hd fl rt :
    ReadServerLoop (mkState cs ch sd up rp (x :: dn) rd hd fl rt)
      (mkState cs ch sd up rp dn rd hd fl (rt ++ [x])).

Definition step (s s' : State) : Prop :=
  handleWS s s' ∨ AcceptWSLoop s s' ∨ SensorDataStream s s' ∨ ReadServerLoop s s'.

(** ** What the service receives *)

Definition from (c : string) (l : list item) : list Reading := snd <$> filter (λ x, x.1 = c) l.
Definition holding (c : string) (s : State) : list Reading :=
  match conns s !! c with Some (CPut d) => [d] | _ => [] end.

(** The readings of [c] that were handled or are on their way, in order. *)
Definition flow (c : string) (s : State) : list Reading :=
  from c (handled s ++ upstream s ++ option_list (sending s) ++ dataCH s) ++ holding c s.
Definition read_by (c : string) (s : State) : list Reading := decode <$> default [] (reads s !! c).

Definition in_order (s : State) : Prop :=
  (∀ c, (flow c s `sublist_of` read_by c s) ∧ (failed s = [] → flow c s = read_by c s) ∧
        (conns s !! c = None → reads s !! c = None)) ∧
  returned s ++ downstream s ++ option_list (replying s) `sublist_of` handled s.

Lemma from_app c l1 l2 : from c (l1 ++ l2) = from c l1 ++ from c l2.
Proof. unfold from. by rewrite filter_app, fmap_app. Qed.

Lemma from_one c x : from c [x] = if decide (x.1 = c) then [x.2] else [].
Proof. unfold from. rewrite filter_cons, filter_nil. by case_decide. Qed.

(** A step that keeps everybody's flow and readings. *)
Lemma in_order_keep s s' : in_order s →
  (∀ c, flow c s' = flow c s) → reads s' = reads s → failed s' = failed s →
  (∀ c, conns s' !! c = None → conns s !! c = None) →
  returned s' ++ downstream s' ++ option_list (replying s') `sublist_of` handled s' → in_order s'.
Proof.
  intros [Hc _] Hf Hr Hfl Hn Hret. split; [|done]. intros c. destruct (Hc c) as (H1 & H2 & H3).
  unfold read_by in *. rewrite Hf, Hr, Hfl. split_and!; auto.
Qed.

Lemma handleWS_in_order s s' : in_order s → handleWS s s' → in_order s'.
Proof.
  intros Hs Hstep. pose proof Hs as [Hc Hret].
  destruct Hstep as [cs ch sd up rp dn rd hd fl rt c Hn Hr|cs ch sd up rp dn rd hd fl rt c p Hn
    |cs ch sd up rp dn rd hd fl rt c d Hn Hcap|cs ch sd up rp dn rd hd fl rt c Hn].
  - apply (in_order_keep _ _ Hs); simpl; [|done..|intros d [? _]%lookup_insert_None; done|done].
    intros d. unfold flow, holding. simpl. f_equal. destruct (decide (d = c)) as [->|];
      [by rewrite lookup_insert_eq, Hn|by rewrite lookup_insert_ne].
  - split; [|done]. intros d. destruct (Hc d) as (H1 & H2 & H3).
    unfold flow, holding, read_by, log_read in *. simpl in *. destruct (decide (d = c)) as [->|Hne].
    + rewrite !lookup_insert_eq. rewrite Hn in *. simpl. rewrite fmap_app. rewrite app_nil_r in *.
      split_and!; [by apply sublist_app|by intros ->%H2|done].
    + by rewrite !lookup_insert_ne by done.
  - apply (in_order_keep _ _ Hs); simpl; [|done..|intros e [? ?]%lookup_insert_None; done|done].
    intros e. unfold flow, holding. simpl. rewrite !from_app, from_one. simpl. destruct (decide (c = e)) as [->|].
    + rewrite lookup_insert_eq, Hn, app_nil_r. by rewrite <-!app_assoc.
    + by rewrite lookup_insert_ne, app_nil_r by done.
  - apply (in_order_keep _ _ Hs); simpl; [|done..|intros e [? ?]%lookup_insert_None; done|done].
    intros e. unfold flow, holding. simpl. f_equal. destruct (decide (e = c)) as [->|];
      [by rewrite lookup_insert_eq, Hn|by rewrite lookup_insert_ne].
Qed.

Lemma AcceptWSLoop_in_order s s' : in_order s → AcceptWSLoop s s' → in_order s'.
Proof.
  intros Hs Hstep. pose proof Hs as [Hc Hret].
  destruct Hstep as [cs x ch up rp dn rd hd fl rt|cs ch x up rp dn rd hd fl rt|cs ch x up rp dn rd hd fl rt].
  - by apply (in_order_keep _ _ Hs).
  - apply (in_order_keep _ _ Hs); try done. intros c. unfold flow. simpl. by rewrite <-!app_assoc.
  - split; [|done]. intros c. destruct (Hc c) as (H1 & _ & H3). simpl in *.
    split_and!; [|intros Hf; by apply app_eq_nil in Hf as [_ ?]|done].
    etransitivity; [|exact H1]. unfold flow. simpl. apply sublist_app; [|done].
    rewrite !from_app. apply sublist_app; [done|]. apply sublist_app; [done|]. change (x :: ch) with ([x] ++ ch).
    rewrite from_app. by apply sublist_inserts_l.
Qed.

Lemma server_in_order s s' : in_order s → SensorDataStream s s' ∨ ReadServerLoop s s' → in_order s'.
Proof.
  intros Hs Hstep. pose proof Hs as [Hc Hret]. destruct Hstep as [Hstep|Hstep].
  - destruct Hstep as [cs ch sd x up dn rd hd fl rt|cs ch sd up x dn rd hd fl rt|cs ch sd up x dn rd hd fl rt];
      apply (in_order_keep _ _ Hs); try done; simpl in *.
    + intros c. unfold flow. simpl. by rewrite <-!app_assoc.
    + rewrite app_nil_r in Hret. rewrite app_assoc. by apply sublist_app.
    + by rewrite app_nil_r.
    + rewrite app_nil_r. etransitivity; [|exact Hret]. apply sublist_app; [done|]. by apply sublist_inserts_r.
  - destruct Hstep as [cs ch sd up rp x dn rd hd fl rt]. apply (in_order_keep _ _ Hs); try done; simpl in *.
    by rewrite <-app_assoc.
Qed.

Lemma step_in_order s s' : in_order s → step s s' → in_order s'.
Proof.
  intros Hs [H1|[H1|H1]]; [by eapply handleWS_in_order|by eapply AcceptWSLoop_in_order|by eapply server_in_order].
Qed.

End Pipeline.

(** ** A concrete run *)

(** One websocket reads one message, which reaches the service. *)
Definition demo_state : State (Payload := string) (Reading := string) :=
  mkState {["ws"%string := CRead]} [] None [] (Some ("ws", "p")%string) [] {["ws"%string := ["p"%string]]}
    [("ws", "p")%string] [] [].

Lemma demo_pipeline_run : rtc (step (id : string → string)) start demo_state.
Proof.
  set (cs := {["ws"%string := CRead]} : gmap string (conn (Reading := string))).
  set (rd := {["ws"%string := ["p"%string]]} : gmap string (list string)).
  set (x := ("ws", "p")%string).
  eapply rtc_l; [left; by apply (ws_open _ ∅ [] None [] None [] ∅ [] [] [] "ws")|].
  eapply rtc_l; [left; by apply (ws_read _ cs [] None [] None [] ∅ [] [] [] "ws" "p"%string)|].
  eapply rtc_l; [left; apply (ws_put _ (<["ws"%string := CPut "p"%string]> cs) [] None [] None [] rd [] [] []
    "ws" "p"%string); [done|unfold data_cap; simpl; lia]|].
  replace (<["ws"%string := CRead]> (<["ws"%string := CPut "p"%string]> cs)) with cs by (by rewrite insert_insert_eq).
  eapply rtc_l; [right; left; apply (al_take cs x [] [] None [] rd [] [] [])|].
  eapply rtc_l; [right; left; apply (al_sent cs [] x [] None [] rd [] [] [])|].
  eapply rtc_l; [right; right; left; apply (sd_recv cs [] None x [] [] rd [] [] [])|].
  apply rtc_refl.
Qed.

