(* ===== verification/PlaygroundWiring.v ===== *)
(** * The ends of the playground (protocol-playground/)

    The fleet of simulated sensors (data-producer/main.go), the receiver that
    turns what comes on a websocket into messages of Kafka (data-receiver/), the
    readiness check of the aggregator's consumer (data-aggregator/msg-broker.go)
    and the metadata of the gRPC streams.  Random numbers, identifiers, JSON and
    the answers of the connections are arguments. *)

From S2P Require Import Prelude GoSem GoFloat Aggregator Servers.

(** ** The fleet *)

Module Fleet.

Definition truckCount : nat := 5000.

(** [rand.Intn(100)] and [rand.Float64()]. *)
Record draw := mkDraw { intn : Z; float : float64 }.
Definition getCoordinates (d : draw) : float64 := fadd (float_of_Z (intn d + 1)) (float d).
Definition getLatLng (d : draw * draw) : float64 * float64 := (getCoordinates d.1, getCoordinates d.2).
Definition NewSensorData (id : string) (d : draw * draw) : SensorData :=
  let '(lat, lng) := getLatLng d in mkSensorData id lat lng.

(** [new i] is the identifier generated at the i-th call of [uuid.New]. *)
Definition getSensorIds (new : nat → string) (n : nat) : list string := new <$> seq 0 n.

(** The loop of [main], with the answers of [WriteJSON]: what was written, and
    how it ends. *)
Fixpoint send_all (draws : nat → draw * draw) (write : nat → option error) (i : nat) (ids : list string) :
    list SensorData * outcome unit :=
  match ids with
  | [] => ([], Ret tt)
  | id :: ids =>
      match write i with
      | Some _ => ([], Panic "log.Fatal")
      | None =>
          let '(sent, r) := send_all draws write (S i) ids in
          (NewSensorData id (draws i) :: sent, r)
      end
  end.
Definition main (new : nat → string) (draws : nat → draw * draw) (dial : option error) (write : nat → option error) :
    list SensorData * outcome unit :=
  let sensorIds := getSensorIds new truckCount in
  match dial with
  | Some _ => ([], Panic "log.Fatal")
  | None => send_all draws write 0 sensorIds
  end.

(** What [rand] promises. *)
Definition drawn (d : draw) : Prop :=
  0 ≤ intn d < 100 ∧ fvalid (float d) = true ∧ is_finite (float d) = true ∧ 0 ≤ fval (float d) < fone.

(** The sum is rounded, so that 101 itself is possible. *)
Lemma coordinate_in_range d : drawn d →
  is_finite (getCoordinates d) = true ∧ fone ≤ fval (getCoordinates d) ≤ 101 * fone.
Proof.
  intros (Hi & Hv & Hf & Hr). unfold getCoordinates.
  destruct (float_of_Z_exact (intn d + 1) ltac:(lia)) as (Hvi & Hfi & Hei).
  destruct (float_of_Z_exact 1 ltac:(lia)) as (Hv1 & Hf1 & He1).
  destruct (float_of_Z_exact 101 ltac:(lia)) as (Hv2 & Hf2 & He2).
  pose proof fone_pos.
  destruct (nearest_between _ _ _ (float_of_Z 1) (float_of_Z 101)
    (nearest_add _ _ Hvi Hfi Hv Hf) Hv1 Hf1 Hv2 Hf2) as (_ & Hfin & Hb).
  { rewrite He1, He2, Hei. nia. }
  split; [done|]. rewrite He1, He2 in Hb. lia.
Qed.

Definition readings (new : nat → string) (draws : nat → draw * draw) (n : nat) : list SensorData :=
  (λ i, NewSensorData (new i) (draws i)) <$> seq 0 n.

Lemma send_all_prefix new draws write n : ∀ i,
  ∃ k, (k ≤ n)%nat ∧
    (send_all draws write i (new <$> seq i n)).1 = (λ i, NewSensorData (new i) (draws i)) <$> seq i k ∧
    (∀ j, (i ≤ j < i + k)%nat → write j = None) ∧
    if decide (k = n) then (send_all draws write i (new <$> seq i n)).2 = Ret tt
    else is_Some (write (i + k)%nat) ∧ (send_all draws write i (new <$> seq i n)).2 = Panic "log.Fatal".
Proof.
  induction n as [|n IH]; intros i.
  - exists 0%nat. split; [done|]. split; [done|]. split; [lia|by rewrite decide_True].
  - change (new <$> seq i (S n)) with (new i :: (new <$> seq (S i) n)). cbn [send_all].
    destruct (write i) as [err|] eqn:Hw.
    + exists 0%nat. split; [lia|]. split; [done|]. split; [lia|]. simpl. rewrite Nat.add_0_r. eauto.
    + destruct (IH (S i)) as (k & Hk & H1 & Hnone & H2). exists (S k).
      destruct (send_all draws write (S i) (new <$> seq (S i) n)) as [sent r]. cbn [fst snd] in *. subst sent.
      split; [lia|]. split; [done|]. split.
      * intros j Hj. destruct (decide (j = i)) as [->|]; [done|]. apply Hnone. lia.
      * rewrite Nat.add_succ_r. destruct (decide (k = n)) as [->|Hne].
        -- by rewrite decide_True.
        -- rewrite decide_False by congruence. done.
Qed.

(** The fleet writes one reading for each of its trucks, in order, until a
    write fails, which ends the program; every coordinate is finite and between 1
    and 101, and no two readings have the same sensor when identifiers do not
    repeat. *)
Theorem fleet_sends_each_truck_once new draws write :
  (∀ i j, new i = new j → i = j) → (∀ i, drawn (draws i).1 ∧ drawn (draws i).2) →
  ∃ k, (k ≤ truckCount)%nat ∧ (main new draws None write).1 = readings new draws k ∧
    (k = truckCount ∧ (main new draws None write).2 = Ret tt ∨
     is_Some (write k) ∧ (main new draws None write).2 = Panic "log.Fatal") ∧
    (∀ j, (j < k)%nat → write j = None) ∧
    NoDup (SensorID <$> (main new draws None write).1) ∧
    Forall (λ d, (is_finite (Lat d) = true ∧ fone ≤ fval (Lat d) ≤ 101 * fone) ∧
                 (is_finite (Lng d) = true ∧ fone ≤ fval (Lng d) ≤ 101 * fone)) (main new draws None write).1.
Proof.
  intros Hnew Hd. unfold main, getSensorIds.
  destruct (send_all_prefix new draws write truckCount 0) as (k & Hk & H1 & Hnone & H2).
  exists k. split; [done|]. rewrite !H1. split; [done|]. split_and!.
  - destruct (decide (k = truckCount)); [by left|by right].
  - intros j Hj. apply Hnone. lia.
  - rewrite <-list_fmap_compose. apply NoDup_fmap_2; [|apply NoDup_seq]. exact Hnew.
  - apply Forall_fmap, Forall_true. intros i. destruct (Hd i). split; by apply coordinate_in_range.
Qed.
End Fleet.

(** ** The receiver *)

Module Receiver.
Section Receiver.
Import Loops DataProducer.
(** [json.Marshal] and [json.Unmarshal] of a [shared.SensorData]. *)
Context (marshal : SensorData → result string) (decode : string → option SensorData).

(** [LogMiddleware.ProduceData] logs the sensor when the next producer has
    returned, whatever it returned. *)
Definition LogMiddleware_ProduceData {P} (next : SensorData → P → option error * P) (data : SensorData)
    (s : P * list string) : option error * (P * list string) :=
  let '(err, p) := next data s.1 in (err, (p, s.2 ++ [SensorID data])).

Definition NewMsgBroker (client : option error) : result (KafkaProducer * list string) :=
  match NewKafkaProducer client with Ok p => Ok (p, []) | Err err => Err err end.

(** The handler of one websocket: what it has read, whether its loop goes on,
    the goroutines in [ProduceData] and the producer they share. *)
Record DataReceiver := mkReceiver {
  consumed : list ws_read; looping : bool; producing : list SensorData;
  msgBroker : KafkaProducer * list string; refused : list SensorData }.

(** A failed upgrade ends the program. *)
Definition wsHandler (upgrade : option error) (msgBroker : KafkaProducer * list string) : outcome DataReceiver :=
  match upgrade with
  | Some _ => Panic "log.Fatal"
  | None => Ret (mkReceiver [] true [] msgBroker [])
  end.

(** One turn of [acceptWSLoop]: whether it goes on, and the goroutine it starts. *)
Definition accept_turn (r : ws_read) : bool * list SensorData :=
  match r with
  | WMsg b => (true, match decode b with Some sd => [sd] | None => [] end)
  | r => (IsUnexpectedCloseError r, [])
  end.

Inductive step : DataReceiver → DataReceiver → Prop :=
| st_read r c ps b f :
    step (mkReceiver c true ps b f)
         (mkReceiver (c ++ [r]) (accept_turn r).1 (ps ++ (accept_turn r).2) b f)
| st_produce send c l before sd after b b' f err :
    LogMiddleware_ProduceData (ProduceData marshal send) sd b = (err, b') →
    step (mkReceiver c l (before ++ sd :: after) b f)
         (mkReceiver c l (before ++ after) b' (match err with Some _ => f ++ [sd] | None => f end)).

(** The turns are those of [acceptWSLoop]. *)
Lemma acceptWSLoop_turn r reads :
  acceptWSLoop decode (r :: reads) =
    (if (accept_turn r).1
     then rest ← acceptWSLoop decode reads; Ret ((accept_turn r).2 ++ rest)
     else Ret (accept_turn r).2).
Proof.
  destruct r as [b|code|]; simpl; [destruct (decode b)|destruct (negb _)|];
    by destruct (acceptWSLoop decode reads).
Qed.

(** The readings in what was read, and the value of one that was produced. *)
Definition decoded (rs : list ws_read) : list SensorData := rs ≫= λ r, (accept_turn r).2.
Definition value_of (d : SensorData) : option string := match marshal d with Ok b => Some b | Err _ => None end.

(** Every reading is in a goroutine, produced or refused; the producer was handed
    the values of those produced, and every call was logged. *)
Definition each_once (s : DataReceiver) (produced : list SensorData) : Prop :=
  decoded (consumed s) ≡ₚ producing s ++ produced ++ refused s ∧
  Some <$> handed (msgBroker s).1 = value_of <$> produced ∧
  (msgBroker s).2 ≡ₚ SensorID <$> produced ++ refused s ∧
  loops (msgBroker s).1 = length produced.

Lemma each_once_step s s' produced : each_once s produced → step s s' → ∃ produced', each_once s' produced'.
Proof.
  intros (Hall & Hh & Hlog & Hl) Hs. destruct Hs as [r c ps b f|send c l before sd after [p log] b' f err Hp]; simpl in *.
  - exists produced. split; [|done]. simpl. unfold decoded in *. rewrite bind_app. simpl.
    rewrite app_nil_r, Hall. solve_Permutation.
  - unfold LogMiddleware_ProduceData, ProduceData in Hp. simpl in Hp.
    destruct (marshal sd) as [v|e] eqn:Hm; [destruct (send v) as [e|]|]; simplify_eq/=.
    + exists produced. split_and!; simpl; [|done| |done].
      * rewrite Hall. solve_Permutation.
      * rewrite Hlog, !fmap_app. simpl. solve_Permutation.
    + exists (produced ++ [sd]). split_and!; simpl.
      * rewrite Hall. solve_Permutation.
      * rewrite !fmap_app, Hh. simpl. unfold value_of. by rewrite Hm.
      * rewrite Hlog, !fmap_app. simpl. solve_Permutation.
      * rewrite length_app. simpl. lia.
    + exists produced. split_and!; simpl; [|done| |done].
      * rewrite Hall. solve_Permutation.
      * rewrite Hlog, !fmap_app. simpl. solve_Permutation.
Qed.


(** A client that closes normally is an unexpected close for the loop, which then
    reads on; as the connection gives the same error to every later read, the
    loop never ends.  One that goes away ends it. *)
Lemma acceptWSLoop_decoded msgs reads :
  Forall (λ r, (accept_turn r).1 = true) msgs →
  acceptWSLoop decode (msgs ++ reads) =
    (rest ← acceptWSLoop decode reads; Ret (decoded msgs ++ rest)).
Proof.
  induction 1 as [|r msgs Hr _ IH].
  { simpl. unfold decoded. simpl. by destruct (acceptWSLoop decode reads). }
  change ((r :: msgs) ++ reads) with (r :: (msgs ++ reads)).
  rewrite acceptWSLoop_turn, Hr, IH. destruct (acceptWSLoop decode reads); simpl; [|done..].
  by rewrite <-app_assoc.
Qed.

Lemma normal_close_never_ends msgs k :
  acceptWSLoop decode ((WMsg <$> msgs) ++ replicate k (WClosed 1000)) = Block ∧
  ∃ sds, acceptWSLoop decode ((WMsg <$> msgs) ++ [WClosed CloseGoingAway]) = Ret sds.
Proof.
  assert (Forall (λ r, (accept_turn r).1 = true) (WMsg <$> msgs)) as Hm
    by (apply Forall_fmap, Forall_true; done).
  rewrite !acceptWSLoop_decoded by done. split; [|by eexists].
  replace (replicate k (WClosed 1000)) with (replicate k (WClosed 1000) ++ []) by apply app_nil_r.
  rewrite acceptWSLoop_decoded; [done|]. by apply Forall_replicate.
Qed.
End Receiver.
End Receiver.

(** ** The aggregator's consumer *)

Module Ready.

(** [Assignment] of the client. *)
Definition readyCheck {TP} (assignment : result (list TP)) : result bool :=
  match assignment with Err err => Err err | Ok a => Ok (0 <? length a)%nat end.

(** The deferred function sets [IsReady] however the check ends; the answers are
    those of successive seconds. *)
Fixpoint checkReadyToAccept {TP} (answers : list (result (list TP))) (IsReady : bool) :
    outcome (option error * bool) :=
  match answers with
  | [] => Block
  | answer :: answers =>
      match readyCheck answer with
      | Err err => Ret (Some err, true)
      | Ok true => Ret (None, true)
      | Ok false => checkReadyToAccept answers IsReady
      end
  end.

Lemma checkReadyToAccept_first {TP} (before : list (result (list TP))) answer after IsReady :
  Forall (λ a, a = Ok []) before → answer ≠ Ok [] →
  checkReadyToAccept (before ++ answer :: after) IsReady =
    Ret (match answer with Err err => Some err | Ok _ => None end, true).
Proof.
  intros Hb Ha. induction Hb as [|a before -> _ IH]; [|exact IH]. by destruct answer as [[|x l]|err].
Qed.

(** [NewMsgBroker]: a broker of another type has no consumer. *)
Definition MsgBrokerType_Kafka : Z := 0.
Definition NewMsgBroker {C} (brokerType : Z) (NewKafkaConsumer : result C) : result (option C) :=
  if brokerType =? MsgBrokerType_Kafka
  then match NewKafkaConsumer with Ok c => Ok (Some c) | Err err => Err err end
  else Ok None.
End Ready.

(** ** The metadata of the streams *)

Module Interceptor.

(** A context: its values and the metadata that came with the request. *)
Record context := mkContext { values : gmap string (list string); incoming : option (gmap string (list string)) }.
Definition WithValue (k : string) (v : list string) (ctx : context) : context :=
  mkContext (<[k := v]> (values ctx)) (incoming ctx).

(** A stream has a context; the wrapped one has another field of that type, but
    the method it is asked by is that of the stream inside. *)
Record ServerStream := mkStream { ctx_of : context }.
Record wrappedServerStream := mkWrapped { inner : ServerStream; ctx : context }.
Definition Context (s : wrappedServerStream) : context := ctx_of (inner s).

Definition StreamAuthInterceptor (ss : ServerStream) (handler : wrappedServerStream → option error) : option error :=
  match incoming (ctx_of ss) with
  | None => Some (ErrNew "missing metadata")
  | Some md =>
      let token := default [] (md !! "authorization") in
      handler (mkWrapped ss (WithValue "userId" token (ctx_of ss)))
  end.

(** What the aggregator's client sends with its stream, as the server gets it. *)
Definition client_md : gmap string (list string) :=
  <["tenant-id" := ["acme-corp"]]> (<["request-id" := ["abc-def-ghi"]]> {["authorization" := ["Bearer token123"]]}).

(** A handler that asks its stream for the user finds what was there before the
    interceptor. *)
Lemma interceptor_hides_user (use : option (list string) → option error) ss md :
  incoming (ctx_of ss) = Some md →
  StreamAuthInterceptor ss (λ w, use (values (Context w) !! "userId")) = use (values (ctx_of ss) !! "userId") ∧
  StreamAuthInterceptor ss (λ w, use (values (ctx w) !! "userId")) = use (Some (default [] (md !! "authorization"))).
Proof.
  intros Hmd. unfold StreamAuthInterceptor. rewrite Hmd. split; [done|].
  simpl. by rewrite lookup_insert_eq.
Qed.

Example interceptor_client :
  StreamAuthInterceptor (mkStream (mkContext ∅ (Some client_md)))
    (λ w, match values (Context w) !! "userId" with None => Some (ErrNew "no user") | Some _ => None end)
  = Some (ErrNew "no user").
Proof. reflexivity. Qed.
End Interceptor.

(** Three readings, of which the second cannot be sent. *)
Definition fleet_draw (i : nat) : Fleet.draw * Fleet.draw :=
  (Fleet.mkDraw (Z.of_nat i mod 100) (float_of_dyadic 1 (-1)), Fleet.mkDraw 7 (float_of_Z 0)).
Definition fleet_write (i : nat) : option error := if decide (i = 3)%nat then Some (ErrNew "closed") else None.

Lemma fleet_sends_each_truck_once_witness :
  ∃ k, (k ≤ 5000)%nat ∧
    (Fleet.main (λ i, pretty i) fleet_draw None fleet_write).1 = Fleet.readings (λ i, pretty i) fleet_draw k ∧
    (k = 5000%nat ∨ is_Some (fleet_write k)).
Proof.
  destruct (Fleet.fleet_sends_each_truck_once (λ i, pretty i) fleet_draw fleet_write) as (k & Hk & Hr & He & _).
  - intros i j Hij. by apply (inj pretty) in Hij.
  - intros i. split; (split; [simpl; pose proof (Z.mod_pos_bound (Z.of_nat i) 100 ltac:(lia)); lia|]);
      split_and!; vm_compute; done.
  - exists k. split; [exact Hk|]. split; [exact Hr|]. destruct He as [[E _]|[E _]]; [by left|by right].
Defined.

Definition demo_marshal (d : SensorData) : result string := Ok (SensorID d).
Definition demo_decode (b : string) : option SensorData := Some (mkSensorData b (float_of_Z 1) (float_of_Z 2)).

