(* ===== verification/RateLimiter.v ===== *)
(** * The rate limiter (chat/ratelimiter/)

    Token buckets over float64 and a monotonic clock (ratelimiter.go), one per
    client, behind an HTTP handler (http_server.go).  Clock readings are
    nanoseconds and arguments of the operations.  [Seq] is the limiter with one
    request at a time; [step] interleaves the critical sections of concurrent
    requests and of the clean-up goroutine. *)

From S2P Require Import Prelude GoSem GoFloat.
From Stdlib Require Import SpecFloat.

(** ** Time *)

(** [time.Since(t)] at the reading [now]: the difference, saturated. *)
Definition Since (now t : Z) : Z := Z.max min_int64 (Z.min max_int64 (now - t)).

(** [Duration.Seconds]. *)
Definition Seconds (d : Z) : float64 :=
  let sec := Z.quot d 1000000000 in
  let nsec := Z.rem d 1000000000 in
  fadd (float_of_Z sec) (fdiv (float_of_Z nsec) (float_of_Z 1000000000)).

(** ** One bucket *)

Record RateLimiter := mkRL {
  refillRate : float64; lastRefill : Z; tokens : float64; maxTokens : float64 }.

Definition NewRateLimiter (maxTokens refillRate : float64) (now : Z) : RateLimiter :=
  mkRL refillRate now maxTokens maxTokens.

(** [refill] reads the clock twice: [now1] for the elapsed time, [now2] for the
    new [lastRefill]. *)
Definition refill (now1 now2 : Z) (r : RateLimiter) : RateLimiter :=
  let ellapsed := Seconds (Since now1 (lastRefill r)) in
  let toRefill := fmul ellapsed (refillRate r) in
  mkRL (refillRate r) now2 (fmin (maxTokens r) (fadd (tokens r) toRefill)) (maxTokens r).

(** [RateLimiter.Allow]; its mutex is released on every path. *)
Definition Allow (now1 now2 : Z) (r : RateLimiter) : bool * RateLimiter :=
  let r := refill now1 now2 r in
  if fleb (float_of_Z 1) (tokens r)
  then (true, mkRL (refillRate r) (lastRefill r) (fsub (tokens r) (float_of_Z 1)) (maxTokens r))
  else (false, r).

(** ** A bucket per client *)

Definition MaxTokens : float64 := float_of_Z 1000000.
Definition RefillRatePerSecond : float64 := float_of_Z 1000000.
Definition maxInactive : Z := 2000000000.

(** The limiters are pointers: [heap] holds what they point to, and
    [limiters] the pointer of each client. *)
Record PerClientLimiter := mkPCL {
  limiters : gmap string nat; heap : list RateLimiter }.

Definition NewPerClientLimiter : PerClientLimiter := mkPCL ∅ [].

(** The second critical section of [PerClientLimiter.Allow]. *)
Definition add_limiter (now : Z) (cID : string) (c : PerClientLimiter) : nat * PerClientLimiter :=
  let p := length (heap c) in
  (p, mkPCL (<[cID := p]> (limiters c))
            (heap c ++ [NewRateLimiter MaxTokens RefillRatePerSecond now])).

(** [rl.Allow()] on the limiter at [p]. *)
Definition allow_limiter (now1 now2 : Z) (p : nat) (c : PerClientLimiter) :
    outcome (bool * PerClientLimiter) :=
  match heap c !! p with
  | Some r => let '(b, r) := Allow now1 now2 r in Ret (b, mkPCL (limiters c) (<[p := r]> (heap c)))
  | None => Panic "invalid memory address or nil pointer dereference"
  end.

(** [PerClientLimiter.Allow]: [now0] is the reading of [NewRateLimiter]. *)
Definition PerClientLimiter_Allow (now0 now1 now2 : Z) (cID : string) (c : PerClientLimiter) :
    outcome (bool * PerClientLimiter) :=
  let '(p, c) := match limiters c !! cID with
                 | Some p => (p, c)
                 | None => add_limiter now0 cID c
                 end in
  allow_limiter now1 now2 p c.

(** The body of a tick of [cleanUp]: the clients whose limiter has not been
    refilled for [maxInactive] are removed; [now id] is the reading for [id]. *)
Definition inactive (now : string → Z) (c : PerClientLimiter) (id : string) (p : nat) : bool :=
  match heap c !! p with
  | Some r => maxInactive <=? Since (now id) (lastRefill r)
  | None => false
  end.
Definition cleanUp (now : string → Z) (c : PerClientLimiter) : PerClientLimiter :=
  mkPCL (filter (λ kv : string * nat, inactive now c kv.1 kv.2 = false) (limiters c)) (heap c).

(** The HTTP handler: the status it writes, or the end of the process
    ([log.Fatal]) for a request without a client. *)
Inductive HandlerResult := Status (code : Z) | Fatal.
Definition handler (now0 now1 now2 : Z) (cID : string) (c : PerClientLimiter) :
    outcome (HandlerResult * PerClientLimiter) :=
  if decide (cID = "")%string then Ret (Fatal, c)
  else '(isAllowed, c) ← PerClientLimiter_Allow now0 now1 now2 cID c;
       Ret (Status (match isAllowed with true => 200 | false => 429 end), c).

(** ** Concurrent requests *)

(** Where a request is: before reading the map, before inserting a limiter,
    before asking its limiter, and answered. *)
Inductive request :=
| RLookup (cID : string)
| RCreate (cID : string)
| RAllow (cID : string) (p : nat)
| RDone (cID : string) (answer : bool).

Record world := mkWorld { limiter : PerClientLimiter; now : Z; requests : list request }.

Inductive step : relation world :=
| step_arrive c t rs cID :
    step (mkWorld c t rs) (mkWorld c t (rs ++ [RLookup cID]))
| step_time c t t' rs :
    t ≤ t' → step (mkWorld c t rs) (mkWorld c t' rs)
| step_found c t rs i cID p :
    rs !! i = Some (RLookup cID) → limiters c !! cID = Some p →
    step (mkWorld c t rs) (mkWorld c t (<[i := RAllow cID p]> rs))
| step_missing c t rs i cID :
    rs !! i = Some (RLookup cID) → limiters c !! cID = None →
    step (mkWorld c t rs) (mkWorld c t (<[i := RCreate cID]> rs))
| step_create c t rs i cID p c' :
    rs !! i = Some (RCreate cID) → add_limiter t cID c = (p, c') →
    step (mkWorld c t rs) (mkWorld c' t (<[i := RAllow cID p]> rs))
| step_allow c t t' rs i cID p b c' :
    rs !! i = Some (RAllow cID p) → t ≤ t' → allow_limiter t t' p c = Ret (b, c') →
    step (mkWorld c t rs) (mkWorld c' t' (<[i := RDone cID b]> rs))
| step_clean c t t' rs rd :
    (∀ id, t ≤ rd id ≤ t') →
    step (mkWorld c t rs) (mkWorld (cleanUp rd c) t' rs).

Definition world0 : world := mkWorld NewPerClientLimiter 0 [].

(** The answers given so far. *)
Definition answer (r : request) : option bool :=
  match r with RDone _ b => Some b | _ => None end.
Definition answers (w : world) : list bool := omap answer (requests w).

Example Allow_example :
  (Allow 10 12 (mkRL RefillRatePerSecond 0 (float_of_Z 0) MaxTokens)).1 = false ∧
  (Allow 1000 1012 (mkRL RefillRatePerSecond 0 (float_of_Z 0) MaxTokens)).1 = true.
Proof. split; vm_compute; reflexivity. Qed.

(** ** What a refill does to a bucket *)

Local Opaque fone.

Lemma MaxTokens_val : fvalid MaxTokens = true ∧ is_finite MaxTokens = true ∧
  fval MaxTokens = 1000000 * fone.
Proof. apply float_of_Z_exact. lia. Qed.

Lemma nearest_unit N D r : 0 < D → nearest (N * fone) (D * fone) r → nearest N D r.
Proof. intros HD. apply nearest_scale; [apply fone_pos|done]. Qed.

(** Elapsed seconds: at least two from two seconds on, and below that within
    [2^-51] of the exact value. *)
Lemma Seconds_spec d :
  0 ≤ d ≤ max_int64 →
  fvalid (Seconds d) = true ∧ is_finite (Seconds d) = true ∧ 0 ≤ fval (Seconds d) ∧
  (2000000000 ≤ d → 2 * fone ≤ fval (Seconds d)) ∧
  (d < 2000000000 →
    1000000000 * 2 ^ 51 * fval (Seconds d) ≤ (2 ^ 51 * d + 1000000000) * fone).
Proof.
  intros Hd. unfold max_int64 in Hd. pose proof fone_pos as Hu. unfold Seconds. cbv zeta.
  rewrite Z.quot_div_nonneg, Z.rem_mod_nonneg by lia.
  pose proof (Z.div_mod d 1000000000 ltac:(lia)) as Hdm.
  pose proof (Z.mod_pos_bound d 1000000000 ltac:(lia)) as Hns.
  assert (0 ≤ d / 1000000000 ≤ 10000000000) as Hsec
    by (split; [apply Z.div_pos; lia|apply Z.div_le_upper_bound; lia]).
  set (sec := d / 1000000000) in *. set (nsec := d mod 1000000000) in *.
  destruct (float_of_Z_exact sec ltac:(lia)) as (Hs1 & Hs2 & Hs3).
  destruct (float_of_Z_exact nsec ltac:(lia)) as (Hn1 & Hn2 & Hn3).
  destruct (float_of_Z_exact 1000000000 ltac:(lia)) as (Hg1 & Hg2 & Hg3).
  destruct (float_of_Z_exact 0 ltac:(lia)) as (Hz1 & Hz2 & Hz3).
  destruct (float_of_Z_exact 1 ltac:(lia)) as (Ho1 & Ho2 & Ho3).
  pose proof (nearest_div (float_of_Z nsec) (float_of_Z 1000000000)) as Hdiv.
  rewrite Hn3, Hg3 in Hdiv. specialize (Hdiv Hn1 Hn2 Hg1 Hg2 ltac:(lia)).
  apply nearest_unit in Hdiv; [|lia].
  destruct (nearest_between _ _ _ (float_of_Z 0) (float_of_Z 1) Hdiv) as (Hq1 & Hq2 & Hq3);
    [done..|rewrite Hz3, Ho3; nia|].
  rewrite Hz3, Ho3 in Hq3. pose proof (near_err _ _ _ Hdiv Hq2) as Hqe.
  set (q := fdiv (float_of_Z nsec) _) in *.
  destruct (Z_float (sec + 1)) as (hi & Hh1 & Hh2 & Hh3); [lia|].
  pose proof (nearest_add _ q Hs1 Hs2 Hq1 Hq2) as Hadd. rewrite Hs3 in Hadd.
  destruct (nearest_between _ _ _ (float_of_Z sec) hi Hadd) as (Ha1 & Ha2 & Ha3);
    [done..|lia|].
  rewrite Hs3, Hh3 in Ha3. pose proof (near_err _ _ _ Hadd Ha2) as Hae.
  split_and!; [done|done|lia| |].
  - intros Hd2. assert (2 ≤ sec) by (apply Z.div_le_lower_bound; lia). nia.
  - pose proof fone_big. assert (0 ≤ nsec * fone ≤ 1000000000 * fone) by nia.
    intros Hd2. assert (sec ≤ 1) as Hsec1 by (apply Z.lt_succ_r, Z.div_lt_upper_bound; lia).
    rewrite Z.mul_add_distr_r, <- Z.mul_assoc, Hdm.
    assert (sec = 0 ∨ sec = 1) as [E|E] by lia; rewrite E in *; lia.
Qed.

(** The buckets of the server: between empty and full. *)
Definition bucket_ok (r : RateLimiter) : Prop :=
  maxTokens r = MaxTokens ∧ refillRate r = RefillRatePerSecond ∧
  fvalid (tokens r) = true ∧ is_finite (tokens r) = true ∧
  0 ≤ fval (tokens r) ≤ 1000000 * fone.

Lemma NewRateLimiter_ok now : bucket_ok (NewRateLimiter MaxTokens RefillRatePerSecond now).
Proof.
  destruct MaxTokens_val as (Hv & Hf & Hval). pose proof fone_pos.
  split_and!; cbn [NewRateLimiter maxTokens refillRate tokens]; done || lia.
Qed.

Lemma fmin_full y :
  fvalid y = true →
  y = S754_infinity false ∨ is_finite y = true ∧ 1000000 * fone ≤ fval y →
  fmin MaxTokens y = MaxTokens.
Proof.
  intros Hy Hor. destruct MaxTokens_val as (Hv & Hf & Hval). pose proof fone_pos.
  destruct (fmin_spec MaxTokens y Hv Hf Hy ltac:(tauto)) as (Hmv & Hmf & Hmval).
  assert (fval (fmin MaxTokens y) = fval MaxTokens) as Heq.
  { rewrite Hmval, Hval. destruct Hor as [->|[-> Hge]]; [done|lia]. }
  apply fval_inj; [done..|]. rewrite Heq, Hval. lia.
Qed.

(** What the elapsed time is worth. *)
Lemma toRefill_spec d :
  0 ≤ d ≤ max_int64 →
  let m := fmul (Seconds d) RefillRatePerSecond in
  fvalid m = true ∧
  (m = S754_infinity false ∨ is_finite m = true ∧ 0 ≤ fval m) ∧
  (2000000000 ≤ d → m = S754_infinity false ∨ is_finite m = true ∧ 2000000 * fone ≤ fval m) ∧
  (d < 2000000000 → is_finite m = true ∧ fval m ≤ 3000000 * fone ∧
    1000 * 2 ^ 30 * fval m ≤ (2 ^ 30 * d + 1000) * fone).
Proof.
  intros Hd m. destruct (Seconds_spec d Hd) as (Hv & Hf & H0 & H2 & Hup).
  destruct (float_of_Z_exact 1000000 ltac:(lia)) as (Hr1 & Hr2 & Hr3).
  pose proof fone_big as Hbig. pose proof fone_pos as Hu.
  pose proof (nearest_mul (Seconds d) RefillRatePerSecond Hv Hf Hr1 Hr2) as Hm.
  change (fval RefillRatePerSecond) with (fval (float_of_Z 1000000)) in Hm. rewrite Hr3 in Hm.
  rewrite Z.mul_assoc in Hm. rewrite <- (Z.mul_1_l fone) in Hm at 2.
  apply nearest_unit in Hm; [|done]. fold m in Hm.
  destruct (float_of_Z_exact 0 ltac:(lia)) as (Hz1 & Hz2 & Hz3).
  destruct (float_of_Z_exact 2000000 ltac:(lia)) as (Ht1 & Ht2 & Ht3).
  destruct (float_of_Z_exact 3000000 ltac:(lia)) as (Hh1 & Hh2 & Hh3).
  split; [apply (near_valid _ _ _ Hm)|]. split_and!.
  - destruct (nearest_at_least _ _ _ (float_of_Z 0) Hm) as [_ [?|[? ?]]];
      [done..|rewrite Hz3; lia|by left|right]. rewrite Hz3 in *. split; [done|lia].
  - intros Hd2. specialize (H2 Hd2).
    destruct (nearest_at_least _ _ _ (float_of_Z 2000000) Hm) as [_ [?|[? ?]]];
      [done..|rewrite Ht3; lia|by left|right]. rewrite Ht3 in *. done.
  - intros Hd2. specialize (Hup Hd2).
    assert (0 ≤ d * fone ≤ 2000000000 * fone) by nia.
    destruct (nearest_between _ _ _ (float_of_Z 0) (float_of_Z 3000000) Hm) as (_ & Hmf & Hmv);
      [done..|rewrite Hz3, Hh3; lia|].
    pose proof (near_err _ _ _ Hm Hmf) as He. rewrite Hz3, Hh3 in Hmv. split_and!; [done|lia|].
    lia.
Qed.

(** The tokens after adding what the elapsed time is worth, before the cap. *)
Lemma add_refill_spec t d :
  fvalid t = true → is_finite t = true → 0 ≤ fval t ≤ 1000000 * fone → 0 ≤ d ≤ max_int64 →
  let m := fmul (Seconds d) RefillRatePerSecond in
  let y := fadd t m in
  fvalid y = true ∧
  (y = S754_infinity false ∨ is_finite y = true ∧ fval t ≤ fval y) ∧
  (2000000000 ≤ d → y = S754_infinity false ∨ is_finite y = true ∧ 1000000 * fone ≤ fval y) ∧
  (d < 2000000000 → is_finite y = true ∧
    1000 * 2 ^ 29 * fval y ≤ 1000 * 2 ^ 29 * fval t + (2 ^ 29 * d + 1000) * fone).
Proof.
  intros Hv Hf Hrange Hd m y.
  destruct (toRefill_spec d Hd) as (Hmv & Hm0 & Hm2 & Hmup). fold m in Hmv, Hm0, Hm2, Hmup.
  destruct MaxTokens_val as (HMv & HMf & HMval). pose proof fone_big as Hbig.
  destruct Hm0 as [Hinf|[Hmf Hm0]].
  { assert (y = S754_infinity false) as -> by (unfold y; rewrite Hinf; by destruct t).
    split_and!; [done|by left|by left|]. intros Hlt. destruct (Hmup Hlt) as [Hfin _].
    by rewrite Hinf in Hfin. }
  pose proof (nearest_add t m Hv Hf Hmv Hmf) as Hadd. fold y in Hadd. split_and!.
  - apply (near_valid _ _ _ Hadd).
  - apply (nearest_at_least _ _ _ t Hadd Hv Hf). lia.
  - intros H2. destruct (Hm2 H2) as [Hinf|[_ Hge]]; [by rewrite Hinf in Hmf|].
    destruct (nearest_at_least _ _ _ MaxTokens Hadd HMv HMf) as [_ Hor];
      [rewrite HMval; lia|by rewrite HMval in Hor].
  - intros Hlt. destruct (Hmup Hlt) as (_ & Hm3 & Hm4).
    destruct (float_of_Z_exact 4000000 ltac:(lia)) as (Hh1 & Hh2 & Hh3).
    destruct (nearest_between _ _ _ t _ Hadd Hv Hf Hh1 Hh2 ltac:(lia)) as (_ & Hyf & _).
    pose proof (near_err _ _ _ Hadd Hyf) as He. split; [done|lia].
Qed.

(** A refill never takes tokens; after two idle seconds, or on a full bucket, it
    leaves the bucket full; and it adds at most a token per microsecond. *)
Lemma refill_spec now1 now2 r :
  bucket_ok r → lastRefill r ≤ now1 →
  let r' := refill now1 now2 r in
  bucket_ok r' ∧ lastRefill r' = now2 ∧ fval (tokens r) ≤ fval (tokens r') ∧
  (2000000000 ≤ now1 - lastRefill r ∨ tokens r = MaxTokens → tokens r' = MaxTokens) ∧
  1000 * 2 ^ 29 * fval (tokens r') ≤
    1000 * 2 ^ 29 * fval (tokens r) + (2 ^ 29 * (now1 - lastRefill r) + 1000) * fone.
Proof.
  intros (Hmax & Hrate & Hv & Hf & Hrange) Ht r'.
  unfold bucket_ok, r', refill. rewrite Hmax, Hrate. cbn [refillRate lastRefill tokens maxTokens].
  set (d := Since now1 (lastRefill r)).
  assert (0 ≤ d ≤ max_int64 ∧ d ≤ now1 - lastRefill r ∧
    (2000000000 ≤ now1 - lastRefill r → 2000000000 ≤ d)) as (Hd & Hdle & Hd2)
    by (unfold d, Since, min_int64, max_int64; lia).
  destruct (add_refill_spec (tokens r) d Hv Hf Hrange Hd) as (Hyv & Hy & Hy2 & Hyup).
  set (y := fadd _ _) in *. destruct MaxTokens_val as (HMv & HMf & HMval).
  destruct (fmin_spec MaxTokens y HMv HMf Hyv ltac:(tauto)) as (Hn1 & Hn2 & Hn3).
  rewrite HMval in Hn3. pose proof fone_big as Hbig.
  assert (fval (tokens r) ≤ fval (fmin MaxTokens y) ≤ 1000000 * fone) as Hcap.
  { rewrite Hn3. destruct (is_finite y) eqn:E; [|lia].
    destruct Hy as [Hinf|[_ Hy]]; [by rewrite Hinf in E|lia]. }
  split_and!; try done; try lia.
  - intros Hfull. apply fmin_full; [done|]. destruct Hfull as [Hlong|Heq]; [auto|].
    by rewrite Heq, HMval in Hy.
  - destruct (Z.lt_ge_cases d 2000000000) as [Hlt|Hge].
    + destruct (Hyup Hlt) as [Hyf Hle]. rewrite Hn3, Hyf.
      assert (d * fone ≤ (now1 - lastRefill r) * fone) by nia. lia.
    + assert (2000000000 * fone ≤ (now1 - lastRefill r) * fone) by nia. lia.
Qed.

Definition taken (b : bool) : Z := if b then fone else 0.

(** One request: a bucket with a token grants it, and takes that token only. *)
Lemma Allow_spec now1 now2 r b r' :
  bucket_ok r → lastRefill r ≤ now1 → Allow now1 now2 r = (b, r') →
  bucket_ok r' ∧ lastRefill r' = now2 ∧
  (∀ k, 1 ≤ k ≤ 1000000 → k * fone ≤ fval (tokens r) →
    b = true ∧ (k - 1) * fone ≤ fval (tokens r')) ∧
  1000 * 2 ^ 28 * (fval (tokens r') + taken b) ≤
    1000 * 2 ^ 28 * fval (tokens r) + (2 ^ 28 * (now1 - lastRefill r) + 1000) * fone.
Proof.
  intros Hok Ht. destruct (refill_spec now1 now2 r Hok Ht) as (Hok' & Hlast & Hge & _ & Hup).
  unfold Allow. set (r1 := refill now1 now2 r) in *.
  destruct Hok' as (Hmax & Hrate & Hv & Hf & Hrange). pose proof fone_big as Hbig.
  destruct (float_of_Z_exact 1 ltac:(lia)) as (Ho1 & Ho2 & Ho3).
  rewrite fleb_fval, Ho3 by done. destruct (Z.leb_spec (1 * fone) (fval (tokens r1))) as [Hle|Hlt].
  - intros [= <- <-]. unfold bucket_ok. cbn [maxTokens refillRate tokens lastRefill].
    pose proof (nearest_sub (tokens r1) (float_of_Z 1) Hv Hf Ho1 Ho2) as Hsub.
    rewrite Ho3 in Hsub. set (y := fsub _ _) in *.
    assert (∀ k, 1 ≤ k ≤ 1000000 → k * fone ≤ fval (tokens r1) →
      is_finite y = true ∧ (k - 1) * fone ≤ fval y ≤ 1000000 * fone) as Hk.
    { intros k Hk Hkle. destruct (Z_float (k - 1)) as (lo & Hl1 & Hl2 & Hl3); [lia|].
      destruct (Z_float 1000000) as (hi & Hh1 & Hh2 & Hh3); [lia|].
      destruct (nearest_between _ _ _ lo hi Hsub Hl1 Hl2 Hh1 Hh2) as (_ & ? & ?); [lia|].
      rewrite <- Hl3, <- Hh3. done. }
    destruct (Hk 1 ltac:(lia) Hle) as [Hyf Hyr].
    pose proof (near_err _ _ _ Hsub Hyf) as He. split_and!; try done; try lia.
    + apply (near_valid _ _ _ Hsub).
    + intros k Hkr Hkle. split; [done|]. apply Hk; [done|lia].
    + cbn [taken]. lia.
  - intros [= <- <-]. split_and!; try done; try lia.
    + intros k Hkr Hkle. nia.
    + cbn [taken]. lia.
Qed.

(** ** The limiter with one request at a time *)

Module Seq.

(** A request with its three clock readings, or a tick of the clean-up with a
    reading per client and the time it ends. *)
Inductive event :=
| Req (cID : string) (now0 now1 now2 : Z)
| Clean (rd : string → Z) (until : Z).

Fixpoint run (evs : list event) (c : PerClientLimiter) :
    outcome (list (string * bool) * PerClientLimiter) :=
  match evs with
  | [] => Ret ([], c)
  | Req cID now0 now1 now2 :: evs =>
      '(b, c) ← PerClientLimiter_Allow now0 now1 now2 cID c;
      '(l, c) ← run evs c;
      Ret ((cID, b) :: l, c)
  | Clean rd _ :: evs => run evs (cleanUp rd c)
  end.

(** The readings follow each other from [t] on and end by [t']. *)
Fixpoint timed (t : Z) (evs : list event) (t' : Z) : Prop :=
  match evs with
  | [] => t ≤ t'
  | Req _ now0 now1 now2 :: evs => t ≤ now0 ∧ now0 ≤ now1 ∧ now1 ≤ now2 ∧ timed now2 evs t'
  | Clean rd u :: evs => (∀ id, t ≤ rd id ≤ u) ∧ t ≤ u ∧ timed u evs t'
  end.

Definition is_request (e : event) : bool := match e with Req _ _ _ _ => true | _ => false end.
Definition without_cleanup (evs : list event) : list event := filter is_request evs.

(** Requests of a client, and those granted. *)
Definition asked (cID : string) (l : list (string * bool)) : Z :=
  Z.of_nat (length (filter (λ a : string * bool, a.1 = cID) l)).
Definition granted (cID : string) (l : list (string * bool)) : Z :=
  Z.of_nat (length (filter (λ a : string * bool, a = (cID, true)) l)).

End Seq.

(** The bucket of a client. *)
Definition view (c : PerClientLimiter) (cID : string) : option RateLimiter :=
  limiters c !! cID ≫= λ p, heap c !! p.

(** Each client's pointer is to a limiter of its own. *)
Definition wf (c : PerClientLimiter) : Prop :=
  (∀ id p, limiters c !! id = Some p → (p < length (heap c))%nat) ∧
  (∀ id id' p, limiters c !! id = Some p → limiters c !! id' = Some p → id = id').

Lemma wf_new : wf NewPerClientLimiter.
Proof. split; intros *; cbn [limiters NewPerClientLimiter]; by rewrite lookup_empty. Qed.

Lemma Allow_view now0 now1 now2 cID c :
  wf c →
  let r := default (NewRateLimiter MaxTokens RefillRatePerSecond now0) (view c cID) in
  ∃ c', PerClientLimiter_Allow now0 now1 now2 cID c = Ret ((Allow now1 now2 r).1, c') ∧ wf c' ∧
    (∀ id, view c' id = if decide (id = cID) then Some (Allow now1 now2 r).2 else view c id).
Proof.
  intros [Hlt Hinj] r. unfold PerClientLimiter_Allow, r, view.
  destruct (limiters c !! cID) as [p|] eqn:Ep; simpl.
  - destruct (lookup_lt_is_Some_2 (heap c) p (Hlt _ _ Ep)) as [r0 Hr0].
    unfold allow_limiter. rewrite Hr0. simpl. destruct (Allow now1 now2 r0) as [b r'].
    eexists. split; [done|]. split.
    + split; cbn [limiters heap]; [|done]. intros. rewrite length_insert. eauto.
    + intros id. cbn [limiters heap]. destruct (decide (id = cID)) as [->|Hne].
      * rewrite Ep. simpl. by rewrite list_lookup_insert_eq by eauto.
      * destruct (limiters c !! id) as [q|] eqn:Eq; [simpl|done].
        rewrite list_lookup_insert_ne; [done|]. intros ->. by eapply Hne, Hinj.
  - unfold allow_limiter. cbn [heap limiters]. rewrite list_lookup_middle by done.
    set (r0 := NewRateLimiter _ _ _). destruct (Allow now1 now2 r0) as [b r'].
    eexists. split; [done|]. split; [split|]; cbn [limiters heap].
    + intros id p. rewrite length_insert, length_app. simpl. destruct (decide (id = cID)) as [->|].
      * rewrite lookup_insert_eq. intros [= <-]. lia.
      * rewrite lookup_insert_ne by done. intros ?%Hlt. lia.
    + intros id id' p. destruct (decide (id = cID)) as [->|], (decide (id' = cID)) as [->|]; [done|..];
        rewrite ?lookup_insert_eq, ?lookup_insert_ne by done.
      * intros [= <-] ?%Hlt. lia.
      * intros ?%Hlt [= <-]. lia.
      * apply Hinj.
    + intros id. destruct (decide (id = cID)) as [->|].
      * rewrite lookup_insert_eq. simpl. apply list_lookup_insert_eq. rewrite length_app. simpl. lia.
      * rewrite lookup_insert_ne by done. destruct (limiters c !! id) as [q|] eqn:Eq; [simpl|done].
        apply Hlt in Eq. rewrite list_lookup_insert_ne by lia. by rewrite lookup_app_l.
Qed.

Lemma cleanUp_view rd c :
  wf c → wf (cleanUp rd c) ∧
  ∀ id, view (cleanUp rd c) id =
    r ← view c id; if maxInactive <=? Since (rd id) (lastRefill r) then None else Some r.
Proof.
  intros [Hlt Hinj]. split; [split|]; unfold view, cleanUp; cbn [limiters heap].
  - intros id p [? _]%map_lookup_filter_Some. eauto.
  - intros id id' p [? _]%map_lookup_filter_Some [? _]%map_lookup_filter_Some. eauto.
  - intros id. destruct (limiters c !! id) as [p|] eqn:Ep; simpl.
    + destruct (lookup_lt_is_Some_2 (heap c) p (Hlt _ _ Ep)) as [r Hr].
      assert (inactive rd c id p = (maxInactive <=? Since (rd id) (lastRefill r))) as Hin
        by (unfold inactive; by rewrite Hr).
      rewrite Hr. simpl. destruct (maxInactive <=? _) eqn:E.
      * rewrite (proj2 (map_lookup_filter_None _ _ _)); [done|]. right. intros x Hx.
        simplify_eq. simpl. by rewrite Hin.
      * rewrite (proj2 (map_lookup_filter_Some _ _ _ p)); [done|]. simpl. by rewrite Hin.
    + rewrite (proj2 (map_lookup_filter_None _ _ _)); [done|by left].
Qed.

(** *** The clean-up is not observable *)

Lemma refill_full now1 now2 r :
  bucket_ok r → lastRefill r ≤ now1 →
  2000000000 ≤ now1 - lastRefill r ∨ tokens r = MaxTokens →
  refill now1 now2 r = mkRL RefillRatePerSecond now2 MaxTokens MaxTokens.
Proof.
  intros Hok Ht Hfull. destruct (refill_spec now1 now2 r Hok Ht) as (_ & _ & _ & Hfull' & _).
  specialize (Hfull' Hfull). destruct Hok as (Hmax & Hrate & _).
  destruct (refill now1 now2 r) as [rate last tok max] eqn:E. cbn [tokens] in Hfull'.
  unfold refill in E. simplify_eq. by rewrite Hmax, Hrate in *.
Qed.

Lemma Allow_after_idle now0 now1 now2 r :
  bucket_ok r → lastRefill r + 2000000000 ≤ now1 → now0 ≤ now1 →
  Allow now1 now2 r = Allow now1 now2 (NewRateLimiter MaxTokens RefillRatePerSecond now0).
Proof.
  intros Hok Hidle H0. unfold Allow.
  rewrite (refill_full now1 now2 r) by (done || lia).
  rewrite refill_full; [done|apply NewRateLimiter_ok|done|by right].
Qed.

(** The same buckets on both sides, but for those that are idle for two seconds
    and may be missing on the left. *)
Definition same_but_idle (t : Z) (c c' : PerClientLimiter) : Prop :=
  wf c ∧ wf c' ∧ ∀ id,
    match view c' id with
    | None => view c id = None
    | Some r => bucket_ok r ∧ lastRefill r ≤ t ∧
        (view c id = Some r ∨ view c id = None ∧ lastRefill r + 2000000000 ≤ t)
    end.

Lemma same_but_idle_new t : same_but_idle t NewPerClientLimiter NewPerClientLimiter.
Proof. split_and!; [apply wf_new..|]. intros id. unfold view. cbn. by rewrite lookup_empty. Qed.

Lemma same_but_idle_later t t' c c' : t ≤ t' → same_but_idle t c c' → same_but_idle t' c c'.
Proof.
  intros Ht (Hw & Hw' & Hv). split_and!; [done..|]. intros id. specialize (Hv id).
  destruct (view c' id); [|done]. destruct Hv as (? & ? & [?|[? ?]]); split_and!; try done; try lia.
  - by left.
  - right. split; [done|lia].
Qed.

Lemma same_but_idle_Allow t c c' now0 now1 now2 cID :
  t ≤ now0 → now0 ≤ now1 → now1 ≤ now2 → same_but_idle t c c' →
  ∃ b c1 c1' r, PerClientLimiter_Allow now0 now1 now2 cID c = Ret (b, c1) ∧
    PerClientLimiter_Allow now0 now1 now2 cID c' = Ret (b, c1') ∧ same_but_idle now2 c1 c1' ∧
    bucket_ok r ∧ lastRefill r ≤ now1 ∧ b = (Allow now1 now2 r).1 ∧
    r = default (NewRateLimiter MaxTokens RefillRatePerSecond now0) (view c' cID) ∧
    (∀ id, view c1' id = if decide (id = cID) then Some (Allow now1 now2 r).2 else view c' id).
Proof.
  intros H0 H1 H2 (Hw & Hw' & Hv).
  destruct (Allow_view now0 now1 now2 cID c Hw) as (c1 & E & Hw1 & Hv1).
  destruct (Allow_view now0 now1 now2 cID c' Hw') as (c1' & E' & Hw1' & Hv1').
  set (r := default _ (view c cID)) in *. set (r' := default _ (view c' cID)) in *.
  assert (bucket_ok r' ∧ lastRefill r' ≤ now1 ∧ Allow now1 now2 r = Allow now1 now2 r')
    as (Hok & Hlast & Heq).
  { pose proof (Hv cID) as HvID. unfold r, r'. destruct (view c' cID) as [r0|]; simpl.
    - destruct HvID as (Hok0 & Hl0 & [->|[-> Hidle]]); split_and!; try done; try lia.
      symmetry. apply Allow_after_idle; [done|lia..].
    - rewrite HvID. split_and!; [apply NewRateLimiter_ok|done|done]. }
  rewrite Heq in *. exists (Allow now1 now2 r').1, c1, c1', r'.
  destruct (Allow now1 now2 r') as [b r1] eqn:EA. cbn [fst snd] in *.
  destruct (Allow_spec now1 now2 r' b r1 Hok Hlast EA) as (Hok1 & Hlast1 & _).
  split_and!; try done. split_and!; [done..|].
  intros id. rewrite Hv1, Hv1'. specialize (Hv id). destruct (decide (id = cID)).
  - split_and!; [done|lia|by left].
  - destruct (view c' id); [|done]. destruct Hv as (? & ? & [?|[? ?]]); split_and!; try done; try lia.
    + by left.
    + right. split; [done|lia].
Qed.

Lemma same_but_idle_cleanUp t u rd c c' :
  (∀ id, t ≤ rd id ≤ u) → same_but_idle t c c' → same_but_idle u (cleanUp rd c) c'.
Proof.
  intros Hrd (Hw & Hw' & Hv). destruct (cleanUp_view rd c Hw) as [Hw1 Hv1].
  split_and!; [done..|]. intros id. specialize (Hv id). rewrite Hv1. specialize (Hrd id).
  destruct (view c' id) as [r|]; [|by rewrite Hv]. destruct Hv as (Hok & Hlast & Hor).
  split_and!; [done|lia|]. destruct Hor as [->|[-> Hidle]]; simpl; [|right; split; [done|lia]].
  unfold maxInactive, Since, min_int64, max_int64. destruct (Z.leb_spec 2000000000
    (Z.max (- 2 ^ 63) (Z.min (2 ^ 63 - 1) (rd id - lastRefill r)))); [right|by left].
  split; [done|lia].
Qed.

(** C10. The clean-up goroutine cannot be observed: whatever requests and ticks
    of the clean-up follow each other, every request gets the answer it would
    get if no limiter were ever removed (a limiter is removed after two idle
    seconds, in which any bucket fills up). *)
Theorem cleanup_is_unobservable (t t' : Z) (evs : list Seq.event)
    (Htimed : Seq.timed t evs t') :
  ∃ l c c', Seq.run evs NewPerClientLimiter = Ret (l, c) ∧
    Seq.run (Seq.without_cleanup evs) NewPerClientLimiter = Ret (l, c').
Proof.
  pose proof (same_but_idle_new t) as Hrel. revert Hrel.
  generalize NewPerClientLimiter at 1 3; generalize NewPerClientLimiter.
  revert t Htimed. induction evs as [|[cID now0 now1 now2|rd u] evs IH]; intros t Htimed c' c Hrel.
  - by exists [], c, c'.
  - destruct Htimed as (H0 & H1 & H2 & Htimed).
    destruct (same_but_idle_Allow t c c' now0 now1 now2 cID H0 H1 H2 Hrel)
      as (b & c1 & c1' & r & E & E' & Hrel1 & _).
    destruct (IH now2 Htimed c1' c1 Hrel1) as (l & c2 & c2' & Hrun & Hrun').
    exists ((cID, b) :: l), c2, c2'. unfold Seq.without_cleanup in *. cbn [Seq.run].
    rewrite filter_cons_True by done. cbn [Seq.run]. rewrite E, E'. simpl.
    rewrite Hrun, Hrun'. done.
  - destruct Htimed as (Hrd & Hu & Htimed).
    destruct (IH u Htimed c' (cleanUp rd c)) as (l & c2 & c2' & Hrun & Hrun').
    { by eapply same_but_idle_cleanUp. }
    exists l, c2, c2'. split; [done|]. unfold Seq.without_cleanup in *.
    rewrite filter_cons_False; [done|]. intros [].
Qed.

(** *** How much is granted *)

(** [G] grants out of [n] requests since [t0] are paid for by the initial
    tokens, the elapsed time, and [2^-28] tokens of rounding per request. *)
Definition paid (t0 : Z) (bucket : option RateLimiter) (G n : Z) : Prop :=
  0 ≤ n ∧
  match bucket with
  | None => G = 0
  | Some r => 1000 * 2 ^ 28 * (fval (tokens r) + G * fone) ≤
      (2 ^ 28 * (1000000000 + (lastRefill r - t0)) + 1000 * n) * fone
  end.

Lemma paid_Allow t0 now0 now1 now2 bucket G n r b r' :
  t0 ≤ now0 → now0 ≤ now1 → now1 ≤ now2 → paid t0 bucket G n →
  r = default (NewRateLimiter MaxTokens RefillRatePerSecond now0) bucket →
  bucket_ok r → lastRefill r ≤ now1 → Allow now1 now2 r = (b, r') →
  paid t0 (Some r') (G + (if b then 1 else 0)) (n + 1).
Proof.
  intros H0 H1 H2 [Hn Hpaid] Hr Hok Hlast HA.
  destruct (Allow_spec now1 now2 r b r' Hok Hlast HA) as (_ & Hl' & _ & Hup).
  pose proof fone_pos as Hu. destruct MaxTokens_val as (_ & _ & HMval).
  split; [lia|]. rewrite Hl'.
  assert (taken b = (if b then 1 else 0) * fone) as Htaken by (destruct b; cbn [taken]; lia).
  rewrite Htaken in Hup. set (g := if b then 1 else 0) in *.
  assert (1000 * 2 ^ 28 * (fval (tokens r) + G * fone) ≤
      (2 ^ 28 * (1000000000 + (lastRefill r - t0)) + 1000 * n) * fone) as Hpaid'.
  { destruct bucket as [r0|]; simpl in Hr; subst r; [done|]. subst G.
    cbn [NewRateLimiter tokens lastRefill]. rewrite HMval. nia. }
  assert ((now1 - lastRefill r) * fone ≤ (now2 - lastRefill r) * fone) by nia.
  lia.
Qed.

Lemma asked_cons cID a l :
  Seq.asked cID (a :: l) = (if decide (a.1 = cID) then 1 else 0) + Seq.asked cID l.
Proof.
  unfold Seq.asked. rewrite filter_cons. destruct (decide (a.1 = cID)); [|done].
  cbn [length]. lia.
Qed.

Lemma granted_cons cID a l :
  Seq.granted cID (a :: l) = (if decide (a = (cID, true)) then 1 else 0) + Seq.granted cID l.
Proof.
  unfold Seq.granted. rewrite filter_cons. destruct (decide (a = _)); [|done].
  cbn [length]. lia.
Qed.

Lemma run_paid cID t0 t t' evs : ∀ c c' G n,
  t0 ≤ t → Seq.timed t evs t' → same_but_idle t c c' → paid t0 (view c' cID) G n →
  ∃ l c1 c1', Seq.run evs c = Ret (l, c1) ∧ same_but_idle t' c1 c1' ∧
    paid t0 (view c1' cID) (G + Seq.granted cID l) (n + Seq.asked cID l).
Proof.
  revert t. induction evs as [|[id now0 now1 now2|rd u] evs IH];
    intros t c c' G n Ht0 Htimed Hrel Hpaid.
  - exists [], c, c'. split; [done|]. split; [by eapply same_but_idle_later|].
    change (Seq.granted cID []) with 0. change (Seq.asked cID []) with 0. by rewrite !Z.add_0_r.
  - destruct Htimed as (H0 & H1 & H2 & Htimed).
    destruct (same_but_idle_Allow t c c' now0 now1 now2 id H0 H1 H2 Hrel)
      as (b & c1 & c1' & r & E & _ & Hrel1 & Hok & Hlast & Hb & Hr & Hv).
    destruct (Allow now1 now2 r) as [b' r'] eqn:EA. cbn [fst snd] in *. subst b'.
    set (g := if decide ((id, b) = (cID, true)) then 1 else 0).
    set (k := if decide (id = cID) then 1 else 0).
    assert (paid t0 (view c1' cID) (G + g) (n + k)) as Hpaid1.
    { rewrite Hv. unfold g, k. destruct (decide (id = cID)) as [->|Hne].
      - rewrite decide_True by done.
        replace (if decide ((cID, b) = (cID, true)) then 1 else 0) with (if b then 1 else 0)
          by (destruct b; [by rewrite decide_True|by rewrite decide_False by naive_solver]).
        eapply (paid_Allow t0 now0 now1 now2); try done. lia.
      - rewrite !decide_False by naive_solver. by rewrite !Z.add_0_r. }
    destruct (IH now2 c1 c1' (G + g) (n + k)) as (l & c2 & c2' & Hrun & Hrel2 & Hpaid2);
      [lia|done..|].
    exists ((id, b) :: l), c2, c2'. cbn [Seq.run]. rewrite E. simpl. rewrite Hrun.
    split; [done|]. split; [done|]. rewrite asked_cons, granted_cons. cbn [fst]. fold g k.
    by rewrite !Z.add_assoc.
  - destruct Htimed as (Hrd & Hu & Htimed).
    apply (IH u _ c'); [lia|done| |done]. by eapply same_but_idle_cleanUp.
Qed.

Lemma timed_le t evs t' : Seq.timed t evs t' → t ≤ t'.
Proof.
  revert t. induction evs as [|[id now0 now1 now2|rd u] evs IH]; intros t; simpl; [done|..].
  - intros (? & ? & ? & ?%IH). lia.
  - intros (_ & ? & ?%IH). lia.
Qed.


(** ** Concurrent requests *)

Lemma answers_insert rs i r r' :
  rs !! i = Some r → answer r = None →
  omap answer (<[i := r']> rs) ≡ₚ option_list (answer r') ++ omap answer rs.
Proof.
  intros Hi Hr. rewrite insert_take_drop by (by eapply lookup_lt_Some).
  rewrite <- (take_drop_middle rs i r) at 3 by done. rewrite !omap_app. cbn [omap list_omap].
  rewrite Hr. destruct (answer r'); simpl; [|done]. by rewrite Permutation_middle.
Qed.

Definition answered (w : world) : Z := Z.of_nat (length (answers w)).

(** The state of a request refers to allocated limiters. *)
Definition request_ok (c : PerClientLimiter) (r : request) : Prop :=
  match r with RAllow _ p => (p < length (heap c))%nat | _ => True end.

Record world_ok (w : world) : Prop := mkWorldOk {
  wo_heap : ∀ p r, heap (limiter w) !! p = Some r →
    bucket_ok r ∧ lastRefill r ≤ now w ∧ (1000000 - answered w) * fone ≤ fval (tokens r);
  wo_limiters : ∀ id p, limiters (limiter w) !! id = Some p → (p < length (heap (limiter w)))%nat;
  wo_requests : Forall (request_ok (limiter w)) (requests w);
  wo_answers : answered w ≤ 1000000 → Forall (eq true) (answers w);
}.

Lemma world0_ok : world_ok world0.
Proof. split; simpl; [done|..|constructor|constructor]. intros id p. by rewrite lookup_empty. Qed.

(** Replacing an unanswered request by another one that is not answered yet. *)
Lemma world_ok_requests c t rs i r r' :
  rs !! i = Some r → answer r = None → answer r' = None → request_ok c r' →
  world_ok (mkWorld c t rs) → world_ok (mkWorld c t (<[i := r']> rs)).
Proof.
  intros Hi Hr Hr' Hok [Hheap Hlim Hreq Hans].
  pose proof (answers_insert rs i r r' Hi Hr) as Hperm. rewrite Hr' in Hperm. simpl in Hperm.
  unfold answered, answers in *. cbn [requests limiter now] in *.
  split; unfold answered, answers; cbn [requests limiter now].
  - intros p r0 Hp. rewrite Hperm. by apply (Hheap p).
  - done.
  - by apply Forall_insert.
  - rewrite Hperm. done.
Qed.

Lemma world_ok_allow c t t' rs i cID p b c' :
  rs !! i = Some (RAllow cID p) → t ≤ t' → allow_limiter t t' p c = Ret (b, c') →
  world_ok (mkWorld c t rs) → world_ok (mkWorld c' t' (<[i := RDone cID b]> rs)).
Proof.
  intros Hi Ht Hallow [Hheap Hlim Hreq Hans].
  pose proof (answers_insert rs i _ (RDone cID b) Hi eq_refl) as Hperm. simpl in Hperm.
  unfold answered, answers in *. cbn [requests limiter now] in *.
  unfold allow_limiter in Hallow. destruct (heap c !! p) as [r|] eqn:Ep; [|done].
  destruct (Allow t t' r) as [b' r'] eqn:EA. simplify_eq.
  destruct (Hheap p r Ep) as (Hok & Hlast & Htok). pose proof fone_pos as Hu.
  destruct (Allow_spec t t' r b r' Hok Hlast EA) as (Hok' & Hlast' & Hgrant & _).
  set (K := Z.of_nat (length (omap answer rs))) in *.
  assert (Hnew : Z.of_nat (length (omap answer (<[i := RDone cID b]> rs))) = K + 1)
    by (rewrite Hperm; cbn [length]; lia).
  split; unfold answered, answers; cbn [requests limiter now heap limiters]; rewrite ?Hnew.
  - intros q r0. destruct (decide (q = p)) as [->|Hne].
    + rewrite list_lookup_insert_eq by (by eapply lookup_lt_Some). intros [= <-].
      split_and!; [done|lia|]. destruct Hok' as (_ & _ & _ & _ & Hr').
      destruct (Z.lt_ge_cases K 1000000) as [Hlt|]; [|nia].
      destruct (Hgrant (1000000 - K)) as [_ Hle]; [lia|done|].
      by replace (1000000 - (K + 1)) with (1000000 - K - 1) by lia.
    + rewrite list_lookup_insert_ne by done. intros Hq.
      destruct (Hheap q r0 Hq) as (? & ? & ?). split_and!; [done|lia|nia].
  - intros id q. rewrite length_insert. eauto.
  - apply Forall_insert; [|done]. eapply Forall_impl; [exact Hreq|].
    intros [] ?; simpl in *; rewrite ?length_insert; done.
  - intros HK. rewrite Hperm. constructor; [|apply Hans; lia].
    destruct (Hgrant (1000000 - K)) as [-> _]; [lia|done|done].
Qed.

Lemma world_ok_create c t rs cID :
  world_ok (mkWorld c t rs) → world_ok (mkWorld (add_limiter t cID c).2 t rs).
Proof.
  intros [Hheap Hlim Hreq Hans]. simpl in *. split; cbn [limiter heap limiters now]; try done.
  - intros p r Hp. apply lookup_app_Some in Hp as [Hp|[_ Hp]]; [by apply (Hheap p)|].
    apply list_lookup_singleton_Some in Hp as [_ <-].
    split_and!; [apply NewRateLimiter_ok|done|]. destruct MaxTokens_val as (_ & _ & Hval).
    cbn [NewRateLimiter tokens]. rewrite Hval. pose proof fone_pos. unfold answered. nia.
  - intros id p. rewrite length_app. simpl. destruct (decide (id = cID)) as [->|].
    + rewrite lookup_insert_eq. intros [= <-]. lia.
    + rewrite lookup_insert_ne by done. intros ?%Hlim. lia.
  - eapply Forall_impl; [exact Hreq|]. intros []; simpl; rewrite ?length_app; lia.
Qed.

Lemma step_ok w w' : step w w' → world_ok w → world_ok w'.
Proof.
  intros Hstep. destruct Hstep as
    [c t rs cID|c t t' rs Ht|c t rs i cID p Hi Hp|c t rs i cID Hi Hp|c t rs i cID p c' Hi Hadd
    |c t t' rs i cID p b c' Hi Ht Ha|c t t' rs rd Hrd]; intros Hok.
  - destruct Hok as [Hheap Hlim Hreq Hans].
    assert (answers (mkWorld c t (rs ++ [RLookup cID])) = answers (mkWorld c t rs)) as Heq.
    { unfold answers. simpl. rewrite omap_app. simpl. by rewrite app_nil_r. }
    split; unfold answered; rewrite ?Heq; try done. apply Forall_app. by repeat constructor.
  - destruct Hok as [Hheap Hlim Hreq Hans]. split; try done. intros p r Hp.
    destruct (Hheap p r Hp) as (? & ? & ?). simpl in *. split_and!; [done|lia|done].
  - eapply world_ok_requests; try done. by apply (wo_limiters _ Hok cID).
  - by eapply world_ok_requests.
  - pose proof (world_ok_create c t rs cID Hok). injection Hadd as <- <-.
    eapply world_ok_requests; try done. simpl. rewrite length_app. simpl. lia.
  - by eapply world_ok_allow.
  - destruct Hok as [Hheap Hlim Hreq Hans]. assert (t ≤ t') by (specialize (Hrd ""%string); lia).
    split; cbn [limiter heap limiters now cleanUp]; try done.
    + intros p r Hp. destruct (Hheap p r Hp) as (? & ? & ?). split_and!; [done|simpl in *; lia|done].
    + intros id p [? _]%map_lookup_filter_Some. by eapply Hlim.
Qed.

(** Every interleaving of concurrent requests and the clean-up keeps each
    bucket between empty and [MaxTokens], and the first [MaxTokens] requests are
    all granted, of however many clients they are. *)
Theorem burst_is_granted (w : world) (Hreach : rtc step world0 w) :
  (∀ p r, heap (limiter w) !! p = Some r →
     is_finite (tokens r) = true ∧ 0 ≤ fval (tokens r) ≤ fval MaxTokens) ∧
  (Z.of_nat (length (answers w)) ≤ 1000000 → Forall (eq true) (answers w)).
Proof.
  assert (world_ok w) as [Hheap _ _ Hans].
  { eapply (rtc_invariant step world_ok); [|exact Hreach|apply world0_ok].
    intros a b Ha Hs. by eapply step_ok. }
  split; [|exact Hans]. intros p r Hp. destruct (Hheap p r Hp) as ((_ & _ & _ & Hf & Hr) & _).
  destruct MaxTokens_val as (_ & _ & ->). done.
Qed.

(** *** Concurrent first requests *)

(** Requests that pass through a phase one after the other. *)
Lemma phase (f g : nat → request) (C : nat → PerClientLimiter) (k : nat) :
  (∀ j pre post, (j < k)%nat → length pre = j →
     step (mkWorld (C j) 0 (pre ++ f j :: post)) (mkWorld (C (S j)) 0 (pre ++ g j :: post))) →
  rtc step (mkWorld (C 0%nat) 0 (f <$> seq 0 k)) (mkWorld (C k) 0 (g <$> seq 0 k)).
Proof.
  intros Hstep.
  assert (∀ j, (j ≤ k)%nat → rtc step (mkWorld (C 0%nat) 0 (f <$> seq 0 k))
    (mkWorld (C j) 0 ((g <$> seq 0 j) ++ (f <$> seq j (k - j))))) as Hall.
  { induction j as [|j IH]; intros Hj.
    - rewrite Nat.sub_0_r. constructor.
    - eapply rtc_r; [apply IH; lia|]. replace (k - j)%nat with (S (k - S j)) by lia.
      rewrite (seq_S j 0), fmap_app, <- app_assoc.
      cbn [seq fmap list_fmap app]. rewrite ?Nat.add_0_l.
      apply (Hstep j (g <$> seq 0 j) (f <$> seq (S j) (k - S j))); [lia|].
      by rewrite length_fmap, length_seq. }
  specialize (Hall k ltac:(lia)). by rewrite Nat.sub_diag, app_nil_r in Hall.
Qed.

Lemma step_at {B} (rs : list B) pre x y post :
  rs = pre ++ x :: post → <[length pre := y]> rs = pre ++ y :: post.
Proof. intros ->. rewrite insert_app_r_alt, Nat.sub_diag by done. done. Qed.

Section FirstRequests.
Context (cID : string) (k : nat).

Definition fresh : RateLimiter := NewRateLimiter MaxTokens RefillRatePerSecond 0.
Definition used : RateLimiter := (Allow 0 0 fresh).2.

(** The limiter after [j] of the requests have created theirs. *)
Definition created (j : nat) : PerClientLimiter :=
  mkPCL (match j with O => ∅ | S p => {[cID := p]} end) (replicate j fresh).

(** And after [j] of them have been answered. *)
Definition served (j : nat) : PerClientLimiter :=
  mkPCL (match k with O => ∅ | S p => {[cID := p]} end) (replicate j used ++ replicate (k - j) fresh).

Lemma fresh_granted : Allow 0 0 fresh = (true, used).
Proof.
  unfold used. destruct (Allow 0 0 fresh) as [b r'] eqn:EA.
  destruct (Allow_spec 0 0 fresh b r' (NewRateLimiter_ok 0) ltac:(done) EA) as (_ & _ & Hk & _).
  destruct MaxTokens_val as (_ & _ & Hval).
  destruct (Hk 1000000) as [-> _]; [lia| |done]. cbn [fresh NewRateLimiter tokens]. lia.
Qed.

Lemma first_requests_reach :
  rtc step world0 (mkWorld (served k) 0 (replicate k (RDone cID true))).
Proof.
  transitivity (mkWorld (created 0) 0 ((λ _, RLookup cID) <$> seq 0 k)).
  { assert (∀ j, rtc step world0 (mkWorld (created 0) 0 ((λ _, RLookup cID) <$> seq 0 j))) as H;
      [|apply H].
    induction j as [|j IH]; [constructor|]. eapply rtc_r; [exact IH|].
    rewrite seq_S, fmap_app. apply step_arrive. }
  transitivity (mkWorld (created 0) 0 ((λ _, RCreate cID) <$> seq 0 k)).
  { apply (phase _ _ (λ _, created 0)). intros j pre post Hj <-.
    rewrite <- (step_at _ pre (RLookup cID) (RCreate cID) post eq_refl).
    eapply step_missing; [by rewrite list_lookup_middle|]. apply lookup_empty. }
  transitivity (mkWorld (created k) 0 (RAllow cID <$> seq 0 k)).
  { apply (phase _ (RAllow cID) created). intros j pre post Hj Hpre.
    rewrite <- (step_at _ pre (RCreate cID) (RAllow cID j) post eq_refl).
    eapply step_create; [by rewrite list_lookup_middle|].
    unfold add_limiter, created. cbn [heap limiters]. rewrite length_replicate. f_equal. f_equal.
    - destruct j as [|j]; [done|]. by rewrite insert_singleton_eq.
    - by rewrite <- replicate_cons_app. }
  assert (created k = served 0) as -> by (unfold created, served; by rewrite Nat.sub_0_r).
  replace (replicate k (RDone cID true)) with ((λ _, RDone cID true) <$> seq 0 k).
  - apply (phase _ _ served). intros j pre post Hj Hpre.
    rewrite <- (step_at _ pre (RAllow cID j) (RDone cID true) post eq_refl).
    eapply step_allow; [by rewrite list_lookup_middle|done|].
    unfold allow_limiter, served. cbn [heap limiters].
    replace (k - j)%nat with (S (k - S j)) by lia. cbn [replicate].
    rewrite list_lookup_middle by (by rewrite length_replicate). rewrite fresh_granted.
    do 3 f_equal. rewrite insert_app_r_alt, length_replicate, Nat.sub_diag by (rewrite length_replicate; lia).
    change (used :: replicate j used) with (replicate (S j) used).
    by rewrite replicate_S_end, <- app_assoc.
  - rewrite (const_fmap _ (seq 0 k) (RDone cID true)) by done. by rewrite length_seq.
Qed.

End FirstRequests.

(** Concurrent first requests are not limited: between reading the map and
    inserting, each of them makes a limiter of its own, so that any number of
    requests of one client can be granted at a single instant, although the
    limiter that stays in the map has answered one of them. *)
Theorem concurrent_first_requests_unlimited (cID : string) (k : nat) :
  ∃ w, rtc step world0 w ∧ now w = 0 ∧ requests w = replicate k (RDone cID true) ∧
    answers w = replicate k true.
Proof.
  eexists. split; [apply (first_requests_reach cID k)|]. split_and!; [done..|].
  unfold answers. cbn [requests]. induction k as [|j IH]; [done|]. simpl. by f_equal.
Qed.

(** *** Witnesses *)

Definition sample_events : list Seq.event :=
  [Seq.Req "a" 0 0 5; Seq.Req "b" 10 20 30; Seq.Clean (λ _, 2000000010) 2000000010;
   Seq.Req "a" 2000000020 2000000021 2000000022]%string.

Lemma sample_timed : Seq.timed 0 sample_events 3000000000.
Proof. repeat split; simpl; lia. Qed.

Lemma cleanup_is_unobservable_witness :
  ∃ l c c', Seq.run sample_events NewPerClientLimiter = Ret (l, c) ∧
    Seq.run (Seq.without_cleanup sample_events) NewPerClientLimiter = Ret (l, c').
Proof. exact (cleanup_is_unobservable 0 3000000000 sample_events sample_timed). Defined.


Lemma burst_is_granted_witness :
  Z.of_nat (length (answers (mkWorld (served "a" 2 2) 0 (replicate 2 (RDone "a" true))))) = 2 ∧
  Forall (eq true) (answers (mkWorld (served "a" 2 2) 0 (replicate 2 (RDone "a" true)))).
Proof.
  split; [done|]. apply (burst_is_granted _ (first_requests_reach "a" 2)). simpl. lia.
Defined.
