(* ===== verification/Boids.v ===== *)
(** * The boids simulation (boids/)

    Vectors over float64 (vector2d.go), boids (boid.go), the grid that finds a
    boid's neighbours (spriral_grid.go), and a frame of the game with its
    worker goroutines (game.go).  Floating-point expressions are rounded
    operation by operation, as on amd64 (other platforms may fuse a
    multiplication with an addition).  Images and drawing are left out. *)

From S2P Require Import Prelude GoSem GoFloat.
From Stdlib Require Import SpecFloat.

(** ** Constants (game.go) *)

Definition screenHeight : float64 := float_of_Z 960.
Definition screenWidth : float64 := float_of_Z 1620.
Definition boidsCount : nat := 1000.
Definition alightForce : float64 := float_of_dyadic 7205759403792794 (-57).
Definition cohRadius : float64 := float_of_Z 135.
Definition cohForce : float64 := float_of_dyadic 5764607523034235 (-61).
(** [fishTargetSize / 2] is a division of integer constants. *)
Definition sepRadius : float64 := float_of_Z 22.
Definition sepForce : float64 := float_of_dyadic 3 (-1).
Definition minSpeed : float64 := float_of_Z 1.
Definition maxSpeed : float64 := float_of_Z 4.
Definition wallSepDistance : float64 := float_of_Z 108.
Definition wallSepForce : float64 := float_of_dyadic 3 (-2).

Definition f0 : float64 := S754_zero false.
Definition f1 : float64 := float_of_Z 1.

(** ** Vectors *)

Record Vector2D := mkVec { vx : float64; vy : float64 }.

Definition vzero : Vector2D := mkVec f0 f0.
Definition Add (a b : Vector2D) : Vector2D := mkVec (fadd (vx a) (vx b)) (fadd (vy a) (vy b)).
Definition Sub (a b : Vector2D) : Vector2D := mkVec (fsub (vx a) (vx b)) (fsub (vy a) (vy b)).
Definition Mul (a : Vector2D) (d : float64) : Vector2D := mkVec (fmul (vx a) d) (fmul (vy a) d).
Definition Div (a : Vector2D) (d : float64) : Vector2D := mkVec (fdiv (vx a) d) (fdiv (vy a) d).
Definition AddVal (a : Vector2D) (d : float64) : Vector2D := mkVec (fadd (vx a) d) (fadd (vy a) d).
Definition SubVal (a : Vector2D) (d : float64) : Vector2D := mkVec (fsub (vx a) d) (fsub (vy a) d).
Definition Limit (a : Vector2D) (lower upper : float64) : Vector2D :=
  mkVec (fmin (fmax (vx a) lower) upper) (fmin (fmax (vy a) lower) upper).
Definition Distance (a b : Vector2D) : float64 :=
  fsqrt (fadd (fmul (fsub (vx a) (vx b)) (fsub (vx a) (vx b)))
              (fmul (fsub (vy a) (vy b)) (fsub (vy a) (vy b)))).
Definition Len (a : Vector2D) : float64 :=
  fsqrt (fadd (fmul (vx a) (vx a)) (fmul (vy a) (vy a))).
Definition Normalize (a : Vector2D) : Vector2D :=
  let d := Len a in
  if feqb d f0 then vzero else mkVec (fdiv (vx a) d) (fdiv (vy a) d).
Definition NormalizeByMag (a : Vector2D) (mag : float64) : Vector2D :=
  mkVec (fdiv (vx a) mag) (fdiv (vy a) mag).
Definition LimitSpeed (a : Vector2D) : Vector2D :=
  let mag := Len a in
  if feqb mag f0 then mkVec minSpeed f0
  else if fltb mag minSpeed then Mul (NormalizeByMag a mag) minSpeed
  else if fltb maxSpeed mag then Mul (NormalizeByMag a mag) maxSpeed
  else a.

(** ** Boids *)

Record Boid := mkBoid { position : Vector2D; velocity : Vector2D; id : nat }.

(** The four random numbers are those of the four [rand.Float64] calls. *)
Definition NewBoid (i : nat) (r1 r2 r3 r4 : float64) : Boid :=
  mkBoid (mkVec (fmul r1 screenWidth) (fmul r2 screenHeight))
         (mkVec (fsub (fmul r3 (float_of_Z 2)) f1) (fsub (fmul r4 (float_of_Z 2)) f1)) i.

Definition invertOnWall (b : Boid) : Boid :=
  let next := Add (position b) (velocity b) in
  let v := velocity b in
  let v := if fleb screenWidth (vx next) || fltb (vx next) f0
           then mkVec (fneg (vx v)) (vy v) else v in
  let v := if fleb screenHeight (vy next) || fltb (vy next) f0
           then mkVec (vx v) (fneg (vy v)) else v in
  mkBoid (position b) v (id b).

(** [Boid.Update]. *)
Definition Boid_Update (b : Boid) (accel : Vector2D) : Boid :=
  let v := LimitSpeed (Add (velocity b) accel) in
  invertOnWall (mkBoid (Add (position b) v) v (id b)).

Definition wall_axis (p size sep : float64) : float64 :=
  let sep := if fltb p wallSepDistance
             then fadd sep (fdiv (fmul wallSepForce (fsub wallSepDistance p)) wallSepDistance)
             else sep in
  let diff := fsub size wallSepDistance in
  if fltb diff p then fsub sep (fdiv (fmul wallSepForce (fsub p diff)) diff) else sep.
Definition wallSeparation (b : Boid) : Vector2D :=
  mkVec (wall_axis (vx (position b)) screenWidth f0)
        (wall_axis (vy (position b)) screenHeight f0).

Definition bounceOnBorder (mn mx : float64) : float64 :=
  if fltb mn cohRadius then fdiv (float_of_Z 2) mn
  else if fltb (fsub mx cohRadius) mn then fdiv (float_of_Z 2) (fsub mn mx)
  else f0.

(** What the loop of [calcAcceleration] accumulates. *)
Record Sums := mkSums {
  avgVelocity : Vector2D; avgPosition : Vector2D; separation : Vector2D;
  countCoh : float64; countSep : float64 }.

Definition add_neighbour (b other : Boid) (s : Sums) : Sums :=
  let dist := Distance (position b) (position other) in
  if fleb dist sepRadius then
    let push := Mul (Normalize (Div (Sub (position b) (position other))
                                    (fdiv (fsub sepRadius dist) dist))) sepForce in
    mkSums (avgVelocity s) (avgPosition s) (Add (separation s) push)
           (countCoh s) (fadd (countSep s) f1)
  else if fltb dist cohRadius then
    mkSums (Add (avgVelocity s) (velocity other)) (Add (avgPosition s) (position other))
           (separation s) (fadd (countCoh s) f1) (countSep s)
  else s.

(** [for _, otherIdx := range *neib { other := g.boids[otherIdx]; ... }]. *)
Fixpoint accumulate (boids : list Boid) (b : Boid) (neib : list nat) (s : Sums) : outcome Sums :=
  match neib with
  | [] => Ret s
  | otherIdx :: neib =>
      match boids !! otherIdx with
      | Some other => accumulate boids b neib (add_neighbour b other s)
      | None => Panic "index out of range"
      end
  end.

Definition finish_acceleration (b : Boid) (s : Sums) : Vector2D :=
  let accel := vzero in
  let accel :=
    if fltb f0 (countCoh s) then
      let avgVelocity := Sub (Div (avgVelocity s) (countCoh s)) (velocity b) in
      let avgPosition := Sub (Div (avgPosition s) (countCoh s)) (position b) in
      let accelAlign := Mul (Normalize avgVelocity) alightForce in
      let accelCoh := Mul (Normalize avgPosition) cohForce in
      Add (Add accel accelAlign) accelCoh
    else accel in
  let accel := if fltb f0 (countSep s) then Add accel (Div (separation s) (countSep s)) else accel in
  Add accel (wallSeparation b).

Definition calcAcceleration (boids : list Boid) (b : Boid) (neib : list nat) : outcome Vector2D :=
  s ← accumulate boids b neib (mkSums vzero vzero vzero f0 f0);
  Ret (finish_acceleration b s).

(** ** The grid *)

(** [int(x)] of a float64: the integer part where an [int64] holds it; what
    the platform gives otherwise is [conv]. *)
Definition to_int (conv : float64 → Z) (x : float64) : Z :=
  if is_finite x && (min_int64 <=? ftrunc x) && (ftrunc x <=? max_int64) then ftrunc x else conv x.

(** [int(math.Ceil(x))] of a small positive float64. *)
Definition ceil_int (x : float64) : Z :=
  let t := ftrunc x in if fltb (float_of_Z t) x then t + 1 else t.

Record SpiralGrid := mkGrid { cells : list (list nat); rows : Z; cols : Z; cellSize : float64 }.

Definition NewSpiralGrid (cellSize : float64) : SpiralGrid :=
  let cols := ceil_int (fdiv screenWidth cellSize) in
  let rows := ceil_int (fdiv screenHeight cellSize) in
  mkGrid (replicate (Z.to_nat (cols * rows)) []) rows cols cellSize.

Section Grid.
Context (conv : float64 → Z).

Definition clamp_cell (i n : Z) : Z :=
  let i := if n <=? i then n - 1 else i in
  if i <? 0 then 0 else i.

Definition GetCellIndex (sg : SpiralGrid) (x y : float64) : Z :=
  let col := clamp_cell (to_int conv (fdiv x (cellSize sg))) (cols sg) in
  let row := clamp_cell (to_int conv (fdiv y (cellSize sg))) (rows sg) in
  int64 (row * cols sg + col).

Definition Insert (b : Boid) (sg : SpiralGrid) : outcome SpiralGrid :=
  let idx := GetCellIndex sg (vx (position b)) (vy (position b)) in
  match (if idx <? 0 then None else cells sg !! Z.to_nat idx) with
  | Some cell => Ret (mkGrid (<[Z.to_nat idx := cell ++ [id b]]> (cells sg)) (rows sg) (cols sg) (cellSize sg))
  | None => Panic "index out of range"
  end.

Definition Clean (sg : SpiralGrid) : SpiralGrid :=
  mkGrid ((λ _, []) <$> cells sg) (rows sg) (cols sg) (cellSize sg).

(** The nine cells around [(bCol, bRow)], as the two loops visit them. *)
Definition offsets : list (Z * Z) :=
  [(-1, -1); (-1, 0); (-1, 1); (0, -1); (0, 0); (0, 1); (1, -1); (1, 0); (1, 1)].

Definition in_grid (sg : SpiralGrid) (col row : Z) : bool :=
  negb ((col <? 0) || (row <? 0) || (cols sg <=? col) || (rows sg <=? row)).

Fixpoint collect_cells (sg : SpiralGrid) (bCol bRow : Z) (offs : list (Z * Z)) (result : list nat) :
    outcome (list nat) :=
  match offs with
  | [] => Ret result
  | (nc, nr) :: offs =>
      let col := int64 (bCol + nc) in
      let row := int64 (bRow + nr) in
      if in_grid sg col row then
        match cells sg !! Z.to_nat (int64 (row * cols sg + col)) with
        | Some cell => collect_cells sg bCol bRow offs (result ++ cell)
        | None => Panic "index out of range"
        end
      else collect_cells sg bCol bRow offs result
  end.

(** [GetNeighbours] appends to the caller's buffer [result]. *)
Definition GetNeighbours (sg : SpiralGrid) (b : Boid) (result : list nat) : outcome (list nat) :=
  let bCol := to_int conv (fdiv (vx (position b)) (cellSize sg)) in
  let bRow := to_int conv (fdiv (vy (position b)) (cellSize sg)) in
  collect_cells sg bCol bRow offsets result.

End Grid.

Example grid_example :
  cols (NewSpiralGrid cohRadius) = 12 ∧ rows (NewSpiralGrid cohRadius) = 8.
Proof. split; vm_compute; reflexivity. Qed.

(** ** A frame of the game *)

Record Game := mkGame { sg : SpiralGrid; boids : list Boid; accels : list (option Vector2D) }.

(** [NewGame] without the images: the boids and a grid that holds them.
    [randoms i] are the four random numbers of the [i]-th boid. *)
Section GameOps.
Context (conv : float64 → Z).

Fixpoint insert_all (bs : list Boid) (sg : SpiralGrid) : outcome SpiralGrid :=
  match bs with
  | [] => Ret sg
  | b :: bs => sg ← Insert conv b sg; insert_all bs sg
  end.

Definition NewGame (randoms : nat → float64 * float64 * float64 * float64) : outcome Game :=
  let bs := (λ i, let '(r1, r2, r3, r4) := randoms i in NewBoid i r1 r2 r3 r4) <$> seq 0 boidsCount in
  sg ← insert_all bs (NewSpiralGrid cohRadius);
  Ret (mkGame sg bs (replicate boidsCount None)).

(** The body of a worker's loop for the job [i]: its buffer is empty at the
    start of each job. *)
Definition run_job (g : Game) (i : nat) : outcome Vector2D :=
  match boids g !! i with
  | Some b => neib ← GetNeighbours conv (sg g) b []; calcAcceleration (boids g) b neib
  | None => Panic "index out of range"
  end.

(** The jobs of a frame: the ids still to send, the channel of capacity
    [boidsCount], what each worker is at, the results, and the wait group. *)
Record jobs := mkJobs {
  tosend : list nat; queue : list nat; workers : list (option nat);
  results : list (option Vector2D); wg : Z }.

Inductive job_step (g : Game) : relation jobs :=
| job_send i rest q ws rs n :
    (length q < boidsCount)%nat →
    job_step g (mkJobs (i :: rest) q ws rs n) (mkJobs rest (q ++ [i]) ws rs n)
| job_take k i ts q ws rs n :
    ws !! k = Some None →
    job_step g (mkJobs ts (i :: q) ws rs n) (mkJobs ts q (<[k := Some i]> ws) rs n)
| job_done k i ts q ws rs n acc :
    ws !! k = Some (Some i) → (i < length rs)%nat → run_job g i = Ret acc →
    job_step g (mkJobs ts q ws rs n)
      (mkJobs ts q (<[k := None]> ws) (<[i := Some acc]> rs) (n - 1)).

(** [StartJobs] starts a quarter of the processors' number of workers. *)
Definition worker_count (cpus : Z) : nat := Z.to_nat (Z.quot cpus 4).

(** The frame after [wg.Add(boidsCount)]; it goes on when everything is sent
    and the wait group is at zero. *)
Definition start_jobs (cpus : Z) (g : Game) : jobs :=
  mkJobs (id <$> boids g) [] (replicate (worker_count cpus) None) (accels g) (Z.of_nat boidsCount).
Definition jobs_done (j : jobs) : Prop := tosend j = [] ∧ wg j = 0.

(** The last loop of [Game.Update]. *)
Fixpoint update_boids (accels : list (option Vector2D)) (bs : list Boid) : outcome (list Boid) :=
  match bs with
  | [] => Ret []
  | b :: bs =>
      match accels !! id b with
      | Some (Some acc) => bs ← update_boids accels bs; Ret (Boid_Update b acc :: bs)
      | Some None => Panic "invalid memory address or nil pointer dereference"
      | None => Panic "index out of range"
      end
  end.

(** [Game.Update]: the grid is rebuilt, the workers run, the boids move. *)
Definition rebuild (g : Game) : outcome Game :=
  sg ← insert_all (boids g) (Clean (sg g)); Ret (mkGame sg (boids g) (accels g)).
Inductive Game_Update (cpus : Z) (g : Game) : Game → Prop :=
| Game_Update_ret g1 j bs :
    rebuild g = Ret g1 → rtc (job_step g1) (start_jobs cpus g1) j → jobs_done j →
    update_boids (results j) (boids g1) = Ret bs →
    Game_Update cpus g (mkGame (sg g1) bs (results j)).

End GameOps.

(** ** The grid holds every boid *)

(** A grid of the right shape for its numbers of rows and columns. *)
Definition grid_ok (sg : SpiralGrid) : Prop :=
  1 ≤ rows sg ≤ 1000000 ∧ 1 ≤ cols sg ≤ 1000000 ∧
  Z.of_nat (length (cells sg)) = rows sg * cols sg.

Lemma NewSpiralGrid_ok : grid_ok (NewSpiralGrid cohRadius).
Proof. vm_compute. split_and!; congruence. Qed.

Section GridFacts.
Context (conv : float64 → Z).

Lemma clamp_cell_range i n : 1 ≤ n → 0 ≤ clamp_cell i n < n.
Proof. intros Hn. unfold clamp_cell. repeat (case_go; zbool); lia. Qed.

(** Whatever the position, NaN and infinities included, its cell exists. *)
Lemma GetCellIndex_range g x y :
  grid_ok g → 0 ≤ GetCellIndex conv g x y < Z.of_nat (length (cells g)).
Proof.
  intros (Hr & Hc & Hlen). unfold GetCellIndex.
  pose proof (clamp_cell_range (to_int conv (fdiv x (cellSize g))) (cols g) ltac:(lia)).
  pose proof (clamp_cell_range (to_int conv (fdiv y (cellSize g))) (rows g) ltac:(lia)).
  set (col := clamp_cell _ (cols g)) in *. set (row := clamp_cell _ (rows g)) in *.
  assert (0 ≤ row * cols g + col < rows g * cols g) as Hidx by nia.
  rewrite int64_id, Hlen; [done|]. unfold min_int64, max_int64. nia.
Qed.

(** Grids that agree on all but the cells. *)
Definition same_shape (g g' : SpiralGrid) : Prop :=
  rows g' = rows g ∧ cols g' = cols g ∧ cellSize g' = cellSize g ∧
  length (cells g') = length (cells g).

Lemma GetCellIndex_shape g g' x y :
  same_shape g g' → GetCellIndex conv g' x y = GetCellIndex conv g x y.
Proof. intros (Hr & Hc & Hs & _). unfold GetCellIndex. by rewrite Hr, Hc, Hs. Qed.

Lemma grid_ok_shape g g' : same_shape g g' → grid_ok g → grid_ok g'.
Proof. intros (Hr & Hc & _ & Hl). unfold grid_ok. by rewrite Hr, Hc, Hl. Qed.

(** The cell of a boid. *)
Definition cell_of (g : SpiralGrid) (b : Boid) : nat :=
  Z.to_nat (GetCellIndex conv g (vx (position b)) (vy (position b))).

Lemma Insert_ok g b :
  grid_ok g → ∃ c, cells g !! cell_of g b = Some c ∧
    Insert conv b g = Ret (mkGrid (<[cell_of g b := c ++ [id b]]> (cells g)) (rows g) (cols g) (cellSize g)).
Proof.
  intros Hok. pose proof (GetCellIndex_range g (vx (position b)) (vy (position b)) Hok) as Hr.
  unfold Insert. fold (cell_of g b).
  destruct (lookup_lt_is_Some_2 (cells g) (cell_of g b)) as [c Hc]; [unfold cell_of; lia|].
  exists c. rewrite (proj2 (Z.ltb_ge _ _)) by lia. rewrite Hc. done.
Qed.

(** The ids of the boids of one cell, in the order of insertion. *)
Definition ids_in (g : SpiralGrid) (bs : list Boid) (k : nat) : list nat :=
  id <$> filter (λ b, cell_of g b = k) bs.

Lemma insert_all_ok bs : ∀ g, grid_ok g →
  ∃ g', insert_all conv bs g = Ret g' ∧ same_shape g g' ∧
    ∀ k c, cells g !! k = Some c → cells g' !! k = Some (c ++ ids_in g bs k).
Proof.
  induction bs as [|b bs IH]; intros g Hok.
  - exists g. split; [done|]. split; [by split_and!|]. intros k c Hk.
    unfold ids_in. simpl. by rewrite app_nil_r.
  - destruct (Insert_ok g b Hok) as (c0 & Hc0 & Hins). simpl. rewrite Hins. simpl.
    set (g1 := mkGrid _ _ _ _).
    assert (same_shape g g1) as Hsh by (split_and!; try done; apply length_insert).
    destruct (IH g1 (grid_ok_shape g g1 Hsh Hok)) as (g' & -> & Hsh' & Hcells).
    exists g'. split; [done|]. split.
    { destruct Hsh as (? & ? & ? & ?), Hsh' as (? & ? & ? & ?). split_and!; congruence. }
    intros k c Hk. assert (ids_in g1 bs k = ids_in g bs k) as Hids by reflexivity.
    unfold ids_in. rewrite filter_cons. fold (ids_in g bs k).
    destruct (decide (cell_of g b = k)) as [<-|Hne].
    + assert (c = c0) as -> by congruence.
      rewrite (Hcells _ (c0 ++ [id b])), Hids.
      * by rewrite <- app_assoc.
      * cbn [g1 cells]. apply list_lookup_insert_eq. by eapply lookup_lt_Some.
    + rewrite (Hcells _ c), Hids; [done|]. cbn [g1 cells]. by rewrite list_lookup_insert_ne.
Qed.

End GridFacts.

(** Each cell of a rebuilt grid holds the ids of its boids. *)
Lemma rebuild_cells (conv : float64 → Z) (g : Game) (Hgrid : grid_ok (sg g)) :
  ∃ g', rebuild conv g = Ret g' ∧ grid_ok (sg g') ∧ boids g' = boids g ∧
    ∀ k, (k < length (cells (sg g')))%nat →
      cells (sg g') !! k = Some (id <$> filter (λ b, cell_of conv (sg g') b = k) (boids g)).
Proof.
  unfold rebuild. set (c := Clean (sg g)).
  assert (same_shape (sg g) c) as Hsh by (split_and!; try done; apply length_fmap).
  pose proof (grid_ok_shape _ _ Hsh Hgrid) as Hc.
  destruct (insert_all_ok conv (boids g) c Hc) as (s & Hs & Hsh' & Hcells).
  rewrite Hs. eexists. split; [done|]. cbn [sg boids].
  split; [by eapply grid_ok_shape|]. split; [done|]. intros k Hk.
  rewrite (Hcells k []); [|].
  - simpl. unfold ids_in. do 2 f_equal. apply list_filter_iff. intros b. unfold cell_of.
    by rewrite (GetCellIndex_shape conv c s).
  - unfold c, Clean. cbn [cells]. rewrite list_lookup_fmap.
    destruct Hsh as (_ & _ & _ & Hl), Hsh' as (_ & _ & _ & Hl').
    destruct (lookup_lt_is_Some_2 (cells (sg g)) k) as [x ->]; [|done]. congruence.
Qed.

Lemma join_fmap {A B} (f : A → list B) (l : list A) : mjoin (f <$> l) = l ≫= f.
Proof. induction l as [|x l IH]; [done|]. cbn. by f_equal. Qed.

(** Sorting into numbered cells loses nothing. *)
Lemma cells_Permutation (f : Boid → nat) (n : nat) (bs : list Boid) :
  Forall (λ b, (f b < n)%nat) bs →
  (seq 0 n ≫= λ k, id <$> filter (λ b, f b = k) bs) ≡ₚ id <$> bs.
Proof.
  induction 1 as [|b bs Hb _ IH]; [by induction (seq 0 n)|].
  rewrite fmap_cons, <-IH. destruct (list_elem_of_split (seq 0 n) (f b)) as (l1 & l2 & Hl);
    [by apply elem_of_seq; lia|].
  pose proof (NoDup_seq 0 n) as Hnd. rewrite Hl in *. apply NoDup_app in Hnd as (_ & Hd1 & [Hd2 _]%NoDup_cons).
  assert (Hskip : ∀ l, f b ∉ l → (l ≫= λ k, id <$> filter (λ b, f b = k) (b :: bs)) =
                               (l ≫= λ k, id <$> filter (λ b, f b = k) bs)).
  { induction l as [|k l IHl]; intros Hk; [done|]. apply not_elem_of_cons in Hk as [Hk Hk'].
    cbn [mbind list_bind]. rewrite filter_cons_False by done. by rewrite IHl. }
  rewrite !bind_app. cbn [mbind list_bind]. rewrite !Hskip, filter_cons_True by set_solver.
  rewrite fmap_cons. symmetry. apply Permutation_middle.
Qed.

(** C28. Rebuilding the grid never fails, wherever the boids are (beyond the
    screen, at infinity, or not a number at all), and leaves a well-formed grid
    in which each cell holds exactly the ids of the boids that are in it, and
    all cells together each boid once. *)
Theorem rebuild_grid_correct (conv : float64 → Z) (g : Game) (Hgrid : grid_ok (sg g)) :
  ∃ g', rebuild conv g = Ret g' ∧ grid_ok (sg g') ∧ boids g' = boids g ∧
    (∀ k, (k < length (cells (sg g')))%nat →
       cells (sg g') !! k = Some (id <$> filter (λ b, cell_of conv (sg g') b = k) (boids g))) ∧
    mjoin (cells (sg g')) ≡ₚ id <$> boids g.
Proof.
  destruct (rebuild_cells conv g Hgrid) as (g' & E & Hg & Hb & Hc). exists g'.
  split_and!; [done..|]. set (s := sg g') in *.
  rewrite <-(cells_Permutation (cell_of conv s) (length (cells s)) (boids g)).
  - assert (cells s = (λ k, id <$> filter (λ b, cell_of conv s b = k) (boids g)) <$> seq 0 (length (cells s)))
      as Heq.
    { apply list_eq. intros k. rewrite list_lookup_fmap.
      destruct (decide (k < length (cells s))%nat) as [Hk|Hk].
      - rewrite (Hc k Hk), lookup_seq_lt by done. done.
      - rewrite (lookup_ge_None_2 (cells s)), (lookup_ge_None_2 (seq _ _)) by (rewrite ?length_seq; lia).
        done. }
    rewrite Heq at 1. by rewrite join_fmap.
  - apply Forall_forall. intros b _. unfold cell_of.
    pose proof (GetCellIndex_range conv s (vx (position b)) (vy (position b)) Hg). lia.
Qed.

(** ** The workers compute what a sequential loop would *)

#[local] Opaque boidsCount.

(** A game as [NewGame] makes it: [boidsCount] boids, numbered in order. *)
Record game_ok (g : Game) : Prop := mkGameOk {
  go_grid : grid_ok (sg g);
  go_ids : id <$> boids g = seq 0 boidsCount;
  go_accels : length (accels g) = boidsCount;
}.

(** Each cell holds ids of boids only. *)
Definition cells_ok (g : Game) : Prop :=
  Forall (Forall (λ i, (i < length (boids g))%nat)) (cells (sg g)).

Section Workers.
Context (conv : float64 → Z).

Lemma length_boids g : game_ok g → length (boids g) = boidsCount.
Proof. intros [_ Hids _]. by rewrite <- (length_fmap id), Hids, length_seq. Qed.

Lemma rebuild_ok g :
  game_ok g → ∃ g', rebuild conv g = Ret g' ∧ game_ok g' ∧ cells_ok g' ∧ boids g' = boids g.
Proof.
  intros Hok. destruct (rebuild_cells conv g (go_grid g Hok)) as (g' & E & Hg & Hb & Hc).
  exists g'. split; [done|]. unfold rebuild in E. destruct (insert_all _ _ _); simplify_eq/=.
  split_and!; [by destruct Hok; split| |done]. unfold cells_ok. cbn [boids sg] in *.
  apply Forall_lookup_2. intros k c Hk. rewrite Hc in Hk by (by eapply lookup_lt_Some).
  injection Hk as <-. apply Forall_fmap, Forall_forall. intros b [_ Hb']%list_elem_of_filter.
  rewrite (length_boids g Hok). apply (list_elem_of_fmap_2 id) in Hb'.
  rewrite (go_ids g Hok) in Hb'. apply elem_of_seq in Hb'. simpl. lia.
Qed.

Lemma in_grid_cell s col row :
  grid_ok s → in_grid s col row = true →
  ∃ c, cells s !! Z.to_nat (int64 (row * cols s + col)) = Some c.
Proof.
  intros (Hr & Hc & Hl) Hin. unfold in_grid in Hin. zbool.
  assert (0 ≤ row * cols s + col < rows s * cols s) by nia.
  apply lookup_lt_is_Some_2. rewrite int64_id; [lia|]. unfold min_int64, max_int64. nia.
Qed.

(** Collecting the nine cells never fails and yields their ids. *)
Lemma collect_cells_ok s bCol bRow offs : grid_ok s → ∀ res,
  ∃ l, collect_cells s bCol bRow offs res = Ret (res ++ l) ∧
    ∀ i, i ∈ l → ∃ c, c ∈ cells s ∧ i ∈ c.
Proof.
  intros Hok. induction offs as [|[nc nr] offs IH]; intros res.
  - exists []. simpl. rewrite app_nil_r. split; [done|]. intros i Hi. by apply not_elem_of_nil in Hi.
  - simpl. destruct (in_grid _ _ _) eqn:Hin.
    + destruct (in_grid_cell _ _ _ Hok Hin) as [c Hc]. rewrite Hc.
      destruct (IH (res ++ c)) as (l & -> & Hl). exists (c ++ l). rewrite app_assoc.
      split; [done|]. intros i [Hi|Hi]%elem_of_app; [|by apply Hl].
      exists c. split; [|done]. by eapply list_elem_of_lookup_2.
    + apply IH.
Qed.

Lemma accumulate_ok bs b neib : Forall (λ i, (i < length bs)%nat) neib → ∀ s,
  ∃ s', accumulate bs b neib s = Ret s'.
Proof.
  induction 1 as [|i neib Hi _ IH]; intros s; [by eexists|]. simpl.
  destruct (lookup_lt_is_Some_2 bs i Hi) as [o ->]. apply IH.
Qed.

Lemma run_job_ok g i :
  game_ok g → cells_ok g → (i < boidsCount)%nat → ∃ acc, run_job conv g i = Ret acc.
Proof.
  intros Hok Hcells Hi. unfold run_job.
  destruct (lookup_lt_is_Some_2 (boids g) i) as [b ->]; [by rewrite length_boids|].
  unfold GetNeighbours.
  destruct (collect_cells_ok (sg g) (to_int conv (fdiv (vx (position b)) (cellSize (sg g))))
    (to_int conv (fdiv (vy (position b)) (cellSize (sg g)))) offsets (go_grid g Hok) [])
    as (l & -> & Hl). simpl. unfold calcAcceleration.
  destruct (accumulate_ok (boids g) b l) with (s := mkSums vzero vzero vzero f0 f0) as [s ->];
    [|by eexists].
  apply Forall_forall. intros j Hj. destruct (Hl j Hj) as (c & Hc & Hjc).
  unfold cells_ok in Hcells. rewrite Forall_forall in Hcells. specialize (Hcells c Hc).
  rewrite Forall_forall in Hcells. auto.
Qed.

(** The accelerations of a frame, computed one after the other. *)
Definition seq_accels (g : Game) : list (option Vector2D) :=
  (λ i, match run_job conv g i with Ret acc => Some acc | _ => None end) <$> seq 0 boidsCount.

(** Every job is to be sent, queued, at a worker, or done with its result. *)
Record jobs_inv (g : Game) (k : nat) (j : jobs) : Prop := mkJobsInv {
  ji_jobs : ∃ dn, tosend j ++ queue j ++ omap (λ w, w) (workers j) ++ dn ≡ₚ seq 0 boidsCount ∧
    wg j = Z.of_nat boidsCount - Z.of_nat (length dn) ∧
    ∀ i, i ∈ dn → ∃ acc, run_job conv g i = Ret acc ∧ results j !! i = Some (Some acc);
  ji_results : length (results j) = boidsCount;
  ji_workers : length (workers j) = k;
}.

Lemma workers_insert ws k w w' :
  ws !! k = Some w → option_list w ++ omap (λ w, w) (<[k := w']> ws) ≡ₚ
    option_list w' ++ omap (λ w : option nat, w) ws.
Proof.
  intros Hk. rewrite insert_take_drop by (by eapply lookup_lt_Some).
  rewrite <- (take_drop_middle ws k w Hk) at 3. rewrite !omap_app. simpl.
  destruct w, w'; simpl; rewrite ?Permutation_middle; done || solve_Permutation.
Qed.

Lemma omap_idle n : omap (λ w : option nat, w) (replicate n None) = [].
Proof. by induction n. Qed.

Lemma start_inv cpus g :
  game_ok g → jobs_inv g (worker_count cpus) (start_jobs cpus g).
Proof.
  intros [_ Hids Ha]. split; [|done|apply length_replicate].
  exists []. cbn [tosend queue workers results wg start_jobs]. rewrite Hids. split_and!.
  - by rewrite omap_idle, !app_nil_r.
  - simpl. lia.
  - intros i Hi. by apply not_elem_of_nil in Hi.
Qed.

Lemma step_inv g k j j' : job_step conv g j j' → jobs_inv g k j → jobs_inv g k j'.
Proof.
  intros Hstep [(dn & Hperm & Hwg & Hdn) Hlen Hk].
  destruct Hstep as [i ts q ws rs n Hq|w i ts q ws rs n Hw|w i ts q ws rs n acc Hw Hi Hjob];
    cbn [tosend queue workers results wg] in *.
  - split; [|done|done]. exists dn. cbn [tosend queue workers results wg]. split_and!; [|done..].
    rewrite <- Hperm. solve_Permutation.
  - split; cbn [tosend queue workers results wg]; [|done|by rewrite length_insert].
    exists dn. split_and!; [|done..]. rewrite <- Hperm.
    pose proof (workers_insert ws w None (Some i) Hw) as Hp. simpl in Hp. rewrite Hp.
    solve_Permutation.
  - split; cbn [tosend queue workers results wg]; [|by rewrite length_insert..].
    exists (i :: dn). split_and!.
    + rewrite <- Hperm. pose proof (workers_insert ws w (Some i) None Hw) as Hp. simpl in Hp.
      rewrite <- Hp. solve_Permutation.
    + cbn [length]. lia.
    + intros i' [->|Hi']%elem_of_cons.
      * exists acc. split; [done|]. by apply list_lookup_insert_eq.
      * destruct (Hdn i' Hi') as (acc' & Hj & Hr). destruct (decide (i' = i)) as [->|Hne].
        { exists acc. split; [done|]. by apply list_lookup_insert_eq. }
        exists acc'. split; [done|]. by rewrite list_lookup_insert_ne.
Qed.

Lemma reach_inv cpus g j :
  game_ok g → rtc (job_step conv g) (start_jobs cpus g) j → jobs_inv g (worker_count cpus) j.
Proof.
  intros Hok Hr. eapply (rtc_invariant _ (jobs_inv g (worker_count cpus))); [|exact Hr|by apply start_inv].
  intros a b Ha Hs. by eapply step_inv.
Qed.

(** When the wait group is at zero, the results are those of the loop. *)
Lemma done_results g k j :
  jobs_inv g k j → wg j = 0 → results j = seq_accels g.
Proof.
  intros [(dn & Hperm & Hwg & Hdn) Hlen _] H0.
  assert (∀ i, (i < boidsCount)%nat → i ∈ dn) as Hall.
  { intros i Hi. pose proof (Permutation_length Hperm) as Hl.
    rewrite !length_app, length_seq in Hl.
    assert (tosend j = [] ∧ queue j = [] ∧ omap (λ w, w) (workers j) = []) as (E1 & E2 & E3)
      by (split_and!; apply nil_length_inv; lia).
    rewrite E1, E2, E3 in Hperm. simpl in Hperm. rewrite Hperm. apply elem_of_seq. lia. }
  apply list_eq. intros i. unfold seq_accels. rewrite list_lookup_fmap.
  destruct (decide (i < boidsCount)%nat) as [Hi|Hi].
  - rewrite lookup_seq_lt by done. simpl.
    destruct (Hdn i (Hall i Hi)) as (acc & -> & ->). done.
  - rewrite lookup_ge_None_2 by lia. symmetry. apply fmap_None, lookup_seq_ge. lia.
Qed.

(** Steps left. *)
Definition steps_left (j : jobs) : nat :=
  3 * length (tosend j) + 2 * length (queue j) + length (omap (λ w, w) (workers j)).

Lemma step_steps_left g j j' : job_step conv g j j' → steps_left j = S (steps_left j').
Proof.
  unfold steps_left.
  destruct 1 as [i ts q ws rs n Hq|w i ts q ws rs n Hw|w i ts q ws rs n acc Hw Hi Hjob];
    cbn [tosend queue workers].
  - rewrite length_app. simpl. lia.
  - pose proof (Permutation_length (workers_insert ws w None (Some i) Hw)) as Hl.
    simpl in *. lia.
  - pose proof (Permutation_length (workers_insert ws w (Some i) None Hw)) as Hl.
    simpl in *. lia.
Qed.

Lemma steps_left_start cpus g : game_ok g → steps_left (start_jobs cpus g) = (3 * boidsCount)%nat.
Proof.
  intros [_ Hids _]. unfold steps_left, start_jobs. cbn [tosend queue workers].
  rewrite Hids, length_seq, omap_idle. cbn [length]. lia.
Qed.

(** With a worker, a frame that is not over can go on. *)
Lemma job_progress g k j :
  game_ok g → cells_ok g → (0 < k)%nat → jobs_inv g k j →
  jobs_done j ∨ ∃ j', job_step conv g j j'.
Proof.
  intros Hok Hcells Hk [(dn & Hperm & Hwg & Hdn) Hlen Hws].
  destruct j as [ts q ws rs n]. cbn [tosend queue workers results wg] in *.
  destruct (omap (λ w, w) ws) as [|i busy] eqn:Eb.
  - destruct q as [|i q].
    + destruct ts as [|i ts].
      * left. split; [done|]. apply Permutation_length in Hperm. rewrite length_seq in Hperm.
        simpl in *. lia.
      * right. eexists. apply job_send. simpl. apply Permutation_length in Hperm.
        rewrite length_seq in Hperm. simpl in Hperm. lia.
    + right. destruct ws as [|w ws]; [simpl in Hws; lia|]. destruct w as [i'|]; [done|].
      eexists. apply (job_take conv g 0). done.
  - right. assert (i ∈ omap (λ w, w) ws) as Hi by (rewrite Eb; by left).
    apply list_elem_of_omap in Hi as (w & Hw & ->). apply list_elem_of_lookup in Hw as [k' Hk'].
    assert (i < boidsCount)%nat as Hib.
    { assert (i ∈ seq 0 boidsCount) as Hin; [|apply elem_of_seq in Hin; lia].
      rewrite <- Hperm. rewrite !elem_of_app, elem_of_cons. auto. }
    destruct (run_job_ok g i Hok Hcells Hib) as [acc Hacc].
    eexists. eapply job_done; [done|by rewrite Hlen|done].
Qed.

(** Every execution can be continued to the end of the frame. *)
Lemma job_completes g k j :
  game_ok g → cells_ok g → (0 < k)%nat → jobs_inv g k j →
  ∃ j', rtc (job_step conv g) j j' ∧ jobs_done j'.
Proof.
  intros Hok Hcells Hk. remember (steps_left j) as m eqn:Em. revert j Em.
  induction m as [m IH] using lt_wf_ind. intros j -> Hinv.
  destruct (job_progress g k j Hok Hcells Hk Hinv) as [|[j1 Hs]]; [by exists j|].
  pose proof (step_steps_left g j j1 Hs).
  destruct (IH (steps_left j1) ltac:(lia) j1 eq_refl) as (j' & Hr & Hd); [by eapply step_inv|].
  exists j'. split; [by eapply rtc_l|done].
Qed.
End Workers.

(** A frame without goroutines. *)
Definition Update_seq (conv : float64 → Z) (g : Game) : outcome Game :=
  g1 ← rebuild conv g;
  bs ← update_boids (seq_accels conv g1) (boids g1);
  Ret (mkGame (sg g1) bs (seq_accels conv g1)).

Lemma Boid_Update_id b acc : id (Boid_Update b acc) = id b.
Proof. reflexivity. Qed.

Lemma update_boids_ok accs bs :
  Forall (λ b, ∃ acc, accs !! id b = Some (Some acc)) bs →
  ∃ bs', update_boids accs bs = Ret bs' ∧ id <$> bs' = id <$> bs.
Proof.
  induction 1 as [|b bs [acc Hacc] _ IH]; [by exists []|]. simpl. rewrite Hacc.
  destruct IH as (bs' & -> & Hids). exists (Boid_Update b acc :: bs').
  split; [done|]. by rewrite !fmap_cons, Hids.
Qed.

Lemma seq_accels_ok conv g :
  game_ok g → cells_ok g →
  Forall (λ b, ∃ acc, seq_accels conv g !! id b = Some (Some acc)) (boids g).
Proof.
  intros Hok Hcells. apply Forall_forall. intros b Hb.
  assert (id b < boidsCount)%nat as Hi.
  { apply (list_elem_of_fmap_2 id) in Hb. rewrite (go_ids g Hok) in Hb. apply elem_of_seq in Hb. lia. }
  unfold seq_accels. rewrite list_lookup_fmap, lookup_seq_lt by done. simpl.
  destruct (run_job_ok conv g (id b) Hok Hcells Hi) as [acc ->]. by exists acc.
Qed.

Lemma worker_count_pos cpus : 4 ≤ cpus → (0 < worker_count cpus)%nat.
Proof.
  intros H. unfold worker_count. rewrite Z.quot_div_nonneg by lia.
  assert (1 ≤ cpus / 4) by (apply Z.div_le_lower_bound; lia). lia.
Qed.

(** C14. A frame of the game with its goroutines: from four processors on, every
    schedule of the workers ends, after at most three steps per boid and never
    stuck, and gives exactly the game that computing one boid after the other
    gives; the next frame finds a well-formed game again. *)
Theorem frame_is_sequential (conv : float64 → Z) (cpus : Z) (g : Game)
    (Hok : game_ok g) (Hcpus : 4 ≤ cpus) :
  ∃ g1 g', rebuild conv g = Ret g1 ∧ Update_seq conv g = Ret g' ∧ game_ok g' ∧
    (∀ g'', Game_Update conv cpus g g'' ↔ g'' = g') ∧
    (∀ j, rtc (job_step conv g1) (start_jobs cpus g1) j →
       jobs_done j ∨ ∃ j', job_step conv g1 j j') ∧
    (∀ m j, nsteps (job_step conv g1) m (start_jobs cpus g1) j → (m ≤ 3 * boidsCount)%nat).
Proof.
  destruct (rebuild_ok conv g Hok) as (g1 & E & Hok1 & Hcells & _).
  pose proof (worker_count_pos cpus Hcpus) as Hk.
  destruct (update_boids_ok _ _ (seq_accels_ok conv g1 Hok1 Hcells)) as (bs & Hbs & Hids).
  exists g1, (mkGame (sg g1) bs (seq_accels conv g1)).
  split; [done|]. split; [unfold Update_seq; rewrite E; simpl; by rewrite Hbs|].
  split_and!.
  - split; [apply Hok1|by cbn [boids]; rewrite Hids, (go_ids g1 Hok1)|].
    cbn [accels]. unfold seq_accels. by rewrite length_fmap, length_seq.
  - intros g''. split.
    + intros [g1' j bs' E' Hr [_ Hw] Hu]. assert (g1' = g1) as -> by congruence.
      rewrite (done_results conv g1 _ j (reach_inv conv cpus g1 j Hok1 Hr) Hw) in *. congruence.
    + intros ->.
      destruct (job_completes conv g1 _ (start_jobs cpus g1) Hok1 Hcells Hk (start_inv conv cpus g1 Hok1))
        as (j & Hr & Hd).
      assert (results j = seq_accels conv g1) as Hres
        by (eapply done_results; [by eapply reach_inv|apply Hd]).
      rewrite <- Hres in *. exact (Game_Update_ret conv cpus g g1 j bs E Hr Hd Hbs).
  - intros j Hr. eapply job_progress; [done|done|done|by eapply reach_inv].
  - intros m j Hm. rewrite <- (steps_left_start cpus g1 Hok1).
    clear -Hm. induction Hm as [|m a b c Hs _ IH]; [lia|]. pose proof (step_steps_left _ _ _ _ Hs). lia.
Qed.

(** On a machine with fewer than four processors [StartJobs] starts no
    worker, and no frame ever ends: [Update] waits for its wait group forever. *)
Theorem few_processors_hang (conv : float64 → Z) (cpus : Z) (g g' : Game)
    (Hcpus : 0 ≤ cpus < 4) : ¬ Game_Update conv cpus g g'.
Proof.
  intros [g1 j bs _ Hr [_ Hw] _].
  assert (workers j = [] ∧ wg j = Z.of_nat boidsCount) as [_ Hwg]; [|by rewrite Hwg in Hw].
  eapply (rtc_invariant _ (λ j, workers j = [] ∧ wg j = Z.of_nat boidsCount)); [|exact Hr|].
  - intros a b [Hws Hn] Hs. destruct Hs; simpl in *; subst; try done.
  - split; [|done]. cbn [workers start_jobs]. unfold worker_count.
    rewrite Z.quot_small by lia. done.
Qed.

(** ** The neighbours of a boid *)

#[local] Opaque fone.

Lemma cohRadius_val : fvalid cohRadius = true ∧ is_finite cohRadius = true ∧
  fval cohRadius = 135 * fone.
Proof. apply float_of_Z_exact. lia. Qed.

(** The quotient by the cell size stays on the same side of the integers. *)
Lemma div_cell x :
  fvalid x = true → is_finite x = true → - 2000 * fone ≤ fval x ≤ 2000 * fone →
  let r := fdiv x cohRadius in
  fvalid r = true ∧ is_finite r = true ∧
  (∀ k, 0 ≤ k ≤ 2000 → k * 135 * fone ≤ fval x → k * fone ≤ fval r) ∧
  (∀ k, 0 < k ≤ 2000 → 0 ≤ fval x < k * 135 * fone → fval r < k * fone) ∧
  (fval x ≤ 0 → fval r ≤ 0) ∧ (- 135 * fone < fval x ≤ 0 → - fone < fval r).
Proof.
  intros Hx Hf Hrange r. destruct cohRadius_val as (Hc1 & Hc2 & Hc3).
  pose proof fone_big as Hu.
  pose proof (nearest_div x cohRadius Hx Hf Hc1 Hc2 ltac:(rewrite Hc3; lia)) as Hn.
  rewrite Hc3 in Hn. apply nearest_scale in Hn; [|lia..]. fold r in Hn.
  destruct (float_of_Z_exact 2000 ltac:(lia)) as (Hh1 & Hh2 & Hh3).
  destruct (float_of_Z_exact (-2000) ltac:(lia)) as (Hl1 & Hl2 & Hl3).
  destruct (nearest_between _ _ _ _ _ Hn Hl1 Hl2 Hh1 Hh2 ltac:(lia)) as (Hr1 & Hr2 & Hr3).
  pose proof (near_err _ _ _ Hn Hr2) as He.
  assert (Hgap : ∀ g, fvalid g = true → Z.abs (fval x) < Z.abs (fval g) →
    Z.abs (fval x) < 2 ^ 53 * (Z.abs (fval g) - Z.abs (fval x))) by (intros; by apply float_gap).
  split_and!; [done|done|..].
  - intros k Hk Hle. destruct (float_of_Z_exact k ltac:(lia)) as (Hk1 & Hk2 & Hk3).
    pose proof (near_ge _ _ _ Hn _ Hk1 Hk2 ltac:(lia)) as Hge. rewrite fleb_fval in Hge by done.
    zbool. lia.
  - intros k Hk [H0 Hlt]. destruct (Z.lt_ge_cases (fval r) (k * fone)) as [|Hge]; [done|exfalso].
    destruct (float_of_Z_exact (k * 135) ltac:(lia)) as (Hk1 & Hk2 & Hk3).
    assert (0 < k * 135 * fone) by nia.
    pose proof (Hgap _ Hk1 ltac:(lia)). assert (fone ≤ k * fone) by nia. lia.
  - intros H0. destruct (float_of_Z_exact 0 ltac:(lia)) as (Hk1 & Hk2 & Hk3).
    pose proof (near_le _ _ _ Hn _ Hk1 Hk2 ltac:(lia)) as Hle. rewrite fleb_fval in Hle by done.
    zbool. lia.
  - intros [Hlt H0]. destruct (Z.lt_ge_cases (- fone) (fval r)) as [|Hge]; [done|exfalso].
    pose proof (Hgap _ Hc1 ltac:(lia)). lia.
Qed.

(** The column (or row) of a coordinate that is at most a cell off the grid. *)
Lemma cell_floor conv x :
  fvalid x = true → is_finite x = true → - 135 * fone < fval x ≤ 1999 * fone →
  to_int conv (fdiv x cohRadius) = Z.max 0 (fval x / (135 * fone)).
Proof.
  intros Hx Hf Hrange. pose proof fone_big as Hu.
  destruct (div_cell x Hx Hf ltac:(lia)) as (Hr1 & Hr2 & Hge & Hlt & H0 & Hneg).
  set (r := fdiv x cohRadius) in *. unfold to_int. rewrite Hr2, ftrunc_fval by done.
  assert (Z.quot (fval r) fone = Z.max 0 (fval x / (135 * fone))) as Hq.
  { destruct (Z.le_gt_cases 0 (fval x)) as [Hpos|Hn].
    - pose proof (Z.div_mod (fval x) (135 * fone) ltac:(lia)) as Hdm.
      pose proof (Z.mod_pos_bound (fval x) (135 * fone) ltac:(lia)) as Hmod.
      set (k := fval x / (135 * fone)) in *.
      assert (0 ≤ k) by (apply Z.div_pos; lia).
      assert (k ≤ 20) by (apply Z.lt_succ_r, Z.div_lt_upper_bound; lia).
      pose proof (Hge k ltac:(lia) ltac:(nia)). pose proof (Hlt (k + 1) ltac:(lia) ltac:(nia)).
      rewrite Z.max_r by done. symmetry. rewrite Z.quot_div_nonneg by nia.
      apply (Z.div_unique _ _ _ (fval r - k * fone)); [left; lia|lia].
    - rewrite Z.max_l by (apply Z.lt_le_incl, Z.div_lt_upper_bound; lia).
      rewrite <- (Z.opp_involutive (fval r)), Z.quot_opp_l, Z.quot_small by lia. done. }
  rewrite Hq.
  assert (fval x / (135 * fone) ≤ 20) by (apply Z.lt_succ_r, Z.div_lt_upper_bound; lia).
  rewrite (proj2 (Z.leb_le _ _)), (proj2 (Z.leb_le _ _)) by (unfold min_int64, max_int64; lia).
  done.
Qed.

(** Two coordinates less than a cell apart are in adjacent columns. *)
Lemma cells_adjacent conv n x y :
  1 ≤ n ≤ 12 → fvalid x = true → is_finite x = true → fvalid y = true → is_finite y = true →
  - 135 * fone < fval x < 135 * (n + 1) * fone → - 135 * fone < fval y < 135 * (n + 1) * fone →
  Z.abs (fval x - fval y) < 135 * fone →
  ∃ d, (d = -1 ∨ d = 0 ∨ d = 1) ∧
    to_int conv (fdiv x cohRadius) + d = clamp_cell (to_int conv (fdiv y cohRadius)) n.
Proof.
  intros Hn Hx Hfx Hy Hfy Hrx Hry Hd. pose proof fone_big as Hu.
  assert (135 * (n + 1) * fone ≤ 1999 * fone) by nia.
  rewrite (cell_floor conv x), (cell_floor conv y) by (done || lia).
  set (u := 135 * fone) in *. assert (0 < u) as Hpos by (unfold u; lia).
  assert (Hdiv : ∀ z, - u < z < (n + 1) * u → -1 ≤ z / u ≤ n ∧ u * (z / u) ≤ z < u * (z / u) + u).
  { intros z Hz. pose proof (Z.div_mod z u ltac:(lia)). pose proof (Z.mod_pos_bound z u Hpos). nia. }
  destruct (Hdiv (fval x)) as [Hx1 Hx2]; [unfold u; lia|].
  destruct (Hdiv (fval y)) as [Hy1 Hy2]; [unfold u; lia|].
  assert (-1 ≤ fval x / u - fval y / u ≤ 1) by nia.
  unfold clamp_cell.
  exists ((if (if n <=? Z.max 0 (fval y / u) then n - 1 else Z.max 0 (fval y / u)) <? 0 then 0
           else if n <=? Z.max 0 (fval y / u) then n - 1 else Z.max 0 (fval y / u))
          - Z.max 0 (fval x / u)).
  split; [|lia]. repeat (case_go; zbool); lia.
Qed.

(** On the screen, or less than a cell off it (the grid has 12 columns and 8
    rows). *)
Definition near_screen (p : Vector2D) : Prop :=
  fvalid (vx p) = true ∧ is_finite (vx p) = true ∧ fvalid (vy p) = true ∧ is_finite (vy p) = true ∧
  - 135 * fone < fval (vx p) < 135 * (12 + 1) * fone ∧
  - 135 * fone < fval (vy p) < 135 * (8 + 1) * fone.

(** The square of a difference of coordinates. *)
Lemma square_diff x y :
  fvalid x = true → is_finite x = true → fvalid y = true → is_finite y = true →
  - 2000 * fone ≤ fval x - fval y ≤ 2000 * fone →
  let d := fsub x y in let s := fmul d d in
  fvalid s = true ∧ is_finite s = true ∧ 0 ≤ fval s ≤ 4000000 * fone ∧
  (135 * fone ≤ Z.abs (fval x - fval y) → 18225 * fone ≤ fval s).
Proof.
  intros Hx Hfx Hy Hfy Hrange d s. pose proof fone_big as Hu.
  pose proof (nearest_sub x y Hx Hfx Hy Hfy) as Hsub. fold d in Hsub.
  assert (Hex : ∀ z, Z.abs z ≤ 2 ^ 53 → ∃ g, fvalid g = true ∧ is_finite g = true ∧ fval g = z * fone)
    by apply Z_float.
  destruct (Hex 2000 ltac:(lia)) as (hi & Hh1 & Hh2 & Hh3).
  destruct (Hex (-2000) ltac:(lia)) as (lo & Hl1 & Hl2 & Hl3).
  destruct (nearest_between _ _ _ lo hi Hsub Hl1 Hl2 Hh1 Hh2 ltac:(lia)) as (Hd1 & Hd2 & Hd3).
  assert (135 * fone ≤ Z.abs (fval x - fval y) → 135 * fone ≤ Z.abs (fval d)) as Hfar.
  { intros Habs. destruct (Z.le_gt_cases 0 (fval x - fval y)).
    - destruct (Hex 135 ltac:(lia)) as (g & Hg1 & Hg2 & Hg3).
      pose proof (near_ge _ _ _ Hsub g Hg1 Hg2 ltac:(lia)) as Hge. rewrite fleb_fval in Hge by done.
      zbool. lia.
    - destruct (Hex (-135) ltac:(lia)) as (g & Hg1 & Hg2 & Hg3).
      pose proof (near_le _ _ _ Hsub g Hg1 Hg2 ltac:(lia)) as Hle. rewrite fleb_fval in Hle by done.
      zbool. lia. }
  pose proof (nearest_mul d d Hd1 Hd2 Hd1 Hd2) as Hmul. fold s in Hmul.
  destruct (Hex 4000000 ltac:(lia)) as (h2 & Hh21 & Hh22 & Hh23).
  destruct (Hex 0 ltac:(lia)) as (z & Hz1 & Hz2 & Hz3).
  assert (0 ≤ fval d * fval d ≤ (2000 * fone) * (2000 * fone)) by nia.
  destruct (nearest_between _ _ _ z h2 Hmul Hz1 Hz2 Hh21 Hh22) as (Hs1 & Hs2 & Hs3);
    [rewrite Hz3, Hh23; nia|].
  split_and!; [done|done|lia|lia|]. intros Habs. specialize (Hfar Habs).
  destruct (Hex 18225 ltac:(lia)) as (g & Hg1 & Hg2 & Hg3).
  assert (135 * fone * (135 * fone) ≤ fval d * fval d) by (rewrite <- (Z.abs_square (fval d)); nia).
  pose proof (near_ge _ _ _ Hmul g Hg1 Hg2 ltac:(rewrite Hg3; nia)) as Hge.
  rewrite fleb_fval in Hge by done. zbool. lia.
Qed.

(** Boids a cell or more apart in a coordinate are out of each other's radius. *)
Lemma distance_far p q :
  near_screen p → near_screen q →
  135 * fone ≤ Z.abs (fval (vx p) - fval (vx q)) ∨ 135 * fone ≤ Z.abs (fval (vy p) - fval (vy q)) →
  fltb (Distance p q) cohRadius = false ∧ fleb (Distance p q) sepRadius = false.
Proof.
  intros (Hp1 & Hp2 & Hp3 & Hp4 & Hpx & Hpy) (Hq1 & Hq2 & Hq3 & Hq4 & Hqx & Hqy) Hfar.
  pose proof fone_big as Hu.
  destruct (square_diff (vx p) (vx q) Hp1 Hp2 Hq1 Hq2 ltac:(lia)) as (Ha1 & Ha2 & Ha3 & Ha4).
  destruct (square_diff (vy p) (vy q) Hp3 Hp4 Hq3 Hq4 ltac:(lia)) as (Hb1 & Hb2 & Hb3 & Hb4).
  unfold Distance. set (a := fmul (fsub (vx p) _) _) in *. set (b := fmul (fsub (vy p) _) _) in *.
  pose proof (nearest_add a b Ha1 Ha2 Hb1 Hb2) as Hadd.
  destruct (Z_float 18225) as (g & Hg1 & Hg2 & Hg3); [lia|].
  destruct (Z_float 8000000) as (h & Hh1 & Hh2 & Hh3); [lia|].
  destruct (nearest_between _ _ _ g h Hadd Hg1 Hg2 Hh1 Hh2 ltac:(lia)) as (Hs1 & Hs2 & Hs3).
  destruct (fsqrt_at_least (fadd a b) 135 Hs1 Hs2 ltac:(lia) ltac:(lia)) as [Hr1 Hr].
  destruct cohRadius_val as (Hc1 & Hc2 & Hc3).
  destruct (float_of_Z_exact 22 ltac:(lia)) as (Hk1 & Hk2 & Hk3).
  destruct Hr as [->|[Hr2 Hr3]]; [done|].
  rewrite fltb_fval, (fleb_fval _ sepRadius), Hc3 by done.
  change (fval sepRadius) with (fval (float_of_Z 22)). rewrite Hk3. split.
  - apply Z.ltb_ge. lia.
  - apply Z.leb_gt. lia.
Qed.

(** The boids that [calcAcceleration] takes into account. *)
Definition in_range (bs : list Boid) (b : Boid) (j : nat) : bool :=
  match bs !! j with
  | Some o => fleb (Distance (position b) (position o)) sepRadius ||
              fltb (Distance (position b) (position o)) cohRadius
  | None => false
  end.

Lemma accumulate_in_range bs b neib : Forall (λ i, (i < length bs)%nat) neib → ∀ s,
  accumulate bs b neib s = accumulate bs b (filter (λ j, in_range bs b j = true) neib) s.
Proof.
  induction 1 as [|i neib Hi _ IH]; intros s; [done|].
  destruct (lookup_lt_is_Some_2 bs i Hi) as [o Ho]. cbn [accumulate]. rewrite Ho, filter_cons.
  destruct (decide (in_range bs b i = true)) as [Hin|Hout].
  - cbn [accumulate]. rewrite Ho. apply IH.
  - rewrite <- IH. f_equal. apply not_true_is_false in Hout. unfold in_range in Hout.
    rewrite Ho in Hout. apply orb_false_iff in Hout as [H1 H2]. unfold add_neighbour.
    by rewrite H1, H2.
Qed.

Section Neighbours.
Context (conv : float64 → Z) (s : SpiralGrid) (bs : list Boid).
Hypothesis Hs : grid_ok s.
Hypothesis Hids : id <$> bs = seq 0 (length bs).
Hypothesis Hcells : ∀ k, (k < length (cells s))%nat →
  cells s !! k = Some (id <$> filter (λ b, cell_of conv s b = k) bs).

Definition col_of (b : Boid) : Z := clamp_cell (to_int conv (fdiv (vx (position b)) (cellSize s))) (cols s).
Definition row_of (b : Boid) : Z := clamp_cell (to_int conv (fdiv (vy (position b)) (cellSize s))) (rows s).

Lemma cell_of_eq b :
  0 ≤ col_of b < cols s ∧ 0 ≤ row_of b < rows s ∧
  cell_of conv s b = Z.to_nat (row_of b * cols s + col_of b).
Proof using Hs.
  destruct Hs as (Hr & Hc & Hl).
  assert (0 ≤ col_of b < cols s) by (apply clamp_cell_range; lia).
  assert (0 ≤ row_of b < rows s) by (apply clamp_cell_range; lia).
  split_and!; try lia. unfold cell_of, GetCellIndex. fold (col_of b) (row_of b). rewrite int64_id; [done|].
  unfold min_int64, max_int64. nia.
Qed.

(** The ids in the cell at a column and row, if there is one. *)
Definition cell_at (col row : Z) : list nat :=
  if in_grid s col row then default [] (cells s !! Z.to_nat (int64 (row * cols s + col))) else [].

Lemma collect_cells_eq bCol bRow offs : ∀ res,
  collect_cells s bCol bRow offs res =
    Ret (res ++ (offs ≫= λ o, cell_at (int64 (bCol + o.1)) (int64 (bRow + o.2)))).
Proof using Hs.
  induction offs as [|[nc nr] offs IH]; intros res; simpl; [by rewrite app_nil_r|].
  unfold cell_at at 1. destruct (in_grid _ _ _) eqn:Hin; [|apply IH].
  destruct (in_grid_cell _ _ _ Hs Hin) as [c ->]. rewrite IH. simpl. by rewrite <- app_assoc.
Qed.

Lemma elem_of_cell_at i col row :
  i ∈ cell_at col row ↔ ∃ b, bs !! i = Some b ∧ col_of b = col ∧ row_of b = row.
Proof using Hs Hids Hcells.
  assert (Hid : ∀ b, b ∈ bs → bs !! id b = Some b).
  { intros b Hb. apply list_elem_of_lookup in Hb as [j Hj].
    assert ((id <$> bs) !! j = Some (id b)) as Hj' by (by rewrite list_lookup_fmap, Hj).
    rewrite Hids in Hj'. apply lookup_seq in Hj' as [-> _]. done. }
  assert (Hidb : ∀ b, bs !! i = Some b → id b = i).
  { intros b Hb. assert ((id <$> bs) !! i = Some (id b)) as Hj by (by rewrite list_lookup_fmap, Hb).
    rewrite Hids in Hj. apply lookup_seq in Hj. lia. }
  destruct Hs as (Hr & Hc & Hl). unfold cell_at. destruct (in_grid s col row) eqn:Hin.
  - unfold in_grid in Hin. zbool. rewrite int64_id by (unfold min_int64, max_int64; nia).
    rewrite Hcells by nia. simpl. rewrite list_elem_of_fmap. split.
    + intros (b & -> & [Hcell Hb]%list_elem_of_filter). exists b. split; [by apply Hid|].
      destruct (cell_of_eq b) as (Hcr & Hrr & Heq). rewrite Heq in Hcell.
      apply Z2Nat.inj in Hcell; [|nia..].
      destruct (Z.div_mod_unique (cols s) (row_of b) row (col_of b) col); [lia..|done].
    + intros (b & Hb & <- & <-). exists b. split; [by rewrite (Hidb b)|].
      apply list_elem_of_filter. split; [apply cell_of_eq|by eapply list_elem_of_lookup_2].
  - split; [intros Hn; by apply not_elem_of_nil in Hn|]. intros (b & Hb & <- & <-).
    destruct (cell_of_eq b) as (Hcr & Hrr & _). unfold in_grid in Hin.
    repeat match type of Hin with context [?a <? ?b] => rewrite (proj2 (Z.ltb_ge a b)) in Hin by lia end.
    repeat match type of Hin with context [?a <=? ?b] => rewrite (proj2 (Z.leb_gt a b)) in Hin by lia end.
    done.
Qed.

Lemma NoDup_cell_at col row : NoDup (cell_at col row).
Proof using Hids Hcells.
  unfold cell_at. destruct (in_grid s col row); [|constructor].
  destruct (cells s !! _) as [c|] eqn:Ec; [simpl|constructor].
  rewrite Hcells in Ec by (by eapply lookup_lt_Some). injection Ec as <-.
  assert (NoDup (id <$> bs)) as Hnd by (rewrite Hids; apply NoDup_seq).
  clear -Hnd. induction bs as [|b l IH]; [constructor|]. apply NoDup_cons in Hnd as [Hb Hnd].
  rewrite filter_cons. destruct (decide _); [|by apply IH]. apply NoDup_cons. split; [|by apply IH].
  intros Hin. apply Hb. apply list_elem_of_fmap in Hin as (b' & -> & [_ Hb']%list_elem_of_filter).
  by apply list_elem_of_fmap_2.
Qed.

Lemma NoDup_cells bCol bRow offs :
  NoDup offs →
  (∀ o o', o ∈ offs → o' ∈ offs → int64 (bCol + o.1) = int64 (bCol + o'.1) →
     int64 (bRow + o.2) = int64 (bRow + o'.2) → o = o') →
  NoDup (offs ≫= λ o : Z * Z, cell_at (int64 (bCol + o.1)) (int64 (bRow + o.2))).
Proof using Hs Hids Hcells.
  induction 1 as [|o offs Hnin Hnd IH]; intros Hinj; [constructor|]. cbn [mbind list_bind].
  apply NoDup_app. split_and!.
  - apply NoDup_cell_at.
  - intros i Hi Hi'. apply list_elem_of_bind in Hi' as (o' & Hi' & Ho').
    apply elem_of_cell_at in Hi as (b & Hb & Hc & Hr). apply elem_of_cell_at in Hi' as (b' & Hb' & Hc' & Hr').
    assert (b' = b) as -> by congruence. apply Hnin.
    rewrite (Hinj o o'); [done|by left|by right|congruence..].
  - apply IH. intros o1 o2 H1 H2. apply Hinj; by right.
Qed.

End Neighbours.

(** The grid of the game: cells as wide as the radius of cohesion. *)
Definition game_grid (s : SpiralGrid) : Prop :=
  grid_ok s ∧ cols s = 12 ∧ rows s = 8 ∧ cellSize s = cohRadius.

(** The nine cells around a boid hold every boid in its range. *)
Lemma neighbour_offset conv s b o :
  game_grid s → near_screen (position b) → near_screen (position o) →
  fleb (Distance (position b) (position o)) sepRadius ||
    fltb (Distance (position b) (position o)) cohRadius = true →
  ∃ nc nr, (nc, nr) ∈ offsets ∧
    to_int conv (fdiv (vx (position b)) (cellSize s)) + nc = col_of conv s o ∧
    to_int conv (fdiv (vy (position b)) (cellSize s)) + nr = row_of conv s o.
Proof.
  intros (_ & Hc & Hr & Hsize) Hb Ho Hin.
  assert (Hnear : Z.abs (fval (vx (position b)) - fval (vx (position o))) < 135 * fone ∧
                  Z.abs (fval (vy (position b)) - fval (vy (position o))) < 135 * fone).
  { pose proof (distance_far _ _ Hb Ho) as Hfar.
    destruct (Z.lt_ge_cases (Z.abs (fval (vx (position b)) - fval (vx (position o)))) (135 * fone)),
      (Z.lt_ge_cases (Z.abs (fval (vy (position b)) - fval (vy (position o)))) (135 * fone));
      try done; exfalso; destruct (Hfar ltac:(tauto)) as [Hf1 Hf2]; by rewrite Hf1, Hf2 in Hin. }
  destruct Hb as (Hb1 & Hb2 & Hb3 & Hb4 & Hbx & Hby), Ho as (Ho1 & Ho2 & Ho3 & Ho4 & Hox & Hoy).
  unfold col_of, row_of. rewrite Hsize, Hc, Hr.
  destruct (cells_adjacent conv 12 (vx (position b)) (vx (position o))) as (nc & Hnc & Ec);
    [lia|done..|apply Hnear|].
  destruct (cells_adjacent conv 8 (vy (position b)) (vy (position o))) as (nr & Hnr & Er);
    [lia|done..|apply Hnear|].
  exists nc, nr. split; [|done].
  destruct Hnc as [->|[->| ->]], Hnr as [->|[->| ->]]; unfold offsets; set_solver.
Qed.

Lemma offsets_range o : o ∈ offsets → -1 ≤ o.1 ≤ 1 ∧ -1 ≤ o.2 ≤ 1.
Proof.
  assert (Forall (λ o : Z * Z, -1 ≤ o.1 ≤ 1 ∧ -1 ≤ o.2 ≤ 1) offsets) as Hall
    by (repeat constructor; simpl; lia).
  rewrite Forall_forall in Hall. apply Hall.
Qed.

Lemma NoDup_offsets : NoDup offsets.
Proof. by apply (bool_decide_unpack _). Qed.

Lemma offsets_inj bCol bRow o o' :
  -10 ≤ bCol ≤ 1000 → -10 ≤ bRow ≤ 1000 → o ∈ offsets → o' ∈ offsets →
  int64 (bCol + o.1) = int64 (bCol + o'.1) → int64 (bRow + o.2) = int64 (bRow + o'.2) → o = o'.
Proof.
  intros Hc Hr Ho Ho'.
  pose proof (offsets_range o Ho). pose proof (offsets_range o' Ho').
  rewrite !int64_id by (unfold min_int64, max_int64; lia). destruct o, o'; simpl in *. intros. f_equal; lia.
Qed.

Lemma rebuild_shape conv g g1 : game_ok g → rebuild conv g = Ret g1 → same_shape (sg g) (sg g1).
Proof.
  intros Hok E. unfold rebuild in E.
  assert (same_shape (sg g) (Clean (sg g))) as Hsh by (split_and!; try done; apply length_fmap).
  destruct (insert_all_ok conv (boids g) (Clean (sg g))) as (s & Hins & Hsh' & _);
    [by eapply grid_ok_shape, go_grid|]. rewrite Hins in E. injection E as <-.
  destruct Hsh as (? & ? & ? & ?), Hsh' as (? & ? & ? & ?). split_and!; cbn [sg]; congruence.
Qed.

Lemma near_screen_cell conv p :
  near_screen p →
  -10 ≤ to_int conv (fdiv (vx p) cohRadius) ≤ 1000 ∧ -10 ≤ to_int conv (fdiv (vy p) cohRadius) ≤ 1000.
Proof.
  intros (Hp1 & Hp2 & Hp3 & Hp4 & Hpx & Hpy). pose proof fone_big as Hu.
  rewrite !cell_floor by (done || lia).
  assert (∀ z, z < 135 * 13 * fone → z / (135 * fone) ≤ 20) as Hle
    by (intros z Hz; apply Z.lt_succ_r, Z.div_lt_upper_bound; lia).
  pose proof (Hle (fval (vx p)) ltac:(lia)). pose proof (Hle (fval (vy p)) ltac:(lia)). lia.
Qed.

(** The ids found in the nine cells, and those of them in range. *)
Lemma nine_cells conv s (bs : list Boid) (b : Boid) :
  grid_ok s → game_grid s → id <$> bs = seq 0 (length bs) →
  (∀ k, (k < length (cells s))%nat →
     cells s !! k = Some (id <$> filter (λ b, cell_of conv s b = k) bs)) →
  near_screen (position b) → Forall (λ o, near_screen (position o)) bs →
  let bCol := to_int conv (fdiv (vx (position b)) (cellSize s)) in
  let bRow := to_int conv (fdiv (vy (position b)) (cellSize s)) in
  let N := offsets ≫= λ o, cell_at s (int64 (bCol + o.1)) (int64 (bRow + o.2)) in
  Forall (λ j, (j < length bs)%nat) N ∧
  filter (λ j, in_range bs b j = true) N ≡ₚ filter (λ j, in_range bs b j = true) (seq 0 (length bs)).
Proof.
  intros Hs Hgg Hids Hcells Hnb Hscreen bCol bRow M. rewrite Forall_lookup in Hscreen.
  destruct (near_screen_cell conv (position b) Hnb) as [HbC HbR].
  pose proof Hgg as (_ & _ & _ & Hsize). rewrite <-Hsize in HbC, HbR. fold bCol bRow in HbC, HbR.
  assert (Hint : ∀ z d, -10 ≤ z ≤ 1000 → d = -1 ∨ d = 0 ∨ d = 1 → int64 (z + d) = z + d)
    by (intros; apply int64_id; unfold min_int64, max_int64; lia).
  assert (Hin : ∀ j, j ∈ M → (j < length bs)%nat).
  { intros j Hj. apply list_elem_of_bind in Hj as (d & Hj & _).
    apply (elem_of_cell_at conv s bs Hs Hids Hcells) in Hj as (o & Ho & _). by eapply lookup_lt_Some. }
  split; [by apply Forall_forall|]. apply NoDup_Permutation.
  - apply NoDup_filter, (NoDup_cells conv s bs Hs Hids Hcells); [apply NoDup_offsets|].
    intros d d' Hd Hd'. by apply offsets_inj.
  - apply NoDup_filter, NoDup_seq.
  - intros j. rewrite !list_elem_of_filter, elem_of_seq. split; intros [Hj Hjr]; (split; [done|]).
    + specialize (Hin j Hjr). lia.
    + unfold in_range in Hj. destruct (bs !! j) as [o|] eqn:Ho; [|done].
      destruct (neighbour_offset conv s b o Hgg Hnb (Hscreen j o Ho) Hj) as (nc & nr & Hd & Ec & Er).
      pose proof (offsets_range _ Hd) as Hoff. apply list_elem_of_bind. exists (nc, nr). split; [|done].
      apply (elem_of_cell_at conv s bs Hs Hids Hcells). exists o. cbn [fst snd] in *.
      fold bCol in Ec. fold bRow in Er. rewrite !Hint by lia. by rewrite Ec, Er.
Qed.

(** C15. Looking at nine cells of the grid is enough: on the screen, and up to a
    cell beyond it, a boid's acceleration from [GetNeighbours] is its
    acceleration from all boids within its range (each once, in some order). *)
Theorem neighbours_are_complete (conv : float64 → Z) (g g1 : Game) (i : nat) (b : Boid)
    (Hok : game_ok g) (Hgrid : game_grid (sg g)) (Hg1 : rebuild conv g = Ret g1)
    (Hb : boids g !! i = Some b) (Hscreen : Forall (λ o, near_screen (position o)) (boids g)) :
  ∃ near, near ≡ₚ filter (λ j, in_range (boids g) b j = true) (seq 0 boidsCount) ∧
    run_job conv g1 i = calcAcceleration (boids g) b near.
Proof.
  destruct (rebuild_cells conv g (go_grid g Hok)) as (g' & E & Hs & Hbs & Hcells).
  assert (g' = g1) as -> by congruence.
  destruct (rebuild_shape conv g g1 Hok Hg1) as (R1 & R2 & R3 & _).
  assert (game_grid (sg g1)) as Hgg by (destruct Hgrid as (_ & Hc & Hr & Hsz); split_and!; [done|congruence..]).
  pose proof (length_boids g Hok) as Hlen.
  destruct (nine_cells conv (sg g1) (boids g) b Hs Hgg) as [Hin Hperm];
    [rewrite Hlen; apply Hok|done|rewrite Forall_lookup in Hscreen; by eapply Hscreen|done|].
  unfold run_job, GetNeighbours. rewrite Hbs, Hb, (collect_cells_eq (sg g1) Hs). simpl.
  eexists. rewrite <-Hlen. split; [exact Hperm|].
  unfold calcAcceleration. by rewrite accumulate_in_range.
Qed.

(** ** Boids that become NaN *)

Definition nan_vec (v : Vector2D) : Prop := vx v = S754_nan ∧ vy v = S754_nan.

Lemma nan_ops x :
  fadd S754_nan x = S754_nan ∧ fadd x S754_nan = S754_nan ∧ fmul S754_nan x = S754_nan ∧
  fdiv S754_nan x = S754_nan ∧ fdiv x S754_nan = S754_nan ∧ fltb S754_nan x = false ∧
  fltb x S754_nan = false ∧ fleb x S754_nan = false ∧ feqb S754_nan x = false.
Proof. by destruct x as [[]|[]| |[] ? ?]. Qed.

(** Dividing by zero and normalising leaves no number. *)
Lemma Normalize_Div_zero v : nan_vec (Normalize (Div v f0)).
Proof.
  assert (H : ∀ x, fdiv x f0 = S754_nan ∨ ∃ s, fdiv x f0 = S754_infinity s).
  { intros [s|s| |s m e]; simpl; [by left|right; eauto|by left|right; eauto]. }
  unfold Normalize, Div, Len. cbn [vx vy].
  destruct (H (vx v)) as [->|[sx ->]], (H (vy v)) as [->|[sy ->]]; try done;
    destruct sx; try done; destruct sy; done.
Qed.

Lemma Mul_nan v d : nan_vec v → nan_vec (Mul v d).
Proof. intros [H1 H2]. unfold Mul. rewrite H1, H2. split; apply (nan_ops d). Qed.
Lemma Div_nan v d : nan_vec v → nan_vec (Div v d).
Proof. intros [H1 H2]. unfold Div. rewrite H1, H2. split; apply (nan_ops d). Qed.
Lemma Add_nan_l v w : nan_vec v → nan_vec (Add v w).
Proof.
  intros [H1 H2]. unfold Add. rewrite H1, H2. split; [apply (nan_ops (vx w))|apply (nan_ops (vy w))].
Qed.
Lemma Add_nan_r v w : nan_vec w → nan_vec (Add v w).
Proof.
  intros [H1 H2]. unfold Add. rewrite H1, H2. split; [apply (nan_ops (vx v))|apply (nan_ops (vy v))].
Qed.

(** A distance equal to [sepRadius] makes the push a division by zero. *)
Lemma feqb_sepRadius d : feqb d sepRadius = true → d = sepRadius.
Proof.
  assert (sepRadius = S754_finite false 6192449487634432 (-48)) as -> by (vm_compute; reflexivity).
  unfold feqb, SFeqb. destruct d as [|[]| |[] m e]; try done. cbn [SFcompare].
  destruct (Z.compare_spec e (-48)) as [->| |]; try done.
  destruct (Pos.compare_cont Eq m 6192449487634432) eqn:Em; try done.
  intros _. apply Pos.compare_eq in Em. by subst.
Qed.

(** The counters of neighbours: numbers that are not negative. *)
Definition count_ok (c : float64) : Prop :=
  fvalid c = true ∧ (c = S754_infinity false ∨ is_finite c = true ∧ 0 ≤ fval c).

Lemma count_incr c : count_ok c → count_ok (fadd c f1) ∧ fltb f0 (fadd c f1) = true.
Proof.
  intros [Hv [->|[Hf H0]]]; [split; [|done]; split; [done|by left]|].
  destruct (float_of_Z_exact 1 ltac:(lia)) as (H1 & H2 & H3). pose proof fone_big as Hu.
  pose proof (nearest_add c f1 Hv Hf H1 H2) as Hn.
  destruct (nearest_at_least _ _ _ f1 Hn H1 H2) as [Hr Hor];
    [change (fval f1) with (fval (float_of_Z 1)); lia|].
  change (fval f1) with (fval (float_of_Z 1)) in Hor. rewrite H3 in Hor.
  destruct Hor as [->|[Hrf Hrv]]; [split; [|done]; split; [done|by left]|].
  split; [split; [done|right; split; [done|lia]]|].
  rewrite fltb_fval by done. apply Z.ltb_lt. change (fval f0) with 0. lia.
Qed.

(** After the neighbour at that distance the sum of pushes is NaN for good. *)
Definition poisoned (s : Sums) : Prop :=
  nan_vec (separation s) ∧ fltb f0 (countSep s) = true ∧ count_ok (countSep s).

Lemma add_neighbour_count b o s : count_ok (countSep s) → count_ok (countSep (add_neighbour b o s)).
Proof. intros Hc. unfold add_neighbour. repeat case_go; simpl; [by apply count_incr|done..]. Qed.

Lemma add_neighbour_poisons b o s :
  count_ok (countSep s) → feqb (Distance (position b) (position o)) sepRadius = true →
  poisoned (add_neighbour b o s).
Proof.
  intros Hc Hd%feqb_sepRadius. unfold add_neighbour. rewrite Hd.
  assert (fleb sepRadius sepRadius = true) as -> by (vm_compute; reflexivity).
  assert (fdiv (fsub sepRadius sepRadius) sepRadius = f0) as -> by (vm_compute; reflexivity).
  split; cbn [separation countSep]; [|by apply and_comm, count_incr].
  apply Add_nan_r, Mul_nan, Normalize_Div_zero.
Qed.

Lemma add_neighbour_poisoned b o s : poisoned s → poisoned (add_neighbour b o s).
Proof.
  intros (Hn & Hl & Hc). unfold add_neighbour. repeat case_go; [|done..].
  split; cbn [separation countSep]; [by apply Add_nan_l|by apply and_comm, count_incr].
Qed.

Lemma accumulate_poisoned bs b neib : ∀ s s',
  poisoned s → accumulate bs b neib s = Ret s' → poisoned s'.
Proof.
  induction neib as [|i neib IH]; intros s s' Hp Hacc; simpl in Hacc; [by simplify_eq|].
  destruct (bs !! i) as [o|]; [|done]. eapply IH; [|exact Hacc]. by apply add_neighbour_poisoned.
Qed.

Lemma accumulate_poisons bs b j o neib : bs !! j = Some o → j ∈ neib →
  feqb (Distance (position b) (position o)) sepRadius = true → ∀ s s',
  count_ok (countSep s) → accumulate bs b neib s = Ret s' → poisoned s'.
Proof.
  intros Ho Hj Hd. induction neib as [|i neib IH]; intros s s' Hc Hacc; [by apply not_elem_of_nil in Hj|].
  simpl in Hacc. destruct (bs !! i) as [o'|] eqn:Ei; [|done].
  apply elem_of_cons in Hj as [<-|Hj].
  - assert (o' = o) as -> by congruence.
    eapply accumulate_poisoned; [|exact Hacc]. by apply add_neighbour_poisons.
  - eapply IH; [done| |exact Hacc]. by apply add_neighbour_count.
Qed.

Definition lost (b : Boid) : Prop := nan_vec (position b) ∧ nan_vec (velocity b).

Lemma LimitSpeed_nan v : nan_vec v → nan_vec (LimitSpeed v).
Proof.
  intros [H1 H2]. unfold LimitSpeed, Len. rewrite H1, H2. by split.
Qed.

Lemma Boid_Update_nan b acc :
  nan_vec (Add (velocity b) acc) → lost (Boid_Update b acc).
Proof.
  intros Hv. unfold Boid_Update, invertOnWall. cbn [position velocity id].
  pose proof (LimitSpeed_nan _ Hv) as Hl. set (v := LimitSpeed _) in *.
  pose proof (Add_nan_r (position b) v Hl) as Hp. destruct (Add_nan_l _ v Hp) as [Hx Hy].
  rewrite Hx, Hy. split; cbn [position velocity].
  - done.
  - assert (∀ x, fleb x S754_nan || fltb S754_nan f0 = false) as Hcmp
      by (intros x; destruct (nan_ops x) as (_ & _ & _ & _ & _ & _ & _ & -> & _); done).
    by rewrite !Hcmp.
Qed.

(** Two boids exactly [sepRadius] apart: the push between them divides by
    zero, and the boid that computes it has a position and a velocity that are
    not numbers from its next update on, whatever happens later. *)
Theorem exact_separation_loses_boid (bs : list Boid) (b o : Boid) (j : nat) (neib : list nat)
    (acc : Vector2D) (later : list Vector2D)
    (Ho : bs !! j = Some o) (Hj : j ∈ neib)
    (Hdist : feqb (Distance (position b) (position o)) sepRadius = true)
    (Hacc : calcAcceleration bs b neib = Ret acc) :
  lost (foldl Boid_Update (Boid_Update b acc) later).
Proof.
  assert (lost (Boid_Update b acc)) as Hlost.
  { apply Boid_Update_nan, Add_nan_r. unfold calcAcceleration in Hacc.
    destruct (accumulate _ _ _ _) as [s| |] eqn:Es; [|done..]. simpl in Hacc. injection Hacc as <-.
    assert (poisoned s) as (Hn & Hl & _).
    { eapply (accumulate_poisons bs b j o neib); [done..| |exact Es].
      split; [done|right]. split; [done|]. cbn. lia. }
    unfold finish_acceleration. rewrite Hl. by apply Add_nan_l, Add_nan_r, Div_nan. }
  clear -Hlost. revert Hlost. generalize (Boid_Update b acc). induction later as [|a later IH]; intros b' Hb'; [done|].
  simpl. apply IH. apply Boid_Update_nan, Add_nan_l, Hb'.
Qed.

(** *** Witnesses *)

Definition sample_game : Game :=
  mkGame (NewSpiralGrid cohRadius) ((λ i, mkBoid vzero vzero i) <$> seq 0 boidsCount)
         (replicate boidsCount None).

Lemma sample_game_ok : game_ok sample_game.
Proof.
  split; [apply NewSpiralGrid_ok| |apply length_replicate].
  cbn [boids sample_game]. rewrite <- list_fmap_compose. apply list_fmap_id.
Qed.

Definition conv_amd64 (_ : float64) : Z := min_int64.

Lemma rebuild_grid_correct_witness :
  let g := mkGame (NewSpiralGrid cohRadius)
             [mkBoid (mkVec S754_nan (S754_infinity true)) vzero 0; mkBoid vzero vzero 1] [] in
  ∃ g', rebuild conv_amd64 g = Ret g' ∧ grid_ok (sg g') ∧ boids g' = boids g ∧
    (∀ k, (k < length (cells (sg g')))%nat →
       cells (sg g') !! k = Some (id <$> filter (λ b, cell_of conv_amd64 (sg g') b = k) (boids g))) ∧
    mjoin (cells (sg g')) ≡ₚ id <$> boids g.
Proof. intros g. apply (rebuild_grid_correct conv_amd64 g NewSpiralGrid_ok). Defined.

Lemma frame_is_sequential_witness :
  ∃ g1 g', rebuild conv_amd64 sample_game = Ret g1 ∧ Update_seq conv_amd64 sample_game = Ret g' ∧
    game_ok g' ∧ (∀ g'', Game_Update conv_amd64 8 sample_game g'' ↔ g'' = g') ∧
    (∀ j, rtc (job_step conv_amd64 g1) (start_jobs 8 g1) j →
       jobs_done j ∨ ∃ j', job_step conv_amd64 g1 j j') ∧
    (∀ m j, nsteps (job_step conv_amd64 g1) m (start_jobs 8 g1) j → (m ≤ 3 * boidsCount)%nat).
Proof. exact (frame_is_sequential conv_amd64 8 sample_game sample_game_ok ltac:(lia)). Defined.

Lemma few_processors_hang_witness : ¬ Game_Update conv_amd64 2 sample_game sample_game.
Proof. exact (few_processors_hang conv_amd64 2 sample_game sample_game ltac:(lia)). Defined.

Lemma vzero_near_screen : near_screen vzero.
Proof. pose proof fone_big. unfold near_screen. cbn [vzero vx vy f0 fval]. split_and!; done || lia. Qed.

Lemma neighbours_are_complete_witness :
  ∃ g1 near, rebuild conv_amd64 sample_game = Ret g1 ∧
    near ≡ₚ filter (λ j, in_range (boids sample_game) (mkBoid vzero vzero 3) j = true) (seq 0 boidsCount) ∧
    run_job conv_amd64 g1 3 = calcAcceleration (boids sample_game) (mkBoid vzero vzero 3) near.
Proof.
  destruct (rebuild_ok conv_amd64 sample_game sample_game_ok) as (g1 & E & _).
  destruct (neighbours_are_complete conv_amd64 sample_game g1 3 (mkBoid vzero vzero 3) sample_game_ok)
    as (near & H1 & H2).
  - split_and!; [apply NewSpiralGrid_ok|vm_compute; reflexivity..].
  - exact E.
  - cbn [boids sample_game]. rewrite list_lookup_fmap, lookup_seq_lt; [done|].
    apply Nat.ltb_lt. vm_compute. reflexivity.
  - cbn [boids sample_game]. apply Forall_fmap, Forall_true. intros i. apply vzero_near_screen.
  - exists g1, near. split; [exact E|]. split; [exact H1|exact H2].
Defined.

Definition boid_a : Boid := mkBoid vzero vzero 0.
Definition boid_b : Boid := mkBoid (mkVec (float_of_Z 22) f0) vzero 1.

Definition acc_a : Vector2D :=
  match calcAcceleration [boid_a; boid_b] boid_a [0; 1]%nat with Ret v => v | _ => vzero end.

Lemma acc_a_eq : calcAcceleration [boid_a; boid_b] boid_a [0; 1]%nat = Ret acc_a.
Proof. vm_compute. reflexivity. Qed.

Lemma exact_separation_loses_boid_witness :
  calcAcceleration [boid_a; boid_b] boid_a [0; 1]%nat = Ret acc_a ∧
  lost (Boid_Update (Boid_Update boid_a acc_a) vzero).
Proof.
  split; [exact acc_a_eq|].
  apply (exact_separation_loses_boid [boid_a; boid_b] boid_a boid_b 1 [0; 1]%nat acc_a [vzero]).
  - reflexivity.
  - by right; left.
  - vm_compute. reflexivity.
  - exact acc_a_eq.
Defined.
