(* ===== verification/BoidsView.v ===== *)
(** * What the boids are drawn with (boids/game.go, boids/fish.go)

    The images of the fish that [init] loads, and the animated background: the
    frames of a GIF, each shown for its delay at sixty updates a second
    ([UpdateBG], which [Update] has commented out).  Decoding and drawing of
    images are arguments; of an image only the size matters here. *)

From S2P Require Import Prelude GoSem GoStrings GoFloat Boids.

(** ** Fish *)

Definition fishTargetSize : float64 := float_of_Z 45.
Definition bgPath : string := "./assets/bg.gif".

Record FishImage := mkFish { w : float64; h : float64; scaleX : float64; scaleY : float64 }.

Definition NewFishImage (size : Z * Z) : FishImage :=
  let w := float_of_Z size.1 in
  let h := float_of_Z size.2 in
  mkFish w h (fdiv fishTargetSize w) (fdiv fishTargetSize h).

Definition is_fish (name : string) : bool := HasSuffix name ".png" && Contains name "fish".

(** [readDir] and [open] are the answers of the file system: the names in a
    directory, and the size of the image in a file. *)
Fixpoint load_fish (open : string → result (Z * Z)) (names : list string) (fishImages : list FishImage) :
    outcome (list FishImage) :=
  match names with
  | [] => Ret fishImages
  | name :: names =>
      if is_fish name then
        match open ("./assets/" +:+ name) with
        | Err _ => Panic "image"
        | Ok size => load_fish open names (fishImages ++ [NewFishImage size])
        end
      else load_fish open names fishImages
  end.

Definition init (readDir : result (list string)) (open : string → result (Z * Z)) : outcome (list FishImage) :=
  match readDir with
  | Err _ => Panic "./assets"
  | Ok names => load_fish open names []
  end.

(** [NewGame] draws an image for each boid; [Intn] is [rand.Intn]. *)
Definition pick_fish (Intn : Z → Z) (fishImages : list FishImage) : outcome FishImage :=
  let n := Z.of_nat (length fishImages) in
  if n <=? 0 then Panic "invalid argument to Intn"
  else match fishImages !! Z.to_nat (Intn n) with
       | Some f => Ret f
       | None => Panic "index out of range"
       end.

Lemma load_fish_eq open names acc :
  (∀ name, name ∈ names → is_fish name = true → is_ok (open ("./assets/" +:+ name)%string) = true) →
  load_fish open names acc = Ret (acc ++ omap (λ name,
    match open ("./assets/" +:+ name)%string with Ok size => Some (NewFishImage size) | Err _ => None end)
    (filter (λ name, is_fish name = true) names)).
Proof.
  revert acc. induction names as [|name names IH]; intros acc Hopen; simpl; [by rewrite app_nil_r|].
  rewrite filter_cons. destruct (is_fish name) eqn:Hf; simpl.
  - specialize (Hopen name ltac:(left) Hf) as Hn.
    destruct (open ("./assets/" +:+ name)%string) as [size|] eqn:Ho; [|done].
    rewrite IH by (intros n Hin; apply Hopen; by right).
    by rewrite <-app_assoc.
  - apply IH. intros n Hin. apply Hopen. by right.
Qed.

(** ** The background *)

Section Background.
(** [over rgba frame]: the canvas with a frame drawn over it. *)
Context {Image : Type} (over : Image → Image → Image) (blank : Image).

(** The frames of an animation are drawn over one another; each is shown as the
    canvas is then.  A GIF without frames or with too few delays panics. *)
Fixpoint load_frames (rgba : Image) (i : nat) (images : list Image) (delays : list Z) :
    outcome (list Image * list Z) :=
  match images with
  | [] => Ret ([], [])
  | frame :: images =>
      match delays !! i with
      | None => Panic "index out of range"
      | Some d =>
          let rgba := over rgba frame in
          '(frames, ds) ← load_frames rgba (S i) images delays;
          Ret (rgba :: frames, d :: ds)
      end
  end.

(** The slice of delays is as long as the GIF's; those without a frame are 0. *)
Definition loadGIF (decoded : result (list Image * list Z)) : outcome (list Image * list Z) :=
  match decoded with
  | Err _ => Panic "log.Fatal"
  | Ok (images, delays) =>
      if decide (images = []) then Panic "index out of range"
      else
        '(frames, ds) ← load_frames blank 0 images delays;
        Ret (frames, ds ++ replicate (length delays - length ds) 0)
  end.

Record Background := mkBG { bgFrames : list Image; bgDelays : list Z; bgFrame : Z; bgTick : Z }.

(** How many updates a frame is shown: [delay * 60 / 100], at least one. *)
Definition threshold (delay : Z) : Z :=
  let t := Z.quot (int64 (delay * 60)) 100 in
  if t <? 1 then 1 else t.

Definition index {A} (i : Z) (l : list A) : option A := if i <? 0 then None else l !! Z.to_nat i.

Definition UpdateBG (g : Background) : outcome Background :=
  let tick := int64 (bgTick g + 1) in
  match index (bgFrame g) (bgDelays g) with
  | None => Panic "index out of range"
  | Some delay =>
      if threshold delay <=? tick then
        let lbg := Z.of_nat (length (bgFrames g)) in
        if lbg =? 0 then Panic "integer divide by zero"
        else Ret (mkBG (bgFrames g) (bgDelays g) (Z.rem (int64 (bgFrame g + 1)) lbg) 0)
      else Ret (mkBG (bgFrames g) (bgDelays g) (bgFrame g) tick)
  end.

(** The factors by which a frame of the given size fills the screen. *)
Definition DrawBG (size : Z * Z) : float64 * float64 :=
  (fdiv screenWidth (float_of_Z size.1), fdiv screenHeight (float_of_Z size.2)).

Fixpoint updates (k : nat) (g : Background) : outcome Background :=
  match k with O => Ret g | S k => g ← UpdateBG g; updates k g end.

(** The reference: the number of the frame at each update of one round. *)
Definition shown (delays : list Z) : list nat :=
  mjoin (imap (λ i d, replicate (Z.to_nat (threshold d)) i) delays).

(** Frame delays of a GIF: 16 bits, one for each frame. *)
Class GifAnimation (frames : list Image) (delays : list Z) : Prop := {
  gif_length : length frames = length delays;
  gif_some : frames ≠ [];
  gif_fits : Z.of_nat (length frames) < 2 ^ 63;
  gif_delays : Forall (λ d, 0 ≤ d < 2 ^ 16) delays }.

Lemma threshold_bounds d : 0 ≤ d < 2 ^ 16 → 1 ≤ threshold d < 2 ^ 17.
Proof.
  intros Hd. unfold threshold. rewrite int64_id by (unfold min_int64, max_int64; lia).
  rewrite Z.quot_div_nonneg by lia. pose proof (Z.div_lt_upper_bound (d * 60) 100 (2 ^ 17) ltac:(lia) ltac:(lia)).
  destruct (Z.ltb_spec (d * 60 / 100) 1); lia.
Qed.

(** The updates before frame [i]. *)
Definition before (delays : list Z) (i : nat) : nat :=
  sum_list ((λ d, Z.to_nat (threshold d)) <$> take i delays).

Lemma imap_shift j delays :
  imap ((λ (i : nat) (d : Z), replicate (Z.to_nat (threshold d)) (j + i)%nat) ∘ S) delays =
  imap (λ i d, replicate (Z.to_nat (threshold d)) (S j + i)%nat) delays.
Proof. apply imap_ext. intros k d' _. simpl. by rewrite Nat.add_succ_r. Qed.

Lemma shown_from_lookup delays j : ∀ i d t, delays !! i = Some d → (t < Z.to_nat (threshold d))%nat →
  mjoin (imap (λ i d, replicate (Z.to_nat (threshold d)) (j + i)%nat) delays) !! (before delays i + t)%nat =
    Some (j + i)%nat.
Proof.
  revert j. induction delays as [|d0 delays IH]; intros j i d t Hi Ht; [done|].
  destruct i as [|i]; simpl in Hi.
  - injection Hi as ->. simpl. rewrite lookup_app_l by (rewrite length_replicate; done).
    by apply lookup_replicate_2.
  - change (before (d0 :: delays) (S i)) with (Z.to_nat (threshold d0) + before delays i)%nat.
    cbn [imap mjoin list_join]. rewrite (imap_shift j), lookup_app_r by (rewrite length_replicate; lia).
    rewrite length_replicate.
    replace (Z.to_nat (threshold d0) + before delays i + t - Z.to_nat (threshold d0))%nat
      with (before delays i + t)%nat by lia.
    transitivity (Some (S j + i)%nat); [exact (IH (S j) i d t Hi Ht)|f_equal; lia].
Qed.

Lemma shown_lookup delays i d t : delays !! i = Some d → (t < Z.to_nat (threshold d))%nat →
  shown delays !! (before delays i + t)%nat = Some i.
Proof. apply (shown_from_lookup delays 0). Qed.

Lemma length_shown delays : length (shown delays) = before delays (length delays).
Proof.
  unfold shown, before. rewrite firstn_all.
  assert (∀ j, length (mjoin (imap (λ i d, replicate (Z.to_nat (threshold d)) (j + i)%nat) delays)) =
    sum_list ((λ d, Z.to_nat (threshold d)) <$> delays)) as Hl; [|apply (Hl 0%nat)].
  induction delays as [|d delays IH]; intros j; [done|]. cbn [imap mjoin list_join].
  rewrite (imap_shift j), length_app, length_replicate.
  exact (f_equal (Nat.add _) (IH (S j))).
Qed.

Lemma before_succ delays i d : delays !! i = Some d →
  before delays (S i) = (before delays i + Z.to_nat (threshold d))%nat.
Proof. intros Hi. unfold before. erewrite take_S_r by done. rewrite fmap_app, sum_list_with_app. simpl. lia. Qed.

Lemma updates_snoc (k : nat) (g : Background) :
  updates (S k) g = (g ← updates k g; UpdateBG g).
Proof.
  revert g. induction k as [|k IH]; intros g.
  - simpl. by destruct (UpdateBG g).
  - change (updates (S (S k)) g) with (g ← UpdateBG g; updates (S k) g).
    change (updates (S k) g) with (g ← UpdateBG g; updates k g).
    unfold mbind, outcome_bind in *. destruct (UpdateBG g); [apply IH|done..].
Qed.

Section Animation.
Context (frames : list Image) (delays : list Z) {HG : GifAnimation frames delays}.

(** The state after [p] updates of a round. *)
Definition at_position (p : nat) (g : Background) : Prop :=
  ∃ i d t, delays !! i = Some d ∧ (t < Z.to_nat (threshold d))%nat ∧ p = (before delays i + t)%nat ∧
    g = mkBG frames delays (Z.of_nat i) (Z.of_nat t).

Lemma UpdateBG_position p g : at_position p g →
  ∃ g', UpdateBG g = Ret g' ∧ at_position (S p mod length (shown delays))%nat g'.
Proof using HG.
  intros (i & d & t & Hi & Ht & -> & ->). destruct HG as [Hlen Hne Hfit Hd].
  assert (0 ≤ d < 2 ^ 16) as Hdr by (exact (Forall_lookup_1 _ _ _ _ Hd Hi)). pose proof (threshold_bounds d Hdr) as Hth.
  pose proof (lookup_lt_Some _ _ _ Hi) as Hil.
  assert (Hmono : ∀ a b, (a ≤ b)%nat → (before delays a ≤ before delays b)%nat).
  { intros a b Hab. unfold before. replace b with (a + (b - a))%nat by lia.
    rewrite <-take_take_drop, fmap_app, sum_list_with_app. simpl. lia. }
  pose proof (before_succ _ _ _ Hi) as Hs. pose proof (Hmono (S i) (length delays) ltac:(lia)) as Hle.
  unfold UpdateBG. simpl. unfold index. rewrite (proj2 (Z.ltb_ge (Z.of_nat i) 0)) by lia.
  rewrite Nat2Z.id, Hi, !int64_id by (unfold min_int64, max_int64; lia).
  destruct (Z.leb_spec (threshold d) (Z.of_nat t + 1)) as [Hle'|Hlt].
  - destruct (Z.eqb_spec (Z.of_nat (length frames)) 0) as [Hz|_]; [destruct frames; done|].
    eexists. split; [reflexivity|]. assert (S t = Z.to_nat (threshold d)) as HSt by lia.
    destruct (decide (S i = length delays)) as [Hend|Hmore].
    + destruct (lookup_lt_is_Some_2 delays 0 ltac:(lia)) as [d0 Hd0].
      assert (0 ≤ d0 < 2 ^ 16) as Hd0r by (exact (Forall_lookup_1 _ _ _ _ Hd Hd0)).
      pose proof (threshold_bounds d0 Hd0r). exists 0%nat, d0, 0%nat.
      split; [done|]. split; [lia|]. split.
      * rewrite length_shown, <-Hend, Hs. rewrite <-Nat.add_succ_r, HSt, Nat.Div0.mod_same. done.
      * f_equal. rewrite Hlen, <-Hend. replace (Z.of_nat i + 1) with (Z.of_nat (S i)) by lia.
        apply Z.rem_same. lia.
    + destruct (lookup_lt_is_Some_2 delays (S i) ltac:(lia)) as [d1 Hd1].
      assert (0 ≤ d1 < 2 ^ 16) as Hd1r by (exact (Forall_lookup_1 _ _ _ _ Hd Hd1)).
      pose proof (threshold_bounds d1 Hd1r). exists (S i), d1, 0%nat.
      split; [done|]. split; [lia|].
      pose proof (before_succ _ _ _ Hd1) as Hs1. pose proof (Hmono (S (S i)) (length delays) ltac:(lia)).
      split.
      * rewrite length_shown, Nat.mod_small by lia. lia.
      * f_equal. rewrite Z.rem_small by lia. lia.
  - eexists. split; [reflexivity|]. exists i, d, (S t). split; [done|]. split; [lia|]. split.
    + rewrite length_shown, Nat.mod_small by lia. lia.
    + f_equal. lia.
Qed.

(** The animation follows its delays: started at its first frame, after any
    number of updates it shows the frame that the concatenation of the frames,
    each repeated as often as its delay says, has there, round after round, and
    no update fails. *)
Theorem animation_follows_delays (k : nat) :
  ∃ g, updates k (mkBG frames delays 0 0) = Ret g ∧ bgFrames g = frames ∧
    shown delays !! (k mod length (shown delays))%nat = Some (Z.to_nat (bgFrame g)).
Proof using HG.
  assert (∃ g, updates k (mkBG frames delays 0 0) = Ret g ∧ at_position (k mod length (shown delays))%nat g)
    as (g & Hrun & i & d & t & Hi & Ht & -> & ->).
  { induction k as [|k (g & Hrun & Hpos)].
    - eexists. split; [reflexivity|]. destruct HG as [Hlen Hne _ Hd].
      assert (0 < length delays)%nat as Hlt by (rewrite <-Hlen; destruct frames; [done|simpl; lia]).
      destruct (lookup_lt_is_Some_2 delays 0 Hlt) as [d Hd0]. exists 0%nat, d, 0%nat.
      assert (0 ≤ d < 2 ^ 16) as Hdr by (exact (Forall_lookup_1 _ _ _ _ Hd Hd0)).
      pose proof (threshold_bounds d Hdr).
      split; [done|]. split; [lia|]. split; [|done]. apply Nat.Div0.mod_0_l.
    - destruct (UpdateBG_position _ _ Hpos) as (g' & Hu & Hpos'). exists g'. split.
      + rewrite updates_snoc, Hrun. exact Hu.
      + replace (S k mod length (shown delays))%nat with (S (k mod length (shown delays)) mod length (shown delays))%nat; [done|].
        by rewrite <-!Nat.add_1_l, Nat.Div0.add_mod_idemp_r. }
  exists (mkBG frames delays (Z.of_nat i) (Z.of_nat t)). split; [done|]. split; [done|].
  simpl. rewrite Nat2Z.id. by eapply shown_lookup.
Qed.
End Animation.
End Background.

(** Three frames of 20, 10 and 0 hundredths of a second: 12, 6 and 1 updates. *)
#[local] Instance gif_demo : GifAnimation ["a"; "b"; "c"] [20; 10; 0].
Proof. split; [done|done|simpl; lia|repeat constructor; lia]. Defined.

Lemma animation_follows_delays_witness :
  ∃ g, updates 40 (mkBG ["a"; "b"; "c"] [20; 10; 0] 0 0) = Ret g ∧ bgFrames g = ["a"; "b"; "c"] ∧
    shown [20; 10; 0] !! (40 mod length (shown [20%Z; 10%Z; 0%Z]))%nat = Some (Z.to_nat (bgFrame g)).
Proof. apply (animation_follows_delays ["a"; "b"; "c"] [20; 10; 0] 40). Defined.

(** [loadGIF] makes such an animation of a file whose delays are as many as its
    frames, and [NewGame] draws one of the fish. *)
Lemma load_frames_ok {Image} (over : Image → Image → Image) images : ∀ rgba i delays,
  length delays = (i + length images)%nat →
  ∃ frames, load_frames over rgba i images delays = Ret (frames, drop i delays) ∧ length frames = length images.
Proof.
  induction images as [|frame images IH]; intros rgba i delays Hlen; simpl in *.
  - exists []. by rewrite drop_ge by lia.
  - destruct (lookup_lt_is_Some_2 delays i ltac:(lia)) as [d Hd]. rewrite Hd.
    destruct (IH (over rgba frame) (S i) delays ltac:(lia)) as (frames & -> & Hl).
    exists (over rgba frame :: frames). simpl. rewrite (drop_S _ _ _ Hd). by rewrite Hl.
Qed.

Lemma loadGIF_animation {Image} (over : Image → Image → Image) blank images delays :
  images ≠ [] → length images = length delays → Z.of_nat (length images) < 2 ^ 63 →
  Forall (λ d, 0 ≤ d < 2 ^ 16) delays →
  ∃ frames, loadGIF over blank (Ok (images, delays)) = Ret (frames, delays) ∧ GifAnimation frames delays.
Proof.
  intros Hne Hlen Hfit Hd. unfold loadGIF. rewrite decide_False by done.
  destruct (load_frames_ok over images blank 0 delays ltac:(simpl; lia)) as (frames & -> & Hl).
  exists frames. simpl. rewrite drop_0, Nat.sub_diag, app_nil_r. split; [done|].
  split; [lia|by destruct frames, images|lia|done].
Qed.

Lemma pick_fish_ok Intn fishImages : fishImages ≠ [] →
  (∀ n, 0 < n → 0 ≤ Intn n < n) → ∃ f, pick_fish Intn fishImages = Ret f ∧ f ∈ fishImages.
Proof.
  intros Hne Hrand. unfold pick_fish.
  assert (0 < Z.of_nat (length fishImages)) as Hpos by (destruct fishImages; [done|simpl; lia]).
  rewrite (proj2 (Z.leb_gt _ 0)) by lia. specialize (Hrand _ Hpos).
  destruct (lookup_lt_is_Some_2 fishImages (Z.to_nat (Intn (Z.of_nat (length fishImages)))) ltac:(lia)) as [f Hf].
  rewrite Hf. exists f. split; [done|]. by eapply list_elem_of_lookup_2.
Qed.

(** Without a fish in the directory the first boid panics. *)
Lemma no_fish_panics Intn : pick_fish Intn [] = Panic "invalid argument to Intn".
Proof. reflexivity. Qed.
