(* ===== verification/Metrics.v ===== *)
(** * Metrics

    - [Boids] (boids/metrics.go): the sampler of the runtime's memory
      statistics, which feeds Prometheus counters with differences;
    - [WithWorkers] (chat/with-workers/metrics.go): the middleware around the
      HTTP handlers.
    Prometheus is outside: a gauge is the value last set, a counter the list of
    the values added to it. *)

From S2P Require Import Prelude GoSem GoFloat.

Module Boids.

(** What [runtime.ReadMemStats] answers; the integers are unsigned. *)
Record MemStats := mkStats {
  ms_Alloc : Z; ms_TotalAlloc : Z; ms_Sys : Z; ms_HeapObjects : Z; ms_HeapInuse : Z; ms_HeapIdle : Z;
  ms_StackInuse : Z; ms_Mallocs : Z; ms_Frees : Z; ms_NumGC : Z; ms_GCCPUFraction : float64 }.

Record MemSnapshot := mkSnap {
  Alloc : Z; TotalAlloc : Z; Sys : Z; HeapObjects : Z; HeapInuse : Z; HeapIdle : Z;
  StackInuse : Z; Mallocs : Z; Frees : Z; NumGC : Z; GCCPUFraction : float64; Timestamp : Z }.

Record Gauges := mkGauges {
  memAlloc : float64; memSys : float64; memHeapObjects : float64; memHeapInuse : float64;
  memHeapIdle : float64; memStackInuse : float64; memGCCPUFraction : float64 }.

(** A counter with the reading it was last fed with. *)
Record Counter := mkCounter { prev : Z; added : list float64 }.

Record Metrics := mkMetrics {
  gauges : option Gauges; memTotalAlloc : Counter; memMallocs : Counter; memFrees : Counter;
  memNumGC : Counter }.
Definition start : Metrics :=
  let c := mkCounter 0 [] in mkMetrics None c c c c.

(** [if v > prev { c.Add(float64(v - prev)); prev = v }]; the test keeps the
    difference from wrapping. *)
Definition feed (v : Z) (c : Counter) : Counter :=
  if prev c <? v then mkCounter v (added c ++ [float_of_Z (v - prev c)]) else c.

Definition collectMemSnapshot (ms : MemStats) (now : Z) (st : Metrics) : MemSnapshot * Metrics :=
  let snap := mkSnap (ms_Alloc ms) (ms_TotalAlloc ms) (ms_Sys ms) (ms_HeapObjects ms) (ms_HeapInuse ms)
                (ms_HeapIdle ms) (ms_StackInuse ms) (ms_Mallocs ms) (ms_Frees ms) (ms_NumGC ms)
                (ms_GCCPUFraction ms) now in
  let g := mkGauges (float_of_Z (Alloc snap)) (float_of_Z (Sys snap)) (float_of_Z (HeapObjects snap))
             (float_of_Z (HeapInuse snap)) (float_of_Z (HeapIdle snap)) (float_of_Z (StackInuse snap))
             (GCCPUFraction snap) in
  (snap, mkMetrics (Some g) (feed (TotalAlloc snap) (memTotalAlloc st)) (feed (Mallocs snap) (memMallocs st))
           (feed (Frees snap) (memFrees st)) (feed (NumGC snap) (memNumGC st))).

(** [StartMetricsServer]: one sample per tick. *)
Definition samples (ticks : list (MemStats * Z)) (st : Metrics) : Metrics :=
  foldl (λ st '(ms, now), (collectMemSnapshot ms now st).2) st ticks.

(** ** What the counters count *)

(** The exact sum of what was added, in units of [fone]. *)
Definition total (c : Counter) : Z := foldr (λ x n, fval x + n) 0 (added c).

(** The readings so far are counted. *)
Definition counts (c : Counter) (top : Z) : Prop :=
  prev c = top ∧ 0 ≤ top ≤ 2 ^ 53 ∧ total c = top * fone ∧ Forall (λ x, is_finite x = true ∧ fvalid x = true) (added c).

Lemma total_snoc p p' l x : total (mkCounter p (l ++ [x])) = total (mkCounter p' l) + fval x.
Proof. unfold total. simpl. induction l as [|y l IH]; simpl; [lia|]. rewrite IH. lia. Qed.

Lemma feed_counts v c top : 0 ≤ v ≤ 2 ^ 53 → counts c top → counts (feed v c) (Z.max v top).
Proof.
  intros Hv (Hp & Htop & Ht & Hf). unfold feed. destruct (Z.ltb_spec (prev c) v) as [Hlt|Hge].
  - destruct (float_of_Z_exact (v - prev c)) as (Hval & Hfin & Hx); [lia|].
    split; [simpl; lia|]. split; [lia|]. split.
    + rewrite (total_snoc _ (prev c)). destruct c. simpl in *. rewrite Ht, Hx. lia.
    + simpl. by apply Forall_app_2; [|constructor].
  - rewrite Z.max_r by lia. by split.
Qed.

Definition reading (f : MemStats → Z) (ticks : list (MemStats * Z)) : Z :=
  foldl (λ top '(ms, _), Z.max (f ms) top) 0 ticks.

(** Every counter has counted up to the highest reading so far, exactly, as
    long as the readings are below 2^53 (nine petabytes allocated): what is lost
    when a reading falls below an earlier one is not counted twice. *)
Theorem counters_follow_the_runtime (ticks : list (MemStats * Z)) :
  Forall (λ '(ms, _), 0 ≤ ms_TotalAlloc ms ≤ 2 ^ 53 ∧ 0 ≤ ms_Mallocs ms ≤ 2 ^ 53 ∧
    0 ≤ ms_Frees ms ≤ 2 ^ 53 ∧ 0 ≤ ms_NumGC ms ≤ 2 ^ 53) ticks →
  let st := samples ticks start in
  counts (memTotalAlloc st) (reading ms_TotalAlloc ticks) ∧ counts (memMallocs st) (reading ms_Mallocs ticks) ∧
  counts (memFrees st) (reading ms_Frees ticks) ∧ counts (memNumGC st) (reading ms_NumGC ticks).
Proof.
  intros Hall. simpl. unfold samples, reading.
  assert (Hgen : ∀ l st a b c d, Forall (λ '(ms, _), 0 ≤ ms_TotalAlloc ms ≤ 2 ^ 53 ∧ 0 ≤ ms_Mallocs ms ≤ 2 ^ 53 ∧
      0 ≤ ms_Frees ms ≤ 2 ^ 53 ∧ 0 ≤ ms_NumGC ms ≤ 2 ^ 53) l →
    counts (memTotalAlloc st) a → counts (memMallocs st) b → counts (memFrees st) c → counts (memNumGC st) d →
    let st' := foldl (λ st '(ms, now), (collectMemSnapshot ms now st).2) st l in
    counts (memTotalAlloc st') (foldl (λ top '(ms, _), Z.max (ms_TotalAlloc ms) top) a l) ∧
    counts (memMallocs st') (foldl (λ top '(ms, _), Z.max (ms_Mallocs ms) top) b l) ∧
    counts (memFrees st') (foldl (λ top '(ms, _), Z.max (ms_Frees ms) top) c l) ∧
    counts (memNumGC st') (foldl (λ top '(ms, _), Z.max (ms_NumGC ms) top) d l)).
  { intros l. induction l as [|[ms now] l IH]; intros st a b c d Hl Ha Hb Hc Hd; simpl; [done|].
    apply Forall_cons in Hl as [(? & ? & ? & ?) Hl]. apply IH; [done|by apply feed_counts..]. }
  assert (counts (mkCounter 0 []) 0) as H0 by (split_and!; try done; constructor).
  by apply Hgen.
Qed.
End Boids.

Lemma counters_follow_the_runtime_witness :
  let st := Boids.samples [(Boids.mkStats 5 10 0 0 0 0 0 3 1 0 (float_of_Z 0), 1);
    (Boids.mkStats 4 12 0 0 0 0 0 7 2 1 (float_of_Z 0), 2)] Boids.start in
  Boids.counts (Boids.memTotalAlloc st) 12 ∧ Boids.counts (Boids.memMallocs st) 7 ∧
  Boids.counts (Boids.memFrees st) 2 ∧ Boids.counts (Boids.memNumGC st) 1.
Proof.
  apply (Boids.counters_follow_the_runtime [(Boids.mkStats 5 10 0 0 0 0 0 3 1 0 (float_of_Z 0), 1);
    (Boids.mkStats 4 12 0 0 0 0 0 7 2 1 (float_of_Z 0), 2)]).
  repeat constructor; discriminate.
Defined.

Module WithWorkers.

Record Request := mkRequest { Method : string; Path : string }.

(** The labels of a request counter. *)
Definition label : Type := string * string * string.

(** [httpRequests] as the labels of its increments, [httpDuration] as its
    observations, the gauge, and the requests whose handlers are running. *)
Record Metrics := mkMetrics {
  httpRequests : list label; httpDuration : list (string * string * Z); activeConnections : Z;
  running : list (Request * Z) }.
Definition start : Metrics := mkMetrics [] [] 0 [].

(** [prometheusMiddleware], cut where the handler runs: before it, after it has
    returned, and when it panics (the deferred call still runs).  The status
    that is counted does not depend on the handler's answer. *)
Definition enter (r : Request) (begin : Z) (m : Metrics) : Metrics :=
  mkMetrics (httpRequests m) (httpDuration m) (activeConnections m + 1) ((r, begin) :: running m).
Definition returned (r : Request) (begin now : Z) (rest : list (Request * Z)) (m : Metrics) : Metrics :=
  mkMetrics (httpRequests m ++ [(Method r, Path r, "200"%string)])
    (httpDuration m ++ [(Method r, Path r, now - begin)]) (activeConnections m - 1) rest.
Definition panicked (rest : list (Request * Z)) (m : Metrics) : Metrics :=
  mkMetrics (httpRequests m) (httpDuration m) (activeConnections m - 1) rest.

(** Requests run concurrently; [status] is what a handler answered. *)
Inductive step : Metrics → Metrics → Prop :=
| st_enter m r begin : step m (enter r begin m)
| st_return m r begin now (status : Z) l1 l2 :
    running m = l1 ++ (r, begin) :: l2 → step m (returned r begin now (l1 ++ l2) m)
| st_panic m r begin l1 l2 :
    running m = l1 ++ (r, begin) :: l2 → step m (panicked (l1 ++ l2) m).

(** The gauge counts the requests whose handler is running, every finished
    request is counted and observed once, and always with the status 200. *)
Theorem middleware_counts (m : Metrics) :
  rtc step start m →
  activeConnections m = Z.of_nat (length (running m)) ∧
  length (httpRequests m) = length (httpDuration m) ∧
  Forall (λ l, l.2 = "200"%string) (httpRequests m).
Proof.
  intros Hr. eapply (rtc_invariant step (λ m, activeConnections m = Z.of_nat (length (running m)) ∧
    length (httpRequests m) = length (httpDuration m) ∧ Forall (λ l, l.2 = "200"%string) (httpRequests m)));
    [|exact Hr|by split_and!].
  intros a b (Ha & Hl & Hf) Hs. destruct Hs as [m0 r t|m0 r t now st l1 l2 He|m0 r t l1 l2 He]; simpl;
    [|rewrite He in Ha..]; rewrite ?length_app in *; simpl in *.
  - split_and!; [lia|done|done].
  - split_and!; [lia|lia|]. by apply Forall_app_2; [|constructor].
  - split_and!; [lia|done|done].
Qed.
End WithWorkers.
